(* ===== verification/_CoqProject ===== *)
-Q . S2P
Prelude.v
GoBase.v
F64.v
GoString.v
Json.v
GoTime.v
Redis.v
RefRedis.v
Task.v
Db.v
Effects.v
Queue.v
Abstract.v
QueueSpec.v
QueueInv.v
QueueMoves.v
RefWorld.v
QueueThms.v
GoStd.v
JsonFuel.v
Config.v
Handlers.v
Store.v
StoreInv.v
Lifecycle.v
StoreThms.v
Scheduler.v
SchedulerSpec.v
Backoff.v
SchedulerThms.v
LossWindows.v
WorkerLoop.v
CoordLoop.v
Hub.v
Api.v
Router.v
ApiTypes.v
ApiThms.v
Boot.v
Safety.v
System.v
Conservation.v
Integrity.v
Deployment.v
Loadtest.v
LoadtestWire.v
