(* ===== verification/Prelude.v ===== *)
(** * Distributed task queue: a verification library

    The program (Go, under [src/]) is a distributed task queue. Tasks are
    submitted over HTTP, kept as rows in PostgreSQL and as envelopes in Redis;
    workers lease envelopes and execute them; a coordinator brings due retries
    back and reclaims what dead workers held; a hub fans task events out to
    browsers. The library models the Go code as executable definitions and
    proves what each part promises.

    ** The program's parts and the files that model them

    - [internal/queue/queue.go]: [Queue.v] has one definition per function, with
      its name; the Lua lease script is [leaseScript], the envelope's JSON codec
      [Marshal]/[Unmarshal], scores [priorityScore]. [Abstract.v] reads a key
      space as an abstract queue ([view], [abs]); [QueueSpec.v] shows that each
      operation refines one on the abstract queue; [QueueInv.v] has the data
      invariant and its preservation, [QueueMoves.v] the moves a specification
      queue may make; [QueueThms.v] the contract.
    - [internal/task/task.go], [handlers.go]: records and statuses in [Task.v],
      the registry and the four handlers in [Handlers.v].
    - [internal/store/store.go] and [internal/store/migrations/0001_init.sql]:
      tables in [Db.v]; each SQL text a statement and each method a program in
      [Store.v]; [StoreInv.v] the database invariant, [Lifecycle.v] the moves of a
      row, statement by statement, [StoreThms.v] the contract. [Boot.v] has [New]
      and [Migrate] with the schema script.
    - [internal/scheduler/scheduler.go]: [Scheduler.v] has the worker's
      [execute], [BackoffDelay] and the straight-line pieces of [Run], and the
      coordinator's [tick] ([coord_tick]); [WorkerLoop.v] puts the pieces of
      [Run] and [heartbeatLoop] together as goroutines with the semaphore, the
      wait group and the cancellation, [CoordLoop.v] the ticker loop of the
      coordinator's [Run]. [SchedulerSpec.v], [Backoff.v], [SchedulerThms.v] and
      [LossWindows.v] hold the theorems.
    - [internal/api/api.go]: every handler in [Api.v], the routing table and the
      CORS middleware in [Router.v]; theorems in [ApiThms.v], the types of the
      answers in [ApiTypes.v].
    - [internal/ws/hub.go]: [Hub.v].
    - [internal/config/config.go]: [Config.v].
    - [cmd/worker], [cmd/scheduler], [cmd/api]: each [main] as a step relation in
      [Deployment.v], from start-up ([boot] of [Boot.v]) to the exit status. Their
      effects are steps of the pool of [System.v]: any number of programs
      interleaved effect by effect. [Safety.v] shows that every program makes one
      allowed move, or none, at each of its effects; [Conservation.v] follows one
      task through the pool; [Integrity.v] relates what the pool keeps in Redis to
      the rows in PostgreSQL.
    - [cmd/loadtest]: submission, polling and report in [Loadtest.v]; its
      exchanges with the API in [LoadtestWire.v].

    Below them: [GoBase.v] (errors, results, 64-bit integers), [F64.v] (binary64
    arithmetic), [GoString.v] (bytes and runes), [Json.v] and [JsonFuel.v]
    (package encoding/json), [GoTime.v] (RFC 3339), [GoStd.v] (strconv,
    time durations, fmt verbs) model what the code uses of Go and its
    standard library.

    ** What is not in the repository

    Redis, PostgreSQL and the UUID package are classes: [Redis] with [RedisLaws]
    (the documented effect of each command on the logical key space), [Postgres]
    with [PostgresLaws] (what JSONB, TEXT and TIMESTAMPTZ store), [Uuid] with
    [UuidLaws]; [Chi] with [ChiLaws] is the router's matching of a method and a
    path, [Drivers] the two connection-string parsers; [Platform] is the processor's conversion of an out-of-range
    float and [Unicode] the printable runes. Theorems are proved for every
    instance; [RefRedis.v], [RefPostgres], [RefUuid], [RefChi], [RefDrivers] are concrete ones, and
    [RefWorld.v] a concrete environment, on which the witnesses run.

    ** Effects, time, failure

    A Go function that does I/O is a [prog] ([Effects.v]): a tree of atomic
    effects. One Redis command, script or MULTI block, one SQL statement or
    transaction is one effect. [run] executes a program in an environment that
    fixes the clock, the random draws, the order in which maps are ranged over
    and, call by call, whether it is served, fails before it reaches the server,
    or is served and the answer lost; [steps] stops it anywhere (a crash).
    [quiet o] says that no call fails; theorems without it hold under every
    fault. Times are integers of nanoseconds; [runtime_ok] keeps them in the range
    of 64-bit milliseconds, and iteration over maps and random draws within
    what Go guarantees.

    ** What the theorems show

    - Queue: a lease takes the most urgent ready task of the type and moves
      exactly it; leases drain a type in order of clamped priority, then of
      enqueue time (exact until the year 2286, the bound [ms_ok]); promotion
      moves exactly the due tasks, at most 256 at a time; a reclaim returns the
      whole table; envelopes survive the wire; heartbeats expire; scans list
      exactly the non-empty types.
    - Worker and coordinator: an execution ends its task in exactly one place
      (acknowledged, delayed or dead-lettered) by the handler's result and the
      attempts left; retries are bounded; the backoff is within its bounds; the
      sweeps keep every task accounted for and reach every type and worker.
      [Run] never executes more than its concurrency, returns only when all its
      tasks have ended, and can always be shut down; the coordinator's [Run] panics
      on a bad interval only and can always stop between two sweeps.
    - Store: the outcome of each state change on every branch, atomicity of the
      dead-letter transaction, which status moves are possible; the schema script
      can be run again on any database.
    - API: every answer has one of the statuses of its route and a body of the
      type that goes with it.
    - System: in every reachable state, under any interleaving, faults and
      crashes, keys have their types, sets hold well-formed envelopes under the
      right key and score, rows are well formed; task rows never disappear and
      the logs only grow. Every envelope in Redis has its row, with the same type,
      priority and attempt limit. The pool, and the deployment of the real binaries,
      refine a machine whose steps are the allowed moves of an abstract queue
      and of the task table. A waiting task stays
      accounted for (ready, delayed, or owed by a running process) until it is
      acknowledged or dead-lettered, under the conditions [calm_step] names;
      [LossWindows.v] shows what happens without them.
    - Hub: no send on a closed channel, no double close, bounded buffers, and
      what each client gets of the broadcasts.
    - Load test: each index is posted at most once, with a body the API reads as
      meant, the counters add up, submission and waiting end; the report gives
      the counts of the database.
    - Where the code falls short: [LossWindows.v] and the last theorem of
      [ApiThms.v] run it into a lost, stranded or wrongly executed task.

    ** Fuel and bounds

    Of the program's own loops only those of SCAN take fuel ([scan_keys], [ListTypes], [coord_tick],
    [getStats]): the number of pages depends on the server. Theorems about them
    state that some number of pages is enough and that any greater fuel gives
    the same result. The JSON scanner and [ParseDuration] recurse on a number of
    steps computed from the length of the text; [JsonFuel.v] and
    [duration_sum_fuel] show that more steps never change the answer. The printer
    of floats tries at most seventeen digits, which identify any double. The
    polling loop of the load test takes fuel: one round per second of [-wait] is
    enough ([drain_ends]). Counters and
    attempts wrap at 64 bits ([wrap64]), INTEGER columns reject what does not
    fit 32.

    ** Not modelled

    Pooling and [Close], log lines and other printing, the request-id, real-ip and
    recovery middlewares, HTTP headers, handler panics, the subscription of the
    hub to Redis (broadcasts reach [Hub.v] as events), the dashboard. Key expiry
    is read through the clock at each command ([live]), so an expired heartbeat is
    absent without a step of its own. The load test's clock and what the server
    answers it are parameters of its steps. *)

From Stdlib Require Export ZArith Lia.
From stdpp Require Export base tactics gmap strings list fin_maps sorting.

(** ** Scope and hint databases *)

Declare Scope taskq_scope.
Delimit Scope taskq_scope with taskq.

(** [taskq] collects the resolution lemmas of the components;
    [taskq_rw] their rewriting equations. *)
Create HintDb taskq.
Create Rewrite HintDb taskq_rw.

(** ** Tactics *)

(** Destruct every pair bound by a [let '(_, _) := _] of the goal. *)
Ltac split_lets :=
  repeat match goal with
         | |- context [let (_, _) := ?p in _] => destruct p eqn:?
         end.

(** Turn boolean comparisons of the context into propositions. *)
Ltac bool_to_prop :=
  repeat match goal with
         | H : (?a && ?b)%bool = true |- _ => destruct (andb_prop a b H); clear H
         | H : (?a || ?b)%bool = false |- _ => destruct (orb_false_elim a b H); clear H
         | H : negb _ = true |- _ => apply negb_true_iff in H
         | H : negb _ = false |- _ => apply negb_false_iff in H
         | H : (_ <? _)%Z = true |- _ => apply Z.ltb_lt in H
         | H : (_ <? _)%Z = false |- _ => apply Z.ltb_ge in H
         | H : (_ <=? _)%Z = true |- _ => apply Z.leb_le in H
         | H : (_ <=? _)%Z = false |- _ => apply Z.leb_gt in H
         | H : (_ =? _)%Z = true |- _ => apply Z.eqb_eq in H
         | H : (_ =? _)%Z = false |- _ => apply Z.eqb_neq in H
         end.

(** Case analysis on the condition of an [if] of the goal. *)
Ltac case_if :=
  match goal with
  | |- context [if ?b then _ else _] => destruct b eqn:?
  end.

(** ** Strings *)

#[local] Arguments String.append !_ _ / : simpl nomatch.

(** Go's [strings.HasPrefix] and the remainder after a literal prefix. *)
Fixpoint strip_prefix (p s : string) : option string :=
  match p, s with
  | EmptyString, _ => Some s
  | String a p', String b s' => if Ascii.eqb a b then strip_prefix p' s' else None
  | String _ _, EmptyString => None
  end.

Definition has_prefix (p s : string) : bool :=
  match strip_prefix p s with Some _ => true | None => false end.

Fixpoint string_forallb (f : Ascii.ascii -> bool) (s : string) : bool :=
  match s with
  | EmptyString => true
  | String c s' => f c && string_forallb f s'
  end.

Lemma string_app_nil_r (s : string) : s +:+ "" = s.
Proof. induction s as [|c s IH]; simpl; [done | by rewrite IH]. Qed.

Lemma string_app_assoc (a b c : string) : (a +:+ b) +:+ c = a +:+ (b +:+ c).
Proof. induction a as [|x a IH]; simpl; [done | by rewrite IH]. Qed.

Lemma string_app_inj_l (p a b : string) : p +:+ a = p +:+ b -> a = b.
Proof. induction p as [|c p IH]; simpl; [done | intros [= H]; auto]. Qed.

Lemma string_length_app (a b : string) :
  String.length (a +:+ b) = String.length a + String.length b.
Proof. induction a as [|c a IH]; simpl; [done | by rewrite IH]. Qed.

Lemma strip_prefix_app (p s : string) : strip_prefix p (p +:+ s) = Some s.
Proof. induction p as [|c p IH]; simpl; [done | by rewrite Ascii.eqb_refl]. Qed.

Lemma strip_prefix_Some (p s r : string) :
  strip_prefix p s = Some r <-> s = p +:+ r.
Proof.
  split; [|intros ->; apply strip_prefix_app].
  revert s; induction p as [|a p IH]; intros s; simpl; [by intros [= ->]|].
  destruct s as [|b s]; [done|].
  destruct (Ascii.eqb_spec a b) as [->|]; [|done].
  by intros ->%IH.
Qed.

Lemma has_prefix_true (p s : string) :
  has_prefix p s = true <-> exists r, s = p +:+ r.
Proof.
  unfold has_prefix. split.
  - destruct (strip_prefix p s) as [r|] eqn:E; [|done].
    intros _. exists r. by apply strip_prefix_Some.
  - intros [r ->]. by rewrite strip_prefix_app.
Qed.

Lemma string_forallb_app f (a b : string) :
  string_forallb f (a +:+ b) = string_forallb f a && string_forallb f b.
Proof. induction a as [|c a IH]; simpl; [done | by rewrite IH, andb_assoc]. Qed.

(** ** Lists *)

(** [omap]/[filter] style helper: the results of a partial function, in order. *)
Lemma elem_of_omap {A B} (f : A -> option B) (l : list A) (y : B) :
  y ∈ omap f l <-> exists x, x ∈ l /\ f x = Some y.
Proof. rewrite list_elem_of_omap. done. Qed.

Lemma take_permutation_length {A} (n : nat) (l : list A) :
  length (take n l) <= n.
Proof. rewrite length_take. lia. Qed.

#[export] Hint Rewrite string_app_nil_r string_app_assoc strip_prefix_app
  string_forallb_app string_length_app : taskq_rw.
