(* ===== verification/GoBase.v ===== *)
(** * Go values the program is written with

    Errors (sentinels, [errors.New], [fmt.Errorf] with [%w]), results, and the
    wrap-around of the 64-bit [int]. *)

From S2P Require Import Prelude.

(** ** Errors *)

Inductive error :=
  | ErrEmpty                                  (* queue.ErrEmpty *)
  | ErrNotFound                               (* store.ErrNotFound *)
  | ErrRedisNil                               (* redis.Nil *)
  | ErrNoRows                                 (* pgx.ErrNoRows *)
  | ErrCanceled                               (* context.Canceled *)
  | ErrDeadline                               (* context.DeadlineExceeded *)
  | ErrText (msg : string)                    (* errors.New, or a library's own error *)
  | ErrWrap (prefix : string) (cause : error) (* fmt.Errorf("prefix: %w", cause) *)
  | ErrFuel.                                  (* no Go value: a bounded model of a loop ran out *)

#[export] Instance error_eq_dec : EqDecision error.
Proof. solve_decision. Defined.

(** [err.Error()]. *)
Fixpoint Error (e : error) : string :=
  match e with
  | ErrEmpty => "queue empty"
  | ErrNotFound => "not found"
  | ErrRedisNil => "redis: nil"
  | ErrNoRows => "no rows in result set"
  | ErrCanceled => "context canceled"
  | ErrDeadline => "context deadline exceeded"
  | ErrText msg => msg
  | ErrWrap prefix cause => prefix +:+ ": " +:+ Error cause
  | ErrFuel => ""
  end.

(** [errors.Is(e, target)] for a sentinel [target]: compare, then unwrap. *)
Fixpoint errors_Is (e target : error) : bool :=
  bool_decide (e = target) ||
  match e with
  | ErrWrap _ cause => errors_Is cause target
  | _ => false
  end.

(** ** Results: Go's [(value, error)] pair read as a sum *)

Inductive res (A : Type) :=
  | Ok (a : A)
  | Err (e : error).
Arguments Ok {A} a.
Arguments Err {A} e.

#[export] Instance res_eq_dec {A} `{EqDecision A} : EqDecision (res A).
Proof. solve_decision. Defined.

Definition is_ok {A} (r : res A) : bool :=
  match r with Ok _ => true | Err _ => false end.

(** [_, err := f()]: keep the error, forget the value. *)
Definition res_err {A} (r : res A) : res unit :=
  match r with Ok _ => Ok tt | Err e => Err e end.

Lemma is_ok_Ok {A} (r : res A) : is_ok r = true <-> exists a, r = Ok a.
Proof. destruct r; simpl; naive_solver. Qed.

(** ** 64-bit integers *)

Open Scope Z_scope.

Definition min_int64 : Z := - 2 ^ 63.
Definition max_int64 : Z := 2 ^ 63 - 1.

(** Two's complement wrap-around of an [int] result. *)
Definition wrap64 (z : Z) : Z := (z + 2 ^ 63) mod 2 ^ 64 - 2 ^ 63.

Definition in_int64 (z : Z) : bool := (min_int64 <=? z) && (z <=? max_int64).

Lemma wrap64_id (z : Z) : in_int64 z = true -> wrap64 z = z.
Proof.
  unfold in_int64, wrap64, min_int64, max_int64. intros H. bool_to_prop.
  rewrite Z.mod_small; lia.
Qed.

Lemma wrap64_in_int64 (z : Z) : in_int64 (wrap64 z) = true.
Proof.
  unfold in_int64, wrap64, min_int64, max_int64.
  pose proof (Z.mod_pos_bound (z + 2 ^ 63) (2 ^ 64)).
  apply andb_true_intro; split; apply Z.leb_le; lia.
Qed.

#[export] Hint Resolve wrap64_in_int64 : taskq.

(** [time.Time.UnixMilli] on a time kept as nanoseconds since the epoch. *)
Definition UnixMilli (ns : Z) : Z := ns / 10 ^ 6.

Definition millisecond : Z := 10 ^ 6.
Definition second : Z := 10 ^ 9.
