(* ===== verification/F64.v ===== *)
(** * binary64 arithmetic

    The part of IEEE 754 double precision the program computes with: rounding
    to nearest, ties to even, at 53 significant bits, with overflow to infinity
    and gradual underflow. A finite value is [F m e], the dyadic [m * 2^e];
    signed zeros are identified (no operation of the program tells them apart). *)

From S2P Require Import Prelude GoBase.

(** ** Rounding of integers *)

(** Nearest multiple of [2^s], ties to the even multiple. *)
Definition rne (s a : Z) : Z :=
  let q := a / 2 ^ s in
  let r := a mod 2 ^ s in
  let h := 2 ^ (s - 1) in
  2 ^ s * (if r <? h then q
           else if h <? r then q + 1
           else if Z.even q then q else q + 1).

(** The exponent of the last place of an integer of 53 or more bits. *)
Definition ulp_exp (z : Z) : Z := Z.log2 (Z.abs z) - 52.

(** [float64(z)] for an integer [z], as an integer (every double of magnitude
    at least 2^52 is one). *)
Definition rnd53 (z : Z) : Z :=
  if ulp_exp z <=? 0 then z else rne (ulp_exp z) z.

(** ** Doubles *)

Inductive f64 :=
  | F (m e : Z)
  | Inf (neg : bool)
  | NaN.

(** Round the exact value [m * 2^e] to a double. *)
Definition fround (m e : Z) : f64 :=
  let s := Z.max (ulp_exp m) (- 1074 - e) in
  let m' := if s <=? 0 then m else rne s m in
  if (m' =? 0) || (Z.log2 (Z.abs m') + e <? 1024) then F m' e
  else Inf (m' <? 0).

(** [float64(z)] for a 64-bit integer. *)
Definition of_int (z : Z) : f64 := fround z 0.

Definition fsign (x : f64) : Z :=
  match x with F m _ => Z.sgn m | Inf true => -1 | Inf false => 1 | NaN => 0 end.

Definition fmul (x y : f64) : f64 :=
  match x, y with
  | NaN, _ | _, NaN => NaN
  | F m1 e1, F m2 e2 => fround (m1 * m2) (e1 + e2)
  | _, _ =>
      if fsign x * fsign y =? 0 then NaN else Inf (fsign x * fsign y <? 0)
  end.

Definition fadd (x y : f64) : f64 :=
  match x, y with
  | NaN, _ | _, NaN => NaN
  | F m1 e1, F m2 e2 =>
      let e := Z.min e1 e2 in
      fround (m1 * 2 ^ (e1 - e) + m2 * 2 ^ (e2 - e)) e
  | Inf a, Inf b => if Bool.eqb a b then Inf a else NaN
  | Inf a, _ => Inf a
  | _, Inf b => Inf b
  end.

(** [x > y]. *)
Definition fgt (x y : f64) : bool :=
  match x, y with
  | NaN, _ | _, NaN => false
  | F m1 e1, F m2 e2 =>
      let e := Z.min e1 e2 in m2 * 2 ^ (e2 - e) <? m1 * 2 ^ (e1 - e)
  | Inf a, Inf b => negb a && b
  | Inf a, F _ _ => negb a
  | F _ _, Inf b => b
  end.

(** [math.Pow(2, float64(n))] for [n >= 0]. *)
Definition pow2 (n : Z) : f64 := if n <? 1024 then F 1 n else Inf false.

(** Truncation toward zero of a finite double. *)
Definition ftrunc (m e : Z) : Z :=
  if 0 <=? e then m * 2 ^ e else Z.quot m (2 ^ (- e)).

(** [int64(x)]: the language leaves the value open when [x] does not fit. *)
Definition to_int64 (unrepresentable : f64 -> Z) (x : f64) : Z :=
  match x with
  | F m e => if in_int64 (ftrunc m e) then ftrunc m e else unrepresentable x
  | _ => unrepresentable x
  end.

(** A value of [rand.Float64()]: [k / 2^53] with [0 <= k < 2^53]. *)
Definition unit_draw (k : Z) : f64 := F k (- 53).

(** ** Rounding lemmas *)

Lemma pow2_split (s : Z) : 0 < s -> 2 ^ s = 2 * 2 ^ (s - 1).
Proof. intros H. rewrite <- Z.pow_succ_r by lia. f_equal. lia. Qed.

Lemma rne_multiple (s k : Z) : 0 < s -> rne s (2 ^ s * k) = 2 ^ s * k.
Proof.
  intros Hs. unfold rne.
  assert (0 < 2 ^ (s - 1)) by (apply Z.pow_pos_nonneg; lia).
  pose proof (pow2_split s Hs).
  rewrite (Z.mul_comm (2 ^ s) k), Z.mod_mul, Z.div_mul by lia.
  destruct (0 <? 2 ^ (s - 1)) eqn:E; [lia|]. apply Z.ltb_ge in E. lia.
Qed.

(** The rounded quotient is the floor or its successor, chosen by the remainder. *)
Lemma rne_cases (s a : Z) :
  0 < s ->
  (rne s a = 2 ^ s * (a / 2 ^ s) /\ a mod 2 ^ s <= 2 ^ (s - 1)) \/
  (rne s a = 2 ^ s * (a / 2 ^ s + 1) /\ 2 ^ (s - 1) <= a mod 2 ^ s).
Proof.
  intros Hs. unfold rne.
  destruct (a mod 2 ^ s <? 2 ^ (s - 1)) eqn:E1; bool_to_prop; [left; lia|].
  destruct (2 ^ (s - 1) <? a mod 2 ^ s) eqn:E2; bool_to_prop; [right; lia|].
  destruct (Z.even (a / 2 ^ s)); [left|right]; lia.
Qed.

Lemma rne_bound (s a : Z) : 0 < s -> Z.abs (rne s a - a) <= 2 ^ (s - 1).
Proof.
  intros Hs.
  assert (0 < 2 ^ (s - 1)) by (apply Z.pow_pos_nonneg; lia).
  pose proof (pow2_split s Hs).
  pose proof (Z.div_mod a (2 ^ s) ltac:(lia)).
  pose proof (Z.mod_pos_bound a (2 ^ s) ltac:(lia)).
  destruct (rne_cases s a Hs) as [[-> ?]|[-> ?]]; lia.
Qed.

Lemma rne_mono (s a b : Z) : 0 < s -> a <= b -> rne s a <= rne s b.
Proof.
  intros Hs Hab.
  assert (0 < 2 ^ s) by (apply Z.pow_pos_nonneg; lia).
  pose proof (Z.div_le_mono a b (2 ^ s) ltac:(lia) Hab) as Hq.
  destruct (Z.eq_dec (a / 2 ^ s) (b / 2 ^ s)) as [Heq|Hne].
  - pose proof (Z.div_mod a (2 ^ s) ltac:(lia)).
    pose proof (Z.div_mod b (2 ^ s) ltac:(lia)).
    assert (a mod 2 ^ s <= b mod 2 ^ s) by lia.
    unfold rne. rewrite <- Heq in *.
    repeat case_if; bool_to_prop; nia.
  - destruct (rne_cases s a Hs) as [[-> ?]|[-> ?]],
             (rne_cases s b Hs) as [[-> ?]|[-> ?]]; nia.
Qed.

Lemma rnd53_exact (z : Z) : Z.abs z <= 2 ^ 53 -> rnd53 z = z.
Proof.
  intros H. unfold rnd53, ulp_exp.
  destruct (Z.eq_dec (Z.abs z) (2 ^ 53)) as [E|E].
  - assert (z = 2 ^ 53 \/ z = - 2 ^ 53) as [->| ->] by lia; reflexivity.
  - assert (Z.log2 (Z.abs z) <= 52).
    { destruct (Z.eq_dec z 0) as [->|]; [done|].
      assert (Z.log2 (Z.abs z) < 53); [|lia].
      apply Z.log2_lt_pow2; lia. }
    by rewrite (proj2 (Z.leb_le _ _)) by lia.
Qed.

Lemma ulp_exp_mono (a b : Z) : 0 <= a <= b -> ulp_exp a <= ulp_exp b.
Proof.
  intros H. unfold ulp_exp. rewrite !Z.abs_eq by lia.
  pose proof (Z.log2_le_mono a b). lia.
Qed.

(** Rounding never crosses a power of two that is at least one unit up. *)
Lemma rne_pow2 (s k : Z) : 0 < s <= k -> rne s (2 ^ k) = 2 ^ k.
Proof.
  intros H. replace k with (s + (k - s)) by lia.
  rewrite Z.pow_add_r by lia. apply rne_multiple. lia.
Qed.

Lemma rnd53_mono (a b : Z) : 0 <= a <= b -> rnd53 a <= rnd53 b.
Proof.
  intros H. pose proof (ulp_exp_mono a b H) as Hu.
  assert (Hb : 0 < ulp_exp b -> 2 ^ (52 + ulp_exp b) <= b).
  { unfold ulp_exp. rewrite Z.abs_eq by lia. intros.
    replace (52 + _) with (Z.log2 b) by lia.
    apply Z.log2_spec. destruct (Z.eq_dec b 0) as [->|]; [done|lia]. }
  unfold rnd53.
  destruct (ulp_exp b <=? 0) eqn:Eb; bool_to_prop.
  { rewrite (proj2 (Z.leb_le _ _)) by lia. lia. }
  specialize (Hb Eb).
  assert (Hlow : 2 ^ (52 + ulp_exp b) <= rne (ulp_exp b) b).
  { rewrite <- (rne_pow2 (ulp_exp b) (52 + ulp_exp b)) at 1 by lia.
    apply rne_mono; lia. }
  destruct (Z.eq_dec (ulp_exp a) (ulp_exp b)) as [E|E].
  { rewrite E, (proj2 (Z.leb_gt _ _)) by lia. apply rne_mono; lia. }
  assert (Ha : a <= 2 ^ (52 + ulp_exp b)).
  { apply Z.lt_le_incl. destruct (Z.eq_dec a 0) as [->|]; [lia|].
    apply Z.log2_lt_pow2; [lia|]. revert E Hu. unfold ulp_exp.
    rewrite !Z.abs_eq by lia. lia. }
  case_if; bool_to_prop; [lia|].
  etransitivity; [apply (rne_mono _ a (2 ^ (52 + ulp_exp b))); lia|].
  rewrite rne_pow2; lia.
Qed.

Lemma rnd53_nonneg (z : Z) : 0 <= z -> 0 <= rnd53 z.
Proof. intros H. apply (rnd53_mono 0 z). lia. Qed.

(** Scaling by a power of two commutes with rounding (no underflow here: the
    operands are integers). *)
Lemma rnd53_scale (z k : Z) :
  0 <= k -> Z.abs z <= 2 ^ 53 -> rnd53 (2 ^ k * z) = 2 ^ k * z.
Proof.
  intros Hk Hz.
  destruct (Z.eq_dec z 0) as [->|Hz0]; [by rewrite Z.mul_0_r|].
  unfold rnd53. case_if; [done|]. bool_to_prop.
  assert (Hl : Z.log2 (Z.abs (2 ^ k * z)) = Z.log2 (Z.abs z) + k).
  { rewrite Z.abs_mul, (Z.abs_eq (2 ^ k)), Z.mul_comm by (apply Z.pow_nonneg; lia).
    rewrite Z.log2_mul_pow2; lia. }
  unfold ulp_exp in *. rewrite Hl in *.
  destruct (Z.eq_dec (Z.abs z) (2 ^ 53)) as [E|E].
  - rewrite E, Z.log2_pow2 in * by lia.
    replace (2 ^ k * z) with (2 ^ (53 + k - 52) * (z / 2)).
    + apply rne_multiple. lia.
    + replace (53 + k - 52) with (k + 1) by lia. rewrite Z.pow_add_r by lia.
      assert (z = 2 ^ 53 \/ z = - 2 ^ 53) as [->| ->] by lia; [change (2 ^ 53 / 2) with (2 ^ 52)|change (- 2 ^ 53 / 2) with (- 2 ^ 52)]; lia.
  - assert (Z.log2 (Z.abs z) < 53) by (apply Z.log2_lt_pow2; lia).
    pose proof (Z.log2_nonneg (Z.abs z)).
    set (s := Z.log2 (Z.abs z) + k - 52) in *.
    replace (2 ^ k * z) with (2 ^ s * (2 ^ (k - s) * z)).
    + apply rne_multiple. lia.
    + rewrite Z.mul_assoc, <- Z.pow_add_r by lia. do 2 f_equal. lia.
Qed.

(** [of_int] and the double operations on integers agree with [rnd53]. *)
Lemma log2_lt_1024 (z : Z) : Z.abs z < 2 ^ 1024 -> (Z.log2 (Z.abs z) + 0 <? 1024) = true.
Proof.
  intros H. apply Z.ltb_lt. destruct (Z.eq_dec z 0) as [->|]; [done|].
  rewrite Z.add_0_r. apply Z.log2_lt_pow2; lia.
Qed.

Lemma fround_int (z : Z) : Z.abs (rnd53 z) < 2 ^ 1024 -> fround z 0 = F (rnd53 z) 0.
Proof.
  intros H. unfold fround.
  assert (Hs : Z.max (ulp_exp z) (- 1074 - 0) = ulp_exp z).
  { unfold ulp_exp. pose proof (Z.log2_nonneg (Z.abs z)). lia. }
  rewrite Hs. fold (rnd53 z). rewrite log2_lt_1024 by done. by rewrite orb_true_r.
Qed.

(** Rounding at most doubles the magnitude. *)
Lemma rnd53_abs (z : Z) : Z.abs (rnd53 z) <= 2 * Z.abs z.
Proof.
  unfold rnd53. case_if; bool_to_prop; [lia|].
  pose proof (rne_bound (ulp_exp z) z ltac:(lia)) as H.
  assert (2 ^ (ulp_exp z - 1) <= Z.abs z); [|lia].
  unfold ulp_exp in *.
  assert (Hz : 0 < Z.abs z) by (destruct (Z.eq_dec z 0) as [->|]; [done|lia]).
  etransitivity; [|by apply Z.log2_spec]. apply Z.pow_le_mono_r; lia.
Qed.

(** Sums and products of integer-valued doubles in range. *)
Lemma of_int_rnd (z : Z) : Z.abs z < 2 ^ 1000 -> of_int z = F (rnd53 z) 0.
Proof.
  intros H. apply fround_int. pose proof (rnd53_abs z).
  assert (2 * 2 ^ 1000 < 2 ^ 1024) by reflexivity. lia.
Qed.

Lemma fmul_int (a b : Z) :
  Z.abs (a * b) < 2 ^ 1000 -> fmul (F a 0) (F b 0) = F (rnd53 (a * b)) 0.
Proof. intros H. exact (of_int_rnd (a * b) H). Qed.

Lemma fadd_int (a b : Z) :
  Z.abs (a + b) < 2 ^ 1000 -> fadd (F a 0) (F b 0) = F (rnd53 (a + b)) 0.
Proof.
  intros H. cbn [fadd]. rewrite Z.min_id, Z.sub_diag, Z.pow_0_r, !Z.mul_1_r.
  exact (of_int_rnd (a + b) H).
Qed.
