(* ===== verification/GoString.v ===== *)
(** * Go strings: bytes, UTF-8 runes

    A Go string is a sequence of bytes, kept as [string]. [chunks] is what
    [for _, r := range s] iterates over: the valid UTF-8 sequences, and every
    other byte on its own (Go reads it as the rune U+FFFD of width one). *)

From S2P Require Import Prelude.
From Stdlib Require Import Ascii.

Open Scope Z_scope.

Abbreviation byte_of n := (ascii_of_N (Z.to_N n)) (only parsing).

(** ** Bytes *)

Definition code (c : ascii) : Z := Z.of_N (N_of_ascii c).

Definition in_range (lo hi : Z) (c : ascii) : bool :=
  (lo <=? code c) && (code c <=? hi).

Definition is_cont (c : ascii) : bool := in_range 128 191 c.
Definition is_digit (c : ascii) : bool := in_range 48 57 c.

(** ** UTF-8 sequences (the acceptance table of package [unicode/utf8]) *)

Definition valid2 (a b : ascii) : bool := in_range 194 223 a && is_cont b.

Definition valid3 (a b c : ascii) : bool :=
  ((code a =? 224) && in_range 160 191 b
   || (in_range 225 236 a || in_range 238 239 a) && is_cont b
   || (code a =? 237) && in_range 128 159 b) && is_cont c.

Definition valid4 (a b c d : ascii) : bool :=
  ((code a =? 240) && in_range 144 191 b
   || in_range 241 243 a && is_cont b
   || (code a =? 244) && in_range 128 143 b) && is_cont c && is_cont d.

Inductive chunk :=
  | Rune (bytes : string)  (* the bytes of one valid code point *)
  | Bad (b : ascii).       (* a byte that starts no valid sequence *)

Fixpoint chunks (s : string) : list chunk :=
  match s with
  | EmptyString => []
  | String a s1 =>
      if code a <? 128 then Rune (String a EmptyString) :: chunks s1
      else
        match s1 with
        | String b s2 =>
            if valid2 a b then Rune (String a (String b EmptyString)) :: chunks s2
            else
              match s2 with
              | String c s3 =>
                  if valid3 a b c
                  then Rune (String a (String b (String c EmptyString))) :: chunks s3
                  else
                    match s3 with
                    | String d s4 =>
                        if valid4 a b c d
                        then Rune (String a (String b (String c (String d EmptyString))))
                             :: chunks s4
                        else Bad a :: chunks s1
                    | EmptyString => Bad a :: chunks s1
                    end
              | EmptyString => Bad a :: chunks s1
              end
        | EmptyString => Bad a :: chunks s1
        end
  end.

(** The bytes of U+FFFD. *)
Definition rune_error : string :=
  String (byte_of 239) (String (byte_of 191) (String (byte_of 189) EmptyString)).

(** [string(r)] for the rune [r] of a chunk. *)
Definition chunk_string (c : chunk) : string :=
  match c with Rune bs => bs | Bad _ => rune_error end.

(** The bytes a chunk was read from. *)
Definition chunk_raw (c : chunk) : string :=
  match c with Rune bs => bs | Bad b => String b EmptyString end.

Fixpoint sconcat (l : list string) : string :=
  match l with
  | [] => EmptyString
  | s :: l' => s +:+ sconcat l'
  end.

(** Every invalid byte replaced by U+FFFD. *)
Definition coerce (s : string) : string := sconcat (map chunk_string (chunks s)).

Definition valid_utf8 (s : string) : bool :=
  forallb (fun c => match c with Rune _ => true | Bad _ => false end) (chunks s).

(** The UTF-8 encoding of a rune, U+FFFD for a surrogate or a value out of range. *)
Definition encode_rune (r : Z) : string :=
  if (r <? 0) || (1114111 <? r) || ((55296 <=? r) && (r <=? 57343)) then rune_error
  else if r <? 128 then String (byte_of r) EmptyString
  else if r <? 2048 then
    String (byte_of (192 + r / 64)) (String (byte_of (128 + r mod 64)) EmptyString)
  else if r <? 65536 then
    String (byte_of (224 + r / 4096))
      (String (byte_of (128 + r / 64 mod 64))
        (String (byte_of (128 + r mod 64)) EmptyString))
  else
    String (byte_of (240 + r / 262144))
      (String (byte_of (128 + r / 4096 mod 64))
        (String (byte_of (128 + r / 64 mod 64))
          (String (byte_of (128 + r mod 64)) EmptyString))).

Arguments code : simpl never.

(** ** Lemmas *)

#[local] Arguments String.append !_ _ / : simpl nomatch.

Lemma code_range (c : ascii) : 0 <= code c < 256.
Proof. destruct c as [[][][][][][][][]]; vm_compute; split; congruence. Qed.

(** A chunk that decodes to itself whatever follows. *)
Definition self_chunk (c : chunk) : Prop :=
  match c with
  | Rune bs => forall t, chunks (bs +:+ t) = Rune bs :: chunks t
  | Bad _ => True
  end.

Lemma string_strong_ind (P : string -> Prop) :
  (forall s, (forall s', (String.length s' < String.length s)%nat -> P s') -> P s) ->
  forall s, P s.
Proof.
  intros H s. remember (String.length s) as n eqn:E. revert s E.
  induction n as [n IH] using lt_wf_ind. intros s ->.
  apply H. intros s' Hs'. by apply (IH (String.length s')).
Qed.

#[local] Ltac chunk_case :=
  cbn [chunks chunk_raw self_chunk String.append String.length];
  repeat match goal with H : ?b = _ |- context [if ?b then _ else _] => rewrite H end;
  repeat split; auto with lia.

Lemma chunks_unfold (s : string) :
  chunks s = [] /\ s = EmptyString \/
  exists c t, chunks s = c :: chunks t /\ s = chunk_raw c +:+ t /\ self_chunk c /\
              (String.length t < String.length s)%nat.
Proof.
  destruct s as [|a s1]; [by left|right].
  destruct (code a <? 128) eqn:Ea.
  { exists (Rune (String a EmptyString)), s1. chunk_case. }
  destruct s1 as [|b s2]; [exists (Bad a), EmptyString; chunk_case|].
  destruct (valid2 a b) eqn:E2.
  { exists (Rune (String a (String b EmptyString))), s2. chunk_case. }
  destruct s2 as [|c s3]; [eexists (Bad a), _; chunk_case|].
  destruct (valid3 a b c) eqn:E3.
  { exists (Rune (String a (String b (String c EmptyString)))), s3. chunk_case. }
  destruct s3 as [|d s4]; [eexists (Bad a), _; chunk_case|].
  destruct (valid4 a b c d) eqn:E4.
  - exists (Rune (String a (String b (String c (String d EmptyString))))), s4.
    chunk_case.
  - eexists (Bad a), _. chunk_case.
Qed.

(** A rune is one ASCII byte or a sequence of bytes from 128 up. *)
Definition chunk_shape (c : chunk) : Prop :=
  match c with
  | Rune (String a EmptyString) => code a < 128
  | Rune bs => string_forallb (fun a => 128 <=? code a) bs = true
  | Bad b => 128 <= code b
  end.

(** Induction along the chunks of a string. *)
Lemma chunks_ind (P : string -> Prop) :
  P EmptyString ->
  (forall s c t, chunks s = c :: chunks t -> s = chunk_raw c +:+ t ->
                 self_chunk c -> P t -> P s) ->
  forall s, P s.
Proof.
  intros H0 HS s. induction s as [s IH] using string_strong_ind.
  destruct (chunks_unfold s) as [[_ ->]|(c & t & ? & ? & ? & ?)]; [done|eauto].
Qed.

Lemma chunks_raw (s : string) : sconcat (map chunk_raw (chunks s)) = s.
Proof.
  induction s as [|s c t E -> Hc IH] using chunks_ind; [done|].
  rewrite E. simpl. by rewrite IH.
Qed.

Lemma chunks_self (s : string) : Forall self_chunk (chunks s).
Proof.
  induction s as [|s c t E _ Hc IH] using chunks_ind; [constructor|].
  rewrite E. by constructor.
Qed.

Lemma chunks_shape (s : string) : Forall chunk_shape (chunks s).
Proof.
  induction s as [s IH] using string_strong_ind.
  destruct s as [|a s1]; [constructor|]. cbn [chunks].
  destruct (code a <? 128) eqn:Ea.
  { constructor; [simpl; lia | apply IH; simpl; lia]. }
  assert (Hbad : Forall chunk_shape (Bad a :: chunks s1)).
  { constructor; [simpl; lia | apply IH; simpl; lia]. }
  destruct s1 as [|b s2]; [done|]. unfold valid2, valid3, valid4, is_cont, in_range.
  case_if; [constructor; [simpl; lia | apply IH; simpl; lia]|].
  destruct s2 as [|c s3]; [done|].
  case_if; [constructor; [simpl; lia | apply IH; simpl; lia]|].
  destruct s3 as [|d s4]; [done|].
  case_if; [constructor; [simpl; lia | apply IH; simpl; lia]|done].
Qed.

Lemma coerce_valid (s : string) : valid_utf8 s = true -> coerce s = s.
Proof.
  intros H. rewrite <- (chunks_raw s) at 2. unfold coerce, valid_utf8 in *.
  f_equal. apply map_ext_in. intros c Hc.
  rewrite forallb_forall in H. specialize (H c Hc). by destruct c.
Qed.

Lemma chunks_rune_error (t : string) : chunks (rune_error +:+ t) = Rune rune_error :: chunks t.
Proof. reflexivity. Qed.

Lemma chunks_coerce (s : string) :
  chunks (coerce s) = map (fun c => Rune (chunk_string c)) (chunks s).
Proof.
  unfold coerce. induction (chunks_self s) as [|c l Hc _ IH]; [done|].
  cbn [map sconcat]. destruct c as [bs|b]; cbn [chunk_string].
  - by rewrite Hc, IH.
  - by rewrite chunks_rune_error, IH.
Qed.

Lemma coerce_valid_utf8 (s : string) : valid_utf8 (coerce s) = true.
Proof.
  unfold valid_utf8. rewrite chunks_coerce, forallb_forall.
  intros c (c' & <- & _)%in_map_iff. done.
Qed.

Lemma coerce_idemp (s : string) : coerce (coerce s) = coerce s.
Proof. apply coerce_valid, coerce_valid_utf8. Qed.

Lemma valid_utf8_ascii (s : string) :
  string_forallb (fun c => code c <? 128) s = true -> valid_utf8 s = true.
Proof.
  unfold valid_utf8. induction s as [|c s IH]; [done|].
  cbn [string_forallb chunks]. intros [Hc Hs]%andb_prop.
  rewrite Hc. simpl. auto.
Qed.

#[export] Hint Resolve coerce_valid_utf8 : taskq.
