(* ===== verification/Json.v ===== *)
(** * JSON text as package [encoding/json] reads and writes it

    A value keeps the tokens of the text: a number its literal, a string the
    characters between its quotes, escapes included (so that a
    [json.RawMessage] is reproduced exactly). [parse] is the scanner and
    [print] the compact form; [quote]/[unquote] convert a Go string to and from
    a string token. The nesting limit of 10000 is not modelled. *)

From S2P Require Import Prelude GoString.
From Stdlib Require Import Ascii DecimalString DecimalZ DecimalPos.
From Stdlib Require Decimal.

Open Scope Z_scope.

#[warnings="-register-all"]
Inductive json :=
  | JNull
  | JBool (b : bool)
  | JNum (lit : string)
  | JStr (raw : string)
  | JArr (elems : list json)
  | JObj (members : list (string * json)).

(** ** Characters *)

Definition chr (n : Z) (c : ascii) : bool := code c =? n.

Definition dquote : ascii := "034"%char.
Definition backslash : ascii := "092"%char.

Definition is_ws (c : ascii) : bool := chr 32 c || chr 9 c || chr 10 c || chr 13 c.

Definition is_hex (c : ascii) : bool :=
  is_digit c || in_range 97 102 c || in_range 65 70 c.

Definition hex_val (c : ascii) : Z :=
  if is_digit c then code c - 48
  else if in_range 97 102 c then code c - 87 else code c - 55.

Definition hex4 (a b c d : ascii) : Z :=
  ((hex_val a * 16 + hex_val b) * 16 + hex_val c) * 16 + hex_val d.

Fixpoint skip_ws (s : string) : string :=
  match s with
  | String c s' => if is_ws c then skip_ws s' else s
  | EmptyString => EmptyString
  end.

(** The longest prefix whose characters satisfy [f], and the rest. *)
Fixpoint span (f : ascii -> bool) (s : string) : string * string :=
  match s with
  | String c s' =>
      if f c then (String c (span f s').1, (span f s').2) else (EmptyString, s)
  | EmptyString => (EmptyString, EmptyString)
  end.

(** ** String tokens *)

(** One of the characters [dquote \ / b f n r t] may follow a backslash. *)
Definition simple_escape (c : ascii) : bool :=
  chr 34 c || chr 92 c || chr 47 c || chr 98 c || chr 102 c || chr 110 c
  || chr 114 c || chr 116 c.

Definition cons_fst (c : ascii) (p : option (string * string)) : option (string * string) :=
  match p with Some (a, b) => Some (String c a, b) | None => None end.

(** The token after an opening quote, and the text after the closing one. *)
Fixpoint scan_str (s : string) : option (string * string) :=
  match s with
  | EmptyString => None
  | String c s1 =>
      if chr 34 c then Some (EmptyString, s1)
      else if chr 92 c then
        match s1 with
        | String e s2 =>
            if simple_escape e then cons_fst c (cons_fst e (scan_str s2))
            else if chr 117 e then
              match s2 with
              | String h1 (String h2 (String h3 (String h4 s3))) =>
                  if is_hex h1 && is_hex h2 && is_hex h3 && is_hex h4
                  then cons_fst c (cons_fst e (cons_fst h1 (cons_fst h2
                         (cons_fst h3 (cons_fst h4 (scan_str s3))))))
                  else None
              | _ => None
              end
            else None
        | EmptyString => None
        end
      else if code c <? 32 then None
      else cons_fst c (scan_str s1)
  end.

(** The character a one-letter escape stands for. *)
Definition escape_char (e : ascii) : ascii :=
  if chr 98 e then byte_of 8 else if chr 102 e then byte_of 12
  else if chr 110 e then byte_of 10 else if chr 114 e then byte_of 13
  else if chr 116 e then byte_of 9 else e.

Definition is_surrogate (r : Z) : bool := (55296 <=? r) && (r <? 57344).
Definition is_high (r : Z) : bool := (55296 <=? r) && (r <? 56320).
Definition is_low (r : Z) : bool := (56320 <=? r) && (r <? 57344).

(** The escapes of a token replaced; other bytes are copied. *)
Fixpoint unescape (s : string) : string :=
  match s with
  | String c (String e s2 as s1) =>
      if chr 92 c then
        if chr 117 e then
          match s2 with
          | String h1 (String h2 (String h3 (String h4 s3))) =>
              let r := hex4 h1 h2 h3 h4 in
              if is_surrogate r then
                match s3 with
                | String c' (String e' (String l1 (String l2 (String l3 (String l4 s4))))) =>
                    let r' := hex4 l1 l2 l3 l4 in
                    if chr 92 c' && chr 117 e' && is_high r && is_low r'
                    then encode_rune ((r - 55296) * 1024 + (r' - 56320) + 65536)
                         +:+ unescape s4
                    else rune_error +:+ unescape s3
                | _ => rune_error +:+ unescape s3
                end
              else encode_rune r +:+ unescape s3
          | _ => EmptyString
          end
        else String (escape_char e) (unescape s2)
      else String c (unescape s1)
  | String c EmptyString => String c EmptyString
  | EmptyString => EmptyString
  end.

(** The Go string of a token: escapes replaced, invalid UTF-8 coerced. *)
Definition unquote (raw : string) : string := coerce (unescape raw).

Definition hex_digit (n : Z) : ascii :=
  if n <? 10 then byte_of (48 + n) else byte_of (87 + n).

Definition u00 (c : ascii) : string :=
  String backslash (String "u" (String "0" (String "0"
    (String (hex_digit (code c / 16)) (String (hex_digit (code c mod 16)) EmptyString))))).

(** The token for an ASCII byte ([appendString] with HTML escaping on). *)
Definition quote_ascii (c : ascii) : string :=
  if chr 92 c || chr 34 c then String backslash (String c EmptyString)
  else if chr 8 c then "\b" else if chr 12 c then "\f"
  else if chr 10 c then "\n" else if chr 13 c then "\r"
  else if chr 9 c then "\t"
  else if (code c <? 32) || chr 60 c || chr 62 c || chr 38 c then u00 c
  else String c EmptyString.

Definition line_sep : string :=
  String (byte_of 226) (String (byte_of 128) (String (byte_of 168) EmptyString)).
Definition par_sep : string :=
  String (byte_of 226) (String (byte_of 128) (String (byte_of 169) EmptyString)).

Definition quote_chunk (k : chunk) : string :=
  match k with
  | Bad _ => "\ufffd"
  | Rune (String c EmptyString) => quote_ascii c
  | Rune bs =>
      if String.eqb bs line_sep then "\u2028"
      else if String.eqb bs par_sep then "\u2029" else bs
  end.

(** The token for a Go string. *)
Definition quote (s : string) : string := sconcat (map quote_chunk (chunks s)).

(** ** Numbers *)

Definition num_char (c : ascii) : bool :=
  is_digit c || chr 43 c || chr 45 c || chr 46 c || chr 69 c || chr 101 c.

(** [digits+] and the rest. *)
Definition digits1 (s : string) : option string :=
  match span is_digit s with
  | (EmptyString, _) => None
  | (_, rest) => Some rest
  end.

Definition exp_part (s : string) : bool :=
  match s with
  | EmptyString => true
  | String c s' =>
      (chr 69 c || chr 101 c) &&
      match
        digits1 (match s' with
                 | String d s'' => if chr 43 d || chr 45 d then s'' else s'
                 | EmptyString => s'
                 end)
      with
      | Some EmptyString => true
      | _ => false
      end
  end.

Definition frac_part (s : string) : bool :=
  match s with
  | String c s' =>
      if chr 46 c then match digits1 s' with Some r => exp_part r | None => false end
      else exp_part s
  | EmptyString => true
  end.

Definition int_part (s : string) : bool :=
  match s with
  | String c s' =>
      if chr 48 c then frac_part s'
      else match digits1 s with Some r => frac_part r | None => false end
  | EmptyString => false
  end.

(** [-? (0 | [1-9][0-9]* ) (. [0-9]+)? ([eE] [+-]? [0-9]+)?]. *)
Definition valid_number (s : string) : bool :=
  match s with
  | String c s' => if chr 45 c then int_part s' else int_part s
  | EmptyString => false
  end.

(** ** Values *)

Fixpoint parse_value (n : nat) (s : string) {struct n} : option (json * string) :=
  match n with
  | O => None
  | S n =>
      match skip_ws s with
      | EmptyString => None
      | String c s1 as s0 =>
          if chr 34 c then
            match scan_str s1 with Some (raw, r) => Some (JStr raw, r) | None => None end
          else if chr 91 c then
            match skip_ws s1 with
            | String c' r => if chr 93 c' then Some (JArr [], r)
                             else match parse_elems n s1 with
                                  | Some (l, r') => Some (JArr l, r')
                                  | None => None
                                  end
            | EmptyString => None
            end
          else if chr 123 c then
            match skip_ws s1 with
            | String c' r => if chr 125 c' then Some (JObj [], r)
                             else match parse_members n s1 with
                                  | Some (l, r') => Some (JObj l, r')
                                  | None => None
                                  end
            | EmptyString => None
            end
          else
            match strip_prefix "null" s0, strip_prefix "true" s0, strip_prefix "false" s0 with
            | Some r, _, _ => Some (JNull, r)
            | _, Some r, _ => Some (JBool true, r)
            | _, _, Some r => Some (JBool false, r)
            | None, None, None =>
                let '(lit, r) := span num_char s0 in
                if valid_number lit then Some (JNum lit, r) else None
            end
      end
  end
with parse_elems (n : nat) (s : string) {struct n} : option (list json * string) :=
  match n with
  | O => None
  | S n =>
      match parse_value n s with
      | Some (v, r) =>
          match skip_ws r with
          | String c r' =>
              if chr 93 c then Some ([v], r')
              else if chr 44 c then
                match parse_elems n r' with
                | Some (l, r'') => Some (v :: l, r'')
                | None => None
                end
              else None
          | EmptyString => None
          end
      | None => None
      end
  end
with parse_members (n : nat) (s : string) {struct n} :
    option (list (string * json) * string) :=
  match n with
  | O => None
  | S n =>
      match skip_ws s with
      | String q s1 =>
          if chr 34 q then
            match scan_str s1 with
            | Some (key, r0) =>
                match skip_ws r0 with
                | String c r1 =>
                    if chr 58 c then
                      match parse_value n r1 with
                      | Some (v, r) =>
                          match skip_ws r with
                          | String d r' =>
                              if chr 125 d then Some ([(key, v)], r')
                              else if chr 44 d then
                                match parse_members n r' with
                                | Some (l, r'') => Some ((key, v) :: l, r'')
                                | None => None
                                end
                              else None
                          | EmptyString => None
                          end
                      | None => None
                      end
                    else None
                | EmptyString => None
                end
            | None => None
            end
          else None
      | EmptyString => None
      end
  end.

(** Enough recursion for a text: a nested value uses two levels and at least
    two characters, a further element one level and at least two characters. *)
Definition fuel_for (s : string) : nat := (2 * String.length s + 2)%nat.

Definition parse (s : string) : option json :=
  match parse_value (fuel_for s) s with
  | Some (v, r) => match skip_ws r with EmptyString => Some v | _ => None end
  | None => None
  end.

Fixpoint take_str (n : nat) (s : string) : string :=
  match n, s with
  | S n, String c s' => String c (take_str n s')
  | _, _ => EmptyString
  end.

(** The members of an object, each with the text of its value as it stands (what
    a [json.RawMessage] field receives). *)
Fixpoint raw_members (n : nat) (s : string) {struct n} :
    option (list (string * json * string)) :=
  match n with
  | O => None
  | S n =>
      match skip_ws s with
      | String _ s1 =>
          match scan_str s1 with
          | Some (key, r0) =>
              match skip_ws r0 with
              | String _ r1 =>
                  let text := skip_ws r1 in
                  match parse_value n text with
                  | Some (v, r) =>
                      let raw := take_str (String.length text - String.length r) text in
                      match skip_ws r with
                      | String d r' =>
                          if chr 125 d then Some [(key, v, raw)]
                          else match raw_members n r' with
                               | Some l => Some ((key, v, raw) :: l)
                               | None => None
                               end
                      | EmptyString => None
                      end
                  | None => None
                  end
              | EmptyString => None
              end
          | None => None
          end
      | EmptyString => None
      end
  end.

(** Of a text [parse] reads as an object. *)
Definition object_members (s : string) : option (list (string * json * string)) :=
  match skip_ws s with
  | String _ s1 =>
      match skip_ws s1 with
      | String c _ => if chr 125 c then Some [] else raw_members (fuel_for s) s1
      | EmptyString => None
      end
  | EmptyString => None
  end.

Definition quoted (raw : string) : string :=
  String dquote (raw +:+ String dquote EmptyString).

(** Comma-separated items. *)
Fixpoint commas (l : list string) : string :=
  match l with
  | [] => EmptyString
  | [s] => s
  | s :: l' => s +:+ "," +:+ commas l'
  end.

Fixpoint print (j : json) : string :=
  match j with
  | JNull => "null"
  | JBool true => "true"
  | JBool false => "false"
  | JNum lit => lit
  | JStr raw => quoted raw
  | JArr l => "[" +:+ commas (map print l) +:+ "]"
  | JObj l => "{" +:+ commas (map (fun kv => quoted kv.1 +:+ ":" +:+ print kv.2) l) +:+ "}"
  end.

(** ** HTML escaping of a raw value ([appendCompact] with [escape = true]) *)

Fixpoint html_escape (s : string) : string :=
  match s with
  | EmptyString => EmptyString
  | String c s1 =>
      if chr 60 c || chr 62 c || chr 38 c then u00 c +:+ html_escape s1
      else
        match s1 with
        | String d (String e s3) =>
            if chr 226 c && chr 128 d && chr 168 e then "\u2028" +:+ html_escape s3
            else if chr 226 c && chr 128 d && chr 169 e then "\u2029" +:+ html_escape s3
            else String c (html_escape s1)
        | _ => String c (html_escape s1)
        end
  end.

Fixpoint escape_json (j : json) : json :=
  match j with
  | JStr raw => JStr (html_escape raw)
  | JArr l => JArr (map escape_json l)
  | JObj l => JObj (map (fun kv => (html_escape kv.1, escape_json kv.2)) l)
  | _ => j
  end.

(** ** Integers *)

Definition itoa (z : Z) : string := NilEmpty.string_of_int (Z.to_int z).

(** [strconv.ParseInt] on a literal the scanner accepted (no leading plus). *)
Definition atoi (s : string) : option Z :=
  option_map Z.of_int (NilEmpty.int_of_string s).

(** ** Lemmas: tokens *)

#[local] Arguments String.append !_ _ / : simpl nomatch.

Arguments chr : simpl never.
Arguments in_range : simpl never.

Definition value_char (c : ascii) : bool :=
  negb (is_ws c || chr 93 c || chr 125 c || chr 44 c || chr 58 c).

(** Decide the character tests from the code of the character. *)
Ltac char_lia :=
  unfold value_char, num_char, simple_escape, is_hex, is_digit, is_ws, chr, in_range in *;
  repeat match goal with c : ascii |- _ =>
    lazymatch goal with
    | H : 0 <= code c < 256 |- _ => fail
    | _ => pose proof (code_range c)
    end
  end; lia.

Fixpoint raw_ok (s : string) : bool :=
  match s with
  | EmptyString => true
  | String c s1 =>
      if chr 34 c then false
      else if chr 92 c then
        match s1 with
        | String e s2 =>
            if simple_escape e then raw_ok s2
            else if chr 117 e then
              match s2 with
              | String h1 (String h2 (String h3 (String h4 s3))) =>
                  is_hex h1 && is_hex h2 && is_hex h3 && is_hex h4 && raw_ok s3
              | _ => false
              end
            else false
        | EmptyString => false
        end
      else (32 <=? code c) && raw_ok s1
  end.

Lemma scan_raw_ok (raw t : string) :
  raw_ok raw = true -> scan_str (raw +:+ String dquote t) = Some (raw, t).
Proof.
  revert t. induction raw as [s IH] using string_strong_ind. intros t.
  destruct s as [|c s1]; [done|]. cbn [raw_ok String.append scan_str].
  destruct (chr 34 c) eqn:E1; [done|].
  destruct (chr 92 c) eqn:E2.
  - destruct s1 as [|e s2]; [done|]. cbn [String.append].
    destruct (simple_escape e) eqn:E3.
    + intros H. rewrite IH by (done || simpl; lia). done.
    + destruct (chr 117 e) eqn:E4; [|done].
      destruct s2 as [|h1 [|h2 [|h3 [|h4 s3]]]]; try done. cbn [String.append].
      intros H. apply andb_prop in H as [Hx H]. rewrite Hx.
      rewrite IH by (done || simpl; lia). done.
  - intros [Hc H]%andb_prop. rewrite (proj2 (Z.ltb_ge _ _)) by lia.
    rewrite IH by (done || simpl; lia). done.
Qed.

Lemma cons_fst_Some c p a b :
  cons_fst c p = Some (a, b) <-> exists a', a = String c a' /\ p = Some (a', b).
Proof. destruct p as [[x y]|]; simpl; naive_solver. Qed.

Lemma scan_str_raw_ok (s a b : string) : scan_str s = Some (a, b) -> raw_ok a = true.
Proof.
  revert a b. induction s as [s IH] using string_strong_ind. intros a b.
  destruct s as [|c s1]; [done|]. cbn [scan_str].
  destruct (chr 34 c) eqn:E1; [by intros [= <- <-]|].
  destruct (chr 92 c) eqn:E2.
  - destruct s1 as [|e s2]; [done|].
    destruct (simple_escape e) eqn:E3.
    + intros (a1 & -> & (a2 & -> & H)%cons_fst_Some)%cons_fst_Some.
      cbn [raw_ok]. rewrite E1, E2, E3. eapply IH; [|done]. simpl; lia.
    + destruct (chr 117 e) eqn:E4; [|done].
      destruct s2 as [|h1 [|h2 [|h3 [|h4 s3]]]]; try done.
      destruct (is_hex h1 && is_hex h2 && is_hex h3 && is_hex h4) eqn:Hx; [|done].
      intros (a1 & -> & (a2 & -> & (a3 & -> & (a4 & -> & (a5 & -> &
        (a6 & -> & H)%cons_fst_Some)%cons_fst_Some)%cons_fst_Some)%cons_fst_Some)%cons_fst_Some)%cons_fst_Some.
      cbn [raw_ok]. rewrite E1, E2, E3, E4, Hx. eapply IH; [|done]. simpl; lia.
  - destruct (code c <? 32) eqn:E3; [done|].
    intros (a1 & -> & H)%cons_fst_Some. cbn [raw_ok]. rewrite E1, E2.
    rewrite (IH s1 ltac:(simpl; lia) _ _ H). lia.
Qed.

Lemma raw_ok_app (a b : string) : raw_ok a = true -> raw_ok (a +:+ b) = raw_ok b.
Proof.
  induction a as [s IH] using string_strong_ind.
  destruct s as [|c s1]; [done|]. cbn [raw_ok String.append].
  destruct (chr 34 c) eqn:E1; [done|]. destruct (chr 92 c) eqn:E2.
  - destruct s1 as [|e s2]; [done|]. cbn [String.append].
    destruct (simple_escape e); [intros; apply IH; [simpl; lia|done]|].
    destruct (chr 117 e); [|done].
    destruct s2 as [|h1 [|h2 [|h3 [|h4 s3]]]]; try done. cbn [String.append].
    intros [-> H]%andb_prop. simpl. apply IH; [simpl; lia|done].
  - intros [-> H]%andb_prop. simpl. apply IH; [simpl; lia|done].
Qed.

Lemma raw_ok_high (bs : string) :
  string_forallb (fun a => 128 <=? code a) bs = true -> raw_ok bs = true.
Proof.
  induction bs as [|c s IH]; [done|]. cbn [string_forallb raw_ok].
  intros [Hc H]%andb_prop. rewrite (IH H).
  replace (chr 34 c) with false by char_lia. replace (chr 92 c) with false by char_lia. lia.
Qed.

Lemma raw_ok_quote_ascii (c : ascii) : code c < 128 -> raw_ok (quote_ascii c) = true.
Proof. destruct c as [[][][][][][][][]]; vm_compute; congruence. Qed.

Lemma quote_chunk_high (bs : string) :
  chunk_shape (Rune bs) ->
  (exists c, bs = String c EmptyString /\ code c < 128) \/
  (string_forallb (fun a => 128 <=? code a) bs = true /\
   quote_chunk (Rune bs) =
     (if String.eqb bs line_sep then "\u2028"
      else if String.eqb bs par_sep then "\u2029" else bs)).
Proof.
  destruct bs as [|a [|b s]]; simpl; [by right|left; eauto|by right].
Qed.

Lemma raw_ok_quote (s : string) : raw_ok (quote s) = true.
Proof.
  unfold quote. induction (chunks_shape s) as [|k l Hk _ IH]; [done|].
  cbn [map sconcat]. rewrite raw_ok_app; [done|].
  destruct k as [bs|b]; [|done].
  destruct (quote_chunk_high bs Hk) as [(c & -> & Hc)|[Hh ->]].
  - by apply raw_ok_quote_ascii.
  - repeat case_if; try done. by apply raw_ok_high.
Qed.

(** ** Lemmas: quoting round trip *)

Lemma unescape_plain (c : ascii) (t : string) :
  chr 92 c = false -> unescape (String c t) = String c (unescape t).
Proof. intros H. destruct t; cbn [unescape]; [done|]. by rewrite H. Qed.

Lemma unescape_high (bs t : string) :
  string_forallb (fun a => 128 <=? code a) bs = true ->
  unescape (bs +:+ t) = bs +:+ unescape t.
Proof.
  induction bs as [|c s IH]; [done|]. cbn [string_forallb String.append].
  intros [Hc H]%andb_prop. rewrite unescape_plain by char_lia. by rewrite IH.
Qed.

Lemma unescape_quote_ascii (c : ascii) (t : string) :
  code c < 128 -> unescape (quote_ascii c +:+ t) = String c (unescape t).
Proof.
  destruct c as [[][][][][][][][]]; vm_compute code; intros H; try lia;
    try reflexivity; apply unescape_plain; reflexivity.
Qed.

Lemma unescape_quote (s : string) : unescape (quote s) = coerce s.
Proof.
  unfold quote, coerce. induction (chunks_shape s) as [|k l Hk _ IH]; [done|].
  cbn [map sconcat]. rewrite <- IH. destruct k as [bs|b]; [|reflexivity].
  destruct (quote_chunk_high bs Hk) as [(c & -> & Hc)|[Hh ->]].
  - by apply unescape_quote_ascii.
  - destruct (String.eqb_spec bs line_sep) as [->|]; [reflexivity|].
    destruct (String.eqb_spec bs par_sep) as [->|]; [reflexivity|].
    by apply unescape_high.
Qed.

(** Decoding the token of a string gives the string, invalid bytes replaced. *)
Lemma unquote_quote (s : string) : unquote (quote s) = coerce s.
Proof. unfold unquote. rewrite unescape_quote. apply coerce_idemp. Qed.

(** A string of ordinary printable ASCII is its own token. *)
Definition plain_char (c : ascii) : bool :=
  (32 <=? code c) && (code c <? 127) && negb (chr 34 c || chr 92 c || chr 60 c || chr 62 c || chr 38 c).

Lemma quote_plain (s : string) : string_forallb plain_char s = true -> quote s = s.
Proof.
  unfold quote. induction s as [|c s IH]; [done|].
  cbn [string_forallb]. intros [Hc H]%andb_prop. cbn [chunks].
  rewrite (proj2 (Z.ltb_lt (code c) 128)) by (unfold plain_char in Hc; lia).
  cbn [map sconcat quote_chunk]. rewrite IH by done.
  unfold quote_ascii, plain_char in *.
  repeat match goal with
         | |- context [if ?b then _ else _] =>
             replace b with false by (unfold chr in *; lia)
         end.
  done.
Qed.

(** ** Lemmas: HTML escaping *)

Lemma html_escape_plain (c : ascii) (t : string) :
  chr 60 c || chr 62 c || chr 38 c || chr 226 c = false ->
  html_escape (String c t) = String c (html_escape t).
Proof.
  intros H. cbn [html_escape].
  replace (chr 60 c || chr 62 c || chr 38 c) with false by char_lia.
  destruct t as [|d [|e s]]; try done.
  replace (chr 226 c) with false by char_lia. done.
Qed.

Lemma hex_plain (c : ascii) :
  is_hex c = true -> chr 60 c || chr 62 c || chr 38 c || chr 226 c = false.
Proof. char_lia. Qed.

Lemma raw_ok_u00 (c : ascii) (t : string) :
  chr 60 c || chr 62 c || chr 38 c = true -> raw_ok (u00 c +:+ t) = raw_ok t.
Proof. intros H. apply raw_ok_app. revert H. by destruct c as [[][][][][][][][]]. Qed.

Lemma raw_ok_html_escape (s : string) : raw_ok s = true -> raw_ok (html_escape s) = true.
Proof.
  induction s as [s IH] using string_strong_ind. destruct s as [|c s1]; [done|].
  intros Hok. pose proof Hok as Hok'. cbn [raw_ok] in Hok'.
  destruct (chr 34 c) eqn:E1; [done|]. destruct (chr 92 c) eqn:E2.
  - destruct s1 as [|e s2]; [done|].
    rewrite html_escape_plain by char_lia.
    destruct (simple_escape e) eqn:E3.
    + rewrite html_escape_plain by char_lia. cbn [raw_ok].
      rewrite E1, E2, E3. apply IH; [simpl; lia|done].
    + destruct (chr 117 e) eqn:E4; [|done].
      destruct s2 as [|h1 [|h2 [|h3 [|h4 s3]]]]; try done.
      apply andb_prop in Hok' as [Hx Hok'].
      rewrite (html_escape_plain e) by char_lia.
      assert (Hx' := Hx). apply andb_prop in Hx' as [[[]%andb_prop]%andb_prop].
      rewrite !html_escape_plain by (apply hex_plain; done). cbn [raw_ok].
      rewrite E1, E2, E3, E4, Hx. apply IH; [simpl; lia|done].
  - apply andb_prop in Hok' as [Hc Hok']. cbn [html_escape].
    destruct (chr 60 c || chr 62 c || chr 38 c) eqn:E3.
    { rewrite raw_ok_u00 by done. apply IH; [simpl; lia|done]. }
    assert (Hplain : raw_ok (String c (html_escape s1)) = true).
    { cbn [raw_ok]. rewrite E1, E2, Hc. apply IH; [simpl; lia|done]. }
    destruct s1 as [|d [|e s3]]; [done..|].
    assert (Hs3 : chr 128 d && (chr 168 e || chr 169 e) = true -> raw_ok (html_escape s3) = true).
    { intros Hd. apply IH; [simpl; lia|]. cbn [raw_ok] in Hok'.
      replace (chr 34 d) with false in Hok' by char_lia.
      replace (chr 92 d) with false in Hok' by char_lia.
      replace (chr 34 e) with false in Hok' by char_lia.
      replace (chr 92 e) with false in Hok' by char_lia.
      by apply andb_prop in Hok' as [_ [_ ?]%andb_prop]. }
    repeat case_if; try done; rewrite raw_ok_app by done; apply Hs3; char_lia.
Qed.

(** ** Lemmas: integers *)

Lemma atoi_itoa (z : Z) : atoi (itoa z) = Some z.
Proof. unfold atoi, itoa. rewrite NilEmpty.isi. simpl. by rewrite DecimalZ.of_to. Qed.

Lemma uint_digits (d : Decimal.uint) :
  string_forallb is_digit (NilEmpty.string_of_uint d) = true.
Proof. by induction d. Qed.

Lemma span_all f (s t : string) :
  string_forallb f s = true ->
  match t with EmptyString => True | String c _ => f c = false end ->
  span f (s +:+ t) = (s, t).
Proof.
  intros Hs Ht. induction s as [|c s IH]; simpl.
  - destruct t as [|c t]; [done|]. simpl. by rewrite Ht.
  - cbn [string_forallb] in Hs. apply andb_prop in Hs as [-> Hs]. by rewrite IH.
Qed.

Lemma span_forallb f (s : string) : string_forallb f (span f s).1 = true.
Proof.
  induction s as [|c s IH]; [done|]. cbn [span].
  destruct (f c) eqn:E; cbn; [by rewrite E|done].
Qed.

Lemma digits1_uint (d : Decimal.uint) :
  d <> Decimal.Nil -> digits1 (NilEmpty.string_of_uint d) = Some EmptyString.
Proof.
  intros Hd. unfold digits1.
  rewrite <- (string_app_nil_r (NilEmpty.string_of_uint d)), span_all by (done || apply uint_digits).
  destruct d; done.
Qed.

Lemma int_part_digits (d : Decimal.uint) (c : ascii) (s : string) :
  NilEmpty.string_of_uint d = String c s -> chr 48 c = false ->
  int_part (NilEmpty.string_of_uint d) = true.
Proof.
  intros E Hc. rewrite E. unfold int_part. rewrite Hc, <- E, digits1_uint; [done|].
  by intros ->.
Qed.

Lemma nzhead_not_D0 (d u : Decimal.uint) : Decimal.nzhead d <> Decimal.D0 u.
Proof. induction d; simpl; done. Qed.

(** A normalised decimal has no leading zero. *)
Lemma int_part_uint (d : Decimal.uint) :
  Decimal.unorm d = d -> int_part (NilEmpty.string_of_uint d) = true.
Proof.
  intros Hn. destruct d as [|d|d|d|d|d|d|d|d|d|d];
    try (eapply int_part_digits; reflexivity).
  - by vm_compute in Hn.
  - enough (d = Decimal.Nil) as -> by done.
    unfold Decimal.unorm in Hn. cbn in Hn.
    destruct (Decimal.nzhead d) eqn:E; try discriminate Hn.
    + by injection Hn.
    + by apply nzhead_not_D0 in E.
Qed.

Lemma to_int_norm (z : Z) : Decimal.norm (Z.to_int z) = Z.to_int z.
Proof. by rewrite <- DecimalZ.to_of, DecimalZ.of_to. Qed.

Lemma itoa_number (z : Z) : valid_number (itoa z) = true.
Proof.
  unfold itoa. pose proof (to_int_norm z) as Hn.
  destruct (Z.to_int z) as [u|u]; cbn [Decimal.norm NilEmpty.string_of_int] in *.
  - injection Hn as Hn. pose proof (int_part_uint u Hn) as Hi.
    pose proof (uint_digits u) as Hd. revert Hi Hd.
    destruct (NilEmpty.string_of_uint u) as [|c s]; [done|]. intros Hi Hd.
    cbn [string_forallb] in Hd. unfold valid_number.
    replace (chr 45 c) with false by char_lia. done.
  - apply int_part_uint. unfold Decimal.unorm.
    destruct (Decimal.nzhead u); try discriminate Hn; by injection Hn.
Qed.

Lemma itoa_chars (z : Z) : string_forallb num_char (itoa z) = true.
Proof.
  assert (Hu : forall u, string_forallb num_char (NilEmpty.string_of_uint u) = true)
    by (induction u; done).
  unfold itoa. destruct (Z.to_int z) as [u|u]; simpl; [done|]. by rewrite Hu.
Qed.

(** ** Lemmas: values *)

Fixpoint wf_json (j : json) : bool :=
  match j with
  | JNum lit => valid_number lit && string_forallb num_char lit
  | JStr raw => raw_ok raw
  | JArr l => forallb wf_json l
  | JObj l => forallb (fun kv => raw_ok kv.1 && wf_json kv.2) l
  | _ => true
  end.

Lemma json_nested_ind (P : json -> Prop) :
  P JNull -> (forall b, P (JBool b)) -> (forall l, P (JNum l)) -> (forall r, P (JStr r)) ->
  (forall l, Forall P l -> P (JArr l)) ->
  (forall l, Forall (fun kv => P kv.2) l -> P (JObj l)) ->
  forall j, P j.
Proof.
  intros Hn Hb Hnum Hs Ha Ho. fix IH 1. intros [|b|l|r|l|l].
  1-4: clear IH; auto.
  - apply Ha. induction l as [|x l IHl]; constructor; [apply IH|exact IHl].
  - apply Ho. induction l as [|[k x] l IHl]; constructor; [apply IH|exact IHl].
Qed.

(** What may follow a value: nothing that would prolong a number. *)
Definition delim (t : string) : Prop :=
  match t with EmptyString => True | String c _ => num_char c = false end.

Lemma skip_ws_nonspace (c : ascii) (t : string) :
  is_ws c = false -> skip_ws (String c t) = String c t.
Proof. intros H. simpl. by rewrite H. Qed.

Lemma valid_number_head (lit : string) :
  valid_number lit = true ->
  exists c t, lit = String c t /\ (chr 45 c || is_digit c = true).
Proof.
  destruct lit as [|c t]; [done|]. intros H. exists c, t. split; [done|].
  unfold valid_number in H. destruct (chr 45 c) eqn:E; [done|]. simpl.
  unfold int_part in H. destruct (chr 48 c) eqn:E0; [char_lia|].
  unfold digits1 in H. cbn [span] in H. destruct (is_digit c); done.
Qed.

(** The printed form starts with a character that opens a value. *)
Lemma print_head (j : json) :
  wf_json j = true -> exists c t, print j = String c t /\ value_char c = true.
Proof.
  destruct j as [|[]|lit|raw|l|l]; cbn [wf_json print]; intros H;
    try (eexists _, _; split; [reflexivity|reflexivity]).
  apply andb_prop in H as [H _]. destruct (valid_number_head lit H) as (c & t & -> & Hc).
  exists c, t. split; [done|]. unfold value_char. char_lia.
Qed.

Lemma print_length (j : json) : wf_json j = true -> (1 <= String.length (print j))%nat.
Proof. intros (c & t & -> & _)%print_head. simpl. lia. Qed.

Lemma commas_cons2 (x y : string) (l : list string) :
  commas (x :: y :: l) = x +:+ "," +:+ commas (y :: l).
Proof. done. Qed.

Lemma length_append (a b : string) :
  String.length (a +:+ b) = (String.length a + String.length b)%nat.
Proof. apply string_length_app. Qed.

(** A value reads back from its printed form with the fuel its length gives. *)
Definition reads (j : json) : Prop :=
  forall n t, wf_json j = true -> (2 * String.length (print j) <= n)%nat -> delim t ->
              parse_value n (print j +:+ t) = Some (j, t).

Lemma parse_elems_print (l : list json) (n : nat) (t : string) :
  l <> [] -> Forall reads l -> forallb wf_json l = true ->
  (2 * String.length (commas (map print l)) + 1 <= n)%nat ->
  parse_elems n (commas (map print l) +:+ String "]" t) = Some (l, t).
Proof.
  revert n. induction l as [|v l IH]; [done|]. intros n _ Hr Hwf Hn.
  inversion Hr as [|? ? Hv Hl]; subst. cbn [forallb] in Hwf.
  apply andb_prop in Hwf as [Hwv Hwl].
  destruct n as [|n]; [lia|]. cbn [parse_elems].
  destruct l as [|v' l]; cbn [map] in *; [cbn [commas] in *|rewrite commas_cons2 in *].
  - rewrite Hv by (done || lia). done.
  - rewrite !length_append in Hn. cbn [String.length] in Hn.
    rewrite !string_app_assoc, Hv by (done || lia).
    cbn [String.append skip_ws]. change (is_ws ",") with false. cbv iota.
    change (chr 93 ",") with false. change (chr 44 ",") with true. cbv iota.
    rewrite (IH n) by (done || lia). done.
Qed.

Definition print_member (kv : string * json) : string := quoted kv.1 +:+ ":" +:+ print kv.2.

Lemma quoted_app (raw t : string) :
  quoted raw +:+ t = String dquote (raw +:+ String dquote t).
Proof. unfold quoted. simpl. by rewrite string_app_assoc. Qed.

Lemma parse_members_print (l : list (string * json)) (n : nat) (t : string) :
  l <> [] -> Forall (fun kv => reads kv.2) l ->
  forallb (fun kv => raw_ok kv.1 && wf_json kv.2) l = true ->
  (2 * String.length (commas (map print_member l)) + 1 <= n)%nat ->
  parse_members n (commas (map print_member l) +:+ String "}" t) = Some (l, t).
Proof.
  revert n. induction l as [|[k v] l IH]; [done|]. intros n _ Hr Hwf Hn.
  inversion Hr as [|? ? Hv Hl]; subst. cbn [forallb fst snd] in *.
  apply andb_prop in Hwf as [[Hk Hwv]%andb_prop Hwl].
  destruct n as [|n]; [lia|].
  assert (Hkey : forall u, skip_ws (print_member (k, v) +:+ u) =
            String dquote (k +:+ String dquote (":" +:+ print v +:+ u))).
  { intros u. unfold print_member. cbn [fst snd].
    by rewrite string_app_assoc, quoted_app, string_app_assoc. }
  destruct l as [|kv' l]; cbn [map] in *; [cbn [commas] in *|rewrite commas_cons2 in *];
    unfold print_member at 1 in Hn; cbn [fst snd] in Hn; unfold quoted in Hn;
    rewrite ?length_append in Hn; cbn [String.length] in Hn; rewrite ?length_append in Hn;
    cbn [parse_members]; rewrite ?string_app_assoc, Hkey;
    change (chr 34 dquote) with true; cbv iota; rewrite scan_raw_ok by done;
    cbn [String.append skip_ws]; change (is_ws ":") with false;
    change (chr 58 ":") with true; cbv iota; rewrite Hv by (done || lia);
    cbn [skip_ws].
  - done.
  - change (is_ws ",") with false. change (chr 125 ",") with false.
    change (chr 44 ",") with true. cbv iota. rewrite (IH n) by (done || lia). done.
Qed.

Lemma commas_head (x : string) (l : list string) (c : ascii) (t : string) :
  x = String c t -> exists t', commas (x :: l) = String c t'.
Proof. intros ->. destruct l; simpl; eauto. Qed.

Lemma reads_all (j : json) : reads j.
Proof.
  induction j as [|b|lit|raw|l IH|l IH] using json_nested_ind;
    intros [|n] t Hwf Hn Ht;
    try (pose proof (print_length _ Hwf); lia).
  - done.
  - by destruct b.
  - cbn [wf_json print] in *. apply andb_prop in Hwf as [Hv Hc].
    pose proof (span_all num_char lit t Hc Ht) as Hspan.
    destruct (valid_number_head lit Hv) as (c & s & -> & Hhead).
    cbn [String.append] in *. cbn [parse_value].
    rewrite skip_ws_nonspace by char_lia.
    replace (chr 34 c) with false by char_lia. replace (chr 91 c) with false by char_lia.
    replace (chr 123 c) with false by char_lia.
    assert (Hno : forall a p, num_char a = false -> strip_prefix (String a p) (String c (s +:+ t)) = None).
    { intros a p Ha. cbn [strip_prefix]. destruct (Ascii.eqb_spec a c) as [->|]; [|done]. char_lia. }
    rewrite !Hno by done. cbv beta iota. rewrite Hspan. cbv beta iota. by rewrite Hv.
  - cbn [wf_json print] in *. rewrite quoted_app. cbn [parse_value skip_ws].
    change (is_ws dquote) with false. change (chr 34 dquote) with true. cbv iota.
    by rewrite scan_raw_ok.
  - cbn [wf_json print] in *. cbn [String.append parse_value].
    rewrite (skip_ws_nonspace "[") by done. change (chr 34 "[") with false.
    change (chr 91 "[") with true. cbv iota.
    destruct l as [|v l]; [done|].
    cbn [forallb] in Hwf. pose proof Hwf as [Hwv _]%andb_prop.
    destruct (print_head v Hwv) as (c & s & Hp & Hc).
    destruct (commas_head (print v) (map print l) c s Hp) as [t' Hcm].
    rewrite string_app_assoc. cbn [map] in *. rewrite Hcm at 1.
    cbn [String.append]. unfold value_char in Hc.
    rewrite skip_ws_nonspace by char_lia.
    replace (chr 93 c) with false by char_lia.
    rewrite !length_append in Hn. cbn [String.length] in Hn.
    change ("]" +:+ t) with (String "]" t).
    rewrite (parse_elems_print (v :: l)); [done|done|done|done|cbn [map]; lia].
  - cbn [wf_json print] in *. fold print_member in *.
    change (map (fun kv => quoted kv.1 +:+ ":" +:+ print kv.2) l)
      with (map print_member l) in *.
    cbn [String.append parse_value].
    rewrite (skip_ws_nonspace "{") by done. change (chr 34 "{") with false.
    change (chr 91 "{") with false. change (chr 123 "{") with true. cbv iota.
    destruct l as [|kv l]; [done|].
    destruct (commas_head (print_member kv) (map print_member l) dquote _
                (quoted_app kv.1 (":" +:+ print kv.2))) as [t' Hcm].
    rewrite string_app_assoc. cbn [map] in *. rewrite Hcm at 1.
    cbn [String.append]. rewrite skip_ws_nonspace by done.
    change (chr 125 dquote) with false. cbv iota.
    rewrite !length_append in Hn. cbn [String.length] in Hn.
    change ("}" +:+ t) with (String "}" t).
    rewrite (parse_members_print (kv :: l)); [done|done|done|done|cbn [map]; lia].
Qed.

Lemma parse_print (j : json) : wf_json j = true -> parse (print j) = Some j.
Proof.
  intros H. unfold parse.
  rewrite <- (string_app_nil_r (print j)) at 2.
  rewrite (reads_all j); [done|done| |done].
  unfold fuel_for. lia.
Qed.

(** What the parser accepts is well formed, so it prints and reads back. *)
Lemma parse_value_wf (n : nat) :
  (forall s j r, parse_value n s = Some (j, r) -> wf_json j = true) /\
  (forall s l r, parse_elems n s = Some (l, r) -> forallb wf_json l = true) /\
  (forall s l r, parse_members n s = Some (l, r) ->
                 forallb (fun kv => raw_ok kv.1 && wf_json kv.2) l = true).
Proof.
  induction n as [|n (IHv & IHe & IHm)]; [done|].
  repeat split.
  - intros s j r. cbn [parse_value]. destruct (skip_ws s) as [|c s1] eqn:Es; [done|].
    repeat case_match; intros; simplify_eq; cbn [wf_json]; eauto using scan_str_raw_ok.
    pose proof (span_forallb num_char (String c s1)) as Hsp.
    match goal with H : span _ _ = _ |- _ => rewrite H in Hsp end.
    apply andb_true_intro. done.
  - intros s l r. cbn [parse_elems].
    repeat case_match; intros; simplify_eq/=;
      repeat (apply andb_true_intro; split); eauto.
  - intros s l r. cbn [parse_members].
    repeat case_match; intros; simplify_eq/=;
      repeat (apply andb_true_intro; split); eauto using scan_str_raw_ok.
Qed.

Lemma parse_wf (s : string) (j : json) : parse s = Some j -> wf_json j = true.
Proof.
  unfold parse. destruct (parse_value _ s) as [[v r]|] eqn:E; [|done].
  destruct (skip_ws r); [|done]. intros [= ->]. by eapply parse_value_wf.
Qed.

Lemma escape_json_wf (j : json) : wf_json j = true -> wf_json (escape_json j) = true.
Proof.
  induction j as [|b|lit|raw|l IH|l IH] using json_nested_ind; try done.
  - apply raw_ok_html_escape.
  - cbn [wf_json escape_json]. induction IH as [|v l Hv _ IHl]; [done|].
    cbn [forallb map]. intros [H1 H2]%andb_prop. rewrite Hv by done. auto.
  - cbn [wf_json escape_json]. induction IH as [|[k v] l Hv _ IHl]; [done|].
    cbn [forallb map fst snd] in *. intros [[H0 H1]%andb_prop H2]%andb_prop.
    rewrite raw_ok_html_escape, Hv by done. auto.
Qed.

#[export] Hint Resolve parse_wf escape_json_wf raw_ok_quote itoa_number itoa_chars : taskq.

Lemma take_str_app (a b : string) :
  take_str (String.length (a +:+ b) - String.length b) (a +:+ b) = a.
Proof.
  rewrite length_append. replace (_ + _ - _)%nat with (String.length a) by lia.
  induction a as [|c a IH]; simpl; [by destruct b|by rewrite IH].
Qed.

Lemma raw_members_print (l : list (string * json)) (n : nat) (t : string) :
  l <> [] -> forallb (fun kv => raw_ok kv.1 && wf_json kv.2) l = true ->
  (2 * String.length (commas (map print_member l)) + 1 <= n)%nat ->
  raw_members n (commas (map print_member l) +:+ String "}" t) =
    Some (map (fun kv => (kv.1, kv.2, print kv.2)) l).
Proof.
  revert n. induction l as [|[k v] l IH]; [done|]. intros n _ Hwf Hn.
  cbn [forallb fst snd] in *. apply andb_prop in Hwf as [[Hk Hwv]%andb_prop Hwl].
  destruct n as [|n]; [lia|].
  assert (Hkey : forall u, skip_ws (print_member (k, v) +:+ u) =
            String dquote (k +:+ String dquote (":" +:+ print v +:+ u))).
  { intros u. unfold print_member. cbn [fst snd].
    by rewrite string_app_assoc, quoted_app, string_app_assoc. }
  assert (Hsp : forall u, skip_ws (print v +:+ u) = print v +:+ u).
  { intros u. destruct (print_head v Hwv) as (c & s & -> & Hc).
    cbn [String.append]. apply skip_ws_nonspace. char_lia. }
  pose proof (reads_all v) as Hv. unfold reads in Hv.
  destruct l as [|kv' l]; cbn [map] in *; [cbn [commas] in *|rewrite commas_cons2 in *];
    unfold print_member at 1 in Hn; cbn [fst snd] in Hn; unfold quoted in Hn;
    rewrite ?length_append in Hn; cbn [String.length] in Hn; rewrite ?length_append in Hn;
    cbn [raw_members]; rewrite ?string_app_assoc, Hkey, scan_raw_ok by done;
    cbn [String.append]; rewrite skip_ws_nonspace by done; cbv beta iota zeta;
    rewrite !Hsp, Hv by (done || lia); rewrite take_str_app;
    cbn [skip_ws].
  - done.
  - change (is_ws ",") with false. change (chr 125 ",") with false. cbv iota.
    rewrite (IH n) by (done || lia). done.
Qed.

Lemma object_members_print (l : list (string * json)) :
  forallb (fun kv => raw_ok kv.1 && wf_json kv.2) l = true ->
  object_members (print (JObj l)) = Some (map (fun kv => (kv.1, kv.2, print kv.2)) l).
Proof.
  intros Hwf. unfold object_members. cbn [print].
  change (map (fun kv => quoted kv.1 +:+ ":" +:+ print kv.2) l) with (map print_member l).
  cbn [String.append]. rewrite skip_ws_nonspace by done.
  destruct l as [|kv l]; [done|].
  destruct (commas_head (print_member kv) (map print_member l) dquote _
              (quoted_app kv.1 (":" +:+ print kv.2))) as [t' Hcm].
  cbn [map]. rewrite Hcm at 1. cbn [String.append].
  rewrite skip_ws_nonspace by done. change (chr 125 dquote) with false. cbv iota.
  apply (raw_members_print (kv :: l)); [done|done|].
  unfold fuel_for. cbn [String.length]. rewrite length_append. cbn [map]. lia.
Qed.
