(* ===== verification/GoTime.v ===== *)
(** * Time values on the wire

    [time.Time.MarshalJSON] of a UTC time: RFC 3339 with nanoseconds, trailing
    zeros of the fraction removed, an error outside the years 0 to 9999. *)

From S2P Require Import Prelude GoBase GoString Json.
From Stdlib Require Import Ascii.

Open Scope Z_scope.

(** Proleptic Gregorian date of a day number (days since 1970-01-01). *)
Definition civil (days : Z) : Z * Z * Z :=
  let z := days + 719468 in
  let era := z / 146097 in
  let doe := z mod 146097 in
  let yoe := (doe - doe / 1460 + doe / 36524 - doe / 146096) / 365 in
  let doy := doe - (365 * yoe + yoe / 4 - yoe / 100) in
  let mp := (5 * doy + 2) / 153 in
  let m := if mp <? 10 then mp + 3 else mp - 9 in
  (yoe + era * 400 + (if m <=? 2 then 1 else 0), m, doy - (153 * mp + 2) / 5 + 1).

(** [n] digits of [z], most significant first. *)
Fixpoint digits (n : nat) (z : Z) : string :=
  match n with
  | O => EmptyString
  | S n' => digits n' (z / 10) +:+ String (hex_digit (z mod 10)) EmptyString
  end.

Fixpoint drop_trailing_zeros (s : string) : string :=
  match s with
  | EmptyString => EmptyString
  | String c s' =>
      match drop_trailing_zeros s' with
      | EmptyString => if chr 48 c then EmptyString else String c EmptyString
      | t => String c t
      end
  end.

Definition fraction (ns : Z) : string :=
  match drop_trailing_zeros (digits 9 ns) with
  | EmptyString => EmptyString
  | f => "." +:+ f
  end.

Definition rfc3339 (t : Z) : option string :=
  let days := t / (86400 * second) in
  let rest := t mod (86400 * second) in
  let secs := rest / second in
  let '(y, m, d) := civil days in
  if (0 <=? y) && (y <=? 9999) then
    Some (digits 4 y +:+ "-" +:+ digits 2 m +:+ "-" +:+ digits 2 d +:+ "T" +:+
          digits 2 (secs / 3600) +:+ ":" +:+ digits 2 (secs / 60 mod 60) +:+ ":" +:+
          digits 2 (secs mod 60) +:+ fraction (rest mod second) +:+ "Z")
  else None.

(** The epoch, and an instant on a leap day. *)
Example rfc3339_epoch : rfc3339 0 = Some "1970-01-01T00:00:00Z".
Proof. reflexivity. Qed.

Example rfc3339_leap :
  rfc3339 (1709210096 * second + 120000000) = Some "2024-02-29T12:34:56.12Z".
Proof. reflexivity. Qed.
