(* ===== verification/Redis.v ===== *)
(** * The Redis server: the interface the queue relies on

    Redis itself is not part of the repository. [Redis] names the commands the
    Go code sends; [RedisLaws] states, in terms of the logical key space, the
    documented behaviour of each command on a key that is absent or holds the
    type the command works on. Nothing is assumed about a key of another type
    (Redis answers WRONGTYPE): [well_typed] in [Abstract.v] rules that out.
    [RefRedis] is a concrete server satisfying the laws. *)

From S2P Require Import Prelude GoBase GoString Json.

Open Scope Z_scope.

(** ** The key space *)

(** A score is an integer-valued double (all scores of this program are). *)
Inductive rval :=
  | VString (v : string) (deadline : option Z)
  | VZSet (z : gmap string Z)
  | VHash (h : gmap string string)
  | VList (l : list string).

Abbreviation keyspace := (gmap string rval).

Definition get_zset (ks : keyspace) (k : string) : option (gmap string Z) :=
  match ks !! k with None => Some ∅ | Some (VZSet z) => Some z | Some _ => None end.
Definition get_hash (ks : keyspace) (k : string) : option (gmap string string) :=
  match ks !! k with None => Some ∅ | Some (VHash h) => Some h | Some _ => None end.
Definition get_list (ks : keyspace) (k : string) : option (list string) :=
  match ks !! k with None => Some [] | Some (VList l) => Some l | Some _ => None end.

(** An aggregate that becomes empty is removed with its key. *)
Definition put_zset (k : string) (z : gmap string Z) (ks : keyspace) : keyspace :=
  if decide (z = ∅) then delete k ks else <[k := VZSet z]> ks.
Definition put_hash (k : string) (h : gmap string string) (ks : keyspace) : keyspace :=
  if decide (h = ∅) then delete k ks else <[k := VHash h]> ks.

(** Sorted-set order: by score, then by member (byte order). *)
Definition zle (a b : string * Z) : Prop :=
  a.2 < b.2 \/ a.2 = b.2 /\ String.le a.1 b.1.

#[export] Instance zle_dec : RelDecision zle.
Proof. intros a b. unfold zle. apply _. Defined.

Definition zsorted (z : gmap string Z) : list (string * Z) :=
  merge_sort zle (map_to_list z).

(** The members with a score of at most [max], in order. *)
Definition zupto (max : Z) (z : gmap string Z) : list string :=
  map fst (filter (fun p => p.2 <= max) (zsorted z)).

(** An expiry given to the client as a duration (nanoseconds) is sent in whole
    milliseconds, at least one; zero or less means none. *)
Definition deadline_of (now expiration : Z) : option Z :=
  if 0 <? expiration then Some (now + Z.max 1 (expiration / 10 ^ 6) * 10 ^ 6) else None.

(** Is the key present for a client asking at time [now]? *)
Definition live (now : Z) (ks : keyspace) (k : string) : bool :=
  match ks !! k with
  | Some (VString _ (Some d)) => now <? d
  | Some _ => true
  | None => false
  end.

Definition has_deadline (v : rval) : bool :=
  match v with VString _ (Some _) => true | _ => false end.

(** A literal glob prefix: no special character. *)
Definition glob_literal (p : string) : bool :=
  string_forallb (fun c => negb (chr 42 c || chr 63 c || chr 91 c || chr 92 c)) p.

(** What a script answers to the client: a bulk string or an integer ([nil]
    reaches the Go code as the error [redis.Nil]). *)
Inductive reply := RBulk (s : string) | RInt (n : Z).

(** ** The interface *)

Class Redis := {
  rstate : Type;
  keyspace_of : rstate -> keyspace;
  published : rstate -> list (string * string);   (* channel, message: oldest first *)
  ZADD : string -> Z -> string -> rstate -> res Z * rstate;
  ZREM : string -> string -> rstate -> res Z * rstate;
  ZPOPMIN : string -> Z -> rstate -> res (list (string * Z)) * rstate;
  ZRANGEBYSCORE : string -> Z -> nat -> nat -> rstate -> res (list string) * rstate;
  ZCARD : string -> rstate -> res Z * rstate;
  HSET : string -> string -> string -> rstate -> res Z * rstate;
  HDEL : string -> string -> rstate -> res Z * rstate;
  HGETALL : string -> rstate -> res (gmap string string) * rstate;
  DEL : string -> rstate -> res Z * rstate;
  RPUSH : string -> string -> rstate -> res Z * rstate;
  LLEN : string -> rstate -> res Z * rstate;
  SET : string -> string -> Z -> Z -> rstate -> res unit * rstate;
  EXISTS : string -> Z -> rstate -> res Z * rstate;
  SCAN : Z -> string -> Z -> rstate -> res (list string * Z) * rstate;
  PUBLISH : string -> string -> rstate -> res Z * rstate;
  PING : rstate -> res unit * rstate;
  cjson_decode_id : string -> res string;         (* cjson.decode(m).id in a script *)
}.

(** [f] succeeds on [r] with an answer satisfying [P] and leaves the key space
    [ks]; no message is published. *)
Definition replies {R : Redis} {X} (f : rstate -> res X * rstate) (r : rstate)
    (P : X -> Prop) (ks : keyspace) : Prop :=
  exists x r', f r = (Ok x, r') /\ P x /\ keyspace_of r' = ks /\ published r' = published r.

(** [f] is a read: it answers and leaves the data alone. *)
Definition answers {R : Redis} {X} (f : rstate -> res X * rstate) (r : rstate) (x : X) : Prop :=
  f r = (Ok x, r).

(** The pages a full iteration of SCAN returns from a cursor on. *)
Inductive scan_trace {R : Redis} (r : rstate) (pat : string) (count : Z) :
    nat -> Z -> list string -> Prop :=
  | scan_last cur ks :
      answers (SCAN cur pat count) r (ks, 0) ->
      scan_trace r pat count 1 cur ks
  | scan_more n cur cur' ks ks' :
      cur' <> 0 ->
      answers (SCAN cur pat count) r (ks, cur') ->
      scan_trace r pat count n cur' ks' ->
      scan_trace r pat count (S n) cur (ks ++ ks').

Class RedisLaws (R : Redis) : Prop := {
  zadd_law r k s m z :
    get_zset (keyspace_of r) k = Some z ->
    replies (ZADD k s m) r (fun _ => True) (put_zset k (<[m := s]> z) (keyspace_of r));
  zrem_law r k m z :
    get_zset (keyspace_of r) k = Some z ->
    replies (ZREM k m) r (fun _ => True) (put_zset k (delete m z) (keyspace_of r));
  zpopmin_law r k z :
    get_zset (keyspace_of r) k = Some z ->
    replies (ZPOPMIN k 1) r (fun l => l = take 1 (zsorted z))
      (match zsorted z with
       | [] => keyspace_of r
       | (m, _) :: _ => put_zset k (delete m z) (keyspace_of r)
       end);
  zrangebyscore_law r k max count z :
    get_zset (keyspace_of r) k = Some z ->
    answers (ZRANGEBYSCORE k max 0 count) r (take count (zupto max z));
  zcard_law r k z :
    get_zset (keyspace_of r) k = Some z -> answers (ZCARD k) r (Z.of_nat (size z));
  hset_law r k f v h :
    get_hash (keyspace_of r) k = Some h ->
    replies (HSET k f v) r (fun _ => True) (put_hash k (<[f := v]> h) (keyspace_of r));
  hdel_law r k f h :
    get_hash (keyspace_of r) k = Some h ->
    replies (HDEL k f) r (fun _ => True) (put_hash k (delete f h) (keyspace_of r));
  hgetall_law r k h :
    get_hash (keyspace_of r) k = Some h -> answers (HGETALL k) r h;
  del_law r k :
    replies (DEL k) r (fun _ => True) (delete k (keyspace_of r));
  rpush_law r k v l :
    get_list (keyspace_of r) k = Some l ->
    replies (RPUSH k v) r (fun _ => True) (<[k := VList (l ++ [v])]> (keyspace_of r));
  llen_law r k l :
    get_list (keyspace_of r) k = Some l -> answers (LLEN k) r (Z.of_nat (length l));
  set_law r k v expiration now :
    replies (SET k v expiration now) r (fun _ => True)
      (<[k := VString v (deadline_of now expiration)]> (keyspace_of r));
  exists_law r k now :
    answers (EXISTS k now) r (if live now (keyspace_of r) k then 1 else 0);
  scan_law r p count :
    glob_literal p = true ->
    exists n ks, scan_trace r (p +:+ "*") count n 0 ks /\
      (forall k, k ∈ ks -> is_Some (keyspace_of r !! k) /\ has_prefix p k = true) /\
      (forall k v, keyspace_of r !! k = Some v -> has_deadline v = false ->
                   has_prefix p k = true -> k ∈ ks);
  scan_read r cur pat count : (SCAN cur pat count r).2 = r;
  publish_law r ch msg :
    exists n r', PUBLISH ch msg r = (Ok n, r') /\
                 keyspace_of r' = keyspace_of r /\
                 published r' = published r ++ [(ch, msg)];
  ping_law r : answers PING r tt;
  cjson_law m fs raw :
    parse m = Some (JObj fs) ->
    omap (fun kv => if decide (unquote kv.1 = "id") then Some kv.2 else None) fs = [JStr raw] ->
    string_forallb plain_char raw = true ->
    cjson_decode_id m = Ok raw;
}.

(** ** Sorted sets *)

#[export] Instance zle_total : Total zle.
Proof.
  intros [m s] [m' s']. unfold zle. simpl.
  destruct (Z.lt_trichotomy s s') as [|[->|]]; auto.
  destruct (total String.le m m'); auto.
Qed.

#[export] Instance zle_trans : Transitive zle.
Proof.
  intros [m s] [m' s'] [m'' s'']. unfold zle. simpl.
  intros [|[-> ?]] [|[<- ?]]; auto; [left; lia|]. right. split; [done|]. by etransitivity.
Qed.

#[export] Instance zle_antisymm : AntiSymm eq zle.
Proof.
  intros [m s] [m' s']. unfold zle. simpl.
  intros [|[-> ?]] [|[? ?]]; try lia. f_equal. by apply (anti_symm String.le).
Qed.

Lemma zsorted_permutation (z : gmap string Z) : zsorted z ≡ₚ map_to_list z.
Proof. apply merge_sort_Permutation. Qed.

Lemma zsorted_sorted (z : gmap string Z) : StronglySorted zle (zsorted z).
Proof. apply StronglySorted_merge_sort; apply _. Qed.

Lemma elem_of_zsorted (z : gmap string Z) m s : (m, s) ∈ zsorted z <-> z !! m = Some s.
Proof. rewrite zsorted_permutation. apply elem_of_map_to_list. Qed.

Lemma zsorted_nil (z : gmap string Z) : zsorted z = [] <-> z = ∅.
Proof.
  pose proof (zsorted_permutation z) as P. split.
  - intros H. rewrite H in P. by apply map_to_list_empty_iff, Permutation_nil.
  - intros ->. rewrite map_to_list_empty in P. by apply Permutation_nil.
Qed.

(** The first member has the least score, and among those the least name. *)
Lemma zsorted_head (z : gmap string Z) m s l m' s' :
  zsorted z = (m, s) :: l -> z !! m' = Some s' -> zle (m, s) (m', s').
Proof.
  intros E H%elem_of_zsorted. pose proof (zsorted_sorted z) as Hs. rewrite E in *.
  apply elem_of_cons in H as [[= -> ->]|H]; [by right|].
  inversion Hs as [|? ? _ Hall]; subst.
  rewrite Forall_forall in Hall. by apply Hall.
Qed.

Lemma zsorted_head_lookup (z : gmap string Z) m s l :
  zsorted z = (m, s) :: l -> z !! m = Some s.
Proof. intros E. apply elem_of_zsorted. rewrite E. left. Qed.

Lemma zsorted_tail (z : gmap string Z) m s l :
  zsorted z = (m, s) :: l -> zsorted (delete m z) = l.
Proof.
  intros E. pose proof (zsorted_sorted z) as Hs. rewrite E in Hs.
  inversion Hs as [|? ? Hl _]; subst.
  eapply (StronglySorted_unique zle); [apply zsorted_sorted|done|].
  apply (Permutation_cons_inv (a := (m, s))).
  rewrite <- E, !zsorted_permutation.
  apply map_to_list_delete. by eapply zsorted_head_lookup.
Qed.

Lemma elem_of_zupto max (z : gmap string Z) m :
  m ∈ zupto max z <-> exists s, z !! m = Some s /\ s <= max.
Proof.
  unfold zupto. rewrite list_elem_of_In, in_map_iff. split.
  - intros ([m' s] & <- & H). apply list_elem_of_In, list_elem_of_filter in H as [Hs H].
    apply elem_of_zsorted in H. eauto.
  - intros (s & H & Hs). exists (m, s). split; [done|].
    apply list_elem_of_In, list_elem_of_filter. split; [done|]. by apply elem_of_zsorted.
Qed.

Lemma zupto_nodup max (z : gmap string Z) : NoDup (zupto max z).
Proof.
  unfold zupto. apply NoDup_fmap_2_strong.
  - intros [m s] [m' s'] H H' Heq. simpl in Heq. subst m'.
    apply list_elem_of_filter in H as [_ H%elem_of_zsorted].
    apply list_elem_of_filter in H' as [_ H'%elem_of_zsorted]. simpl in *. congruence.
  - apply NoDup_filter. rewrite zsorted_permutation. apply NoDup_map_to_list.
Qed.

(** ** Key space views *)

Lemma lookup_put_zset k k' z ks :
  put_zset k z ks !! k' =
    if decide (k = k') then (if decide (z = ∅) then None else Some (VZSet z)) else ks !! k'.
Proof.
  unfold put_zset. repeat case_decide; subst;
    by rewrite ?lookup_delete_eq, ?lookup_insert_eq, ?lookup_delete_ne, ?lookup_insert_ne.
Qed.

Lemma lookup_put_hash k k' h ks :
  put_hash k h ks !! k' =
    if decide (k = k') then (if decide (h = ∅) then None else Some (VHash h)) else ks !! k'.
Proof.
  unfold put_hash. repeat case_decide; subst;
    by rewrite ?lookup_delete_eq, ?lookup_insert_eq, ?lookup_delete_ne, ?lookup_insert_ne.
Qed.
