(* ===== verification/RefRedis.v ===== *)
(** * A reference Redis server

    A concrete instance of [Redis] satisfying [RedisLaws]: the key space is a
    finite map and SCAN answers in one page. It shows that the laws can hold
    together, and it runs the witnesses of the other files. *)

From S2P Require Import Prelude GoBase GoString Json Redis.
From Stdlib Require Import Ascii.

Open Scope Z_scope.

Record ref_state := RefState {
  ref_keys : keyspace;
  ref_pub : list (string * string)
}.

Definition wrongtype : error :=
  ErrText "WRONGTYPE Operation against a key holding the wrong kind of value".

Definition with_keys (r : ref_state) (ks : keyspace) : ref_state :=
  RefState ks (ref_pub r).

(** Run [f] on the value a key holds, if it is of the right type. *)
Definition on_zset {X} (k : string) (f : gmap string Z -> res X * ref_state)
    (r : ref_state) : res X * ref_state :=
  match get_zset (ref_keys r) k with Some z => f z | None => (Err wrongtype, r) end.
Definition on_hash {X} (k : string) (f : gmap string string -> res X * ref_state)
    (r : ref_state) : res X * ref_state :=
  match get_hash (ref_keys r) k with Some h => f h | None => (Err wrongtype, r) end.
Definition on_list {X} (k : string) (f : list string -> res X * ref_state)
    (r : ref_state) : res X * ref_state :=
  match get_list (ref_keys r) k with Some l => f l | None => (Err wrongtype, r) end.

(** The literal before a trailing star. *)
Fixpoint drop_star (pat : string) : option string :=
  match pat with
  | EmptyString => None
  | String c EmptyString => if chr 42 c then Some EmptyString else None
  | String c pat' => String c <$> drop_star pat'
  end.

Definition glob_match (pat k : string) : bool :=
  match drop_star pat with
  | Some p => has_prefix p k
  | None => bool_decide (pat = k)
  end.

Definition decode_id (m : string) : res string :=
  match parse m with
  | Some (JObj fs) =>
      match last (omap (fun kv => if decide (unquote kv.1 = "id") then Some kv.2 else None) fs) with
      | Some (JStr raw) => Ok (unquote raw)
      | _ => Err (ErrText "Lua redis lib command arguments must be strings or integers")
      end
  | _ => Err (ErrText "Expected value but found invalid token")
  end.

#[export] Instance RefRedis : Redis := {
  rstate := ref_state;
  keyspace_of := ref_keys;
  published := ref_pub;
  ZADD k s m r := on_zset k (fun z =>
    (Ok (if decide (m ∈ dom z) then 0 else 1),
     with_keys r (put_zset k (<[m := s]> z) (ref_keys r)))) r;
  ZREM k m r := on_zset k (fun z =>
    (Ok (if decide (m ∈ dom z) then 1 else 0),
     with_keys r (put_zset k (delete m z) (ref_keys r)))) r;
  ZPOPMIN k count r := on_zset k (fun z =>
    (Ok (take (Z.to_nat count) (zsorted z)),
     match take (Z.to_nat count) (zsorted z) with
     | [] => r
     | l => with_keys r (put_zset k (foldr (fun p z' => delete p.1 z') z l) (ref_keys r))
     end)) r;
  ZRANGEBYSCORE k max offset count r := on_zset k (fun z =>
    (Ok (take count (drop offset (zupto max z))), r)) r;
  ZCARD k r := on_zset k (fun z => (Ok (Z.of_nat (size z)), r)) r;
  HSET k f v r := on_hash k (fun h =>
    (Ok (if decide (f ∈ dom h) then 0 else 1),
     with_keys r (put_hash k (<[f := v]> h) (ref_keys r)))) r;
  HDEL k f r := on_hash k (fun h =>
    (Ok (if decide (f ∈ dom h) then 1 else 0),
     with_keys r (put_hash k (delete f h) (ref_keys r)))) r;
  HGETALL k r := on_hash k (fun h => (Ok h, r)) r;
  DEL k r :=
    (Ok (if decide (k ∈ dom (ref_keys r)) then 1 else 0), with_keys r (delete k (ref_keys r)));
  RPUSH k v r := on_list k (fun l =>
    (Ok (Z.of_nat (length l) + 1), with_keys r (<[k := VList (l ++ [v])]> (ref_keys r)))) r;
  LLEN k r := on_list k (fun l => (Ok (Z.of_nat (length l)), r)) r;
  SET k v expiration now r :=
    (Ok tt, with_keys r (<[k := VString v (deadline_of now expiration)]> (ref_keys r)));
  EXISTS k now r := (Ok (if live now (ref_keys r) k then 1 else 0), r);
  SCAN cur pat count r :=
    (Ok (filter (fun k => glob_match pat k = true) (map fst (map_to_list (ref_keys r))), 0), r);
  PUBLISH ch msg r := (Ok 0, RefState (ref_keys r) (ref_pub r ++ [(ch, msg)]));
  PING r := (Ok tt, r);
  cjson_decode_id := decode_id;
}.

(** The empty server. *)
Definition ref_empty : ref_state := RefState ∅ [].

Lemma drop_star_app (p : string) : drop_star (p +:+ "*") = Some p.
Proof.
  induction p as [|c p IH]; [done|].
  change (String c p +:+ "*") with (String c (p +:+ "*")).
  cbn [drop_star]. rewrite IH. destruct p; done.
Qed.

Lemma unquote_plain (s : string) : string_forallb plain_char s = true -> unquote s = s.
Proof.
  intros H. rewrite <- (quote_plain s H) at 1. rewrite unquote_quote.
  apply coerce_valid, valid_utf8_ascii. induction s as [|c s IH]; [done|].
  cbn [string_forallb] in *. apply andb_prop in H as [Hc H].
  rewrite IH by done. unfold plain_char in Hc. lia.
Qed.

#[local] Ltac ref_law := eexists _, _; repeat split; simpl; trivial.

#[export] Instance RefRedis_laws : RedisLaws RefRedis.
Proof.
  split; simpl; intros; unfold answers, replies; simpl;
    unfold on_zset, on_hash, on_list;
    repeat match goal with H : get_zset _ _ = Some _ |- _ => rewrite H
                         | H : get_hash _ _ = Some _ |- _ => rewrite H
                         | H : get_list _ _ = Some _ |- _ => rewrite H end;
    try done; try (by ref_law).
  - destruct (zsorted z) as [|[m s] l]; ref_law.
  - exists 1%nat, (filter (fun k => glob_match (p +:+ "*") k = true)
                     (map fst (map_to_list (ref_keys r)))).
    split; [by constructor|]. unfold glob_match. rewrite drop_star_app. split.
    + intros k [Hp Hk]%list_elem_of_filter. split; [|done].
      apply list_elem_of_fmap in Hk as ([k' v] & -> & Hk).
      apply elem_of_map_to_list in Hk. eauto.
    + intros k v Hk _ Hp. apply list_elem_of_filter. split; [done|].
      apply list_elem_of_fmap. exists (k, v). split; [done|].
      by apply elem_of_map_to_list.
  - unfold decode_id. rewrite H, H0. simpl. by rewrite unquote_plain.
Qed.
