(* ===== verification/Task.v ===== *)
(** * The task domain model ([internal/task/task.go])

    Identifiers, statuses, the [Task] record and the [Event] broadcast on a
    state change. The registry and the handlers are in [Handlers.v]. *)

From S2P Require Import Prelude GoBase GoString Json.

Open Scope Z_scope.

(** ** Identifiers

    [github.com/google/uuid] is a library: an abstract type with the operations
    the program calls, whose documented behaviour is that the textual form is
    made of hexadecimal digits and dashes and parses back. *)

Class Uuid := {
  uuid : Type;
  uuid_eq_dec :: EqDecision uuid;
  uuid_countable :: Countable uuid;
  uuid_Nil : uuid;
  uuid_String : uuid -> string;
  uuid_Parse : string -> option uuid;
}.

Class UuidLaws (U : Uuid) : Prop := {
  uuid_parse_string u : uuid_Parse (uuid_String u) = Some u;
  uuid_string_plain u : string_forallb plain_char (uuid_String u) = true;
}.

(** ** Statuses: a Go [string] type with named constants *)

Definition StatusQueued : string := "queued".
Definition StatusRunning : string := "running".
Definition StatusSucceeded : string := "succeeded".
Definition StatusFailed : string := "failed".
Definition StatusRetrying : string := "retrying".
Definition StatusDead : string := "dead".
Definition StatusCanceled : string := "canceled".

(** ** Records *)

(** A [json.RawMessage] is a byte slice: [None] is the nil slice. *)
Abbreviation RawMessage := (option string).

(** [len(m) == 0]. *)
Definition raw_empty (m : RawMessage) : bool :=
  match m with None | Some EmptyString => true | Some _ => false end.

(** Times are nanoseconds since the Unix epoch; [time.Time{}] is the first
    instant of year one. *)
Definition zero_time : Z := - 62135596800 * second.

Record Task {U : Uuid} := MkTask {
  ID : uuid;
  Type_ : string;
  Payload : RawMessage;
  Priority : Z;
  Status : string;
  Attempts : Z;
  MaxAttempts : Z;
  AvailableAt : Z;
  StartedAt : option Z;
  FinishedAt : option Z;
  WorkerID : option string;
  Result : RawMessage;
  LastError : string;
  CreatedAt : Z;
  UpdatedAt : Z
}.
Arguments MkTask {U}.

Record Event {U : Uuid} := MkEvent {
  ev_TaskID : uuid;
  ev_Type : string;
  ev_Status : string;
  ev_WorkerID : string;
  ev_Message : string;
  ev_Timestamp : Z
}.
Arguments MkEvent {U}.

(** ** A reference identifier type: numbers in decimal *)

#[export] Instance RefUuid : Uuid := {
  uuid := N;
  uuid_Nil := 0%N;
  uuid_String u := itoa (Z.of_N u);
  uuid_Parse s := Z.to_N <$> atoi s;
}.

Lemma num_char_plain (s : string) :
  string_forallb num_char s = true -> string_forallb plain_char s = true.
Proof.
  induction s as [|c s IH]; [done|]. cbn [string_forallb].
  intros [Hc H]%andb_prop. rewrite (IH H), andb_true_r.
  unfold plain_char. char_lia.
Qed.

#[export] Instance RefUuid_laws : UuidLaws RefUuid.
Proof.
  split; simpl; intros u.
  - rewrite atoi_itoa. simpl. by rewrite N2Z.id.
  - apply num_char_plain, itoa_chars.
Qed.

Lemma uuid_String_inj {U : Uuid} {UL : UuidLaws U} (u v : uuid) :
  uuid_String u = uuid_String v -> u = v.
Proof.
  intros H. pose proof (uuid_parse_string u) as Hu.
  rewrite H, uuid_parse_string in Hu. congruence.
Qed.

#[export] Hint Resolve uuid_string_plain : taskq.
