(* ===== verification/Db.v ===== *)
(** * The database: tables and statements ([migrations/0001_init.sql])

    The tables of the schema as records, and the shape of an SQL statement:
    a function of the server's environment (its clock and the order in which it
    happens to visit rows) that answers or fails, a failing statement or
    transaction leaving the tables as they were. The statements themselves are
    written in [Store.v] next to the Go methods that send them.

    PostgreSQL's own data types are the class [Postgres]: the text form of a
    JSONB value after storage, the strings TEXT accepts and the precision of
    TIMESTAMPTZ. *)

From S2P Require Import Prelude GoBase GoString Json Task.

Open Scope Z_scope.

Class Postgres := {
  jsonb_in : string -> option string;  (* the stored value, printed; None: rejected *)
  text_ok : string -> bool;            (* is the string storable as TEXT? *)
  timestamptz_in : Z -> Z;             (* the instant as stored *)
}.

Class PostgresLaws (P : Postgres) : Prop := {
  jsonb_empty_object : jsonb_in "{}" = Some "{}";
  jsonb_null : jsonb_in "null" = Some "null";
  jsonb_nonempty s t : jsonb_in s = Some t -> t <> EmptyString;
  jsonb_stored s t : jsonb_in s = Some t -> jsonb_in t = Some t;
  text_printable s :
    string_forallb (fun c => (32 <=? code c) && (code c <? 127)) s = true -> text_ok s = true;
}.

(** ** Tables *)

Record TaskRow := MkTaskRow {
  row_type : string;
  row_payload : string;
  row_priority : Z;
  row_status : string;
  row_attempts : Z;
  row_max_attempts : Z;
  row_available_at : Z;
  row_started_at : option Z;
  row_finished_at : option Z;
  row_worker_id : option string;
  row_result : option string;
  row_last_error : string;
  row_created_at : Z;
  row_updated_at : Z
}.

Record WorkerRow := MkWorkerRow {
  w_hostname : string;
  w_status : string;
  w_last_heartbeat : Z;
  w_started_at : Z
}.

Record EventRow {U : Uuid} := MkEventRow {
  er_id : Z;
  er_task_id : uuid;
  er_event_type : string;
  er_message : string;
  er_created_at : Z
}.
Arguments MkEventRow {U}.

Record DeadRow {U : Uuid} := MkDeadRow {
  dr_id : Z;
  dr_task_id : uuid;
  dr_reason : string;
  dr_payload : string;
  dr_failed_at : Z
}.
Arguments MkDeadRow {U}.

(** The tables; [event_seq] and [dead_seq] are the next values of the two
    BIGSERIAL sequences (gaps after a failed statement are not modelled). *)
Record db {U : Uuid} := MkDb {
  tasks : gmap uuid TaskRow;
  workers : gmap string WorkerRow;
  task_events : list EventRow;
  event_seq : Z;
  dead_letters : list DeadRow;
  dead_seq : Z
}.
Arguments MkDb {U}.

Definition empty_db {U : Uuid} : db := MkDb ∅ ∅ [] 1 [] 1.

(** ** Statements *)

Record sqlenv := SqlEnv {
  sql_now : Z;
  sql_order : forall A : Type, list A -> list A
}.

Definition stmt {U : Uuid} (X : Type) : Type := sqlenv -> db -> res X * db.

(** INTEGER columns hold 32 bits. *)
Definition int4_ok (z : Z) : bool := (- 2 ^ 31 <=? z) && (z <? 2 ^ 31).

Section Statements.
Context {U : Uuid}.

Definition set_tasks (t : gmap uuid TaskRow) (d : db) : db :=
  MkDb t (workers d) (task_events d) (event_seq d) (dead_letters d) (dead_seq d).
Definition set_workers (w : gmap string WorkerRow) (d : db) : db :=
  MkDb (tasks d) w (task_events d) (event_seq d) (dead_letters d) (dead_seq d).
Definition add_event (id : uuid) (typ msg : string) (at_ : Z) (d : db) : db :=
  MkDb (tasks d) (workers d) (task_events d ++ [MkEventRow (event_seq d) id typ msg at_])
       (event_seq d + 1) (dead_letters d) (dead_seq d).
Definition add_dead (id : uuid) (reason payload : string) (at_ : Z) (d : db) : db :=
  MkDb (tasks d) (workers d) (task_events d) (event_seq d)
       (dead_letters d ++ [MkDeadRow (dead_seq d) id reason payload at_]) (dead_seq d + 1).

Definition sql_error {X} : res X := Err (ErrText "ERROR: invalid value (SQLSTATE 22000)").

(** A transaction: on an error everything is rolled back. *)
Definition sql_tx {X} (body : stmt X) : stmt X := fun e d =>
  match body e d with
  | (Ok x, d') => (Ok x, d')
  | (Err err, _) => (Err err, d)
  end.

Definition sql_bind {X Y} (s : stmt X) (k : X -> stmt Y) : stmt Y := fun e d =>
  match s e d with
  | (Ok x, d') => k x e d'
  | (Err err, d') => (Err err, d')
  end.

End Statements.

(** ** A reference PostgreSQL: JSON text is validated and printed compactly *)

#[export] Instance RefPostgres : Postgres := {
  jsonb_in s := option_map print (parse s);
  text_ok s := valid_utf8 s && string_forallb (fun c => negb (code c =? 0)) s;
  timestamptz_in t := t / 1000 * 1000;
}.

Lemma valid_utf8_printable (s : string) :
  string_forallb (fun c => (32 <=? code c) && (code c <? 127)) s = true ->
  text_ok s = true.
Proof.
  intros H. simpl. rewrite valid_utf8_ascii.
  - simpl. induction s as [|c s IH]; [done|]. cbn [string_forallb] in *.
    apply andb_prop in H as [Hc H]. rewrite IH by done. lia.
  - induction s as [|c s IH]; [done|]. cbn [string_forallb] in *.
    apply andb_prop in H as [Hc H]. rewrite IH by done. lia.
Qed.

#[export] Instance RefPostgres_laws : PostgresLaws RefPostgres.
Proof.
  split; simpl; [done|done| | |apply valid_utf8_printable].
  - intros s t. destruct (parse s) as [j|] eqn:E; [|done]. simpl. intros [= <-].
    destruct (print_head j (parse_wf _ _ E)) as (c & u & -> & _). done.
  - intros s t. destruct (parse s) as [j|] eqn:E; [|done]. simpl. intros [= <-].
    by rewrite parse_print by (by eapply parse_wf).
Qed.
