(* ===== verification/Effects.v ===== *)
(** * Programs with effects

    A Go function that talks to Redis, PostgreSQL, the clock or the scheduler is
    a [prog]: a tree of atomic effects, each continued by the answer it gets.
    One Redis command, one script or MULTI/EXEC block, one SQL statement or
    transaction is one effect; between two effects another process may run or
    the process may die. [run] executes a program against an environment that
    fixes the clock, the random draws, the order of map iterations and which
    calls fail; [steps] stops it after some effects (a crash). *)

From S2P Require Import Prelude GoBase F64 Json Redis Task Db.

Open Scope Z_scope.

(** The contexts passed to calls: the one given to [Run] or to the request, the
    one derived for a job (with the lease as timeout), [context.Background()]. *)
Inductive ctx := CtxMain | CtxJob | CtxBackground.

#[export] Instance ctx_eq_dec : EqDecision ctx.
Proof. solve_decision. Defined.

(** The worker's metrics. *)
Inductive counter := Completed | Failed | Dead.

#[export] Instance counter_eq_dec : EqDecision counter.
Proof. solve_decision. Defined.

#[export] Instance counter_countable : Countable counter.
Proof.
  refine (inj_countable'
    (fun c => match c with Completed => 0%nat | Failed => 1%nat | Dead => 2%nat end)
    (fun n => match n with 0%nat => Completed | 1%nat => Failed | _ => Dead end) _).
  by intros [].
Defined.

(** What happens to one call to a service: it is served; it fails before it
    reaches the server; it is served but the answer is lost. *)
Inductive fault := NoFault | NotSent (e : error) | NotAcked (e : error).

Section Effects.
Context {U : Uuid} {R : Redis}.

#[warnings="-register-all"]
Inductive effect : Type -> Type :=
  | ERedis {X} (c : ctx) (f : Z -> rstate -> res X * rstate) : effect (res X)
  | ESql {X} (c : ctx) (f : stmt X) : effect (res X)
  | ENow : effect Z                                   (* time.Now() *)
  | ERand : effect f64                                (* rand.Float64() *)
  | EUuid : effect uuid                               (* uuid.New() *)
  | EOrder {A : Type} (l : list A) : effect (list A)  (* range over a map *)
  | EWait (c : ctx) (d : Z) : effect (option error)   (* select on a timer and ctx.Done() *)
  | EPrint (s : string) : effect unit                 (* os.Stdout *)
  | ECount (w : string) (k : counter) : effect unit.  (* atomic Add(1) *)

Inductive prog (A : Type) : Type :=
  | Ret (a : A)
  | Do {X : Type} (e : effect X) (k : X -> prog A).
Arguments Ret {A} a.
Arguments Do {A X} e k.

Fixpoint bind {A B} (p : prog A) (f : A -> prog B) : prog B :=
  match p with
  | Ret a => f a
  | Do e k => Do e (fun x => bind (k x) f)
  end.

Definition perform {X} (e : effect X) : prog X := Do e Ret.

(** ** Execution *)

Record world := MkWorld {
  redis : rstate;
  database : db;
  metrics : gmap (string * counter) Z;
  stdout : list string;
  ticks : nat              (* effects performed so far *)
}.

Record env := MkEnv {
  clock : nat -> Z;
  draw : nat -> Z;
  fresh : nat -> uuid;
  shuffle : nat -> forall A : Type, list A -> list A;
  faults : nat -> ctx -> fault;
  wait : nat -> ctx -> Z -> option error
}.

Definition tick (w : world) : world :=
  MkWorld (redis w) (database w) (metrics w) (stdout w) (S (ticks w)).
Definition with_redis (r : rstate) (w : world) : world :=
  MkWorld r (database w) (metrics w) (stdout w) (S (ticks w)).
Definition with_db (d : db) (w : world) : world :=
  MkWorld (redis w) d (metrics w) (stdout w) (S (ticks w)).

Definition count (m : gmap (string * counter) Z) (w : string) (k : counter) : Z :=
  default 0 (m !! (w, k)).

Definition serve {X S : Type} (ft : fault) (f : S -> res X * S) (put : S -> world -> world)
    (s : S) (w : world) : res X * world :=
  match ft with
  | NoFault => ((f s).1, put (f s).2 w)
  | NotSent e => (Err e, tick w)
  | NotAcked e => (Err e, put (f s).2 w)
  end.

Definition sqlenv_at (e : env) (n : nat) : sqlenv := SqlEnv (clock e n) (shuffle e n).

Definition do_effect {X} (o : env) (e : effect X) (w : world) : X * world :=
  let n := ticks w in
  match e in effect Y return Y * world with
  | ERedis c f => serve (faults o n c) (f (clock o n)) with_redis (redis w) w
  | ESql c f => serve (faults o n c) (f (sqlenv_at o n)) with_db (database w) w
  | ENow => (clock o n, tick w)
  | ERand => (unit_draw (draw o n), tick w)
  | EUuid => (fresh o n, tick w)
  | EOrder l => (shuffle o n _ l, tick w)
  | EWait c d => (wait o n c d, tick w)
  | EPrint s => (tt, MkWorld (redis w) (database w) (metrics w) (stdout w ++ [s]) (S n))
  | ECount wk k =>
      (tt, MkWorld (redis w) (database w)
                   (<[(wk, k) := wrap64 (count (metrics w) wk k + 1)]> (metrics w))
                   (stdout w) (S n))
  end.

Fixpoint run {A} (o : env) (p : prog A) (w : world) : A * world :=
  match p with
  | Ret a => (a, w)
  | Do e k => let '(x, w') := do_effect o e w in run o (k x) w'
  end.

(** The first [n] effects of a program: what a crash leaves behind. *)
Fixpoint steps {A} (o : env) (n : nat) (p : prog A) (w : world) : prog A * world :=
  match n, p with
  | S n, Do e k => let '(x, w') := do_effect o e w in steps o n (k x) w'
  | _, _ => (p, w)
  end.

(** ** Environments *)

(** The guarantees of the Go runtime: iteration visits every entry of the map
    once, a draw is in [0, 1). *)
Class EnvOk (o : env) : Prop := {
  shuffle_perm n A (l : list A) : shuffle o n A l ≡ₚ l;
  draw_range n : 0 <= draw o n < 2 ^ 53;
}.

(** No call fails. *)
Definition quiet (o : env) : Prop := forall n c, faults o n c = NoFault.

(** ** Lemmas *)

Lemma run_bind {A B} (o : env) (p : prog A) (f : A -> prog B) (w : world) :
  run o (bind p f) w = let '(a, w') := run o p w in run o (f a) w'.
Proof.
  revert w. induction p as [a|X e k IH]; intros w; simpl; [done|].
  destruct (do_effect o e w). apply IH.
Qed.

Lemma run_bind_eq {A B} (o : env) (p : prog A) (f : A -> prog B) (w w' : world) (a : A) :
  run o p w = (a, w') -> run o (bind p f) w = run o (f a) w'.
Proof. intros H. by rewrite run_bind, H. Qed.

(** Crashing after [n] effects and resuming is running to the end. *)
Lemma steps_run {A} (o : env) (n : nat) (p : prog A) (w : world) :
  run o (steps o n p w).1 (steps o n p w).2 = run o p w.
Proof.
  revert p w. induction n as [|n IH]; intros p w; [by destruct p|].
  destruct p as [a|X e k]; simpl; [done|]. destruct (do_effect o e w). apply IH.
Qed.

End Effects.

Arguments effect {U R} _.
Arguments prog {U R} A.
Arguments Ret {U R A} a.
Arguments Do {U R A X} e k.
Arguments world {U R}.
Arguments MkWorld {U R}.
Arguments MkEnv {U}.
Arguments env {U}.

Notation "x <- p ;; q" := (bind p (fun x => q))
  (at level 60, p at next level, right associativity) : taskq_scope.
Notation "p ;;; q" := (bind p (fun _ => q))
  (at level 60, right associativity) : taskq_scope.

(** ** The client libraries' calls *)

Section Clients.
Context {U : Uuid} {R : Redis}.

(** A Redis command that does not look at the clock. *)
Definition rdb {X} (c : ctx) (f : rstate -> res X * rstate) : prog (res X) :=
  perform (ERedis c (fun _ => f)).

(** A Redis command that reads the server's clock. *)
Definition rdb_at {X} (c : ctx) (f : Z -> rstate -> res X * rstate) : prog (res X) :=
  perform (ERedis c f).

Definition sql {X} (c : ctx) (f : stmt X) : prog (res X) := perform (ESql c f).
Definition time_Now : prog Z := perform ENow.
Definition rand_Float64 : prog f64 := perform ERand.
Definition uuid_New : prog uuid := perform EUuid.
Definition range_over {A} (l : list A) : prog (list A) := perform (EOrder l).
Definition count_up (w : string) (k : counter) : prog unit := perform (ECount w k).

(** [EXEC] of a queued block: every command runs, the first error is reported. *)
Fixpoint tx_exec (cmds : list (rstate -> res unit * rstate)) (r : rstate) : res unit * rstate :=
  match cmds with
  | [] => (Ok tt, r)
  | f :: rest =>
      let '(x, r1) := f r in
      let '(y, r2) := tx_exec rest r1 in
      (match x with Ok _ => y | Err e => Err e end, r2)
  end.

Lemma run_rdb_ok {X} (o : env) (c : ctx) (f : rstate -> res X * rstate) (w : world) x r' :
  quiet o -> f (redis w) = (x, r') -> run o (rdb c f) w = (x, with_redis r' w).
Proof. intros Hq Hf. cbn. unfold serve. rewrite Hq, Hf. done. Qed.

Lemma run_rdb_at_ok {X} (o : env) (c : ctx) (f : Z -> rstate -> res X * rstate) (w : world) x r' :
  quiet o -> f (clock o (ticks w)) (redis w) = (x, r') ->
  run o (rdb_at c f) w = (x, with_redis r' w).
Proof. intros Hq Hf. cbn. unfold serve. rewrite Hq, Hf. done. Qed.

Lemma run_sql_ok {X} (o : env) (c : ctx) (f : stmt X) (w : world) x d' :
  quiet o -> f (sqlenv_at o (ticks w)) (database w) = (x, d') ->
  run o (sql c f) w = (x, with_db d' w).
Proof. intros Hq Hf. cbn. unfold serve. rewrite Hq, Hf. done. Qed.

End Clients.
