(* ===== verification/Queue.v ===== *)
(** * The Redis-backed queue ([internal/queue/queue.go])

    One definition per function of the file, the Lua script included. The
    envelope is the JSON text stored in the sorted sets and hashes. *)

From S2P Require Import Prelude GoBase F64 GoString Json GoTime Redis Task Db Effects.
From Stdlib Require Import Ascii.

Open Scope Z_scope.
Open Scope taskq_scope.

(** ** Keys *)

Definition EventsChannel : string := "events:tasks".
Definition QueueKey (typ : string) : string := "queue:" +:+ typ.
Definition DelayedKey (typ : string) : string := "delayed:" +:+ typ.
Definition InflightKey (worker : string) : string := "inflight:" +:+ worker.
Definition HeartbeatKey (worker : string) : string := "hb:" +:+ worker.
Definition DLQKey (typ : string) : string := "dlq:" +:+ typ.

(** ** Scores *)

(** [float64(priority)*1e13 + float64(enqueueMs)]: both operations yield
    integer-valued doubles, kept as the integer ([priorityScore_as_float]). *)
Definition priorityScore (priority enqueueMs : Z) : Z :=
  let p := if priority <? 0 then 0 else priority in
  let p := if 9 <? p then 9 else p in
  rnd53 (rnd53 (rnd53 p * 10 ^ 13) + rnd53 enqueueMs).

(** ** Envelopes *)

Record Envelope {U : Uuid} := MkEnvelope {
  env_ID : uuid;
  env_Type : string;
  env_Priority : Z;
  env_Attempts : Z;
  env_MaxAttempts : Z;
  env_Payload : RawMessage;
  env_EnqueuedAt : Z
}.
Arguments MkEnvelope {U}.

Section Codec.
Context {U : Uuid}.

Definition set_enqueued (t : Z) (e : Envelope) : Envelope :=
  MkEnvelope (env_ID e) (env_Type e) (env_Priority e) (env_Attempts e)
             (env_MaxAttempts e) (env_Payload e) t.
Definition set_attempts (n : Z) (e : Envelope) : Envelope :=
  MkEnvelope (env_ID e) (env_Type e) (env_Priority e) n
             (env_MaxAttempts e) (env_Payload e) (env_EnqueuedAt e).

Definition zero_envelope : Envelope := MkEnvelope uuid_Nil EmptyString 0 0 0 None 0.

(** A nil [json.RawMessage] is written as [null]; another one must be JSON and
    is written compactly with HTML escaping. *)
Definition payload_json (m : RawMessage) : option json :=
  match m with None => Some JNull | Some s => escape_json <$> parse s end.

Definition marshal_error : error :=
  ErrText "json: error calling MarshalJSON for type json.RawMessage".

(** The members of the object, in field order. *)
Definition envelope_members (e : Envelope) (payload : json) : list (string * json) :=
  [("id", JStr (quote (uuid_String (env_ID e))));
   ("type", JStr (quote (env_Type e)));
   ("priority", JNum (itoa (env_Priority e)));
   ("attempts", JNum (itoa (env_Attempts e)));
   ("max_attempts", JNum (itoa (env_MaxAttempts e)));
   ("payload", payload);
   ("enqueued_at", JNum (itoa (env_EnqueuedAt e)))].

(** [json.Marshal(env)]. *)
Definition Marshal (e : Envelope) : res string :=
  match payload_json (env_Payload e) with
  | Some p => Ok (print (JObj (envelope_members e p)))
  | None => Err marshal_error
  end.

(** The wrapper of [DeadLetter]: the envelope's fields, then two more. *)
Definition MarshalDead (e : Envelope) (reason : string) (failedAt : Z) : res string :=
  match payload_json (env_Payload e) with
  | Some p => Ok (print (JObj (envelope_members e p ++
                [("reason", JStr (quote reason)); ("failed_at", JNum (itoa failedAt))])))
  | None => Err marshal_error
  end.

(** Key matching ignores case; two non-ASCII letters fold to ASCII ones. *)
Fixpoint fold_name (s : string) : string :=
  match s with
  | EmptyString => EmptyString
  | String c s1 =>
      if in_range 97 122 c then String (byte_of (code c - 32)) (fold_name s1)
      else
        match s1 with
        | String d s2 =>
            if chr 197 c && chr 191 d then String "S" (fold_name s2)
            else
              match s2 with
              | String e s3 =>
                  if chr 226 c && chr 132 d && chr 170 e then String "K" (fold_name s3)
                  else String c (fold_name s1)
              | EmptyString => String c (fold_name s1)
              end
        | EmptyString => String c EmptyString
        end
  end.

Definition unmarshal_error : error := ErrText "json: cannot unmarshal".

(** An [int] field: an integer literal in range; [null] leaves it alone. *)
Definition decode_int (old : Z) (v : json) : res Z :=
  match v with
  | JNull => Ok old
  | JNum lit =>
      match atoi lit with
      | Some z => if in_int64 z then Ok z else Err unmarshal_error
      | None => Err unmarshal_error
      end
  | _ => Err unmarshal_error
  end.

Definition decode_string (old : string) (v : json) : res string :=
  match v with
  | JNull => Ok old
  | JStr raw => Ok (unquote raw)
  | _ => Err unmarshal_error
  end.

Definition decode_uuid (old : uuid) (v : json) : res uuid :=
  match v with
  | JNull => Ok old
  | JStr raw =>
      match uuid_Parse (unquote raw) with
      | Some u => Ok u
      | None => Err (ErrText "invalid UUID")
      end
  | _ => Err unmarshal_error
  end.

(** One member assigned to its field; unknown members are skipped. *)
Definition assign (e : Envelope) (m : string * json * string) : res Envelope :=
  let '(key, v, raw) := m in
  let name := fold_name (unquote key) in
  let '(MkEnvelope id typ pri att max pay at_) := e in
  if String.eqb name "ID" then
    match decode_uuid id v with
    | Ok x => Ok (MkEnvelope x typ pri att max pay at_) | Err er => Err er end
  else if String.eqb name "TYPE" then
    match decode_string typ v with
    | Ok x => Ok (MkEnvelope id x pri att max pay at_) | Err er => Err er end
  else if String.eqb name "PRIORITY" then
    match decode_int pri v with
    | Ok x => Ok (MkEnvelope id typ x att max pay at_) | Err er => Err er end
  else if String.eqb name "ATTEMPTS" then
    match decode_int att v with
    | Ok x => Ok (MkEnvelope id typ pri x max pay at_) | Err er => Err er end
  else if String.eqb name "MAX_ATTEMPTS" then
    match decode_int max v with
    | Ok x => Ok (MkEnvelope id typ pri att x pay at_) | Err er => Err er end
  else if String.eqb name "PAYLOAD" then Ok (MkEnvelope id typ pri att max (Some raw) at_)
  else if String.eqb name "ENQUEUED_AT" then
    match decode_int at_ v with
    | Ok x => Ok (MkEnvelope id typ pri att max pay x) | Err er => Err er end
  else Ok e.

Fixpoint assign_all (e : Envelope) (ms : list (string * json * string)) : res Envelope :=
  match ms with
  | [] => Ok e
  | m :: ms' => match assign e m with Ok e' => assign_all e' ms' | Err er => Err er end
  end.

(** [json.Unmarshal] into a zero envelope. *)
Definition Unmarshal (s : string) : res Envelope :=
  match parse s with
  | None => Err (ErrText "invalid character in JSON input")
  | Some JNull => Ok zero_envelope
  | Some (JObj _) =>
      match object_members s with
      | Some ms => assign_all zero_envelope ms
      | None => Err unmarshal_error
      end
  | Some _ => Err unmarshal_error
  end.

(** [json.Marshal] of a [task.Event]: empty [worker_id] and [message] are omitted. *)
Definition MarshalEvent (ev : Event) : res string :=
  match rfc3339 (ev_Timestamp ev) with
  | None => Err (ErrText "Time.MarshalJSON: year outside of range [0,9999]")
  | Some ts =>
      let opt name v := if String.eqb v EmptyString then [] else [(name, JStr (quote v))] in
      Ok (print (JObj (
        [("task_id", JStr (quote (uuid_String (ev_TaskID ev))));
         ("type", JStr (quote (ev_Type ev)));
         ("status", JStr (quote (ev_Status ev)))] ++
        opt "worker_id" (ev_WorkerID ev) ++ opt "message" (ev_Message ev) ++
        [("timestamp", JStr ts)])))
  end.

End Codec.

(** ** Operations *)

Section Queue.
Context {U : Uuid} {R : Redis}.

Definition Ping (c : ctx) : prog (res unit) := rdb c PING.

Definition Enqueue (c : ctx) (env0 : Envelope) : prog (res unit) :=
  env <- (if env_EnqueuedAt env0 =? 0
          then now <- time_Now ;; Ret (set_enqueued (UnixMilli now) env0)
          else Ret env0) ;;
  match Marshal env with
  | Err err => Ret (Err err)
  | Ok body =>
      let score := priorityScore (env_Priority env) (env_EnqueuedAt env) in
      r <- rdb c (ZADD (QueueKey (env_Type env)) score body) ;;
      Ret (res_err r)
  end.

Definition EnqueueDelayed (c : ctx) (env : Envelope) (at_ : Z) : prog (res unit) :=
  match Marshal env with
  | Err err => Ret (Err err)
  | Ok body =>
      r <- rdb c (ZADD (DelayedKey (env_Type env)) (rnd53 (UnixMilli at_)) body) ;;
      Ret (res_err r)
  end.

(** The Lua script: one atomic step of the server. A command that fails stops
    the script; what was done before is kept. *)
Definition leaseScript (key1 key2 : string) (r : rstate) : res reply * rstate :=
  let '(popped, r1) := ZPOPMIN key1 1 r in
  match popped with
  | Err e => (Err e, r1)
  | Ok [] => (Err ErrRedisNil, r1)
  | Ok ((member, _) :: _) =>
      match cjson_decode_id member with
      | Err e => (Err e, r1)
      | Ok id =>
          let '(x, r2) := HSET key2 id member r1 in
          match x with Err e => (Err e, r2) | Ok _ => (Ok (RBulk member), r2) end
      end
  end.

Definition Lease (c : ctx) (typ worker : string) (leaseTTL : Z) : prog (res Envelope) :=
  r <- rdb c (leaseScript (QueueKey typ) (InflightKey worker)) ;;
  match r with
  | Err err => if errors_Is err ErrRedisNil then Ret (Err ErrEmpty) else Ret (Err err)
  | Ok (RInt _) => Ret (Err ErrEmpty)
  | Ok (RBulk s) =>
      match Unmarshal s with
      | Err err => Ret (Err (ErrWrap "decode envelope" err))
      | Ok env => Ret (Ok env)
      end
  end.

Fixpoint LeaseAny (c : ctx) (types : list string) (worker : string) (leaseTTL : Z) :
    prog (res Envelope) :=
  match types with
  | [] => Ret (Err ErrEmpty)
  | t :: rest =>
      r <- Lease c t worker leaseTTL ;;
      match r with
      | Ok env => Ret (Ok env)
      | Err err =>
          if errors_Is err ErrEmpty then LeaseAny c rest worker leaseTTL
          else Ret (Err err)
      end
  end.

Definition Ack (c : ctx) (worker : string) (id : uuid) : prog (res unit) :=
  r <- rdb c (HDEL (InflightKey worker) (uuid_String id)) ;; Ret (res_err r).

Definition Nack (c : ctx) (worker : string) (id : uuid) : prog (res unit) :=
  r <- rdb c (HDEL (InflightKey worker) (uuid_String id)) ;; Ret (res_err r).

Definition DeadLetter (c : ctx) (env : Envelope) (reason : string) : prog (res unit) :=
  now <- time_Now ;;
  match MarshalDead env reason (UnixMilli now) with
  | Err err => Ret (Err err)
  | Ok body => r <- rdb c (RPUSH (DLQKey (env_Type env)) body) ;; Ret (res_err r)
  end.

Definition Heartbeat (c : ctx) (worker : string) (ttl : Z) : prog (res unit) :=
  now <- time_Now ;;
  rdb_at c (fun server_now => SET (HeartbeatKey worker) (itoa (UnixMilli now)) ttl server_now).

Definition IsAlive (c : ctx) (worker : string) : prog (res bool) :=
  r <- rdb_at c (fun server_now => EXISTS (HeartbeatKey worker) server_now) ;;
  match r with
  | Err err => Ret (Err err)
  | Ok n => Ret (Ok (0 <? n))
  end.

(** The envelopes among texts, in order; the others are skipped. *)
Definition decode_all (l : list string) : list Envelope :=
  omap (fun v => match Unmarshal v with Ok env => Some env | Err _ => None end) l.

Definition ReclaimInflight (c : ctx) (worker : string) : prog (res (list Envelope)) :=
  r <- rdb c (HGETALL (InflightKey worker)) ;;
  match r with
  | Err err => Ret (Err err)
  | Ok all =>
      entries <- range_over (map_to_list all) ;;
      let envs := decode_all (map snd entries) in
      if (0 <? length entries)%nat then
        rdb c (DEL (InflightKey worker)) ;;; Ret (Ok envs)
      else Ret (Ok envs)
  end.

(** The two commands queued for one due member, none if it does not decode. *)
Definition promote_cmds (typ : string) (nowMs : Z) (m : string) :
    list (rstate -> res unit * rstate) :=
  match Unmarshal m with
  | Err _ => []
  | Ok env0 =>
      let env := set_enqueued nowMs env0 in
      match Marshal env with
      | Err _ => []
      | Ok body =>
          [(fun r => let '(x, r') := ZREM (DelayedKey typ) m r in (res_err x, r'));
           (fun r => let '(x, r') := ZADD (QueueKey (env_Type env))
                                       (priorityScore (env_Priority env) nowMs) body r in
                     (res_err x, r'))]
      end
  end.

Definition PromoteDelayed (c : ctx) (typ : string) (now : Z) : prog (res Z) :=
  let nowMs := UnixMilli now in
  r <- rdb c (ZRANGEBYSCORE (DelayedKey typ) (rnd53 nowMs) 0 256) ;;
  match r with
  | Err err => Ret (Err err)
  | Ok members =>
      if (length members =? 0)%nat then Ret (Ok 0)
      else
        let cmds := flat_map (promote_cmds typ nowMs) members in
        x <- (match cmds with
              | [] => Ret (Ok tt)              (* Exec of an empty pipeline sends nothing *)
              | _ => rdb c (tx_exec cmds)
              end) ;;
        match x with
        | Err err => Ret (Err err)
        | Ok _ => Ret (Ok (Z.of_nat (length members)))
        end
  end.

Definition QueueDepth (c : ctx) (typ : string) : prog (res Z) := rdb c (ZCARD (QueueKey typ)).
Definition DelayedDepth (c : ctx) (typ : string) : prog (res Z) := rdb c (ZCARD (DelayedKey typ)).
Definition DLQDepth (c : ctx) (typ : string) : prog (res Z) := rdb c (LLEN (DLQKey typ)).

(** [strings.TrimPrefix]. *)
Definition TrimPrefix (s p : string) : string := default s (strip_prefix p s).

(** The SCAN loop, at most [fuel] pages. *)
Fixpoint scan_keys (fuel : nat) (c : ctx) (pat : string) (cursor : Z)
    (types : gset string) (trim : string -> string) : prog (res (gset string)) :=
  match fuel with
  | O => Ret (Err ErrFuel)
  | S fuel =>
      r <- rdb c (SCAN cursor pat 100) ;;
      match r with
      | Err err => Ret (Err err)
      | Ok (keys, cursor') =>
          let types' := types ∪ list_to_set (map trim keys) in
          if cursor' =? 0 then Ret (Ok types')
          else scan_keys fuel c pat cursor' types' trim
      end
  end.

Definition ListTypes (fuel : nat) (c : ctx) : prog (res (list string)) :=
  r <- scan_keys fuel c "queue:*" 0 ∅ (fun k => TrimPrefix k "queue:") ;;
  match r with
  | Err err => Ret (Err err)
  | Ok types => out <- range_over (elements types) ;; Ret (Ok out)
  end.

(** [Publish] of a value whose [json.Marshal] is [m]. *)
Definition Publish (c : ctx) (m : res string) : prog (res unit) :=
  match m with
  | Err err => Ret (Err err)
  | Ok body => r <- rdb c (PUBLISH EventsChannel body) ;; Ret (res_err r)
  end.

End Queue.

(** ** Scores *)

Definition clamp_priority (p : Z) : Z := Z.max 0 (Z.min 9 p).

Lemma priorityScore_clamp (p ms : Z) :
  priorityScore p ms = rnd53 (clamp_priority p * 10 ^ 13 + rnd53 ms).
Proof.
  unfold priorityScore.
  replace (if 9 <? (if p <? 0 then 0 else p) then 9 else if p <? 0 then 0 else p)
    with (clamp_priority p) by (unfold clamp_priority; destruct (p <? 0) eqn:?; case_if; lia).
  assert (0 <= clamp_priority p <= 9) by (unfold clamp_priority; lia).
  rewrite (rnd53_exact (clamp_priority p)) by lia.
  by rewrite (rnd53_exact (clamp_priority p * _)) by lia.
Qed.

Lemma priorityScore_mono (p p' ms ms' : Z) :
  clamp_priority p <= clamp_priority p' -> 0 <= ms <= ms' ->
  priorityScore p ms <= priorityScore p' ms'.
Proof.
  intros Hp Hms. rewrite !priorityScore_clamp. apply rnd53_mono.
  pose proof (rnd53_mono ms ms' Hms). pose proof (rnd53_nonneg ms ltac:(lia)).
  unfold clamp_priority in *. lia.
Qed.

(** No rounding up to the year 288000 or so: 2^53 - 9e13 milliseconds. *)
Lemma priorityScore_value (p ms : Z) :
  0 <= ms <= 2 ^ 53 - 9 * 10 ^ 13 -> priorityScore p ms = clamp_priority p * 10 ^ 13 + ms.
Proof.
  intros H. rewrite priorityScore_clamp, (rnd53_exact ms) by lia.
  apply rnd53_exact. unfold clamp_priority. lia.
Qed.

(** The expression of the source, in double precision. *)
Definition priorityScore_float (priority enqueueMs : Z) : f64 :=
  let p := if priority <? 0 then 0 else priority in
  let p := if 9 <? p then 9 else p in
  fadd (fmul (of_int p) (F (10 ^ 13) 0)) (of_int enqueueMs).

Lemma priorityScore_as_float (p ms : Z) :
  in_int64 ms = true -> priorityScore_float p ms = F (priorityScore p ms) 0.
Proof.
  intros Hms. unfold priorityScore_float, priorityScore. unfold in_int64, min_int64, max_int64 in Hms.
  set (q := if 9 <? (if p <? 0 then 0 else p) then 9 else if p <? 0 then 0 else p).
  assert (0 <= q <= 9) by (unfold q; repeat case_if; lia). clearbody q.
  assert (2 ^ 70 < 2 ^ 1000) by reflexivity.
  assert (10 ^ 13 * 9 < 2 ^ 60) by reflexivity.
  rewrite !of_int_rnd by lia. rewrite (rnd53_exact q) by lia.
  rewrite fmul_int by lia. rewrite (rnd53_exact (q * _)) by lia.
  pose proof (rnd53_abs ms). apply fadd_int. lia.
Qed.

(** Urgency: the clamped priority first, then the enqueue time. *)
Definition more_urgent (a b : Z * Z) : Prop :=
  clamp_priority a.1 < clamp_priority b.1 \/
  clamp_priority a.1 = clamp_priority b.1 /\ a.2 < b.2.

(** The enqueue times for which scores order by urgency: until the year 2286. *)
Definition ms_ok (ms : Z) : bool := (0 <=? ms) && (ms <? 10 ^ 13).

Lemma priorityScore_lt (p ms p' ms' : Z) :
  ms_ok ms = true -> ms_ok ms' = true ->
  priorityScore p ms < priorityScore p' ms' <-> more_urgent (p, ms) (p', ms').
Proof.
  unfold ms_ok, more_urgent. intros H H'. rewrite !priorityScore_value by lia. simpl.
  unfold clamp_priority. lia.
Qed.

(** ** Codec *)

Section CodecFacts.
Context {U : Uuid} {UL : UuidLaws U}.

Definition ints_ok (e : Envelope) : bool :=
  in_int64 (env_Priority e) && in_int64 (env_Attempts e) &&
  in_int64 (env_MaxAttempts e) && in_int64 (env_EnqueuedAt e).

(** What comes back from the wire: the type with invalid UTF-8 replaced, the
    payload compacted and escaped. *)
Definition wire (e : Envelope) : Envelope :=
  MkEnvelope (env_ID e) (coerce (env_Type e)) (env_Priority e) (env_Attempts e)
             (env_MaxAttempts e)
             (match payload_json (env_Payload e) with
              | Some p => Some (print p) | None => env_Payload e end)
             (env_EnqueuedAt e).

Lemma payload_json_wf (m : RawMessage) (p : json) :
  payload_json m = Some p -> wf_json p = true.
Proof.
  destruct m as [s|]; simpl; [|by intros [= <-]].
  destruct (parse s) as [j|] eqn:E; [|done]. intros [= <-]. eauto with taskq.
Qed.

Lemma wf_num (z : Z) : wf_json (JNum (itoa z)) = true.
Proof. simpl. by rewrite itoa_number, itoa_chars. Qed.

Lemma envelope_members_wf (e : Envelope) (p : json) :
  wf_json p = true ->
  forallb (fun kv => raw_ok kv.1 && wf_json kv.2) (envelope_members e p) = true.
Proof.
  intros Hp. unfold envelope_members.
  cbn [forallb fst snd]. rewrite !wf_num, Hp. cbn [wf_json]. by rewrite !raw_ok_quote.
Qed.

Lemma coerce_uuid (u : uuid) : coerce (uuid_String u) = uuid_String u.
Proof.
  apply coerce_valid, valid_utf8_ascii.
  pose proof (uuid_string_plain u) as H. induction (uuid_String u) as [|c s IH]; [done|].
  cbn [string_forallb] in *. apply andb_prop in H as [Hc H]. rewrite IH by done.
  unfold plain_char in Hc. lia.
Qed.

Lemma Marshal_inv (e : Envelope) (s : string) :
  Marshal e = Ok s <->
  exists p, payload_json (env_Payload e) = Some p /\ s = print (JObj (envelope_members e p)).
Proof.
  unfold Marshal. destruct (payload_json (env_Payload e)); [|naive_solver].
  split; [intros [= <-]; eauto|]. intros (p & [= <-] & ->). done.
Qed.

Lemma parse_Marshal (e : Envelope) (p : json) :
  payload_json (env_Payload e) = Some p ->
  parse (print (JObj (envelope_members e p))) = Some (JObj (envelope_members e p)).
Proof.
  intros Hp. apply parse_print. cbn [wf_json].
  apply envelope_members_wf. by eapply payload_json_wf.
Qed.

(** Reading the members of an envelope back, whatever follows them. *)
Lemma assign_envelope (e : Envelope) (p : json) rest :
  ints_ok e = true -> payload_json (env_Payload e) = Some p ->
  assign_all zero_envelope
    (map (fun kv => (kv.1, kv.2, print kv.2)) (envelope_members e p) ++ rest) =
  assign_all (wire e) rest.
Proof.
  intros Hi Hp. unfold ints_ok in Hi.
  apply andb_prop in Hi as [[[H1 H2]%andb_prop H3]%andb_prop H4].
  unfold wire. rewrite Hp. unfold envelope_members, zero_envelope.
  cbn [map fst snd assign_all app]. unfold assign at 1 2 3 4 5 6 7.
  repeat match goal with
         | |- context [fold_name (unquote (String ?c ?k))] =>
             let n := eval vm_compute in (fold_name (unquote (String c k))) in
             change (fold_name (unquote (String c k))) with n
         end.
  cbn [String.eqb Ascii.eqb Bool.eqb decode_uuid decode_string decode_int].
  by rewrite !unquote_quote, coerce_uuid, uuid_parse_string, !atoi_itoa, H1, H2, H3, H4.
Qed.

Lemma Unmarshal_Marshal (e : Envelope) (s : string) :
  ints_ok e = true -> Marshal e = Ok s -> Unmarshal s = Ok (wire e).
Proof.
  intros Hi (p & Hp & ->)%Marshal_inv. unfold Unmarshal.
  rewrite (parse_Marshal e p Hp), object_members_print
    by (apply envelope_members_wf; by eapply payload_json_wf).
  rewrite <- (app_nil_r (map _ _)). by apply assign_envelope.
Qed.

(** A dead-letter record still reads as its envelope. *)
Lemma Unmarshal_MarshalDead (e : Envelope) (reason : string) (at_ : Z) (s : string) :
  ints_ok e = true -> MarshalDead e reason at_ = Ok s -> Unmarshal s = Ok (wire e).
Proof.
  unfold MarshalDead. destruct (payload_json _) as [p|] eqn:Hp; [|done]. intros Hi Hs.
  assert (Heq : print (JObj (envelope_members e p ++
      [("reason", JStr (quote reason)); ("failed_at", JNum (itoa at_))])) = s) by congruence.
  rewrite <- Heq. clear s Hs Heq.
  set (extra := [("reason", JStr (quote reason)); ("failed_at", JNum (itoa at_))]).
  assert (Hwf : forallb (fun kv => raw_ok kv.1 && wf_json kv.2)
                  (envelope_members e p ++ extra) = true).
  { rewrite forallb_app, envelope_members_wf by (by eapply payload_json_wf).
    unfold extra. cbn [forallb fst snd]. rewrite wf_num. cbn [wf_json]. by rewrite raw_ok_quote. }
  unfold Unmarshal. rewrite parse_print by exact Hwf.
  rewrite object_members_print by exact Hwf.
  rewrite map_app, assign_envelope by done. reflexivity.
Qed.

(** The identifier a script reads off a stored envelope. *)
Lemma Marshal_id {R : Redis} {RL : RedisLaws R} (e : Envelope) (s : string) :
  Marshal e = Ok s -> cjson_decode_id s = Ok (uuid_String (env_ID e)).
Proof.
  intros (p & Hp & ->)%Marshal_inv.
  eapply cjson_law; [by apply parse_Marshal| |apply uuid_string_plain].
  unfold envelope_members. cbn [omap list_omap fst snd].
  rewrite (quote_plain (uuid_String (env_ID e))) by apply uuid_string_plain.
  reflexivity.
Qed.

End CodecFacts.

(** ** Keys *)

Lemma QueueKey_inj (a b : string) : QueueKey a = QueueKey b -> a = b.
Proof. apply string_app_inj_l. Qed.
Lemma DelayedKey_inj (a b : string) : DelayedKey a = DelayedKey b -> a = b.
Proof. apply string_app_inj_l. Qed.
Lemma InflightKey_inj (a b : string) : InflightKey a = InflightKey b -> a = b.
Proof. apply string_app_inj_l. Qed.
Lemma DLQKey_inj (a b : string) : DLQKey a = DLQKey b -> a = b.
Proof. apply string_app_inj_l. Qed.
Lemma HeartbeatKey_inj (a b : string) : HeartbeatKey a = HeartbeatKey b -> a = b.
Proof. apply string_app_inj_l. Qed.

(** The families of keys. *)
Inductive family := FReady | FDelayed | FInflight | FHeartbeat | FDlq.

Definition key (f : family) (x : string) : string :=
  match f with
  | FReady => QueueKey x | FDelayed => DelayedKey x | FInflight => InflightKey x
  | FHeartbeat => HeartbeatKey x | FDlq => DLQKey x
  end.

Lemma key_inj (f g : family) (a b : string) : key f a = key g b -> f = g /\ a = b.
Proof.
  destruct f, g; intros H;
    try (by (discriminate H || (cbn in H; discriminate H)));
    (split; [done|]); cbn [key] in H;
    eauto using QueueKey_inj, DelayedKey_inj, InflightKey_inj, DLQKey_inj, HeartbeatKey_inj.
Qed.
