(* ===== verification/Abstract.v ===== *)
(** * The abstract state of the system and how programs change it

    [qstate] is what the queue promises, key names and Redis values erased: per
    type the ready and delayed sets and the dead-letter list, per worker the
    in-flight table and the heartbeat. [abs] reads it off a world, together with
    the tables, the published messages, the metrics and the output. States are
    compared pointwise ([≡]); every abstract operation is proper for it.

    [yields o p w n a L]: from [w], in the fault-free environment [o], program
    [p] answers [a] after [n] effects in a well-typed world that reads as [L]. *)

From S2P Require Import Prelude GoBase Json Redis Task Db Effects Queue.

Open Scope Z_scope.
Open Scope taskq_scope.

(** ** Well-typed key spaces: the key families hold non-empty values of the type
    they should *)

Definition family_ok (f : family) (v : rval) : Prop :=
  match f, v with
  | FReady, VZSet z | FDelayed, VZSet z => z <> ∅
  | FInflight, VHash h => h <> ∅
  | FDlq, VList l => l <> []
  | FHeartbeat, VString _ _ => True
  | _, _ => False
  end.

Definition well_typed (ks : keyspace) : Prop :=
  forall f x v, ks !! key f x = Some v -> family_ok f v.

(** ** The queue's abstract state *)

Record qstate := MkQ {
  q_ready : string -> gmap string Z;
  q_delayed : string -> gmap string Z;
  q_inflight : string -> gmap string string;
  q_dlq : string -> list string;
  q_beat : string -> option (option Z)     (* a heartbeat and its deadline *)
}.

#[export] Instance qstate_equiv : Equiv qstate := fun a b =>
  (forall t, q_ready a t = q_ready b t) /\ (forall t, q_delayed a t = q_delayed b t) /\
  (forall w, q_inflight a w = q_inflight b w) /\ (forall t, q_dlq a t = q_dlq b t) /\
  (forall w, q_beat a w = q_beat b w).

#[export] Instance qstate_equivalence : Equivalence (≡@{qstate}).
Proof.
  split.
  - by intros a.
  - intros a b (? & ? & ? & ? & ?). repeat split; intros; symmetry; auto.
  - intros a b c (A1 & A2 & A3 & A4 & A5) (B1 & B2 & B3 & B4 & B5).
    repeat split; intros; (etransitivity; [eauto|eauto]).
Qed.

Definition zset_at (ks : keyspace) (k : string) : gmap string Z :=
  match ks !! k with Some (VZSet z) => z | _ => ∅ end.
Definition hash_at (ks : keyspace) (k : string) : gmap string string :=
  match ks !! k with Some (VHash h) => h | _ => ∅ end.
Definition list_at (ks : keyspace) (k : string) : list string :=
  match ks !! k with Some (VList l) => l | _ => [] end.
Definition beat_at (ks : keyspace) (k : string) : option (option Z) :=
  match ks !! k with Some (VString _ d) => Some d | _ => None end.

Definition view (ks : keyspace) : qstate := MkQ
  (fun t => zset_at ks (QueueKey t)) (fun t => zset_at ks (DelayedKey t))
  (fun w => hash_at ks (InflightKey w)) (fun t => list_at ks (DLQKey t))
  (fun w => beat_at ks (HeartbeatKey w)).

Definition upd {A} (x : string) (v : A) (f : string -> A) : string -> A :=
  fun y => if decide (x = y) then v else f y.

Definition set_ready (t : string) (z : gmap string Z) (q : qstate) : qstate :=
  MkQ (upd t z (q_ready q)) (q_delayed q) (q_inflight q) (q_dlq q) (q_beat q).
Definition set_delayed (t : string) (z : gmap string Z) (q : qstate) : qstate :=
  MkQ (q_ready q) (upd t z (q_delayed q)) (q_inflight q) (q_dlq q) (q_beat q).
Definition set_inflight (w : string) (h : gmap string string) (q : qstate) : qstate :=
  MkQ (q_ready q) (q_delayed q) (upd w h (q_inflight q)) (q_dlq q) (q_beat q).
Definition set_dlq (t : string) (l : list string) (q : qstate) : qstate :=
  MkQ (q_ready q) (q_delayed q) (q_inflight q) (upd t l (q_dlq q)) (q_beat q).
Definition set_beat (w : string) (d : option Z) (q : qstate) : qstate :=
  MkQ (q_ready q) (q_delayed q) (q_inflight q) (q_dlq q) (upd w (Some d) (q_beat q)).

(** The operations of the abstract queue. *)
Definition push_ready (t : string) (score : Z) (m : string) (q : qstate) : qstate :=
  set_ready t (<[m := score]> (q_ready q t)) q.
Definition push_delayed (t : string) (score : Z) (m : string) (q : qstate) : qstate :=
  set_delayed t (<[m := score]> (q_delayed q t)) q.
Definition drop_ready (t m : string) (q : qstate) : qstate :=
  set_ready t (delete m (q_ready q t)) q.
Definition drop_delayed (t m : string) (q : qstate) : qstate :=
  set_delayed t (delete m (q_delayed q t)) q.
Definition put_inflight (w id m : string) (q : qstate) : qstate :=
  set_inflight w (<[id := m]> (q_inflight q w)) q.
Definition drop_inflight (w id : string) (q : qstate) : qstate :=
  set_inflight w (delete id (q_inflight q w)) q.
Definition push_dlq (t m : string) (q : qstate) : qstate :=
  set_dlq t (q_dlq q t ++ [m]) q.

(** ** The logical state *)

Section Abstract.
Context {U : Uuid} {R : Redis}.

Record lstate := MkL {
  l_q : qstate;
  l_db : db;
  l_pub : list (string * string);
  l_metrics : gmap (string * counter) Z;
  l_out : list string
}.

#[export] Instance lstate_equiv : Equiv lstate := fun a b =>
  l_q a ≡ l_q b /\ l_db a = l_db b /\ l_pub a = l_pub b /\
  l_metrics a = l_metrics b /\ l_out a = l_out b.

#[export] Instance lstate_equivalence : Equivalence (≡@{lstate}).
Proof.
  split.
  - intros a. split; [done|]. repeat split.
  - intros a b (A1 & ? & ? & ? & ?). split; [by symmetry|]. repeat split; by symmetry.
  - intros a b c (A1 & A2 & A3 & A4 & A5) (B1 & B2 & B3 & B4 & B5).
    split; [by etransitivity|]. repeat split; congruence.
Qed.

Definition abs (w : world) : lstate :=
  MkL (view (keyspace_of (redis w))) (database w) (published (redis w)) (metrics w) (stdout w).

Definition on_q (f : qstate -> qstate) (L : lstate) : lstate :=
  MkL (f (l_q L)) (l_db L) (l_pub L) (l_metrics L) (l_out L).
Definition on_db (f : db -> db) (L : lstate) : lstate :=
  MkL (l_q L) (f (l_db L)) (l_pub L) (l_metrics L) (l_out L).
Definition on_pub (m : string) (L : lstate) : lstate :=
  MkL (l_q L) (l_db L) (l_pub L ++ [(EventsChannel, m)]) (l_metrics L) (l_out L).
Definition on_count (w : string) (k : counter) (L : lstate) : lstate :=
  MkL (l_q L) (l_db L) (l_pub L)
      (<[(w, k) := wrap64 (count (l_metrics L) w k + 1)]> (l_metrics L)) (l_out L).

Definition good (w : world) : Prop := well_typed (keyspace_of (redis w)).

Definition yields {A} (o : env) (p : prog A) (w : world) (n : nat) (a : A) (L : lstate) : Prop :=
  exists w', run o p w = (a, w') /\ abs w' ≡ L /\ good w' /\ ticks w' = (ticks w + n)%nat.

End Abstract.

Arguments lstate {U}.
Arguments MkL {U}.

(** ** Proper instances *)

Ltac solve_q_proper :=
  intros ?? (E1 & E2 & E3 & E4 & E5); repeat split; intros; simpl; unfold upd;
  rewrite ?E1, ?E2, ?E3, ?E4, ?E5; try case_decide; auto.

#[export] Instance push_ready_proper t s m : Proper ((≡) ==> (≡)) (push_ready t s m).
Proof. solve_q_proper. Qed.
#[export] Instance push_delayed_proper t s m : Proper ((≡) ==> (≡)) (push_delayed t s m).
Proof. solve_q_proper. Qed.
#[export] Instance drop_ready_proper t m : Proper ((≡) ==> (≡)) (drop_ready t m).
Proof. solve_q_proper. Qed.
#[export] Instance drop_delayed_proper t m : Proper ((≡) ==> (≡)) (drop_delayed t m).
Proof. solve_q_proper. Qed.
#[export] Instance put_inflight_proper w i m : Proper ((≡) ==> (≡)) (put_inflight w i m).
Proof. solve_q_proper. Qed.
#[export] Instance drop_inflight_proper w i : Proper ((≡) ==> (≡)) (drop_inflight w i).
Proof. solve_q_proper. Qed.
#[export] Instance push_dlq_proper t m : Proper ((≡) ==> (≡)) (push_dlq t m).
Proof. solve_q_proper. Qed.
#[export] Instance set_inflight_proper w h : Proper ((≡) ==> (≡)) (set_inflight w h).
Proof. solve_q_proper. Qed.
#[export] Instance set_beat_proper w d : Proper ((≡) ==> (≡)) (set_beat w d).
Proof. solve_q_proper. Qed.

(** ** Key space updates seen through the view *)

Lemma zset_at_get ks k z : get_zset ks k = Some z -> zset_at ks k = z.
Proof. unfold get_zset, zset_at. repeat case_match; naive_solver. Qed.

Lemma well_typed_zset ks f x :
  well_typed ks -> f = FReady \/ f = FDelayed ->
  get_zset ks (key f x) = Some (zset_at ks (key f x)).
Proof.
  intros Hwt Hf. unfold get_zset, zset_at. destruct (ks !! key f x) as [v|] eqn:E; [|done].
  specialize (Hwt _ _ _ E). destruct Hf as [-> | ->], v; done.
Qed.

Lemma well_typed_hash ks w :
  well_typed ks -> get_hash ks (InflightKey w) = Some (hash_at ks (InflightKey w)).
Proof.
  intros Hwt. unfold get_hash, hash_at. destruct (ks !! InflightKey w) as [v|] eqn:E; [|done].
  specialize (Hwt FInflight _ _ E). by destruct v.
Qed.

Lemma well_typed_list ks t :
  well_typed ks -> get_list ks (DLQKey t) = Some (list_at ks (DLQKey t)).
Proof.
  intros Hwt. unfold get_list, list_at. destruct (ks !! DLQKey t) as [v|] eqn:E; [|done].
  specialize (Hwt FDlq _ _ E). by destruct v.
Qed.

Lemma well_typed_insert ks f x v :
  well_typed ks -> family_ok f v -> well_typed (<[key f x := v]> ks).
Proof.
  intros Hwt Hv g y u. rewrite lookup_insert_Some.
  intros [[[-> _]%key_inj <-]|[_ H]]; [done|by eapply Hwt].
Qed.

Lemma well_typed_delete ks k : well_typed ks -> well_typed (delete k ks).
Proof. intros Hwt f x v. rewrite lookup_delete_Some. intros [_ H]. by eapply Hwt. Qed.

Lemma well_typed_put_zset ks f x z :
  well_typed ks -> f = FReady \/ f = FDelayed -> well_typed (put_zset (key f x) z ks).
Proof.
  intros Hwt Hf. unfold put_zset. case_decide; [by apply well_typed_delete|].
  apply well_typed_insert; [done|]. by destruct Hf as [-> | ->].
Qed.

Lemma well_typed_put_hash ks w h :
  well_typed ks -> well_typed (put_hash (InflightKey w) h ks).
Proof.
  intros Hwt. unfold put_hash. case_decide; [by apply well_typed_delete|].
  by apply (well_typed_insert _ FInflight).
Qed.

#[export] Hint Resolve well_typed_put_hash well_typed_delete : taskq.

(** Keys of different families, or of the same family with different names. *)
Ltac key_cases :=
  repeat first
    [ case_decide
    | progress subst
    | match goal with
      | H : QueueKey _ = QueueKey _ |- _ => apply QueueKey_inj in H
      | H : DelayedKey _ = DelayedKey _ |- _ => apply DelayedKey_inj in H
      | H : InflightKey _ = InflightKey _ |- _ => apply InflightKey_inj in H
      | H : DLQKey _ = DLQKey _ |- _ => apply DLQKey_inj in H
      | H : HeartbeatKey _ = HeartbeatKey _ |- _ => apply HeartbeatKey_inj in H
      | H : ?a _ = ?b _ |- _ => discriminate H
      end ].

Ltac view_update :=
  repeat split; intros; simpl; unfold zset_at, hash_at, list_at, beat_at, upd;
  rewrite ?lookup_put_zset, ?lookup_put_hash, ?lookup_insert, ?lookup_delete;
  key_cases; congruence.

Lemma view_put_ready ks t z : view (put_zset (QueueKey t) z ks) ≡ set_ready t z (view ks).
Proof. view_update. Qed.
Lemma view_put_delayed ks t z : view (put_zset (DelayedKey t) z ks) ≡ set_delayed t z (view ks).
Proof. view_update. Qed.
Lemma view_put_inflight ks w h :
  view (put_hash (InflightKey w) h ks) ≡ set_inflight w h (view ks).
Proof. view_update. Qed.
Lemma view_put_dlq ks t l : view (<[DLQKey t := VList l]> ks) ≡ set_dlq t l (view ks).
Proof. view_update. Qed.
Lemma view_put_beat ks w v d :
  view (<[HeartbeatKey w := VString v d]> ks) ≡ set_beat w d (view ks).
Proof. view_update. Qed.
Lemma view_del_inflight ks w : view (delete (InflightKey w) ks) ≡ set_inflight w ∅ (view ks).
Proof. view_update. Qed.

(** ** Programs, effect by effect *)

Section Yields.
Context {U : Uuid} {R : Redis} {RL : RedisLaws R} (o : env) (Hq : quiet o).

#[export] Instance on_pub_proper m : Proper ((≡) ==> (≡)) (on_pub (U := U) m).
Proof. intros a b (? & ? & ? & ? & ?). split; [done|]. simpl. repeat split; congruence. Qed.
#[export] Instance on_count_proper w k : Proper ((≡) ==> (≡)) (on_count (U := U) w k).
Proof. intros a b (? & ? & ? & ? & ?). split; [done|]. simpl. repeat split; congruence. Qed.
#[export] Instance on_db_proper f : Proper ((≡) ==> (≡)) (on_db (U := U) f).
Proof. intros a b (? & ? & ? & ? & ?). split; [done|]. simpl. repeat split; congruence. Qed.
#[export] Instance on_q_proper :
  Proper (((≡) ==> (≡)) ==> (≡) ==> (≡)) (on_q (U := U)).
Proof.
  intros f g Hfg a b (? & ? & ? & ? & ?). split; [by apply Hfg|]. simpl. repeat split; congruence.
Qed.

Lemma on_q_equiv (f : qstate -> qstate) `{!Proper ((≡) ==> (≡)) f} (a b : lstate) :
  a ≡ b -> on_q f a ≡ on_q f b.
Proof. intros H. by apply on_q_proper. Qed.

Lemma yields_ret {A} (a : A) (w : world) : good w -> yields o (Ret a) w 0 a (abs w).
Proof. intros Hg. exists w. repeat split; (done || lia). Qed.

Lemma yields_equiv {A} (p : prog A) w n a L L' :
  yields o p w n a L -> L ≡ L' -> yields o p w n a L'.
Proof. intros (w' & ? & ? & ? & ?) HL. exists w'. split; [done|]. split; [by etransitivity|done]. Qed.

Lemma yields_bind {A B} (p : prog A) (f : A -> prog B) w n m a b L L' :
  yields o p w n a L ->
  (forall w', abs w' ≡ L -> good w' -> ticks w' = (ticks w + n)%nat -> yields o (f a) w' m b L') ->
  yields o (bind p f) w (n + m) b L'.
Proof.
  intros (w' & Hrun & HL & Hg & Ht) Hk.
  destruct (Hk w' HL Hg Ht) as (w'' & Hrun' & HL' & Hg' & Ht').
  exists w''. rewrite run_bind, Hrun. repeat split; (done || lia || apply HL').
Qed.

(** A call whose answer is mapped by a pure continuation. *)
Lemma yields_map {A B} (p : prog A) (f : A -> B) w n a L :
  yields o p w n a L -> yields o (bind p (fun x => Ret (f x))) w n (f a) L.
Proof.
  intros H. replace n with (n + 0)%nat by lia. eapply yields_bind; [exact H|].
  intros w' HL Hg _. eapply yields_equiv; [by apply yields_ret|done].
Qed.

Lemma good_tick w : good w -> good (tick w).
Proof. done. Qed.

Lemma yields_now w : good w -> yields o time_Now w 1 (clock o (ticks w)) (abs w).
Proof. intros Hg. exists (tick w). repeat split; (done || simpl; lia). Qed.

Lemma yields_order {A} (l : list A) w :
  good w -> yields o (range_over l) w 1 (shuffle o (ticks w) A l) (abs w).
Proof. intros Hg. exists (tick w). repeat split; (done || simpl; lia). Qed.

Lemma yields_count k wk w :
  good w -> yields o (count_up wk k) w 1 tt (on_count wk k (abs w)).
Proof. intros Hg. eexists. split; [done|]. repeat split; (done || simpl; lia). Qed.

Lemma yields_replies {X} c (f : rstate -> res X * rstate) w P ks q :
  replies f (redis w) P ks -> well_typed ks -> view ks ≡ q ->
  exists x, P x /\ yields o (rdb c f) w 1 (Ok x) (on_q (fun _ => q) (abs w)).
Proof.
  intros (x & r' & Hf & HP & Hks & Hpub) Hwt Hv. exists x. split; [done|].
  exists (with_redis r' w). rewrite (run_rdb_ok o c f w _ _ Hq Hf).
  unfold abs, good. cbn. rewrite Hks, Hpub. repeat split; try done; try lia; apply Hv.
Qed.

Lemma yields_answers {X} c (f : rstate -> res X * rstate) w x :
  answers f (redis w) x -> good w -> yields o (rdb c f) w 1 (Ok x) (abs w).
Proof.
  intros Hf Hg. exists (with_redis (redis w) w). rewrite (run_rdb_ok o c f w _ _ Hq Hf).
  repeat split; (done || simpl; lia).
Qed.

Lemma yields_sql {X} c (f : stmt X) w x d :
  good w -> f (sqlenv_at o (ticks w)) (database w) = (x, d) ->
  yields o (sql c f) w 1 x (on_db (fun _ => d) (abs w)).
Proof.
  intros Hg Hf. exists (with_db d w). rewrite (run_sql_ok o c f w _ _ Hq Hf).
  repeat split; (done || simpl; lia).
Qed.

(** The commands the queue sends, on the views it sends them to. *)
Lemma yields_zadd_ready c t s m w :
  good w -> yields o (bind (rdb c (ZADD (QueueKey t) s m)) (fun r => Ret (res_err r))) w 1
              (Ok tt) (on_q (push_ready t s m) (abs w)).
Proof.
  intros Hg. destruct (yields_replies c _ w _ _ _
    (zadd_law (redis w) (QueueKey t) s m _ (well_typed_zset _ FReady t Hg ltac:(auto)))
    (well_typed_put_zset _ FReady t _ Hg ltac:(auto)) (view_put_ready _ t _)) as (x & _ & H).
  apply (yields_map _ res_err) in H. exact H.
Qed.

Lemma yields_zadd_delayed c t s m w :
  good w -> yields o (bind (rdb c (ZADD (DelayedKey t) s m)) (fun r => Ret (res_err r))) w 1
              (Ok tt) (on_q (push_delayed t s m) (abs w)).
Proof.
  intros Hg. destruct (yields_replies c _ w _ _ _
    (zadd_law (redis w) (DelayedKey t) s m _ (well_typed_zset _ FDelayed t Hg ltac:(auto)))
    (well_typed_put_zset _ FDelayed t _ Hg ltac:(auto)) (view_put_delayed _ t _)) as (x & _ & H).
  apply (yields_map _ res_err) in H. exact H.
Qed.

Lemma yields_hdel c wk id w :
  good w -> yields o (bind (rdb c (HDEL (InflightKey wk) id)) (fun r => Ret (res_err r))) w 1
              (Ok tt) (on_q (drop_inflight wk id) (abs w)).
Proof.
  intros Hg. destruct (yields_replies c _ w _ _ _
    (hdel_law (redis w) (InflightKey wk) id _ (well_typed_hash _ wk Hg))
    ltac:(auto with taskq) (view_put_inflight _ wk _)) as (x & _ & H).
  apply (yields_map _ res_err) in H. exact H.
Qed.

Lemma yields_rpush c t m w :
  good w -> yields o (bind (rdb c (RPUSH (DLQKey t) m)) (fun r => Ret (res_err r))) w 1
              (Ok tt) (on_q (push_dlq t m) (abs w)).
Proof.
  intros Hg.
  assert (Hne : list_at (keyspace_of (redis w)) (DLQKey t) ++ [m] <> []) by
    (intros [_ ?]%app_eq_nil; done).
  destruct (yields_replies c _ w _ _ _
    (rpush_law (redis w) (DLQKey t) m _ (well_typed_list _ t Hg))
    (well_typed_insert _ FDlq t (VList _) Hg Hne)
    (view_put_dlq _ t _)) as (x & _ & H).
  apply (yields_map _ res_err) in H. exact H.
Qed.

Lemma yields_publish c m w :
  good w -> yields o (bind (rdb c (PUBLISH EventsChannel m)) (fun r => Ret (res_err r))) w 1
              (Ok tt) (on_pub m (abs w)).
Proof.
  intros Hg. destruct (publish_law (redis w) EventsChannel m) as (n & r' & Hf & Hks & Hp).
  exists (with_redis r' w). rewrite run_bind, (run_rdb_ok o c _ w _ _ Hq Hf).
  unfold abs, good. cbn. rewrite Hks, Hp. repeat split; (done || lia).
Qed.

End Yields.
