(* ===== verification/QueueSpec.v ===== *)
(** * What the queue operations do

    Each operation of [Queue.v] refines an operation of the abstract queue of
    [Abstract.v]: the answer, the abstract state afterwards and the number of
    effects, from any well-typed world when no call fails. *)

From S2P Require Import Prelude GoBase F64 GoString Json GoTime Redis RefRedis Task Db Effects.
From S2P Require Import Queue Abstract.

Open Scope Z_scope.
Open Scope taskq_scope.

(** The abstract counterpart of the lease: one member moves from the ready set
    to the worker's table. *)
Definition lease_move (typ wk id m : string) (q : qstate) : qstate :=
  put_inflight wk id m (drop_ready typ m q).

(** One promoted member: re-stamped, re-scored and moved; one that does not
    decode stays where it is. *)
Definition promote_one {U : Uuid} (typ : string) (nowMs : Z) (q : qstate) (m : string) : qstate :=
  match Unmarshal m with
  | Err _ => q
  | Ok env0 =>
      let env := set_enqueued nowMs env0 in
      match Marshal env with
      | Err _ => q
      | Ok body =>
          push_ready (env_Type env) (priorityScore (env_Priority env) nowMs) body
            (drop_delayed typ m q)
      end
  end.

Definition promote_all {U : Uuid} (typ : string) (nowMs : Z) (ms : list string)
    (q : qstate) : qstate :=
  foldl (promote_one typ nowMs) q ms.

(** The members PromoteDelayed looks at: due, in order, at most 256. *)
Definition due (typ : string) (nowMs : Z) (q : qstate) : list string :=
  take 256 (zupto (rnd53 nowMs) (q_delayed q typ)).

(** A task is tracked when some ready set, delayed set or in-flight table holds
    an envelope with its identifier. *)
Definition holds {U : Uuid} (id : uuid) (m : string) : Prop :=
  exists e, Unmarshal m = Ok e /\ env_ID e = id.

Definition tracked {U : Uuid} (q : qstate) (id : uuid) : Prop :=
  (exists t m s, q_ready q t !! m = Some s /\ holds id m) \/
  (exists t m s, q_delayed q t !! m = Some s /\ holds id m) \/
  (exists w f m, q_inflight q w !! f = Some m /\ holds id m).

#[export] Instance promote_one_proper {U : Uuid} t n :
  Proper ((≡) ==> (=) ==> (≡)) (promote_one t n).
Proof.
  intros a b H m ? <-. unfold promote_one.
  destruct (Unmarshal m); [|done]. cbn. destruct (Marshal _); [|done]. by rewrite H.
Qed.

#[export] Instance promote_all_proper {U : Uuid} t n ms :
  Proper ((≡) ==> (≡)) (promote_all t n ms).
Proof.
  unfold promote_all. induction ms as [|m ms IH]; intros a b H; [done|].
  cbn. apply IH. by apply promote_one_proper.
Qed.

#[export] Instance lease_move_proper t wk i m : Proper ((≡) ==> (≡)) (lease_move t wk i m).
Proof. intros a b H. unfold lease_move. by rewrite H. Qed.

Section Spec.
Context {U : Uuid} {UL : UuidLaws U} {R : Redis} {RL : RedisLaws R} (o : env) (Hq : quiet o).

(** The ready set, the delayed set, the table of a worker in a world. *)
Definition ready (w : world) (t : string) : gmap string Z := q_ready (l_q (abs w)) t.
Definition delayed (w : world) (t : string) : gmap string Z := q_delayed (l_q (abs w)) t.
Definition inflight (w : world) (wk : string) : gmap string string :=
  q_inflight (l_q (abs w)) wk.

(** ** Enqueue *)

Definition stamped (e : Envelope) (w : world) : Envelope :=
  if env_EnqueuedAt e =? 0 then set_enqueued (UnixMilli (clock o (ticks w))) e else e.

Definition enqueue_effects (e : Envelope) : nat := if env_EnqueuedAt e =? 0 then 2 else 1.

Lemma enqueue_yields c e w body :
  good w -> Marshal (stamped e w) = Ok body ->
  yields o (Enqueue c e) w (enqueue_effects e) (Ok tt)
    (on_q (push_ready (env_Type e)
             (priorityScore (env_Priority e) (env_EnqueuedAt (stamped e w))) body) (abs w)).
Proof.
  intros Hg Hm. unfold Enqueue, stamped, enqueue_effects in *.
  destruct (env_EnqueuedAt e =? 0).
  - change 2%nat with (1 + 1)%nat.
    eapply (yields_bind _ _ _ w 1 1 _ _ (abs w)).
    { apply yields_map. by apply yields_now. }
    intros w' HL Hg' _. cbv beta. rewrite Hm.
    eapply yields_equiv; [by apply yields_zadd_ready|].
    apply on_q_equiv; [apply _|done].
  - cbn [bind]. rewrite Hm. by apply yields_zadd_ready.
Qed.

Lemma enqueue_rejects c e w err :
  good w -> Marshal e = Err err ->
  yields o (Enqueue c e) w (enqueue_effects e - 1) (Err err) (abs w).
Proof.
  intros Hg Hm. unfold Enqueue, enqueue_effects.
  assert (Hm' : forall t, Marshal (set_enqueued t e) = Err err).
  { intros t. revert Hm. unfold Marshal. simpl. by destruct (payload_json _). }
  destruct (env_EnqueuedAt e =? 0).
  - change (2 - 1)%nat with (1 + 0)%nat.
    eapply yields_bind; [apply yields_map; by apply yields_now|].
    intros w' HL Hg' _. cbv beta. rewrite Hm'.
    eapply yields_equiv; [by apply yields_ret|done].
  - cbn [bind]. rewrite Hm. by apply yields_ret.
Qed.

Lemma enqueue_delayed_yields c e at_ w body :
  good w -> Marshal e = Ok body ->
  yields o (EnqueueDelayed c e at_) w 1 (Ok tt)
    (on_q (push_delayed (env_Type e) (rnd53 (UnixMilli at_)) body) (abs w)).
Proof.
  intros Hg Hm. unfold EnqueueDelayed. rewrite Hm. by apply yields_zadd_delayed.
Qed.

(** ** Lease *)

Lemma lease_script_empty t wk w :
  good w -> ready w t = ∅ ->
  exists r', leaseScript (QueueKey t) (InflightKey wk) (redis w) = (Err ErrRedisNil, r') /\
             keyspace_of r' = keyspace_of (redis w) /\ published r' = published (redis w).
Proof.
  intros Hg He.
  destruct (zpopmin_law (redis w) (QueueKey t) _
              (well_typed_zset _ FReady t Hg ltac:(auto))) as (l & r' & Hf & -> & Hks & Hp).
  unfold ready, abs in He. cbn in He. cbn [key] in *.
  rewrite He in *. rewrite (proj2 (zsorted_nil ∅) eq_refl) in *.
  exists r'. unfold leaseScript. rewrite Hf. done.
Qed.

Lemma lease_script_pops t wk w m s l id :
  good w -> zsorted (ready w t) = (m, s) :: l -> cjson_decode_id m = Ok id ->
  exists r', leaseScript (QueueKey t) (InflightKey wk) (redis w) = (Ok (RBulk m), r') /\
             well_typed (keyspace_of r') /\
             view (keyspace_of r') ≡ lease_move t wk id m (view (keyspace_of (redis w))) /\
             published r' = published (redis w).
Proof.
  intros Hg Hz Hid.
  destruct (zpopmin_law (redis w) (QueueKey t) _
              (well_typed_zset _ FReady t Hg ltac:(auto))) as (x & r1 & Hf & -> & Hks & Hp).
  unfold ready, abs in Hz. cbn in Hz. cbn [key] in *. rewrite Hz in *.
  assert (Hg1 : well_typed (keyspace_of r1)).
  { rewrite Hks. apply (well_typed_put_zset _ FReady); auto. }
  destruct (hset_law r1 (InflightKey wk) id m _ (well_typed_hash _ wk Hg1))
    as (n & r2 & Hf2 & _ & Hks2 & Hp2).
  exists r2. unfold leaseScript. rewrite Hf. cbn [take]. rewrite Hid, Hf2.
  repeat split; try congruence; rewrite Hks2; [by apply well_typed_put_hash|..];
    pose proof (view_put_inflight (keyspace_of r1) wk
                  (<[id := m]> (hash_at (keyspace_of r1) (InflightKey wk)))) as V;
    pose proof (view_put_ready (keyspace_of (redis w)) t
                  (delete m (zset_at (keyspace_of (redis w)) (QueueKey t)))) as V1;
    rewrite <- Hks in V1;
    pose proof (put_inflight_proper wk id m _ _ V1) as V2;
    destruct V as (A1 & A2 & A3 & A4 & A5), V2 as (B1 & B2 & B3 & B4 & B5); cbn in *;
    congruence.
Qed.

Lemma lease_empty c t wk ttl w :
  good w -> ready w t = ∅ -> yields o (Lease c t wk ttl) w 1 (Err ErrEmpty) (abs w).
Proof.
  intros Hg He. destruct (lease_script_empty t wk w Hg He) as (r' & Hf & Hks & Hp).
  exists (with_redis r' w). unfold Lease.
  rewrite run_bind, (run_rdb_ok o c _ w _ _ Hq Hf). cbn.
  unfold abs, good. cbn. rewrite Hks, Hp. repeat split; (done || lia).
Qed.

Lemma lease_ok c t wk ttl w m s l e :
  good w -> zsorted (ready w t) = (m, s) :: l -> Marshal e = Ok m -> ints_ok e = true ->
  yields o (Lease c t wk ttl) w 1 (Ok (wire e))
    (on_q (lease_move t wk (uuid_String (env_ID e)) m) (abs w)).
Proof.
  intros Hg Hz Hm Hi.
  destruct (lease_script_pops t wk w m s l _ Hg Hz (Marshal_id e m Hm))
    as (r' & Hf & Hwt & Hv & Hp).
  exists (with_redis r' w). unfold Lease.
  rewrite run_bind, (run_rdb_ok o c _ w _ _ Hq Hf).
  rewrite (Unmarshal_Marshal e m Hi Hm).
  split; [done|]. split; [|split; [done|cbn; lia]].
  split; [exact Hv|]. cbn. rewrite Hp. done.
Qed.

(** A member whose identifier cannot be read is popped and lost. *)
Lemma lease_garbled c t wk ttl w m s l err :
  good w -> zsorted (ready w t) = (m, s) :: l -> cjson_decode_id m = Err err ->
  errors_Is err ErrRedisNil = false ->
  yields o (Lease c t wk ttl) w 1 (Err err) (on_q (drop_ready t m) (abs w)).
Proof.
  intros Hg Hz Hid Hnil.
  destruct (zpopmin_law (redis w) (QueueKey t) _
              (well_typed_zset _ FReady t Hg ltac:(auto))) as (x & r1 & Hf & -> & Hks & Hp).
  unfold ready, abs in Hz. cbn in Hz. cbn [key] in *. rewrite Hz in *.
  assert (Hs : leaseScript (QueueKey t) (InflightKey wk) (redis w) = (Err err, r1)).
  { unfold leaseScript. rewrite Hf. cbn [take]. by rewrite Hid. }
  exists (with_redis r1 w). unfold Lease.
  rewrite run_bind, (run_rdb_ok o c _ w _ _ Hq Hs), Hnil. cbn [run].
  split; [done|]. split; [|split; [|cbn; lia]].
  - split; [|cbn; rewrite Hp; done]. cbn. rewrite Hks. apply view_put_ready.
  - unfold good. cbn. rewrite Hks. apply (well_typed_put_zset _ FReady); auto.
Qed.

(** Trying the types in order: the empty ones are skipped. *)
Lemma lease_any_skips c t types wk ttl w n a L :
  good w -> ready w t = ∅ ->
  (forall w', abs w' ≡ abs w -> good w' -> ticks w' = S (ticks w) ->
              yields o (LeaseAny c types wk ttl) w' n a L) ->
  yields o (LeaseAny c (t :: types) wk ttl) w (S n) a L.
Proof.
  intros Hg He Hk. cbn [LeaseAny]. change (S n) with (1 + n)%nat.
  eapply yields_bind; [by apply lease_empty|].
  intros w' HL Hg' Ht. cbn. apply Hk; [done|done|lia].
Qed.

(** ** Leaving the in-flight table *)

Lemma ack_yields c wk id w :
  good w -> yields o (Ack c wk id) w 1 (Ok tt)
              (on_q (drop_inflight wk (uuid_String id)) (abs w)).
Proof. apply yields_hdel; done. Qed.

Lemma nack_yields c wk id w :
  good w -> yields o (Nack c wk id) w 1 (Ok tt)
              (on_q (drop_inflight wk (uuid_String id)) (abs w)).
Proof. apply yields_hdel; done. Qed.

Lemma dead_letter_yields c e reason w body :
  good w -> MarshalDead e reason (UnixMilli (clock o (ticks w))) = Ok body ->
  yields o (DeadLetter c e reason) w 2 (Ok tt) (on_q (push_dlq (env_Type e) body) (abs w)).
Proof.
  intros Hg Hm. unfold DeadLetter. change 2%nat with (1 + 1)%nat.
  eapply yields_bind; [by apply yields_now|]. intros w' HL Hg' _. cbv beta. rewrite Hm.
  eapply yields_equiv; [by apply yields_rpush|]. apply on_q_equiv; [apply _|done].
Qed.

Lemma publish_yields c m body w :
  good w -> m = Ok body -> yields o (Publish c m) w 1 (Ok tt) (on_pub body (abs w)).
Proof. intros Hg ->. by apply yields_publish. Qed.

(** ** Reclaiming a worker's table *)

(** The entries of the table in the order the runtime visits them. *)
Definition reclaim_entries (wk : string) (w : world) : list (string * string) :=
  shuffle o (S (ticks w)) _ (map_to_list (inflight w wk)).

Definition reclaim_effects (wk : string) (w : world) : nat :=
  if decide (inflight w wk = ∅) then 2 else 3.

Lemma set_inflight_id (wk : string) (q : qstate) :
  set_inflight wk (q_inflight q wk) q ≡ q.
Proof. repeat split; intros; simpl; unfold upd; by case_decide; subst. Qed.

Lemma reclaim_yields {EO : EnvOk o} c wk w :
  good w ->
  yields o (ReclaimInflight c wk) w (reclaim_effects wk w)
    (Ok (decode_all (map snd (reclaim_entries wk w))))
    (on_q (set_inflight wk ∅) (abs w)).
Proof.
  intros Hg. unfold ReclaimInflight, reclaim_effects.
  replace (if decide (inflight w wk = ∅) then 2%nat else 3%nat)
    with (1 + (1 + if decide (inflight w wk = ∅) then 0 else 1))%nat by (by case_decide).
  eapply yields_bind.
  { apply yields_answers; [done| |done]. apply hgetall_law, (well_typed_hash _ wk Hg). }
  intros w1 HL1 Hg1 Ht1. cbv beta iota.
  eapply yields_bind; [by apply yields_order|]. intros w2 HL2 Hg2 Ht2. cbv beta zeta.
  change (hash_at (keyspace_of (redis w)) (InflightKey wk)) with (inflight w wk).
  rewrite Ht1. replace (ticks w + 1)%nat with (S (ticks w)) by lia.
  change (shuffle o (S (ticks w)) _ (map_to_list (inflight w wk))) with (reclaim_entries wk w).
  assert (Hlen : length (reclaim_entries wk w) = size (inflight w wk)).
  { unfold reclaim_entries. rewrite shuffle_perm. apply length_map_to_list. }
  rewrite Hlen. rewrite HL1 in HL2. case_decide as He.
  - rewrite He, map_size_empty. cbn [Nat.ltb Nat.leb].
    eapply yields_equiv; [by apply yields_ret|]. rewrite HL2.
    split; [|done]. cbn. symmetry.
    pose proof (set_inflight_id wk (l_q (abs w))) as Hid.
    change (q_inflight (l_q (abs w)) wk) with (inflight w wk) in Hid.
    rewrite He in Hid. exact Hid.
  - assert (Hpos : (0 <? size (inflight w wk))%nat = true).
    { apply Nat.ltb_lt. apply Nat.neq_0_lt_0. by rewrite map_size_empty_iff. }
    rewrite Hpos.
    destruct (yields_replies o Hq c _ w2 _ _ _ (del_law (redis w2) (InflightKey wk))
                ltac:(auto with taskq) (view_del_inflight _ wk)) as (x & _ & H).
    change 1%nat with (1 + 0)%nat. eapply yields_bind; [exact H|].
    intros w3 HL3 Hg3 _. eapply yields_equiv; [by apply yields_ret|]. rewrite HL3.
    apply (on_q_equiv (set_inflight wk ∅)) in HL2. exact HL2.
Qed.

(** ** Promotion *)

(** A command run on the server alone. *)
Definition server_step (f : rstate -> res unit * rstate) (r : rstate) (q : qstate) : Prop :=
  exists r', f r = (Ok tt, r') /\ well_typed (keyspace_of r') /\
             view (keyspace_of r') ≡ q /\ published r' = published r.

Lemma promote_cmds_step t nowMs m rest r q :
  well_typed (keyspace_of r) ->
  (forall r', well_typed (keyspace_of r') ->
     view (keyspace_of r') ≡ promote_one t nowMs (view (keyspace_of r)) m ->
     published r' = published r -> server_step (tx_exec rest) r' q) ->
  server_step (tx_exec (promote_cmds t nowMs m ++ rest)) r q.
Proof.
  intros Hwt Hk. unfold promote_cmds, promote_one in *.
  destruct (Unmarshal m) as [env0|]; [|by apply Hk]. cbn zeta in *.
  destruct (Marshal (set_enqueued nowMs env0)) as [body|]; [|by apply Hk].
  set (env := set_enqueued nowMs env0) in *.
  destruct (zrem_law r (DelayedKey t) m _ (well_typed_zset _ FDelayed t Hwt ltac:(auto)))
    as (x & r1 & Hf1 & _ & Hks1 & Hp1).
  assert (Hwt1 : well_typed (keyspace_of r1)).
  { rewrite Hks1. apply (well_typed_put_zset _ FDelayed); auto. }
  destruct (zadd_law r1 (QueueKey (env_Type env)) (priorityScore (env_Priority env) nowMs) body _
              (well_typed_zset _ FReady (env_Type env) Hwt1 ltac:(auto)))
    as (y & r2 & Hf2 & _ & Hks2 & Hp2).
  assert (Hwt2 : well_typed (keyspace_of r2)).
  { rewrite Hks2. apply (well_typed_put_zset _ FReady); auto. }
  destruct (Hk r2 Hwt2) as (r' & Hrest & Hwt' & Hv' & Hp').
  { rewrite Hks2. etransitivity; [apply view_put_ready|].
    apply (push_ready_proper (env_Type env) (priorityScore (env_Priority env) nowMs) body
             (view (keyspace_of r1))).
    rewrite Hks1. apply view_put_delayed. }
  { congruence. }
  exists r'. cbn [app tx_exec]. rewrite Hf1. cbv beta iota. rewrite Hf2. cbv beta iota.
  rewrite Hrest. split; [done|]. split; [done|]. split; [done|congruence].
Qed.

Lemma promote_tx t nowMs ms r :
  well_typed (keyspace_of r) ->
  server_step (tx_exec (flat_map (promote_cmds t nowMs) ms)) r
              (promote_all t nowMs ms (view (keyspace_of r))).
Proof.
  revert r. induction ms as [|m ms IH]; intros r Hwt.
  - exists r. repeat split; done.
  - cbn [flat_map]. apply promote_cmds_step; [done|].
    intros r' Hwt' Hv Hp. destruct (IH r' Hwt') as (r'' & ? & ? & Hv'' & ?).
    exists r''. split; [done|]. split; [done|]. split; [|congruence].
    etransitivity; [exact Hv''|]. by apply (promote_all_proper t nowMs ms).
Qed.

Definition promote_effects (t : string) (nowMs : Z) (w : world) : nat :=
  match flat_map (promote_cmds (R := R) t nowMs) (due t nowMs (l_q (abs w))) with
  | [] => 1
  | _ => 2
  end.

Lemma promote_yields c t now w :
  good w ->
  let ms := due t (UnixMilli now) (l_q (abs w)) in
  yields o (PromoteDelayed c t now) w (promote_effects t (UnixMilli now) w)
    (Ok (Z.of_nat (length ms))) (on_q (promote_all t (UnixMilli now) ms) (abs w)).
Proof.
  intros Hg ms. unfold PromoteDelayed, promote_effects. set (nowMs := UnixMilli now) in *.
  cbn zeta. fold ms.
  assert (Hread : yields o (rdb c (ZRANGEBYSCORE (DelayedKey t) (rnd53 nowMs) 0 256)) w 1
                    (Ok ms) (abs w)).
  { apply yields_answers; [done| |done].
    apply zrangebyscore_law, (well_typed_zset _ FDelayed t Hg); auto. }
  destruct (flat_map (promote_cmds t nowMs) ms) as [|cmd cmds] eqn:Ec.
  - change 1%nat with (1 + 0)%nat. eapply yields_bind; [exact Hread|].
    intros w1 HL1 Hg1 _. cbv beta iota. rewrite Ec.
    assert (Hsame : promote_all t nowMs ms (l_q (abs w)) ≡ l_q (abs w)).
    { destruct (promote_tx t nowMs ms (redis w) Hg) as (r' & Hf & _ & Hv & _).
      rewrite Ec in Hf. cbn in Hf. injection Hf as <-. symmetry. exact Hv. }
    assert (HL : abs w1 ≡ on_q (promote_all t nowMs ms) (abs w)).
    { rewrite HL1. split; [by symmetry|done]. }
    destruct ms as [|m ms']; cbn [length Nat.eqb bind];
      (eapply yields_equiv; [by apply yields_ret|exact HL]).
  - change 2%nat with (1 + (1 + 0))%nat. eapply yields_bind; [exact Hread|].
    intros w1 HL1 Hg1 _. cbv beta iota.
    destruct ms as [|m ms'] eqn:Em; [done|]. rewrite <- Em in *.
    replace (length ms =? 0)%nat with false by (by rewrite Em).
    cbn zeta. rewrite Ec, <- Ec.
    eapply yields_bind with (a := Ok tt) (L := on_q (promote_all t nowMs ms) (abs w)).
    + destruct (promote_tx t nowMs ms (redis w1) Hg1) as (r' & Hf & Hwt & Hv & Hp).
      exists (with_redis r' w1). rewrite (run_rdb_ok o c _ w1 _ _ Hq Hf).
      split; [done|]. split; [|split; [done|cbn; lia]].
      destruct HL1 as (E1 & E2 & E3 & E4 & E5).
      split; [|cbn in *; repeat split; congruence]. cbn. rewrite Hv.
      by apply promote_all_proper.
    + intros w2 HL2 Hg2 _. eapply yields_equiv; [by apply yields_ret|done].
Qed.

(** ** Heartbeats *)

(** Is the worker's heartbeat present at time [now]? *)
Definition alive_at (now : Z) (q : qstate) (wk : string) : bool :=
  match q_beat q wk with
  | Some (Some d) => now <? d
  | Some None => true
  | None => false
  end.

Lemma heartbeat_yields c wk ttl w :
  good w ->
  yields o (Heartbeat c wk ttl) w 2 (Ok tt)
    (on_q (set_beat wk (deadline_of (clock o (S (ticks w))) ttl)) (abs w)).
Proof.
  intros Hg. unfold Heartbeat. change 2%nat with (1 + 1)%nat.
  eapply yields_bind; [by apply yields_now|]. intros w1 HL Hg1 Ht. cbv beta.
  replace (S (ticks w)) with (ticks w1) by lia. set (now := clock o (ticks w1)).
  destruct (set_law (redis w1) (HeartbeatKey wk) (itoa (UnixMilli (clock o (ticks w)))) ttl now)
    as ([] & r' & Hf & _ & Hks & Hp).
  exists (with_redis r' w1).
  split; [by apply run_rdb_at_ok|]. split; [|split; [|cbn; lia]].
  - destruct HL as (E1 & E2 & E3 & E4 & E5). split; [|cbn in *; repeat split; congruence].
    cbn. rewrite Hks. etransitivity; [apply view_put_beat|]. by apply set_beat_proper.
  - unfold good. cbn. rewrite Hks. by apply (well_typed_insert _ FHeartbeat).
Qed.

Lemma live_beat (now : Z) (ks : keyspace) (wk : string) :
  well_typed ks -> live now ks (HeartbeatKey wk) = alive_at now (view ks) wk.
Proof.
  intros Hwt. unfold live, alive_at, view. simpl. unfold beat_at.
  destruct (ks !! HeartbeatKey wk) as [v|] eqn:E; [|done].
  specialize (Hwt FHeartbeat _ _ E). by destruct v.
Qed.

Lemma is_alive_yields c wk w :
  good w ->
  yields o (IsAlive c wk) w 1
    (Ok (alive_at (clock o (ticks w)) (l_q (abs w)) wk)) (abs w).
Proof.
  intros Hg. exists (with_redis (redis w) w). unfold IsAlive. rewrite run_bind.
  rewrite (run_rdb_at_ok o c _ w _ _ Hq (exists_law _ _ _)), live_beat by done.
  cbn [run]. split; [|repeat split; (done || cbn; lia)].
  cbn [abs l_q]. by destruct (alive_at _ _ _).
Qed.

(** ** Depths *)

Lemma queue_depth_yields c t w :
  good w -> yields o (QueueDepth c t) w 1 (Ok (Z.of_nat (size (ready w t)))) (abs w).
Proof.
  intros Hg. apply yields_answers; [done| |done].
  apply zcard_law, (well_typed_zset _ FReady t Hg); auto.
Qed.

Lemma delayed_depth_yields c t w :
  good w -> yields o (DelayedDepth c t) w 1 (Ok (Z.of_nat (size (delayed w t)))) (abs w).
Proof.
  intros Hg. apply yields_answers; [done| |done].
  apply zcard_law, (well_typed_zset _ FDelayed t Hg); auto.
Qed.

Lemma dlq_depth_yields c t w :
  good w ->
  yields o (DLQDepth c t) w 1 (Ok (Z.of_nat (length (q_dlq (l_q (abs w)) t)))) (abs w).
Proof.
  intros Hg. apply yields_answers; [done| |done]. apply llen_law, (well_typed_list _ t Hg).
Qed.

(** ** Scanning for types *)

(** The world after [n] effects that changed nothing. *)
Definition idle (n : nat) (w : world) : world :=
  MkWorld (redis w) (database w) (metrics w) (stdout w) (ticks w + n).

Lemma idle_add n m w : idle m (idle n w) = idle (n + m) w.
Proof. unfold idle. cbn. f_equal. lia. Qed.

Lemma idle_yields {A} (p : prog A) w n a :
  good w -> run o p w = (a, idle n w) -> yields o p w n a (abs w).
Proof. intros Hg Hr. exists (idle n w). repeat split; done. Qed.

(** The loop follows the pages of an iteration to the end. *)
Lemma scan_keys_run n cur ks fuel c pat trim types w :
  scan_trace (redis w) pat 100 n cur ks -> (n <= fuel)%nat ->
  run o (scan_keys fuel c pat cur types trim) w =
    (Ok (types ∪ list_to_set (map trim ks)), idle n w).
Proof.
  intros Htr. remember (redis w) as r eqn:Er. revert fuel types w Er.
  induction Htr as [cur ks Ha|n cur cur' ks ks' Hc Ha Htr IH]; intros fuel types w -> Hf;
    (destruct fuel as [|fuel]; [lia|]); cbn [scan_keys];
    rewrite run_bind, (run_rdb_ok o c _ w _ _ Hq Ha).
  - cbn [run Z.eqb]. unfold idle, with_redis. by rewrite Nat.add_1_r.
  - rewrite (proj2 (Z.eqb_neq cur' 0) Hc).
    rewrite (IH fuel (types ∪ list_to_set (map trim ks)) (with_redis (redis w) w) eq_refl) by lia.
    f_equal.
    + f_equal. rewrite map_app, list_to_set_app_L. by rewrite assoc_L by apply _.
    + unfold idle, with_redis. cbn. f_equal. lia.
Qed.

(** The names behind the keys of a family. *)
Lemma scan_family f p c trim w :
  (forall x, key f x = p +:+ x) -> glob_literal p = true ->
  (forall x, trim (p +:+ x) = x) -> f <> FHeartbeat -> good w ->
  exists n (types : gset string),
    (forall t, t ∈ types <-> is_Some (keyspace_of (redis w) !! key f t)) /\
    forall fuel, (n <= fuel)%nat ->
      run o (scan_keys fuel c (p +:+ "*") 0 ∅ trim) w = (Ok types, idle n w).
Proof.
  intros Hkey Hlit Htrim Hf Hg.
  destruct (scan_law (redis w) p 100 Hlit) as (n & ks & Htr & Hsome & Hall).
  exists n, (∅ ∪ list_to_set (map trim ks)). split.
  - intros t. rewrite elem_of_union, elem_of_list_to_set, list_elem_of_In, in_map_iff. split.
    + intros [H|(k & <- & H)]; [set_solver|].
      apply list_elem_of_In in H. destruct (Hsome k H) as [Hk (x & ->)%has_prefix_true].
      by rewrite Htrim, Hkey.
    + intros [v Hv]. right. exists (key f t). split; [by rewrite Hkey, Htrim|].
      apply list_elem_of_In, (Hall _ v); [done| |by apply has_prefix_true; exists t].
      specialize (Hg f t v Hv). by destruct f, v.
  - intros fuel Hfu. by apply scan_keys_run.
Qed.

Lemma ready_present ks t :
  well_typed ks -> is_Some (ks !! QueueKey t) <-> zset_at ks (QueueKey t) <> ∅.
Proof.
  intros Hwt. unfold zset_at. split.
  - intros [v Hv]. pose proof (Hwt FReady t v Hv) as Hok. rewrite Hv. by destruct v.
  - destruct (ks !! QueueKey t) as [v|]; [eauto|done].
Qed.

Lemma delayed_present ks t :
  well_typed ks -> is_Some (ks !! DelayedKey t) <-> zset_at ks (DelayedKey t) <> ∅.
Proof.
  intros Hwt. unfold zset_at. split.
  - intros [v Hv]. pose proof (Hwt FDelayed t v Hv) as Hok. rewrite Hv. by destruct v.
  - destruct (ks !! DelayedKey t) as [v|]; [eauto|done].
Qed.

Lemma trim_prefix_app (p x : string) : TrimPrefix (p +:+ x) p = x.
Proof. unfold TrimPrefix. by rewrite strip_prefix_app. Qed.

Lemma list_types_run {EO : EnvOk o} c w :
  good w ->
  exists n types, NoDup types /\ (forall t, t ∈ types <-> ready w t <> ∅) /\
    forall fuel, (n <= fuel)%nat -> run o (ListTypes fuel c) w = (Ok types, idle (S n) w).
Proof.
  intros Hg.
  destruct (scan_family FReady "queue:" c (fun k => TrimPrefix k "queue:") w) as (n & types & Ht & H);
    [done|done|apply trim_prefix_app|done|done|].
  exists n, (shuffle o (ticks w + n) _ (elements types)). split; [|split].
  - rewrite shuffle_perm. apply NoDup_elements.
  - intros t. rewrite shuffle_perm, elem_of_elements, Ht. by apply ready_present.
  - intros fuel Hf. unfold ListTypes. rewrite run_bind.
    change "queue:*" with ("queue:" +:+ "*"). rewrite H by done.
    cbn [run range_over perform bind do_effect]. f_equal.
    unfold idle, tick. cbn. f_equal. lia.
Qed.

End Spec.

(** ** What a promotion leaves alone *)

Section PromoteFrame.
Context {U : Uuid}.

Lemma promote_one_frame t n q m :
  q_inflight (promote_one t n q m) = q_inflight q /\
  q_dlq (promote_one t n q m) = q_dlq q /\ q_beat (promote_one t n q m) = q_beat q.
Proof.
  unfold promote_one. destruct (Unmarshal m); [|done]. cbn zeta. by destruct (Marshal _).
Qed.

Lemma promote_all_frame t n ms q :
  q_inflight (promote_all t n ms q) = q_inflight q /\
  q_dlq (promote_all t n ms q) = q_dlq q /\ q_beat (promote_all t n ms q) = q_beat q.
Proof.
  revert q. induction ms as [|m ms IH]; intros q; [done|]. cbn [promote_all foldl].
  destruct (IH (promote_one t n q m)) as (E1 & E2 & E3).
  destruct (promote_one_frame t n q m) as (F1 & F2 & F3).
  split_and!; [by rewrite <- F1|by rewrite <- F2|by rewrite <- F3].
Qed.

End PromoteFrame.
