(* ===== verification/QueueInv.v ===== *)
(** * Invariants of the abstract queue

    [data_ok]: every member of a ready set is the encoding of an envelope of that
    type, scored by its priority and enqueue time; every delayed member is one of
    that type; every in-flight entry is one filed under its identifier; every
    dead-letter record is one of an envelope of that type. Each
    abstract operation preserves it, and the operations that move an envelope
    keep it [tracked]. *)

From S2P Require Import Prelude GoBase F64 GoString Json Redis Task Db Effects Queue Abstract.
From S2P Require Import QueueSpec.

Open Scope Z_scope.

Section Inv.
Context {U : Uuid} {UL : UuidLaws U}.

(** [m] is the encoding of [e]. *)
Definition encodes (e : Envelope) (m : string) : Prop :=
  Marshal e = Ok m /\ ints_ok e = true.

(** [m] is a dead-letter record of [e]. *)
Definition buries (e : Envelope) (m : string) : Prop :=
  ints_ok e = true /\ exists reason failedAt, MarshalDead e reason failedAt = Ok m.

Record data_ok (q : qstate) : Prop := {
  ok_ready t m s : q_ready q t !! m = Some s ->
    exists e, encodes e m /\ env_Type e = t /\
              s = priorityScore (env_Priority e) (env_EnqueuedAt e);
  ok_delayed t m s : q_delayed q t !! m = Some s ->
    exists e, encodes e m /\ env_Type e = t;
  ok_inflight w f m : q_inflight q w !! f = Some m ->
    exists e, encodes e m /\ f = uuid_String (env_ID e);
  ok_dlq t m : m ∈ q_dlq q t -> exists e, buries e m /\ env_Type e = t
}.

#[export] Instance data_ok_proper : Proper ((≡) ==> iff) data_ok.
Proof.
  assert (H : forall a b, a ≡ b -> data_ok a -> data_ok b).
  { intros a b (E1 & E2 & E3 & E4 & _) [H1 H2 H3 H4]. split; intros ??.
    - rewrite <- E1. apply H1.
    - rewrite <- E2. apply H2.
    - rewrite <- E3. apply H3.
    - rewrite <- E4. apply H4. }
  intros a b E. split; apply H; [done|by symmetry].
Qed.

(** ** Encodings *)

Lemma encodes_Unmarshal e m : encodes e m -> Unmarshal m = Ok (wire e).
Proof. intros [Hm Hi]. by apply Unmarshal_Marshal. Qed.

Lemma encodes_holds e m : encodes e m -> holds (env_ID e) m.
Proof. intros H. exists (wire e). split; [by apply encodes_Unmarshal|done]. Qed.

Lemma buries_Unmarshal e m : buries e m -> Unmarshal m = Ok (wire e).
Proof. intros (Hi & reason & at_ & Hm). by eapply Unmarshal_MarshalDead. Qed.

Lemma buries_holds e m : buries e m -> holds (env_ID e) m.
Proof. intros H. exists (wire e). split; [by apply buries_Unmarshal|done]. Qed.

Lemma wire_ints e : ints_ok e = true -> ints_ok (wire e) = true.
Proof. done. Qed.

Lemma ints_set_enqueued e t :
  ints_ok e = true -> in_int64 t = true -> ints_ok (set_enqueued t e) = true.
Proof.
  unfold ints_ok. simpl. intros H Ht.
  apply andb_prop in H as [[[-> ->]%andb_prop ->]%andb_prop _]. by rewrite Ht.
Qed.

Lemma ints_set_attempts e n :
  ints_ok e = true -> in_int64 n = true -> ints_ok (set_attempts n e) = true.
Proof.
  unfold ints_ok. simpl. intros H Hn.
  apply andb_prop in H as [[[-> _]%andb_prop ->]%andb_prop ->]. by rewrite Hn.
Qed.

(** An envelope read off the wire can always be written again. *)
Lemma Marshal_wire e m : encodes e m -> exists body, Marshal (wire e) = Ok body.
Proof.
  intros [Hm _]. apply Marshal_inv in Hm as (p & Hp & _).
  unfold Marshal, wire. cbn. rewrite Hp. cbn.
  rewrite parse_print by (by eapply payload_json_wf). cbn. eauto.
Qed.

Lemma Marshal_set_enqueued e t body :
  Marshal e = Ok body -> exists body', Marshal (set_enqueued t e) = Ok body'.
Proof. unfold Marshal. cbn. destruct (payload_json _); [eauto|done]. Qed.

Lemma Marshal_set_attempts e n body :
  Marshal e = Ok body -> exists body', Marshal (set_attempts n e) = Ok body'.
Proof. unfold Marshal. cbn. destruct (payload_json _); [eauto|done]. Qed.

(** Two encodings of the same text agree up to the wire. *)
Lemma encodes_wire e e' m : encodes e m -> encodes e' m -> wire e = wire e'.
Proof. intros H H'. apply encodes_Unmarshal in H, H'. congruence. Qed.

(** ** [data_ok] is preserved *)

Lemma data_ok_push_ready e m q :
  data_ok q -> encodes e m ->
  data_ok (push_ready (env_Type e) (priorityScore (env_Priority e) (env_EnqueuedAt e)) m q).
Proof.
  intros [H1 H2 H3 H4] He. split; simpl; unfold upd; intros; [|by eauto..].
  case_decide as Ht; [|by eauto].
  apply lookup_insert_Some in H as [[<- <-]|[_ H]]; [by eauto|].
  destruct (H1 _ _ _ H) as (e' & ? & ? & ->). exists e'. split; [done|]. split; congruence.
Qed.

Lemma data_ok_push_delayed e m s q :
  data_ok q -> encodes e m -> data_ok (push_delayed (env_Type e) s m q).
Proof.
  intros [H1 H2 H3 H4] He. split; simpl; unfold upd; intros; [by eauto| |by eauto..].
  case_decide as Ht; [|by eauto].
  apply lookup_insert_Some in H as [[<- <-]|[_ H]]; [by eauto|].
  destruct (H2 _ _ _ H) as (e' & ? & ?). exists e'. split; [done|]. congruence.
Qed.

Lemma data_ok_drop_ready t m q : data_ok q -> data_ok (drop_ready t m q).
Proof.
  intros [H1 H2 H3 H4]. split; simpl; unfold upd; intros; [|by eauto..].
  case_decide as Ht; [|by eauto]. subst. apply lookup_delete_Some in H as [_ H]. by eauto.
Qed.

Lemma data_ok_drop_delayed t m q : data_ok q -> data_ok (drop_delayed t m q).
Proof.
  intros [H1 H2 H3 H4]. split; simpl; unfold upd; intros; [by eauto| |by eauto..].
  case_decide as Ht; [|by eauto]. subst. apply lookup_delete_Some in H as [_ H]. by eauto.
Qed.

Lemma data_ok_put_inflight w e m q :
  data_ok q -> encodes e m -> data_ok (put_inflight w (uuid_String (env_ID e)) m q).
Proof.
  intros [H1 H2 H3 H4] He. split; simpl; unfold upd; intros; [by eauto|by eauto| |by eauto].
  case_decide as Hw; [|by eauto].
  apply lookup_insert_Some in H as [[<- <-]|[_ H]]; by eauto.
Qed.

Lemma data_ok_drop_inflight w f q : data_ok q -> data_ok (drop_inflight w f q).
Proof.
  intros [H1 H2 H3 H4]. split; simpl; unfold upd; intros; [by eauto|by eauto| |by eauto].
  case_decide as Hw; [|by eauto]. apply lookup_delete_Some in H as [_ H]. by eauto.
Qed.

Lemma data_ok_clear_inflight w q : data_ok q -> data_ok (set_inflight w ∅ q).
Proof.
  intros [H1 H2 H3 H4]. split; simpl; unfold upd; intros; [by eauto|by eauto| |by eauto].
  case_decide; [by rewrite lookup_empty in H|by eauto].
Qed.

Lemma data_ok_push_dlq e m q : data_ok q -> buries e m -> data_ok (push_dlq (env_Type e) m q).
Proof.
  intros [H1 H2 H3 H4] He. split; simpl; unfold upd; intros; [by eauto..|].
  case_decide as Ht; [|by eauto].
  apply elem_of_app in H as [H| ->%list_elem_of_singleton]; [|by eauto].
  rewrite <- Ht. by eauto.
Qed.

Lemma data_ok_set_beat w d q : data_ok q -> data_ok (set_beat w d q).
Proof. intros [H1 H2 H3 H4]. split; simpl; eauto. Qed.

Lemma data_ok_lease t wk m s q e :
  data_ok q -> q_ready q t !! m = Some s -> encodes e m ->
  data_ok (lease_move t wk (uuid_String (env_ID e)) m q).
Proof. intros Hq _ He. apply data_ok_put_inflight; [|done]. by apply data_ok_drop_ready. Qed.

(** A promoted member in the form the code writes it. *)
Lemma promote_one_stored t nowMs q m e :
  encodes e m -> in_int64 nowMs = true ->
  exists body, encodes (set_enqueued nowMs (wire e)) body /\
    promote_one t nowMs q m =
      push_ready (coerce (env_Type e)) (priorityScore (env_Priority e) nowMs) body
        (drop_delayed t m q).
Proof.
  intros He Hn. unfold promote_one. rewrite (encodes_Unmarshal e m He).
  destruct (Marshal_wire e m He) as [b Hb].
  destruct (Marshal_set_enqueued (wire e) nowMs b Hb) as [body Hbody].
  exists body. cbn zeta. rewrite Hbody. split; [|done].
  split; [done|]. apply ints_set_enqueued; [apply wire_ints; apply He|done].
Qed.

Lemma data_ok_promote t nowMs ms q :
  in_int64 nowMs = true -> data_ok q ->
  (forall m, m ∈ ms -> exists e, encodes e m) ->
  data_ok (promote_all t nowMs ms q).
Proof.
  intros Hn. revert q. induction ms as [|m ms IH]; intros q Hq Hms; [done|].
  cbn [promote_all foldl]. apply IH; [|intros; apply Hms; by right].
  destruct (Hms m ltac:(left)) as [e He].
  destruct (promote_one_stored t nowMs q m e He Hn) as (body & Hb & ->).
  apply (data_ok_push_ready (set_enqueued nowMs (wire e)) body); [|done].
  by apply data_ok_drop_delayed.
Qed.

(** ** Tasks stay tracked *)

Lemma tracked_push_ready t s m q id : tracked q id -> tracked (push_ready t s m q) id.
Proof.
  intros [(t' & m' & s' & H & Hh)|[H|H]]; [|by right; left|by right; right].
  left. exists t', m'. simpl. unfold upd. case_decide as Ht; [|eauto]. subst.
  destruct (decide (m = m')) as [->|]; [exists s; by rewrite lookup_insert_eq|].
  exists s'. by rewrite lookup_insert_ne.
Qed.

Lemma tracked_pushed_ready t s m q id : holds id m -> tracked (push_ready t s m q) id.
Proof.
  intros H. left. exists t, m, s. simpl. unfold upd. rewrite decide_True by done.
  by rewrite lookup_insert_eq.
Qed.

Lemma tracked_put_inflight w f m q id :
  data_ok q -> holds id m -> f = uuid_String id ->
  forall id', tracked q id' -> tracked (put_inflight w f m q) id'.
Proof.
  intros Hq Hm -> id' [H|[H|(w' & g & m' & H & Hh)]]; [by left|by right; left|].
  right; right. simpl. unfold upd.
  destruct (decide (w = w' /\ uuid_String id = g)) as [[<- <-]|Hne].
  - exists w, (uuid_String id), m. rewrite decide_True by done.
    rewrite lookup_insert_eq. split; [done|].
    destruct (ok_inflight q Hq _ _ _ H) as (e & He & Hf).
    apply uuid_String_inj in Hf. destruct Hh as (e' & Hu & <-).
    rewrite (encodes_Unmarshal e m' He) in Hu. injection Hu as <-. cbn. by rewrite <- Hf.
  - exists w', g, m'. split; [|done]. case_decide; [|done]. subst.
    rewrite lookup_insert_ne; [done|]. naive_solver.
Qed.

Lemma tracked_drop_ready t m q id :
  tracked q id -> tracked (drop_ready t m q) id \/ holds id m.
Proof.
  intros [(t' & m' & s' & H & Hh)|[H|H]]; [|by left; right; left|by left; right; right].
  destruct (decide (m = m')) as [->|]; [by right|]. left. left.
  exists t', m', s'. simpl. unfold upd. case_decide; subst; [|done].
  by rewrite lookup_delete_ne.
Qed.

Lemma tracked_drop_delayed t m q id :
  tracked q id -> tracked (drop_delayed t m q) id \/ holds id m.
Proof.
  intros [H|[(t' & m' & s' & H & Hh)|H]]; [by left; left| |by left; right; right].
  destruct (decide (m = m')) as [->|]; [by right|]. left. right; left.
  exists t', m', s'. simpl. unfold upd. case_decide; subst; [|done].
  by rewrite lookup_delete_ne.
Qed.

(** A lease keeps every task tracked. *)
Lemma tracked_lease t wk m s q e id :
  data_ok q -> q_ready q t !! m = Some s -> encodes e m ->
  tracked q id -> tracked (lease_move t wk (uuid_String (env_ID e)) m q) id.
Proof.
  intros Hq Hm He Ht. unfold lease_move.
  assert (Hput : forall id', tracked (drop_ready t m q) id' ->
            tracked (put_inflight wk (uuid_String (env_ID e)) m (drop_ready t m q)) id').
  { intros id' H. eapply tracked_put_inflight;
      [by apply data_ok_drop_ready|by apply encodes_holds|done|done]. }
  destruct (tracked_drop_ready t m q id Ht) as [H|H]; [by apply Hput|].
  right; right. exists wk, (uuid_String (env_ID e)), m. simpl. unfold upd.
  rewrite decide_True by done. by rewrite lookup_insert_eq.
Qed.

(** So does a promotion. *)
Lemma tracked_promote t nowMs ms q id :
  in_int64 nowMs = true ->
  (forall m, m ∈ ms -> exists e, encodes e m) ->
  tracked q id -> tracked (promote_all t nowMs ms q) id.
Proof.
  intros Hn. revert q. induction ms as [|m ms IH]; intros q Hms Ht; [done|].
  cbn [promote_all foldl]. apply IH; [intros; apply Hms; by right|].
  destruct (Hms m ltac:(left)) as [e He].
  destruct (promote_one_stored t nowMs q m e He Hn) as (body & Hb & ->).
  destruct (tracked_drop_delayed t m q id Ht) as [H|H]; [by apply tracked_push_ready|].
  apply tracked_pushed_ready. destruct H as (e' & Hu & <-).
  rewrite (encodes_Unmarshal e m He) in Hu. injection Hu as <-.
  apply (encodes_holds _ _ Hb).
Qed.

#[export] Instance tracked_proper : Proper ((≡) ==> (=) ==> iff) tracked.
Proof.
  assert (H : forall a b id, a ≡ b -> tracked a id -> tracked b id).
  { intros a b id (E1 & E2 & E3 & _) [(x & y & z & H)|[(x & y & z & H)|(x & y & z & H)]];
      [left; rewrite E1 in H|right; left; rewrite E2 in H|right; right; rewrite E3 in H];
      by exists x, y, z. }
  intros a b E id ? <-. split; apply H; [done|by symmetry].
Qed.

(** ** Tasks stay accounted for: tracked, or in a dead-letter list *)

Definition buried_in (q : qstate) (id : uuid) : Prop :=
  exists t m, m ∈ q_dlq q t /\ holds id m.

Definition accounted (q : qstate) (id : uuid) : Prop := tracked q id \/ buried_in q id.

#[export] Instance accounted_proper : Proper ((≡) ==> (=) ==> iff) accounted.
Proof.
  intros a b E id ? <-. unfold accounted, buried_in.
  destruct E as (E1 & E2 & E3 & E4 & E5) eqn:HE. rewrite (tracked_proper a b E id id eq_refl).
  setoid_rewrite E4. done.
Qed.

Lemma accounted_push_ready t s m q id : accounted q id -> accounted (push_ready t s m q) id.
Proof. intros [H|H]; [left; by apply tracked_push_ready|by right]. Qed.

Lemma accounted_push_dlq t m q id : accounted q id -> accounted (push_dlq t m q) id.
Proof.
  intros [H|(t' & m' & H & Hh)]; [by left|right]. exists t', m'. split; [|done].
  simpl. unfold upd. case_decide; [|done]. subst. apply elem_of_app. by left.
Qed.

Lemma accounted_pushed_dlq t m q id : holds id m -> accounted (push_dlq t m q) id.
Proof.
  intros H. right. exists t, m. split; [|done]. simpl. unfold upd. rewrite decide_True by done.
  apply elem_of_app. right. by apply list_elem_of_singleton.
Qed.

(** Clearing a table loses at most the tasks in it. *)
Lemma accounted_clear_inflight w q id :
  accounted q id ->
  accounted (set_inflight w ∅ q) id \/ exists f m, q_inflight q w !! f = Some m /\ holds id m.
Proof.
  intros [[H|[H|(w' & f & m & H & Hh)]]|H]; [left; left; by left|left; left; by right; left| |by left; right].
  destruct (decide (w = w')) as [->|Hne]; [right; by exists f, m|]. left. left. right. right.
  exists w', f, m. simpl. unfold upd. by rewrite decide_False.
Qed.

Lemma accounted_drop_inflight w f q id :
  accounted q id ->
  accounted (drop_inflight w f q) id \/ exists m, q_inflight q w !! f = Some m /\ holds id m.
Proof.
  intros [[H|[H|(w' & g & m & H & Hh)]]|H]; [left; left; by left|left; left; by right; left| |by left; right].
  destruct (decide (w = w' /\ f = g)) as [[-> ->]|Hne]; [right; by exists m|].
  left. left. right. right. exists w', g, m. simpl. unfold upd. case_decide; [|done]. subst.
  rewrite lookup_delete_ne; [done|]. naive_solver.
Qed.

(** ** What a promotion moves *)

Lemma promote_delayed_other t nowMs ms q t' :
  t <> t' -> q_delayed (promote_all t nowMs ms q) t' = q_delayed q t'.
Proof.
  intros Hne. revert q. induction ms as [|m ms IH]; intros q; [done|].
  cbn [promote_all foldl]. etransitivity; [apply IH|].
  unfold promote_one. destruct (Unmarshal m); [|done]. cbn zeta.
  destruct (Marshal _); [|done]. simpl. unfold upd. by rewrite decide_False.
Qed.

Lemma promote_delayed_same t nowMs ms q :
  in_int64 nowMs = true ->
  (forall m, m ∈ ms -> exists e, encodes e m) ->
  q_delayed (promote_all t nowMs ms q) t = foldr delete (q_delayed q t) ms.
Proof.
  intros Hn Hms.
  assert (Hcomm : forall (ms : list string) (m : string) (z : gmap string Z),
            foldr delete (delete m z) ms = delete m (foldr delete z ms)).
  { clear. induction ms as [|x ms IH]; intros m z; [done|]. simpl.
    rewrite IH. apply delete_delete. }
  revert q. induction ms as [|m ms IH]; intros q; [done|].
  cbn [promote_all foldl foldr].
  etransitivity; [apply IH; intros; apply Hms; by right|].
  destruct (Hms m ltac:(left)) as [e He].
  destruct (promote_one_stored t nowMs q m e He Hn) as (body & _ & ->).
  simpl. unfold upd. rewrite decide_True by done. apply Hcomm.
Qed.

Lemma promote_ready_mono t nowMs ms q t' m :
  m ∈ dom (q_ready q t') -> m ∈ dom (q_ready (promote_all t nowMs ms q) t').
Proof.
  revert q. induction ms as [|x ms IH]; intros q H; [done|].
  cbn [promote_all foldl]. apply IH.
  unfold promote_one. destruct (Unmarshal x); [|done]. cbn zeta.
  destruct (Marshal _); [|done]. simpl. unfold upd. case_decide; subst; [|done].
  set_solver.
Qed.

Lemma promote_ready_new t nowMs ms q m e :
  in_int64 nowMs = true -> m ∈ ms -> encodes e m ->
  exists body, encodes (set_enqueued nowMs (wire e)) body /\
    body ∈ dom (q_ready (promote_all t nowMs ms q) (coerce (env_Type e))).
Proof.
  intros Hn Hin He. revert q. induction ms as [|x ms IH]; intros q.
  { by apply elem_of_nil in Hin. }
  cbn [promote_all foldl]. apply elem_of_cons in Hin as [->|Hin]; [|by apply IH].
  destruct (promote_one_stored t nowMs q x e He Hn) as (body & Hb & ->).
  exists body. split; [done|]. apply (promote_ready_mono t nowMs ms).
  simpl. unfold upd. rewrite decide_True by done. set_solver.
Qed.

End Inv.
