(* ===== verification/QueueMoves.v ===== *)
(** * The queue's abstract machine

    [queue_move] is the specification of the queue as a transition system on
    [qstate]: what one atomic step of any process may do to it, and nothing else.
    [quiet_move]s never take a task out of where tasks wait; the other move is the
    lease. The moves are indexed by the envelopes that may be written. [waiting]
    says that a task is ready or delayed. *)

From S2P Require Import Prelude GoBase F64 GoString Json Redis Task Db Effects Queue Abstract.
From S2P Require Import QueueSpec QueueInv.

Open Scope Z_scope.

Section Moves.
Context {U : Uuid} {UL : UuidLaws U}.

(** A property of envelopes that depends on nothing the queue rewrites. *)
Class Heritable (I : Envelope -> Prop) := heritable e e' :
  env_ID e = env_ID e' -> coerce (env_Type e) = coerce (env_Type e') ->
  env_Priority e = env_Priority e' -> env_MaxAttempts e = env_MaxAttempts e' -> I e -> I e'.

Definition anyone (e : Envelope) : Prop := True.

#[export] Instance anyone_heritable : Heritable anyone.
Proof. done. Qed.

(** Members a promotion may handle: encodings of envelopes of the type. *)
Definition promotable (I : Envelope -> Prop) (t : string) (ms : list string) : Prop :=
  Forall (fun m => exists e, encodes e m /\ I e /\ env_Type e = t) ms.

Inductive quiet_move (I : Envelope -> Prop) : qstate -> qstate -> Prop :=
  | m_submit e m q :
      encodes e m -> I e ->
      quiet_move I q (push_ready (env_Type e) (priorityScore (env_Priority e) (env_EnqueuedAt e)) m q)
  | m_delay e m s q : encodes e m -> I e -> quiet_move I q (push_delayed (env_Type e) s m q)
  | m_release wk id q : quiet_move I q (drop_inflight wk (uuid_String id) q)
  | m_clear wk q : quiet_move I q (set_inflight wk ∅ q)
  | m_bury e m q : buries e m -> I e -> quiet_move I q (push_dlq (env_Type e) m q)
  | m_promote t nowMs ms q :
      in_int64 nowMs = true -> promotable I t ms -> quiet_move I q (promote_all t nowMs ms q)
  | m_beat wk d q : quiet_move I q (set_beat wk d q).

Inductive queue_move (I : Envelope -> Prop) : qstate -> qstate -> Prop :=
  | m_quiet q q' : quiet_move I q q' -> queue_move I q q'
  | m_lease t wk e m s l q :
      zsorted (q_ready q t) = (m, s) :: l -> encodes e m ->
      queue_move I q (lease_move t wk (uuid_String (env_ID e)) m q).

(** At most one move, states compared pointwise. *)
Definition may (G : qstate -> qstate -> Prop) (q q' : qstate) : Prop :=
  q ≡ q' \/ exists q1, G q q1 /\ q1 ≡ q'.

Lemma may_refl G q : may G q q.
Proof. by left. Qed.

Lemma may_move (G : qstate -> qstate -> Prop) q q1 q' : G q q1 -> q' ≡ q1 -> may G q q'.
Proof. intros H E. right. exists q1. by split. Qed.

Lemma may_weaken (G G' : qstate -> qstate -> Prop) q q' :
  (forall a b, G a b -> G' a b) -> may G q q' -> may G' q q'.
Proof. intros H [E|(q1 & H1 & E)]; [by left|]. right. exists q1. split; auto. Qed.

(** The moves keep the data well formed. *)
Lemma promotable_encodes I t ms : promotable I t ms -> forall m, m ∈ ms -> exists e, encodes e m.
Proof. intros H m Hm. unfold promotable in H. rewrite Forall_forall in H. destruct (H m Hm) as (e & He & _ & _). eauto. Qed.

Lemma quiet_move_data I q q' : quiet_move I q q' -> data_ok q -> data_ok q'.
Proof.
  intros [e m q0 He _|e m s q0 He _|wk id q0|wk q0|e m q0 He _|t n ms q0 Hn Hms|wk d q0] Hq.
  - by apply data_ok_push_ready.
  - by apply data_ok_push_delayed.
  - by apply data_ok_drop_inflight.
  - by apply data_ok_clear_inflight.
  - by apply data_ok_push_dlq.
  - apply data_ok_promote; [done|done|]. by eapply promotable_encodes.
  - by apply data_ok_set_beat.
Qed.

Lemma queue_move_data I q q' : queue_move I q q' -> data_ok q -> data_ok q'.
Proof.
  intros [q0 q0' H|t wk e m s l q0 Hz He] Hq; [by eapply quiet_move_data|].
  by apply (data_ok_lease _ _ _ s _ _ Hq); [by eapply zsorted_head_lookup|].
Qed.

Lemma may_data I G q q' : (forall a b, G a b -> queue_move I a b) -> may G q q' -> data_ok q -> data_ok q'.
Proof.
  intros HG [E|(q1 & H & E)] Hq; rewrite <- E; [done|]. by eapply queue_move_data; [apply HG|].
Qed.

(** The machine does not see the difference between equal states. *)
Lemma quiet_move_proper I a b a' :
  a ≡ b -> quiet_move I a a' -> exists b', quiet_move I b b' /\ a' ≡ b'.
Proof.
  intros E H. destruct H; eexists; (split; [by constructor|]); rewrite E; done.
Qed.

Lemma queue_move_proper I a b a' :
  a ≡ b -> queue_move I a a' -> exists b', queue_move I b b' /\ a' ≡ b'.
Proof.
  intros E H. destruct H as [q q' H|t wk e m s l q Hz He].
  - destruct (quiet_move_proper I q b q' E H) as (b' & Hb & E'). exists b'. split; [by apply m_quiet|done].
  - destruct E as (E1 & E2) eqn:HE. rewrite E1 in Hz.
    exists (lease_move t wk (uuid_String (env_ID e)) m b). split; [by eapply m_lease|].
    by apply lease_move_proper.
Qed.

(** ** Where tasks wait *)

Definition waiting (q : qstate) (id : uuid) : Prop :=
  (exists t m s, q_ready q t !! m = Some s /\ holds id m) \/
  (exists t m s, q_delayed q t !! m = Some s /\ holds id m).

#[export] Instance waiting_proper : Proper ((≡) ==> (=) ==> iff) waiting.
Proof.
  assert (H : forall a b id, a ≡ b -> waiting a id -> waiting b id).
  { intros a b id (E1 & E2 & _) [(x & y & z & H)|(x & y & z & H)];
      [left; rewrite E1 in H|right; rewrite E2 in H]; by exists x, y, z. }
  intros a b E id ? <-. split; apply H; [done|by symmetry].
Qed.

(** Waiting tasks depend on two of the five parts only, and grow with them. *)
Lemma waiting_mono a b id :
  (forall t m, m ∈ dom (q_ready a t) -> m ∈ dom (q_ready b t)) ->
  (forall t m, m ∈ dom (q_delayed a t) -> m ∈ dom (q_delayed b t)) -> waiting a id -> waiting b id.
Proof.
  intros H1 H2 [(t & m & s & H & Hh)|(t & m & s & H & Hh)].
  - left. assert (Hd : m ∈ dom (q_ready b t)) by (apply H1, elem_of_dom; eauto).
    apply elem_of_dom in Hd as [s' Hs']. by exists t, m, s'.
  - right. assert (Hd : m ∈ dom (q_delayed b t)) by (apply H2, elem_of_dom; eauto).
    apply elem_of_dom in Hd as [s' Hs']. by exists t, m, s'.
Qed.

Lemma waiting_push_ready t s m q id : waiting q id -> waiting (push_ready t s m q) id.
Proof.
  apply waiting_mono; [|done]. intros t' m' Hm. simpl. unfold upd.
  case_decide; [|done]. subst. set_solver.
Qed.

Lemma waiting_pushed_ready t s m q id : holds id m -> waiting (push_ready t s m q) id.
Proof.
  intros H. left. exists t, m, s. simpl. unfold upd. by rewrite decide_True, lookup_insert_eq.
Qed.

Lemma waiting_push_delayed t s m q id : waiting q id -> waiting (push_delayed t s m q) id.
Proof.
  apply waiting_mono; [done|]. intros t' m' Hm. simpl. unfold upd.
  case_decide; [|done]. subst. set_solver.
Qed.

Lemma waiting_pushed_delayed t s m q id : holds id m -> waiting (push_delayed t s m q) id.
Proof.
  intros H. right. exists t, m, s. simpl. unfold upd. by rewrite decide_True, lookup_insert_eq.
Qed.

Lemma waiting_drop_delayed t m q id : waiting q id -> waiting (drop_delayed t m q) id \/ holds id m.
Proof.
  intros [H|(t' & m' & s' & H & Hh)]; [left; by left|].
  destruct (decide (m = m')) as [->|]; [by right|]. left. right.
  exists t', m', s'. simpl. unfold upd. case_decide; subst; [|done]. by rewrite lookup_delete_ne.
Qed.

Lemma waiting_drop_ready t m q id : waiting q id -> waiting (drop_ready t m q) id \/ holds id m.
Proof.
  intros [(t' & m' & s' & H & Hh)|H]; [|left; by right].
  destruct (decide (m = m')) as [->|]; [by right|]. left. left.
  exists t', m', s'. simpl. unfold upd. case_decide; subst; [|done]. by rewrite lookup_delete_ne.
Qed.

(** One identifier per text. *)
Lemma holds_encodes id e m : holds id m -> encodes e m -> env_ID e = id.
Proof.
  intros (e' & Hu & <-) He. rewrite (encodes_Unmarshal e m He) in Hu. by injection Hu as <-.
Qed.

Lemma waiting_promote I t nowMs ms q id :
  in_int64 nowMs = true -> promotable I t ms -> waiting q id -> waiting (promote_all t nowMs ms q) id.
Proof.
  intros Hn Hms. revert q. induction Hms as [|m ms (e & He & _ & _) Hms IH]; intros q Hp; [done|].
  cbn [promote_all foldl]. apply IH.
  destruct (promote_one_stored t nowMs q m e He Hn) as (body & Hb & ->).
  destruct (waiting_drop_delayed t m q id Hp) as [H|H]; [by apply waiting_push_ready|].
  apply waiting_pushed_ready. rewrite <- (holds_encodes id e m H He). apply (encodes_holds _ _ Hb).
Qed.

(** A quiet move leaves every waiting task waiting. *)
Lemma quiet_move_waiting I q q' id : quiet_move I q q' -> waiting q id -> waiting q' id.
Proof.
  intros [e m q0 He _|e m s q0 He _|wk i q0|wk q0|e m q0 He _|t n ms q0 Hn Hms|wk d q0] Hp; try done.
  - by apply waiting_push_ready.
  - by apply waiting_push_delayed.
  - by apply (waiting_promote I).
Qed.

Lemma may_quiet_waiting I q q' id : may (quiet_move I) q q' -> waiting q id -> waiting q' id.
Proof.
  intros [E|(q1 & H & E)]; [by rewrite E|]. rewrite <- E. by apply (quiet_move_waiting I).
Qed.

(** A lease takes one member: every other waiting task stays. *)
Lemma lease_waiting t wk e m q id :
  encodes e m -> waiting q id ->
  waiting (lease_move t wk (uuid_String (env_ID e)) m q) id \/ env_ID e = id.
Proof.
  intros He Hp. destruct (waiting_drop_ready t m q id Hp) as [H|H]; [by left|].
  right. by eapply holds_encodes.
Qed.

(** Moves of more envelopes are more moves. *)
Lemma quiet_move_mono (I J : Envelope -> Prop) q q' :
  (forall e, I e -> J e) -> quiet_move I q q' -> quiet_move J q q'.
Proof.
  intros H Hm. destruct Hm as [| | | | |t n ms q Hn Hms|]; constructor; auto.
  eapply Forall_impl; [exact Hms|]. intros m (e & ? & ? & ?). eauto.
Qed.

Lemma queue_move_mono (I J : Envelope -> Prop) q q' :
  (forall e, I e -> J e) -> queue_move I q q' -> queue_move J q q'.
Proof.
  intros H [q0 q0' Hm|t wk e m s l q0 Hz He]; [by apply m_quiet, (quiet_move_mono I)|by eapply m_lease].
Qed.

End Moves.

#[export] Hint Resolve may_refl : taskq.
