(* ===== verification/RefWorld.v ===== *)
(** * Concrete worlds

    Boolean checks of the invariants on a concrete key space, and a concrete
    environment and worlds (reference Redis, reference identifiers, a clock that
    advances one millisecond per effect, wrapping after 30 years) on which the theorems are exercised. *)

From S2P Require Import Prelude GoBase F64 GoString Json Redis RefRedis Task Db Effects Queue.
From S2P Require Import Abstract QueueSpec QueueInv.

Open Scope Z_scope.
Open Scope taskq_scope.

(** ** Checking the invariants *)

Definition family_okb (f : family) (v : rval) : bool :=
  match f, v with
  | FReady, VZSet z | FDelayed, VZSet z => bool_decide (z <> ∅)
  | FInflight, VHash h => bool_decide (h <> ∅)
  | FDlq, VList l => bool_decide (l <> [])
  | FHeartbeat, VString _ _ => true
  | _, _ => false
  end.

Definition families : list family := [FReady; FDelayed; FInflight; FHeartbeat; FDlq].

Definition entry_okb (kv : string * rval) : bool :=
  forallb (fun f => match strip_prefix (key f "") kv.1 with
                    | Some _ => family_okb f kv.2 | None => true end) families.

Definition well_typedb (ks : keyspace) : bool := forallb entry_okb (map_to_list ks).

Lemma family_okb_sound (f : family) (v : rval) : family_okb f v = true -> family_ok f v.
Proof. destruct f, v; simpl; try done; by intros ?%bool_decide_eq_true_1. Qed.

Lemma strip_key (f : family) (x : string) : strip_prefix (key f "") (key f x) = Some x.
Proof. destruct f; apply strip_prefix_Some; done. Qed.

Lemma well_typedb_sound (ks : keyspace) : well_typedb ks = true -> well_typed ks.
Proof.
  unfold well_typedb. rewrite forallb_forall. intros H f x v Hv.
  specialize (H (key f x, v)). rewrite <- list_elem_of_In, elem_of_map_to_list in H.
  specialize (H Hv). unfold entry_okb in H. rewrite forallb_forall in H.
  specialize (H f). simpl in H. rewrite strip_key in H.
  apply family_okb_sound, H. destruct f; auto 10.
Qed.

Section Checks.
Context {U : Uuid} {UL : UuidLaws U}.

(** The text is what its decoding encodes to. *)
Definition decoded (m : string) : option Envelope :=
  match Unmarshal m with
  | Ok e => if bool_decide (Marshal e = Ok m) && ints_ok e then Some e else None
  | Err _ => None
  end.

Definition ready_okb (t m : string) (s : Z) : bool :=
  match decoded m with
  | Some e => String.eqb (env_Type e) t &&
              (s =? priorityScore (env_Priority e) (env_EnqueuedAt e))
  | None => false
  end.

Definition delayed_okb (t m : string) : bool :=
  match decoded m with Some e => String.eqb (env_Type e) t | None => false end.

Definition inflight_okb (f m : string) : bool :=
  match decoded m with Some e => String.eqb f (uuid_String (env_ID e)) | None => false end.

Definition datum_okb (kv : string * rval) : bool :=
  match kv.2 with
  | VZSet z =>
      (match strip_prefix "queue:" kv.1 with
       | Some t => forallb (fun ms => ready_okb t ms.1 ms.2) (map_to_list z)
       | None => true end) &&
      (match strip_prefix "delayed:" kv.1 with
       | Some t => forallb (fun ms => delayed_okb t ms.1) (map_to_list z)
       | None => true end)
  | VHash h =>
      match strip_prefix "inflight:" kv.1 with
      | Some _ => forallb (fun fm => inflight_okb fm.1 fm.2) (map_to_list h)
      | None => true end
  | VList l => match strip_prefix "dlq:" kv.1 with Some _ => (length l =? 0)%nat | None => true end
  | VString _ _ => true
  end.

Definition data_okb (ks : keyspace) : bool := forallb datum_okb (map_to_list ks).

Lemma decoded_encodes (m : string) (e : Envelope) : decoded m = Some e -> encodes e m.
Proof.
  unfold decoded. destruct (Unmarshal m) as [e'|]; [|done].
  destruct (bool_decide _) eqn:E; [|done]. destruct (ints_ok e') eqn:Ei; [|done].
  intros [= <-]. split; [by apply bool_decide_eq_true_1 in E|done].
Qed.

Lemma ready_okb_sound t m s : ready_okb t m s = true ->
  exists e, encodes e m /\ env_Type e = t /\ s = priorityScore (env_Priority e) (env_EnqueuedAt e).
Proof.
  unfold ready_okb. destruct (decoded m) as [e|] eqn:E; [|done].
  intros [Ht Hs]%andb_prop. exists e. split; [by apply decoded_encodes|].
  apply String.eqb_eq in Ht. apply Z.eqb_eq in Hs. done.
Qed.

Lemma delayed_okb_sound t m : delayed_okb t m = true -> exists e, encodes e m /\ env_Type e = t.
Proof.
  unfold delayed_okb. destruct (decoded m) as [e|] eqn:E; [|done].
  intros Ht%String.eqb_eq. exists e. split; [by apply decoded_encodes|done].
Qed.

Lemma inflight_okb_sound f m : inflight_okb f m = true ->
  exists e, encodes e m /\ f = uuid_String (env_ID e).
Proof.
  unfold inflight_okb. destruct (decoded m) as [e|] eqn:E; [|done].
  intros Ht%String.eqb_eq. exists e. split; [by apply decoded_encodes|done].
Qed.

Lemma data_okb_sound (ks : keyspace) : data_okb ks = true -> data_ok (view ks).
Proof.
  unfold data_okb. rewrite forallb_forall. intros H.
  assert (Hd : forall k v, ks !! k = Some v -> datum_okb (k, v) = true).
  { intros k v Hv. apply H. by apply list_elem_of_In, elem_of_map_to_list. }
  assert (Hall : forall {V} (h : gmap string V) (P : string * V -> bool) k v,
            forallb P (map_to_list h) = true -> h !! k = Some v -> P (k, v) = true).
  { intros V h P k v. rewrite forallb_forall. intros Hp Hv. apply Hp.
    by apply list_elem_of_In, elem_of_map_to_list. }
  split; simpl; unfold zset_at, hash_at, list_at; [intros x m s Hm..|intros x m Hm].
  - destruct (ks !! QueueKey x) as [v|] eqn:E; [|by rewrite lookup_empty in Hm].
    specialize (Hd _ _ E). unfold datum_okb in Hd.
    destruct v; try (by rewrite lookup_empty in Hm). cbn [fst snd] in Hd.
    unfold QueueKey, DelayedKey, InflightKey in Hd. rewrite strip_prefix_app in Hd. apply andb_prop in Hd as [Hd _].
    by apply ready_okb_sound, (Hall _ _ (fun ms => ready_okb x ms.1 ms.2) _ _ Hd).
  - destruct (ks !! DelayedKey x) as [v|] eqn:E; [|by rewrite lookup_empty in Hm].
    specialize (Hd _ _ E). unfold datum_okb in Hd.
    destruct v; try (by rewrite lookup_empty in Hm). cbn [fst snd] in Hd.
    unfold QueueKey, DelayedKey, InflightKey in Hd. rewrite strip_prefix_app in Hd. apply andb_prop in Hd as [_ Hd].
    by apply (delayed_okb_sound x m), (Hall _ _ (fun ms => delayed_okb x ms.1) m s Hd).
  - destruct (ks !! InflightKey x) as [v|] eqn:E; [|by rewrite lookup_empty in Hm].
    specialize (Hd _ _ E). unfold datum_okb in Hd.
    destruct v; try (by rewrite lookup_empty in Hm). cbn [fst snd] in Hd.
    unfold QueueKey, DelayedKey, InflightKey in Hd. rewrite strip_prefix_app in Hd.
    by apply (inflight_okb_sound m s), (Hall _ _ (fun fm => inflight_okb fm.1 fm.2) _ _ Hd).
  - destruct (ks !! DLQKey x) as [v|] eqn:E; [|by apply not_elem_of_nil in Hm].
    specialize (Hd _ _ E). unfold datum_okb in Hd.
    destruct v; try (by apply not_elem_of_nil in Hm). cbn [fst snd] in Hd.
    unfold DLQKey in Hd. rewrite strip_prefix_app in Hd. apply Nat.eqb_eq in Hd.
    apply nil_length_inv in Hd. subst. by apply not_elem_of_nil in Hm.
Qed.

(** The texts stored under a key, and whether one carries the identifier. *)
Definition members (v : rval) : list string :=
  match v with
  | VZSet z => map fst (map_to_list z)
  | VHash h => map snd (map_to_list h)
  | VList l => l
  | VString _ _ => []
  end.

Definition carries (id : uuid) (m : string) : bool :=
  match Unmarshal m with Ok e => bool_decide (env_ID e = id) | Err _ => false end.

Definition mentions (ks : keyspace) (id : uuid) : bool :=
  existsb (fun kv => existsb (carries id) (members kv.2)) (map_to_list ks).

Lemma mentions_intro ks id k v m :
  ks !! k = Some v -> m ∈ members v -> holds id m -> mentions ks id = true.
Proof.
  intros Hk Hm (e & Hu & He). unfold mentions. apply existsb_exists. exists (k, v).
  split; [by apply list_elem_of_In, elem_of_map_to_list|]. apply existsb_exists. exists m.
  split; [by apply list_elem_of_In|]. unfold carries. rewrite Hu. by apply bool_decide_eq_true_2.
Qed.

Lemma not_accounted (ks : keyspace) (id : uuid) :
  mentions ks id = false -> ~ accounted (view ks) id.
Proof.
  intros Hf. rewrite <- not_true_iff_false in Hf. intros H. apply Hf. clear Hf.
  assert (Hz : forall k m s, zset_at ks k !! m = Some s -> holds id m -> mentions ks id = true).
  { intros k m s Hm Hh. unfold zset_at in Hm. destruct (ks !! k) as [v|] eqn:E; [|done].
    destruct v; try done. apply (mentions_intro ks id k (VZSet z) m E); [|done].
    simpl. apply (list_elem_of_fmap fst). exists (m, s). split; [done|]. by apply elem_of_map_to_list. }
  destruct H as [[(t & m & s & Hm & Hh)|[(t & m & s & Hm & Hh)|(w & f & m & Hm & Hh)]]|(t & m & Hm & Hh)];
    simpl in Hm; [by eapply Hz|by eapply Hz|..].
  - unfold hash_at in Hm. destruct (ks !! InflightKey w) as [v|] eqn:E; [|done].
    destruct v; try done. apply (mentions_intro ks id _ (VHash h) m E); [|done].
    simpl. apply (list_elem_of_fmap snd). exists (f, m). split; [done|]. by apply elem_of_map_to_list.
  - unfold list_at in Hm. destruct (ks !! DLQKey t) as [v|] eqn:E; [|by apply not_elem_of_nil in Hm].
    destruct v; try (by apply not_elem_of_nil in Hm). by apply (mentions_intro ks id _ (VList l) m E).
Qed.

End Checks.

(** ** A concrete environment *)

Definition ref_env : env := MkEnv
  (fun n => 1700000000 * second + Z.of_nat n mod 10 ^ 12 * millisecond)
  (fun _ => 0) (fun n => N.of_nat (S n)) (fun _ _ l => l)
  (fun _ _ => NoFault) (fun _ _ _ => None).

Lemma ref_quiet : quiet ref_env.
Proof. done. Qed.

#[export] Instance ref_env_ok : EnvOk ref_env.
Proof. split; [done|]. intros n. simpl. lia. Qed.

(** A reference identifier. *)
Definition uid (n : N) : @uuid RefUuid := n.

Definition ref_world : world := MkWorld ref_empty empty_db ∅ [] 0.

(** Run a program and keep the world. *)
Definition after {A} (p : prog A) (w : world) : world := (run ref_env p w).2.

Definition sample (id : N) (typ : string) (priority attempts max at_ : Z) : Envelope :=
  MkEnvelope (U := RefUuid) id typ priority attempts max (Some "{}") at_.

(** Three tasks of one type, of different urgency, and one of another. *)
Definition busy_world : world :=
  after (Enqueue CtxMain (sample 1 "mail" 5 0 3 1000) ;;;
         Enqueue CtxMain (sample 2 "mail" 1 0 3 3000) ;;;
         Enqueue CtxMain (sample 3 "mail" 1 0 3 2000) ;;;
         Enqueue CtxMain (sample 4 "echo" 9 0 3 4000)) ref_world.

Lemma busy_good : good busy_world.
Proof. apply well_typedb_sound. vm_compute. reflexivity. Qed.

Lemma busy_data : data_ok (l_q (abs busy_world)).
Proof. apply data_okb_sound. vm_compute. reflexivity. Qed.
