(* ===== verification/QueueThms.v ===== *)
(** * Correctness of the queue

    The contract of [queue.go] as theorems: which task a lease takes and where
    it goes, what a promotion, a reclaim and a scan do, that envelopes survive
    the wire, and that scores order tasks by urgency. Each theorem with
    hypotheses is followed by its instance in a concrete world. *)

From S2P Require Import Prelude GoBase F64 GoString Json Redis RefRedis Task Db Effects Queue.
From S2P Require Import Abstract QueueSpec QueueInv RefWorld.

Open Scope Z_scope.
Open Scope taskq_scope.

(** ** Vocabulary *)

Section Vocabulary.
Context {U : Uuid}.

(** Urgency of an envelope: its clamped priority, then its enqueue time. *)
Definition before (a b : Envelope) : Prop :=
  more_urgent (env_Priority a, env_EnqueuedAt a) (env_Priority b, env_EnqueuedAt b).

(** Every ready task of the type was enqueued in a year scores can order. *)
Definition times_ok (q : qstate) (t : string) : Prop :=
  forall m s e, q_ready q t !! m = Some s -> encodes e m -> ms_ok (env_EnqueuedAt e) = true.

(** Lease [n] times from one type. *)
Fixpoint drain {R : Redis} (n : nat) (c : ctx) (t wk : string) (ttl : Z) :
    prog (list Envelope) :=
  match n with
  | O => Ret []
  | S n =>
      r <- Lease c t wk ttl ;;
      match r with
      | Ok e => es <- drain n c t wk ttl ;; Ret (e :: es)
      | Err _ => Ret []
      end
  end.

Lemma before_wire (a b : Envelope) : before (wire a) (wire b) <-> before a b.
Proof. done. Qed.

End Vocabulary.

Section Facts.
Context {U : Uuid} {UL : UuidLaws U} {R : Redis} {RL : RedisLaws R}.

Lemma zsorted_cons (z : gmap string Z) : z <> ∅ -> exists m s l, zsorted z = (m, s) :: l.
Proof.
  intros Hz. destruct (zsorted z) as [|[m s] l] eqn:E; [|by eauto].
  by apply zsorted_nil in E.
Qed.

(** The head of the ready set is an encoded envelope. *)
Lemma head_encodes q t m s l :
  data_ok q -> zsorted (q_ready q t) = (m, s) :: l ->
  exists e, encodes e m /\ env_Type e = t /\
            s = priorityScore (env_Priority e) (env_EnqueuedAt e).
Proof. intros Hd Hz. by apply (ok_ready q Hd t m s), (zsorted_head_lookup _ m s l). Qed.

Lemma score_order q t m s m' s' e e' :
  data_ok q -> times_ok q t ->
  q_ready q t !! m = Some s -> q_ready q t !! m' = Some s' ->
  encodes e m -> encodes e' m' -> zle (m, s) (m', s') -> ~ before e' e.
Proof.
  intros Hd Ht Hm Hm' He He' Hle Hb.
  destruct (ok_ready q Hd _ _ _ Hm) as (f & Hf & _ & ->).
  destruct (ok_ready q Hd _ _ _ Hm') as (f' & Hf' & _ & ->).
  assert (Hw : before f' f).
  { rewrite <- before_wire, (encodes_wire f' e' m' Hf' He'), (encodes_wire f e m Hf He).
    by apply before_wire. }
  apply (priorityScore_lt _ _ _ _ (Ht _ _ _ Hm' Hf') (Ht _ _ _ Hm Hf)) in Hw.
  destruct Hle as [H|[H _]]; simpl in *; lia.
Qed.

Lemma lease_head (o : env) (Hq : quiet o) c t wk ttl w m s l :
  good w -> data_ok (l_q (abs w)) -> zsorted (ready w t) = (m, s) :: l ->
  exists e, encodes e m /\ env_Type e = t /\
    yields o (Lease c t wk ttl) w 1 (Ok (wire e))
      (on_q (lease_move t wk (uuid_String (env_ID e)) m) (abs w)).
Proof.
  intros Hg Hd Hz. destruct (head_encodes _ t m s l Hd Hz) as (e & [Hm Hi] & Ht & _).
  exists e. split; [done|]. split; [done|]. by eapply lease_ok.
Qed.

Lemma data_ok_lease_head q t wk m s l e :
  data_ok q -> zsorted (q_ready q t) = (m, s) :: l -> encodes e m ->
  data_ok (lease_move t wk (uuid_String (env_ID e)) m q).
Proof. intros Hd Hz He. apply (data_ok_lease t wk m s); [done| |done]. by eapply zsorted_head_lookup. Qed.

Lemma ready_lease_move q t wk id m : q_ready (lease_move t wk id m q) t = delete m (q_ready q t).
Proof. simpl. unfold upd. by rewrite decide_True. Qed.

Lemma length_zsorted (z : gmap string Z) : length (zsorted z) = size z.
Proof. rewrite zsorted_permutation. apply length_map_to_list. Qed.

(** Leasing [n] times answers the first [n] ready tasks in score order. *)
Lemma drain_run (o : env) (Hq : quiet o) c t wk ttl n w :
  good w -> data_ok (l_q (abs w)) -> (n <= length (zsorted (ready w t)))%nat ->
  exists es L, yields o (drain n c t wk ttl) w n es L /\
    Forall2 (fun e ms => Unmarshal ms.1 = Ok e) es (take n (zsorted (ready w t))) /\
    zsorted (q_ready (l_q L) t) = drop n (zsorted (ready w t)).
Proof.
  revert w. induction n as [|n IH]; intros w Hg Hd Hn.
  { exists [], (abs w). split; [by apply yields_ret|]. by split; [constructor|]. }
  destruct (zsorted (ready w t)) as [|[m s] l] eqn:Hz; [simpl in Hn; lia|].
  destruct (lease_head o Hq c t wk ttl w m s l Hg Hd Hz) as (e & He & _ & Hy).
  destruct Hy as (w1 & Hrun & HL & Hg1 & Ht1).
  assert (Hz1 : zsorted (ready w1 t) = l).
  { unfold ready. destruct HL as [(Er & _) _]. rewrite Er. cbn [on_q l_q].
    rewrite ready_lease_move. by eapply zsorted_tail. }
  assert (Hd1 : data_ok (l_q (abs w1))).
  { destruct HL as [E _]. rewrite E. by eapply data_ok_lease_head. }
  destruct (IH w1 Hg1 Hd1) as (es & L & (w2 & Hrun2 & HL2 & Hg2 & Ht2) & HF & HD).
  { rewrite Hz1. simpl in Hn. lia. }
  exists (wire e :: es), L. split; [|rewrite Hz1 in *; split; [|done]].
  - exists w2. cbn [drain]. rewrite run_bind, Hrun. cbv beta iota.
    rewrite run_bind, Hrun2. cbn [run]. split_and!; (done || lia).
  - constructor; [by apply encodes_Unmarshal|done].
Qed.

(** Decoded in score order, no task is more urgent than one before it. *)
Lemma answers_sorted q t es (l : list (string * Z)) :
  data_ok q -> times_ok q t ->
  Forall2 (fun e ms => Unmarshal ms.1 = Ok e) es l ->
  (forall m s, (m, s) ∈ l -> q_ready q t !! m = Some s) -> StronglySorted zle l ->
  StronglySorted (fun a b => ~ before b a) es.
Proof.
  intros Hd Ht HF. induction HF as [|e [m s] es l He HF IH]; [constructor|].
  intros Hsub [Hs Hall]%StronglySorted_inv. constructor.
  { apply IH; [|done]. intros. apply Hsub. by right. }
  rewrite Forall_forall in Hall. apply Forall_forall. intros e' He'.
  destruct (list_elem_of_lookup_1 _ _ He') as [i Hi].
  destruct (Forall2_lookup_l _ _ _ _ _ HF Hi) as ([m' s'] & Hi' & Hu').
  apply list_elem_of_lookup_2 in Hi'. simpl in He, Hu'.
  pose proof (Hsub m s ltac:(left)) as Hm. pose proof (Hsub m' s' ltac:(by right)) as Hm'.
  destruct (ok_ready q Hd _ _ _ Hm) as (f & Hf & _ & _).
  destruct (ok_ready q Hd _ _ _ Hm') as (f' & Hf' & _ & _).
  rewrite (encodes_Unmarshal _ _ Hf) in He. rewrite (encodes_Unmarshal _ _ Hf') in Hu'.
  injection He as <-. injection Hu' as <-. rewrite before_wire.
  by apply (score_order q t m s m' s' f f'), Hall.
Qed.

End Facts.

Section TimesCheck.
Context {U : Uuid} {UL : UuidLaws U}.

Definition times_okb (z : gmap string Z) : bool :=
  forallb (fun ms => match Unmarshal ms.1 with
                     | Ok e => ms_ok (env_EnqueuedAt e) | Err _ => true end) (map_to_list z).

Lemma times_okb_sound (q : qstate) (t : string) :
  times_okb (q_ready q t) = true -> times_ok q t.
Proof.
  unfold times_okb. rewrite forallb_forall. intros H m s e Hm He.
  specialize (H (m, s)). rewrite <- list_elem_of_In, elem_of_map_to_list in H.
  specialize (H Hm). simpl in H. by rewrite (encodes_Unmarshal e m He) in H.
Qed.

End TimesCheck.

(** ** Leasing *)

(** C1: leasing from a type with ready tasks answers the most urgent one (least
    clamped priority, and among those the one enqueued first), in one effect,
    and moves exactly that task to the worker's in-flight table. *)
Theorem lease_most_urgent {U : Uuid} {UL : UuidLaws U} {R : Redis} {RL : RedisLaws R}
    (o : env) c t wk ttl w :
  quiet o -> good w -> data_ok (l_q (abs w)) -> times_ok (l_q (abs w)) t -> ready w t <> ∅ ->
  exists e m, encodes e m /\ env_Type e = t /\ m ∈ dom (ready w t) /\
    (forall e' m', m' ∈ dom (ready w t) -> encodes e' m' -> ~ before e' e) /\
    yields o (Lease c t wk ttl) w 1 (Ok (wire e))
      (on_q (lease_move t wk (uuid_String (env_ID e)) m) (abs w)).
Proof.
  intros Hq Hg Hd Ht Hne. destruct (zsorted_cons _ Hne) as (m & s & l & Hz).
  destruct (lease_head o Hq c t wk ttl w m s l Hg Hd Hz) as (e & He & Het & Hy).
  pose proof (zsorted_head_lookup _ m s l Hz) as Hm.
  exists e, m. split_and!; [done|done|by eapply elem_of_dom_2| |done].
  intros e' m' [s' Hm']%elem_of_dom He'.
  by eapply (score_order (l_q (abs w)) t m s m' s'), zsorted_head.
Qed.

Lemma lease_most_urgent_witness :
  exists e m, encodes e m /\ env_Type e = "mail" /\ m ∈ dom (ready busy_world "mail") /\
    (forall e' m', m' ∈ dom (ready busy_world "mail") -> encodes e' m' -> ~ before e' e) /\
    yields ref_env (Lease CtxMain "mail" "w1" 0) busy_world 1 (Ok (wire e))
      (on_q (lease_move "mail" "w1" (uuid_String (env_ID e)) m) (abs busy_world)).
Proof.
  apply lease_most_urgent.
  - exact ref_quiet.
  - exact busy_good.
  - exact busy_data.
  - apply times_okb_sound. vm_compute. reflexivity.
  - intros H. apply (f_equal size) in H. vm_compute in H. discriminate H.
Defined.

(** C9: leasing over and over empties the type in the order of urgency: the
    answers are the ready tasks in score order, none more urgent than the one
    before it, and what is left is the rest of that order. *)
Theorem drain_in_order {U : Uuid} {UL : UuidLaws U} {R : Redis} {RL : RedisLaws R}
    (o : env) c t wk ttl n w :
  quiet o -> good w -> data_ok (l_q (abs w)) -> times_ok (l_q (abs w)) t ->
  (n <= size (ready w t))%nat ->
  exists es L, yields o (drain n c t wk ttl) w n es L /\
    Forall2 (fun e ms => Unmarshal ms.1 = Ok e) es (take n (zsorted (ready w t))) /\
    StronglySorted (fun a b => ~ before b a) es /\
    zsorted (q_ready (l_q L) t) = drop n (zsorted (ready w t)).
Proof.
  intros Hq Hg Hd Ht Hn. rewrite <- length_zsorted in Hn.
  destruct (drain_run o Hq c t wk ttl n w Hg Hd Hn) as (es & L & Hy & HF & HD).
  exists es, L. split_and!; [done|done| |done].
  apply (answers_sorted (l_q (abs w)) t es (take n (zsorted (ready w t)))); [done..| |].
  - intros m s Hin. apply elem_of_zsorted. by eapply subseteq_take.
  - pose proof (zsorted_sorted (ready w t)) as Hs.
    rewrite <- (take_drop n (zsorted (ready w t))) in Hs. by apply StronglySorted_app_1_l in Hs.
Qed.

Lemma drain_in_order_witness :
  exists es L, yields ref_env (drain 3 CtxMain "mail" "w1" 0) busy_world 3 es L /\
    Forall2 (fun e ms => Unmarshal ms.1 = Ok e) es (take 3 (zsorted (ready busy_world "mail"))) /\
    StronglySorted (fun a b => ~ before b a) es /\
    zsorted (q_ready (l_q L) "mail") = drop 3 (zsorted (ready busy_world "mail")).
Proof.
  apply drain_in_order.
  - exact ref_quiet.
  - exact busy_good.
  - exact busy_data.
  - apply times_okb_sound. vm_compute. reflexivity.
  - apply Nat.leb_le. vm_compute. reflexivity.
Defined.

Section LeaseAnyFacts.
Context {U : Uuid} {R : Redis} {RL : RedisLaws R} (o : env) (Hq : quiet o).

Lemma lease_any_prefix c pre rest wk ttl w n a L :
  good w -> (forall t, t ∈ pre -> ready w t = ∅) ->
  (forall w', abs w' ≡ abs w -> good w' -> yields o (LeaseAny c rest wk ttl) w' n a L) ->
  yields o (LeaseAny c (pre ++ rest) wk ttl) w (length pre + n) a L.
Proof.
  revert w. induction pre as [|t pre IH]; intros w Hg Hpre Hk; [by apply Hk|].
  cbn [app length Nat.add]. apply lease_any_skips; [done|done|by apply Hpre; left|].
  intros w' HL Hg' _. apply IH; [done| |].
  - intros t' Ht'. unfold ready. destruct HL as [(-> & _) _]. apply Hpre. by right.
  - intros w'' HL' Hg''. apply Hk; [by etransitivity|done].
Qed.

End LeaseAnyFacts.

(** Leasing from several types serves the first one, in the given order,
    that has a ready task (its head), whatever the later ones hold. *)
Theorem lease_any_first {U : Uuid} {UL : UuidLaws U} {R : Redis} {RL : RedisLaws R}
    (o : env) c pre t post wk ttl w m s l :
  quiet o -> good w -> data_ok (l_q (abs w)) ->
  (forall t', t' ∈ pre -> ready w t' = ∅) -> zsorted (ready w t) = (m, s) :: l ->
  exists e, encodes e m /\ env_Type e = t /\
    yields o (LeaseAny c (pre ++ t :: post) wk ttl) w (length pre + 1) (Ok (wire e))
      (on_q (lease_move t wk (uuid_String (env_ID e)) m) (abs w)).
Proof.
  intros Hq Hg Hd Hpre Hz. destruct (head_encodes _ t m s l Hd Hz) as (e & He & Het & _).
  exists e. split; [done|]. split; [done|]. apply lease_any_prefix; [done..|].
  intros w' HL Hg'. cbn [LeaseAny].
  assert (Hz' : zsorted (ready w' t) = (m, s) :: l).
  { unfold ready. by destruct HL as [(-> & _) _]. }
  destruct He as [Hm Hi].
  destruct (lease_ok o Hq c t wk ttl w' m s l e Hg' Hz' Hm Hi) as (w'' & Hr & HL' & ? & ?).
  exists w''. rewrite run_bind, Hr. split; [done|]. split; [|done].
  rewrite HL'. by apply on_q_equiv; [apply _|].
Qed.

Lemma lease_any_first_witness :
  exists m s l e, zsorted (ready busy_world "echo") = (m, s) :: l /\ encodes e m /\
    env_Type e = "echo" /\
    yields ref_env (LeaseAny CtxMain (["none"] ++ "echo" :: ["mail"]) "w1" 0) busy_world (length ["none"] + 1)
      (Ok (wire e)) (on_q (lease_move "echo" "w1" (uuid_String (env_ID e)) m) (abs busy_world)).
Proof.
  assert (Hne : ready busy_world "echo" <> ∅).
  { intros H. apply (f_equal size) in H. vm_compute in H. discriminate H. }
  destruct (zsorted_cons _ Hne) as (m & s & l & Hz).
  destruct (lease_any_first ref_env CtxMain ["none"] "echo" ["mail"] "w1" 0 busy_world m s l)
    as (e & ? & ? & ?).
  - exact ref_quiet.
  - exact busy_good.
  - exact busy_data.
  - intros t' ->%list_elem_of_singleton. vm_compute. reflexivity.
  - exact Hz.
  - exists m, s, l, e. split_and!; assumption.
Defined.

(** With every listed type empty, leasing answers [ErrEmpty] after asking each
    type once, and changes nothing. *)
Theorem lease_any_empty {U : Uuid} {R : Redis} {RL : RedisLaws R} (o : env) c types wk ttl w :
  quiet o -> good w -> (forall t, t ∈ types -> ready w t = ∅) ->
  yields o (LeaseAny c types wk ttl) w (length types) (Err ErrEmpty) (abs w).
Proof.
  intros Hq Hg He. rewrite <- (app_nil_r types) at 1.
  replace (length types) with (length types + 0)%nat by lia.
  apply lease_any_prefix; [done..|]. intros w' HL Hg'.
  eapply yields_equiv; [by apply yields_ret|done].
Qed.

(** ** The life of an envelope *)

(** Enqueue, lease, acknowledge. *)
Definition cycle {U : Uuid} {R : Redis} (c : ctx) (e : Envelope) (wk : string) (ttl : Z) :
    prog (res Envelope) :=
  r <- Enqueue c e ;;
  match r with
  | Err err => Ret (Err err)
  | Ok _ =>
      l <- Lease c (env_Type e) wk ttl ;;
      match l with
      | Err err => Ret (Err err)
      | Ok env => a <- Ack c wk (env_ID env) ;;
                  match a with Err err => Ret (Err err) | Ok _ => Ret (Ok env) end
      end
  end.

(** C15: an envelope enqueued on an idle type and leased comes back as stored
    (stamped with the clock if it carried no time), and acknowledging it leaves
    the queue as it was before. *)
Theorem enqueue_lease_ack {U : Uuid} {UL : UuidLaws U} {R : Redis} {RL : RedisLaws R}
    (o : env) c e body wk ttl w :
  quiet o -> good w -> ready w (env_Type e) = ∅ ->
  inflight w wk !! uuid_String (env_ID e) = None ->
  Marshal (stamped o e w) = Ok body -> ints_ok (stamped o e w) = true ->
  yields o (cycle c e wk ttl) w (enqueue_effects e + 2) (Ok (wire (stamped o e w))) (abs w).
Proof.
  intros Hq Hg Hr Hi Hm Hint. unfold cycle. set (s := stamped o e w) in *.
  assert (Hsid : env_ID s = env_ID e /\ env_Type s = env_Type e).
  { unfold s, stamped. by destruct (env_EnqueuedAt e =? 0). }
  destruct Hsid as [Hid Hty].
  eapply yields_bind; [by apply enqueue_yields|]. intros w1 HL1 Hg1 _. cbv beta iota.
  set (sc := priorityScore _ _) in *.
  assert (Hr1 : zsorted (ready w1 (env_Type e)) = [(body, sc)]).
  { unfold ready in *. destruct HL1 as [(-> & _) _]. cbn [on_q l_q push_ready set_ready q_ready].
    unfold upd. rewrite decide_True, Hr by done.
    apply Permutation_singleton_r. rewrite zsorted_permutation, map_to_list_insert by done.
    by rewrite map_to_list_empty. }
  change 2%nat with (1 + (1 + 0))%nat.
  eapply yields_bind; [by eapply (lease_ok o Hq c _ _ _ _ _ _ _ s)|].
  intros w2 HL2 Hg2 _. cbv beta iota. change (env_ID (wire s)) with (env_ID s).
  eapply yields_bind; [by apply ack_yields|]. intros w3 HL3 Hg3 _. cbv beta iota.
  eapply yields_equiv; [by apply yields_ret|]. rewrite HL3.
  rewrite (on_q_equiv (drop_inflight wk _) _ _ HL2).
  assert (HL1' := on_q_equiv (lease_move (env_Type e) wk (uuid_String (env_ID s)) body) _ _ HL1).
  rewrite (on_q_equiv (drop_inflight wk _) _ _ HL1'). rewrite Hid.
  split; [|done]. clear -Hr Hi. unfold ready, inflight in *. cbn [on_q l_q].
  revert Hr Hi. generalize (l_q (abs w)) as q. intros q Hr Hi.
  repeat split; intros; simpl; unfold upd; repeat (case_decide; subst); try done.
  - rewrite Hr. by rewrite insert_empty, delete_singleton_eq.
  - by rewrite delete_insert_eq, delete_id.
Qed.

Lemma enqueue_lease_ack_witness :
  yields ref_env (cycle CtxMain (sample 7 "flaky" 5 0 3 0) "w1" 0) busy_world
    (enqueue_effects (sample 7 "flaky" 5 0 3 0) + 2)
    (Ok (wire (stamped ref_env (sample 7 "flaky" 5 0 3 0) busy_world))) (abs busy_world).
Proof.
  eapply (enqueue_lease_ack ref_env CtxMain (sample 7 "flaky" 5 0 3 0) _ "w1" 0 busy_world).
  - exact ref_quiet.
  - exact busy_good.
  - vm_compute. reflexivity.
  - vm_compute. reflexivity.
  - vm_compute. reflexivity.
  - vm_compute. reflexivity.
Defined.

(** ** Promotion *)

Section PromoteFacts.
Context {U : Uuid} {UL : UuidLaws U}.

Lemma lookup_foldr_delete (ms : list string) (z : gmap string Z) m :
  m ∈ dom (foldr delete z ms) <-> m ∈ dom z /\ m ∉ ms.
Proof.
  induction ms as [|x ms IH]; simpl; [set_solver|].
  rewrite dom_delete_L, elem_of_difference, IH, elem_of_singleton, not_elem_of_cons. naive_solver.
Qed.

Lemma due_encodes t nowMs q m :
  data_ok q -> m ∈ due t nowMs q -> exists e, encodes e m /\ env_Type e = t.
Proof.
  intros Hd Hm. unfold due in Hm. apply subseteq_take in Hm.
  apply elem_of_zupto in Hm as (s & Hm & _). by eapply ok_delayed.
Qed.

End PromoteFacts.

(** C10: promoting moves exactly the due members (score at most now, the first
    256 in order): they leave the delayed set, each is ready under its decoded
    type with a fresh enqueue time, every stored item is still well formed, and
    nothing else changes; the answer counts them. *)
Theorem promote_moves_due {U : Uuid} {UL : UuidLaws U} {R : Redis} {RL : RedisLaws R}
    (o : env) c t now w :
  let nowMs := UnixMilli now in
  let ms := due t nowMs (l_q (abs w)) in
  let q' := promote_all t nowMs ms (l_q (abs w)) in
  quiet o -> good w -> data_ok (l_q (abs w)) -> in_int64 nowMs = true ->
  yields o (PromoteDelayed c t now) w (promote_effects t nowMs w)
    (Ok (Z.of_nat (length ms))) (on_q (fun _ => q') (abs w)) /\
  (forall m, m ∈ dom (q_delayed q' t) <-> m ∈ dom (delayed w t) /\ m ∉ ms) /\
  (forall m e, m ∈ ms -> encodes e m ->
     exists body, encodes (set_enqueued nowMs (wire e)) body /\
       body ∈ dom (q_ready q' (coerce t))) /\
  data_ok q' /\ (forall t', t <> t' -> q_delayed q' t' = delayed w t') /\
  q_inflight q' = q_inflight (l_q (abs w)) /\ q_dlq q' = q_dlq (l_q (abs w)).
Proof.
  intros nowMs ms q' Hq Hg Hd Hn.
  assert (Henc : forall m, m ∈ ms -> exists e, encodes e m).
  { intros m Hm. destruct (due_encodes _ _ _ m Hd Hm) as (e & He & _). eauto. }
  split_and!.
  - eapply yields_equiv; [by apply promote_yields|done].
  - intros m. unfold q'. rewrite promote_delayed_same by done. apply lookup_foldr_delete.
  - intros m e Hm He. destruct (due_encodes _ _ _ m Hd Hm) as (e' & He' & Ht).
    assert (Ht' : coerce (env_Type e) = coerce t).
    { rewrite <- Ht. exact (f_equal env_Type (encodes_wire e e' m He He')). }
    rewrite <- Ht'. by eapply promote_ready_new.
  - by apply data_ok_promote.
  - intros t' Hne. by apply promote_delayed_other.
  - apply promote_all_frame.
  - apply promote_all_frame.
Qed.

(** Two retries, one of them due. *)
Definition retry_world : world :=
  after (EnqueueDelayed CtxMain (sample 5 "mail" 2 1 3 1000) (1700000000 * second) ;;;
         EnqueueDelayed CtxMain (sample 6 "mail" 2 1 3 1000) (1700000900 * second)) busy_world.

Lemma promote_moves_due_witness :
  let now := 1700000100 * second in
  let ms := due "mail" (UnixMilli now) (l_q (abs retry_world)) in
  let q' := promote_all "mail" (UnixMilli now) ms (l_q (abs retry_world)) in
  length ms = 1%nat /\
  yields ref_env (PromoteDelayed CtxMain "mail" now) retry_world
    (promote_effects "mail" (UnixMilli now) retry_world)
    (Ok (Z.of_nat (length ms))) (on_q (fun _ => q') (abs retry_world)).
Proof.
  split; [vm_compute; reflexivity|].
  apply (promote_moves_due ref_env CtxMain "mail" (1700000100 * second) retry_world).
  - exact ref_quiet.
  - apply well_typedb_sound. vm_compute. reflexivity.
  - apply data_okb_sound. vm_compute. reflexivity.
  - vm_compute. reflexivity.
Defined.

(** ** Reclaiming *)

Section ReclaimFacts.
Context {U : Uuid} {UL : UuidLaws U}.

Lemma elem_of_decode_all (l : list string) (e : Envelope) :
  e ∈ decode_all l <-> exists m, m ∈ l /\ Unmarshal m = Ok e.
Proof.
  unfold decode_all. rewrite elem_of_omap. split; intros (m & Hm & H); exists m; (split; [done|]).
  - destruct (Unmarshal m); congruence.
  - by rewrite H.
Qed.

Lemma length_decode_all (l : list string) :
  (forall m, m ∈ l -> exists e, encodes e m) -> length (decode_all l) = length l.
Proof.
  induction l as [|m l IH]; intros H; [done|]. unfold decode_all. simpl.
  destruct (H m ltac:(left)) as [e He]. rewrite (encodes_Unmarshal e m He). simpl.
  f_equal. apply IH. intros. apply H. by right.
Qed.

End ReclaimFacts.

(** Reclaiming a worker's table answers every envelope in it, once each and
    none skipped, and empties the table. *)
Theorem reclaim_returns_all {U : Uuid} {UL : UuidLaws U} {R : Redis} {RL : RedisLaws R}
    (o : env) (EO : EnvOk o) c wk w :
  quiet o -> good w -> data_ok (l_q (abs w)) ->
  exists envs, yields o (ReclaimInflight c wk) w (reclaim_effects wk w) (Ok envs)
                 (on_q (set_inflight wk ∅) (abs w)) /\
    length envs = size (inflight w wk) /\
    (forall e, e ∈ envs <-> exists f m, inflight w wk !! f = Some m /\ Unmarshal m = Ok e) /\
    data_ok (set_inflight wk ∅ (l_q (abs w))).
Proof.
  intros Hq Hg Hd. exists (decode_all (map snd (reclaim_entries o wk w))).
  assert (Hin : forall m, m ∈ map snd (reclaim_entries o wk w) <->
                          exists f, inflight w wk !! f = Some m).
  { intros m. unfold reclaim_entries. rewrite (list_elem_of_fmap snd). split.
    - intros ([f m'] & -> & H). rewrite shuffle_perm in H. apply elem_of_map_to_list in H. eauto.
    - intros [f H]. exists (f, m). split; [done|]. rewrite shuffle_perm.
      by apply elem_of_map_to_list. }
  split_and!.
  - by apply reclaim_yields.
  - rewrite length_decode_all.
    + rewrite length_map. unfold reclaim_entries. rewrite shuffle_perm. apply length_map_to_list.
    + intros m [f Hf]%Hin. destruct (ok_inflight _ Hd _ _ _ Hf) as (e & He & _). eauto.
  - intros e. rewrite elem_of_decode_all. setoid_rewrite Hin. naive_solver.
  - by apply data_ok_clear_inflight.
Qed.

Lemma reclaim_returns_all_witness :
  let w := after (Lease CtxMain "mail" "w1" 0 ;;; Lease CtxMain "echo" "w1" 0) busy_world in
  exists envs, yields ref_env (ReclaimInflight CtxMain "w1") w (reclaim_effects "w1" w) (Ok envs)
                 (on_q (set_inflight "w1" ∅) (abs w)) /\
    length envs = size (inflight w "w1") /\
    (forall e, e ∈ envs <-> exists f m, inflight w "w1" !! f = Some m /\ Unmarshal m = Ok e) /\
    data_ok (set_inflight "w1" ∅ (l_q (abs w))).
Proof.
  intros w. apply (reclaim_returns_all ref_env ref_env_ok CtxMain "w1" w).
  - exact ref_quiet.
  - apply well_typedb_sound. vm_compute. reflexivity.
  - apply data_okb_sound. vm_compute. reflexivity.
Defined.

(** ** Discovery and liveness *)

(** Listing the types ends, and answers exactly the types with a ready task,
    each once, in an order the runtime chooses; nothing changes. *)
Theorem list_types_exact {U : Uuid} {UL : UuidLaws U} {R : Redis} {RL : RedisLaws R}
    (o : env) (EO : EnvOk o) c w :
  quiet o -> good w ->
  exists n types, NoDup types /\ (forall t, t ∈ types <-> ready w t <> ∅) /\
    forall fuel, (n <= fuel)%nat -> yields o (ListTypes fuel c) w (S n) (Ok types) (abs w).
Proof.
  intros Hq Hg. destruct (list_types_run o Hq c w Hg) as (n & types & H1 & H2 & H3).
  exists n, types. split_and!; [done|done|]. intros fuel Hf. by apply idle_yields, H3.
Qed.

Lemma list_types_exact_witness :
  exists n types, NoDup types /\ (forall t, t ∈ types <-> ready busy_world t <> ∅) /\
    forall fuel, (n <= fuel)%nat ->
      yields ref_env (ListTypes fuel CtxMain) busy_world (S n) (Ok types) (abs busy_world).
Proof. exact (list_types_exact ref_env ref_env_ok CtxMain busy_world ref_quiet busy_good). Defined.

(** After a heartbeat with a positive ttl of whole milliseconds, the worker is
    reported alive exactly until the ttl has passed on the server's clock, as
    long as nothing touches its key. *)
Theorem heartbeat_expires {U : Uuid} {UL : UuidLaws U} {R : Redis} {RL : RedisLaws R}
    (o : env) c wk ms w :
  quiet o -> good w -> 0 < ms ->
  exists w1, run o (Heartbeat c wk (ms * millisecond)) w = (Ok tt, w1) /\ good w1 /\
    forall w2, good w2 -> q_beat (l_q (abs w2)) wk = q_beat (l_q (abs w1)) wk ->
      yields o (IsAlive c wk) w2 1
        (Ok (clock o (ticks w2) <? clock o (S (ticks w)) + ms * millisecond)) (abs w2).
Proof.
  intros Hq Hg Hms.
  destruct (heartbeat_yields o Hq c wk (ms * millisecond) w Hg) as (w1 & Hr & HL & Hg1 & _).
  exists w1. split; [done|]. split; [done|]. intros w2 Hg2 Hb.
  pose proof (is_alive_yields o Hq c wk w2 Hg2) as H. unfold alive_at in H.
  destruct HL as [(_ & _ & _ & _ & E) _]. rewrite Hb, E in H.
  cbn [on_q l_q set_beat q_beat] in H. unfold upd in H. rewrite decide_True in H by done.
  unfold deadline_of, millisecond in *.
  rewrite (proj2 (Z.ltb_lt 0 _)), Z.div_mul, Z.max_r in H by lia. exact H.
Qed.

Lemma heartbeat_expires_witness :
  exists w1, run ref_env (Heartbeat CtxMain "w1" (9000 * millisecond)) busy_world = (Ok tt, w1) /\
    good w1 /\
    forall w2, good w2 -> q_beat (l_q (abs w2)) "w1" = q_beat (l_q (abs w1)) "w1" ->
      yields ref_env (IsAlive CtxMain "w1") w2 1
        (Ok (clock ref_env (ticks w2) <?
             clock ref_env (S (ticks busy_world)) + 9000 * millisecond)) (abs w2).
Proof. apply heartbeat_expires; [exact ref_quiet|exact busy_good|lia]. Defined.

(** ** Envelopes on the wire *)

(** C23: an envelope whose integers fit survives the wire: what [Marshal] writes
    [Unmarshal] reads back with every number and the identifier intact, the type
    made valid UTF-8 and the payload compacted; the lease script finds the same
    identifier in the text, and a dead-letter record made from the envelope
    still reads as it. *)
Theorem envelope_roundtrip {U : Uuid} {UL : UuidLaws U} {R : Redis} {RL : RedisLaws R}
    e body reason at_ :
  ints_ok e = true -> Marshal e = Ok body ->
  Unmarshal body = Ok (wire e) /\ cjson_decode_id body = Ok (uuid_String (env_ID e)) /\
  (exists dead, MarshalDead e reason at_ = Ok dead /\ Unmarshal dead = Ok (wire e)).
Proof.
  intros Hi Hm. split; [by apply Unmarshal_Marshal|]. split; [by apply Marshal_id|].
  apply Marshal_inv in Hm as (p & Hp & _).
  assert (H : exists dead, MarshalDead e reason at_ = Ok dead).
  { unfold MarshalDead. rewrite Hp. eauto. }
  destruct H as [dead H]. exists dead. split; [done|]. by apply Unmarshal_MarshalDead in H.
Qed.

Lemma envelope_roundtrip_witness :
  exists body, Marshal (sample 12 "mail" 5 1 3 1000) = Ok body /\
  Unmarshal body = Ok (wire (sample 12 "mail" 5 1 3 1000)) /\
  cjson_decode_id (Redis := RefRedis) body = Ok "12" /\
  (exists dead, MarshalDead (sample 12 "mail" 5 1 3 1000) "boom" 7 = Ok dead /\
                Unmarshal dead = Ok (wire (sample 12 "mail" 5 1 3 1000))).
Proof.
  eexists. split; [reflexivity|].
  apply (envelope_roundtrip (R := RefRedis) (sample 12 "mail" 5 1 3 1000)); reflexivity.
Defined.

(** C24: the score computed in double precision is the integer score, without
    rounding for every enqueue time up to the year 2286, and scores compare as
    the pairs (clamped priority, enqueue time) do. *)
Theorem priorityScore_lexicographic p ms p' ms' :
  ms_ok ms = true -> ms_ok ms' = true ->
  priorityScore_float p ms = F (priorityScore p ms) 0 /\
  priorityScore p ms = clamp_priority p * 10 ^ 13 + ms /\
  (priorityScore p ms < priorityScore p' ms' <-> more_urgent (p, ms) (p', ms')).
Proof.
  intros H H'. split_and!; [|apply priorityScore_value|by apply priorityScore_lt];
    unfold ms_ok in H.
  - apply priorityScore_as_float. unfold in_int64, min_int64, max_int64. lia.
  - lia.
Qed.

Lemma priorityScore_lexicographic_witness :
  priorityScore_float 12 1700000000000 = F (priorityScore 12 1700000000000) 0 /\
  priorityScore 12 1700000000000 = clamp_priority 12 * 10 ^ 13 + 1700000000000 /\
  (priorityScore 12 1700000000000 < priorityScore (-3) 1800000000000 <->
   more_urgent (12, 1700000000000) (-3, 1800000000000)).
Proof. apply priorityScore_lexicographic; vm_compute; reflexivity. Defined.

(** ** Faults *)

(** When the lease script runs but its answer is lost, the caller sees the
    error, and the task is not lost: it is in the worker's in-flight table,
    where a reclaim finds it, and every tracked task is still tracked. *)
Theorem lease_reply_lost {U : Uuid} {UL : UuidLaws U} {R : Redis} {RL : RedisLaws R}
    (o : env) c t wk ttl w err m s l :
  faults o (ticks w) c = NotAcked err -> errors_Is err ErrRedisNil = false ->
  good w -> data_ok (l_q (abs w)) -> zsorted (ready w t) = (m, s) :: l ->
  exists e w', run o (Lease c t wk ttl) w = (Err err, w') /\ good w' /\
    encodes e m /\ inflight w' wk !! uuid_String (env_ID e) = Some m /\
    data_ok (l_q (abs w')) /\
    forall id, tracked (l_q (abs w)) id -> tracked (l_q (abs w')) id.
Proof.
  intros Hf Hnil Hg Hd Hz. destruct (head_encodes _ t m s l Hd Hz) as (e & He & _ & _).
  destruct (lease_script_pops t wk w m s l _ Hg Hz (Marshal_id e m (proj1 He)))
    as (r' & Hs & Hg' & Hv & Hp).
  exists e, (with_redis r' w). unfold Lease. rewrite run_bind. cbn [run rdb perform do_effect].
  rewrite Hf. cbn [serve]. rewrite Hs. cbn [fst snd]. rewrite Hnil. cbn [run].
  pose proof (zsorted_head_lookup _ m s l Hz) as Hm.
  split_and!; [done|done|done| | |].
  - unfold inflight, abs. cbn [l_q redis with_redis].
    destruct Hv as (_ & _ & -> & _ & _). simpl. unfold upd.
    by rewrite decide_True, lookup_insert_eq.
  - unfold abs. cbn [l_q redis with_redis]. rewrite Hv. by eapply data_ok_lease_head.
  - intros id Ht. unfold abs. cbn [l_q redis with_redis].
    rewrite Hv. by eapply tracked_lease.
Qed.

(** The third effect of the program is answered, but the answer does not come
    back. *)
Definition deaf_env (n : nat) : env := MkEnv (U := RefUuid) (clock ref_env) (draw ref_env) (fresh ref_env)
  (shuffle ref_env)
  (fun k _ => if (k =? n)%nat then NotAcked ErrDeadline else NoFault) (wait ref_env).

Lemma lease_reply_lost_witness :
  exists m s l e w', zsorted (ready busy_world "mail") = (m, s) :: l /\
    run (deaf_env (ticks busy_world)) (Lease CtxMain "mail" "w1" 0) busy_world =
      (Err ErrDeadline, w') /\ good w' /\
    encodes e m /\ inflight w' "w1" !! uuid_String (env_ID e) = Some m /\
    data_ok (l_q (abs w')) /\
    forall id, tracked (l_q (abs busy_world)) id -> tracked (l_q (abs w')) id.
Proof.
  assert (Hne : ready busy_world "mail" <> ∅).
  { intros H. apply (f_equal size) in H. vm_compute in H. discriminate H. }
  destruct (zsorted_cons _ Hne) as (m & s & l & Hz).
  destruct (lease_reply_lost (deaf_env (ticks busy_world)) CtxMain "mail" "w1" 0 busy_world
              ErrDeadline m s l) as (e & w' & H).
  - unfold deaf_env. cbn [faults]. by rewrite Nat.eqb_refl.
  - reflexivity.
  - exact busy_good.
  - exact busy_data.
  - exact Hz.
  - exists m, s, l, e, w'. split; [exact Hz|exact H].
Defined.

(** A ready member the script cannot read an identifier from is popped
    before the script fails: the lease answers the error and the member is gone
    from the queue without entering the in-flight table. *)
Theorem lease_garbled_member_lost {U : Uuid} {R : Redis} {RL : RedisLaws R}
    (o : env) c t wk ttl w m s l err :
  quiet o -> good w -> zsorted (ready w t) = (m, s) :: l -> cjson_decode_id m = Err err ->
  errors_Is err ErrRedisNil = false ->
  yields o (Lease c t wk ttl) w 1 (Err err) (on_q (drop_ready t m) (abs w)) /\
  m ∉ dom (q_ready (drop_ready t m (l_q (abs w))) t) /\
  q_inflight (drop_ready t m (l_q (abs w))) wk = inflight w wk.
Proof.
  intros Hq Hg Hz Hid Hnil. split_and!; [by eapply lease_garbled| |done].
  simpl. unfold upd. rewrite decide_True by done. set_solver.
Qed.
