(* ===== verification/GoStd.v ===== *)
(** * Conversions of the standard library the program calls

    [strconv.Atoi], the decoding of a JSON number into a [float64], [%v] of a
    [float64], [%q] of a string and [time.ParseDuration], as their
    implementations in the Go distribution do them. *)

From S2P Require Import Prelude GoBase F64 GoString Json.
From Stdlib Require Import Ascii.

Open Scope Z_scope.

#[local] Arguments String.append !_ _ / : simpl nomatch.

(** ** Integers *)

(** The value of a run of digits read after [acc]. *)
Fixpoint digits_value (acc : Z) (s : string) : Z :=
  match s with
  | EmptyString => acc
  | String c s' => digits_value (acc * 10 + (code c - 48)) s'
  end.

(** An optional sign and the rest. *)
Definition take_sign (s : string) : bool * string :=
  match s with
  | String c s' => if chr 45 c then (true, s') else if chr 43 c then (false, s') else (false, s)
  | EmptyString => (false, s)
  end.

Definition Atoi (s : string) : res Z :=
  let '(neg, ds) := take_sign s in
  if String.eqb ds EmptyString || negb (string_forallb is_digit ds)
  then Err (ErrText "invalid syntax")
  else
    let z := if neg then - digits_value 0 ds else digits_value 0 ds in
    if in_int64 z then Ok z else Err (ErrText "value out of range").

(** ** Decimal to binary *)

(** The double nearest to [a / b], for [b > 0]: a quotient of more than 60 bits
    and a sticky bit, rounded once. *)
Definition fratio (a b : Z) : f64 :=
  let k := Z.max 0 (Z.log2 b - Z.log2 (Z.abs a) + 66) in
  let n := Z.abs a * 2 ^ k in
  let sticky := if n mod b =? 0 then 0 else 1 in
  fround (Z.sgn a * (2 * (n / b) + sticky)) (- k - 1).

Definition dec_float (m e : Z) : f64 :=
  if 0 <=? e then fround (m * 10 ^ e) 0 else fratio m (10 ^ (- e)).

Definition fdiv (x y : f64) : f64 :=
  match x, y with
  | F m1 e1, F m2 e2 =>
      if 0 <=? e1 - e2 then fratio (Z.sgn m2 * m1 * 2 ^ (e1 - e2)) (Z.abs m2)
      else fratio (Z.sgn m2 * m1) (Z.abs m2 * 2 ^ (e2 - e1))
  | _, _ => NaN
  end.

(** Mantissa and decimal exponent of a JSON number literal. *)
Definition decimal_of (lit : string) : Z * Z :=
  let '(neg, s) := take_sign lit in
  let '(ip, r) := span is_digit s in
  let '(fp, r2) :=
    match r with
    | String c r' => if chr 46 c then span is_digit r' else (EmptyString, r)
    | EmptyString => (EmptyString, r)
    end in
  let ex :=
    match r2 with
    | String _ r3 => let '(eneg, ds) := take_sign r3 in
                     if eneg : bool then - digits_value 0 ds else digits_value 0 ds
    | EmptyString => 0
    end in
  let m := digits_value (digits_value 0 ip) fp in
  (if neg : bool then - m else m, ex - Z.of_nat (String.length fp)).

(** [strconv.ParseFloat(lit, 64)]: out of range is an error. *)
Definition ParseFloat (lit : string) : option f64 :=
  let '(m, e) := decimal_of lit in
  match dec_float m e with F m' e' => Some (F m' e') | _ => None end.

(** ** [%v] of a float64: the shortest digits that read back, [%e] form for
    exponents below -4 or from 6 on *)

Definition feq (x y : f64) : bool := negb (fgt x y) && negb (fgt y x).

(** [10^(dp-1) <= num/den < 10^dp], searching up from [dp] (an
    estimate from the binary logarithms, at most four too small). *)
Fixpoint find_dp (fuel : nat) (num den dp : Z) : Z :=
  match fuel with
  | O => dp
  | S fuel =>
      if (if 0 <=? dp then num <? den * 10 ^ dp else num * 10 ^ (- dp) <? den)
      then dp else find_dp fuel num den (dp + 1)
  end.

(** Nearest integer to [a / b], ties to even. *)
Definition round_div (a b : Z) : Z :=
  let q := a / b in
  let r := a mod b in
  if 2 * r <? b then q else if b <? 2 * r then q + 1 else if Z.even q then q else q + 1.

(** Fewest digits, from [n] on. *)
Fixpoint shortest (fuel : nat) (num den dp n : Z) (x : f64) : Z * Z :=
  let d := if 0 <=? n - dp then round_div (num * 10 ^ (n - dp)) den
           else round_div num (den * 10 ^ (dp - n)) in
  let '(d, dp') := if d =? 10 ^ n then (10 ^ (n - 1), dp + 1) else (d, dp) in
  match fuel with
  | O => (d, dp')
  | S fuel => if feq (dec_float d (dp' - n)) x then (d, dp') else shortest fuel num den dp (n + 1) x
  end.

Fixpoint zeros (n : nat) : string :=
  match n with O => EmptyString | S n => String "0" (zeros n) end.

Fixpoint str_take (n : nat) (s : string) : string :=
  match n, s with S n, String c s => String c (str_take n s) | _, _ => EmptyString end.
Fixpoint str_drop (n : nat) (s : string) : string :=
  match n, s with S n, String _ s => str_drop n s | _, _ => s end.

Definition format_e (ds : string) (exp : Z) : string :=
  let frac := str_drop 1 ds in
  str_take 1 ds +:+ (if String.eqb frac EmptyString then EmptyString else "." +:+ frac) +:+
  "e" +:+ (if exp <? 0 then "-" else "+") +:+
  (if Z.abs exp <? 10 then "0" else EmptyString) +:+ itoa (Z.abs exp).

Definition format_f (ds : string) (dp : Z) : string :=
  let nd := Z.of_nat (String.length ds) in
  if dp <=? 0 then "0." +:+ zeros (Z.to_nat (- dp)) +:+ ds
  else if dp <? nd then str_take (Z.to_nat dp) ds +:+ "." +:+ str_drop (Z.to_nat dp) ds
  else ds +:+ zeros (Z.to_nat (dp - nd)).

(** The shortest digits of [|m * 2^e|], for [m <> 0], and the place of the point. *)
Definition decimal_digits (m e : Z) : string * Z :=
  let num := if 0 <=? e then Z.abs m * 2 ^ e else Z.abs m in
  let den := if 0 <=? e then 1 else 2 ^ (- e) in
  let dp := find_dp 5 num den ((Z.log2 num - Z.log2 den) * 30103 / 100000 - 1) in
  let '(d, dp) := shortest 17 num den dp 1 (F (Z.abs m) e) in
  (itoa d, dp).

Definition format_v (x : f64) : string :=
  match x with
  | NaN => "NaN"
  | Inf neg => if neg then "-Inf" else "+Inf"
  | F m e =>
      if m =? 0 then "0"
      else
        let '(ds, dp) := decimal_digits m e in
        let exp := dp - 1 in
        (if m <? 0 then "-" else EmptyString) +:+
        (if (exp <? - 4) || (6 <=? exp) then format_e ds exp else format_f ds dp)
  end.

(** ** [time.Duration.String] *)

(** The fraction of [v / 10^prec] without trailing zeros, and the integer part. *)
Fixpoint fmtFrac (prec : nat) (v : Z) (seen : bool) (acc : string) : string * Z :=
  match prec with
  | O => (if seen then "." +:+ acc else acc, v)
  | S p =>
      let digit := v mod 10 in
      let seen := seen || negb (digit =? 0) in
      fmtFrac p (v / 10) seen (if seen then String (byte_of (48 + digit)) acc else acc)
  end.

Definition Duration_String (d : Z) : string :=
  let u := Z.abs d in
  (if d <? 0 then "-" else EmptyString) +:+
  if u =? 0 then "0s"
  else if u <? 10 ^ 9 then
    let '(prec, unit) := if u <? 10 ^ 3 then (0%nat, "ns")
                         else if u <? 10 ^ 6 then (3%nat, String (byte_of 194) (String (byte_of 181) "s"))
                         else (6%nat, "ms") in
    let '(frac, v) := fmtFrac prec u false EmptyString in
    itoa v +:+ frac +:+ unit
  else
    let '(frac, v) := fmtFrac 9 u false EmptyString in
    let m := v / 60 in
    (if 0 <? m then (if 0 <? m / 60 then itoa (m / 60) +:+ "h" else EmptyString) +:+ itoa (m mod 60) +:+ "m"
     else EmptyString) +:+
    itoa (v mod 60) +:+ frac +:+ "s".

(** What an out-of-range float-to-integer conversion gives is left open by the
    language. *)
Class Platform := { unrepresentable : f64 -> Z }.

(** What the amd64 instruction gives. *)
#[export] Instance RefPlatform : Platform := { unrepresentable _ := min_int64 }.

(** ** [%q]: [strconv.Quote]

    Which code points beyond ASCII are printable is a table of the Unicode
    standard: a parameter. *)

Class Unicode := { IsPrint : Z -> bool }.

(** A table for the witnesses: the letters of Latin-1. *)
#[export] Instance RefUnicode : Unicode := { IsPrint r := (161 <=? r) && (r <=? 255) }.

Definition rune_value (bs : string) : Z :=
  match bs with
  | String a EmptyString => code a
  | String a (String b EmptyString) => (code a - 192) * 64 + (code b - 128)
  | String a (String b (String c EmptyString)) =>
      ((code a - 224) * 64 + (code b - 128)) * 64 + (code c - 128)
  | String a (String b (String c (String d EmptyString))) =>
      (((code a - 240) * 64 + (code b - 128)) * 64 + (code c - 128)) * 64 + (code d - 128)
  | _ => 65533
  end.

(** [n] hexadecimal digits. *)
Fixpoint hex_digits (n : nat) (z : Z) : string :=
  match n with
  | O => EmptyString
  | S n' => hex_digits n' (z / 16) +:+ String (hex_digit (z mod 16)) EmptyString
  end.

Definition esc (c : ascii) : string := String backslash (String c EmptyString).

Definition quote_rune `{Unicode} (k : chunk) : string :=
  match k with
  | Bad b => String backslash (String "x" (hex_digits 2 (code b)))
  | Rune bs =>
      let r := rune_value bs in
      if r =? 34 then esc dquote
      else if r =? 92 then esc backslash
      else if if r <? 128 then (32 <=? r) && (r <? 127) else IsPrint r then bs
      else if r =? 7 then esc "a"
      else if r =? 8 then esc "b"
      else if r =? 12 then esc "f"
      else if r =? 10 then esc "n"
      else if r =? 13 then esc "r"
      else if r =? 9 then esc "t"
      else if r =? 11 then esc "v"
      else if (r <? 32) || (r =? 127) then String backslash (String "x" (hex_digits 2 r))
      else if r <? 65536 then String backslash (String "u" (hex_digits 4 r))
      else String backslash (String "U" (hex_digits 8 r))
  end.

Definition Quote `{Unicode} (s : string) : string :=
  String dquote EmptyString +:+ sconcat (map quote_rune (chunks s)) +:+ String dquote EmptyString.

(** ** [time.ParseDuration] *)

(** [leadingInt]: digits while the value stays within [2^63]. *)
Fixpoint leadingInt (x : Z) (s : string) : option (Z * string) :=
  match s with
  | String c s' =>
      if is_digit c then
        if 2 ^ 63 / 10 <? x then None
        else let x' := x * 10 + (code c - 48) in
             if 2 ^ 63 <? x' then None else leadingInt x' s'
      else Some (x, s)
  | EmptyString => Some (x, s)
  end.

(** [leadingFraction]: digits that no longer fit are skipped. *)
Fixpoint leadingFraction (x scale : Z) (overflow : bool) (s : string) : Z * Z * string :=
  match s with
  | String c s' =>
      if is_digit c then
        if overflow then leadingFraction x scale true s'
        else if (2 ^ 63 - 1) / 10 <? x then leadingFraction x scale true s'
        else let y := x * 10 + (code c - 48) in
             if 2 ^ 63 <? y then leadingFraction x scale true s'
             else leadingFraction y (scale * 10) false s'
      else (x, scale, s)
  | EmptyString => (x, scale, s)
  end.

Definition micro_sign : string := String (byte_of 194) (String (byte_of 181) EmptyString).
Definition greek_mu : string := String (byte_of 206) (String (byte_of 188) EmptyString).

Definition unitMap (u : string) : option Z :=
  if String.eqb u "ns" then Some 1
  else if String.eqb u "us" || String.eqb u (micro_sign +:+ "s") || String.eqb u (greek_mu +:+ "s")
  then Some (10 ^ 3)
  else if String.eqb u "ms" then Some (10 ^ 6)
  else if String.eqb u "s" then Some (10 ^ 9)
  else if String.eqb u "m" then Some (60 * 10 ^ 9)
  else if String.eqb u "h" then Some (3600 * 10 ^ 9)
  else None.

Definition unit_char (c : ascii) : bool := negb (chr 46 c || is_digit c).

(** An optional point and digits: numerator, denominator, were there digits, rest. *)
Definition fraction_part (s : string) : Z * Z * bool * string :=
  match s with
  | String d s' =>
      if chr 46 d then
        let '(f, scale, r) := leadingFraction 0 1 false s' in
        (f, scale, negb (String.length r =? String.length s')%nat, r)
      else (0, 1, false, s)
  | EmptyString => (0, 1, false, s)
  end.

(** The value of one number and its unit, and the rest. *)
Definition duration_part (s : string) : option (Z * string) :=
  match s with
  | EmptyString => None
  | String c _ =>
      if negb (chr 46 c || is_digit c) then None
      else
        match leadingInt 0 s with
        | None => None
        | Some (v, s1) =>
            let pre := negb (String.length s1 =? String.length s)%nat in
            let '(f, scale, post, s2) := fraction_part s1 in
            if negb (pre || post) then None
            else
              let '(u, s3) := span unit_char s2 in
              match (if String.eqb u EmptyString then None else unitMap u) with
              | None => None
              | Some unit =>
                  if 2 ^ 63 / unit <? v then None
                  else
                    let extra :=
                      if 0 <? f then
                        match fmul (of_int f) (fdiv (of_int unit) (of_int scale)) with
                        | F m e => ftrunc m e | _ => 0 end
                      else 0 in
                    let v' := v * unit + extra in
                    if 2 ^ 63 <? v' then None else Some (v', s3)
              end
        end
  end.

(** The loop; every round consumes at least one character. *)
Fixpoint duration_sum (fuel : nat) (d : Z) (s : string) : option Z :=
  match s with
  | EmptyString => Some d
  | _ =>
      match fuel with
      | O => None
      | S fuel =>
          match duration_part s with
          | None => None
          | Some (v, s') => if 2 ^ 63 <? d + v then None else duration_sum fuel (d + v) s'
          end
      end
  end.

Definition ParseDuration (s : string) : res Z :=
  let '(neg, r) := take_sign s in
  if String.eqb r "0" then Ok 0
  else if String.eqb r EmptyString then Err (ErrText "time: invalid duration")
  else
    match duration_sum (String.length r) 0 r with
    | None => Err (ErrText "time: invalid duration")
    | Some d =>
        if neg then Ok (- d)
        else if 2 ^ 63 - 1 <? d then Err (ErrText "time: invalid duration") else Ok d
    end.

(** ** Examples *)

Example duration_500ms : ParseDuration "500ms" = Ok (500 * millisecond).
Proof. reflexivity. Qed.
Example duration_1h30m : ParseDuration "-1h30m0.5s" = Ok (- (5400 * second + second / 2)).
Proof. vm_compute. reflexivity. Qed.
Example duration_bad : exists e, ParseDuration "60" = Err e.
Proof. eexists. reflexivity. Qed.
Example format_tenth : format_v (dec_float 1 (-1)) = "0.1".
Proof. vm_compute. reflexivity. Qed.
Example format_more : map format_v [dec_float 25 (-1); dec_float 120 0; dec_float 1 6; dec_float 12345 (-9)]
  = ["2.5"; "120"; "1e+06"; "1.2345e-05"].
Proof. vm_compute. reflexivity. Qed.

(** ** Lemmas *)

Lemma span_length f (s : string) : (String.length (span f s).2 <= String.length s)%nat.
Proof. induction s as [|c s IH]; simpl; [done|]. destruct (f c); simpl; lia. Qed.

Lemma leadingInt_length (s : string) : forall x v s',
  leadingInt x s = Some (v, s') -> (String.length s' <= String.length s)%nat.
Proof.
  induction s as [|c s IH]; intros x v s'; cbn [leadingInt]; [by intros [= _ <-]|].
  destruct (is_digit c); [|by intros [= _ <-]].
  case_if; [done|]. cbn zeta. case_if; [done|]. intros H%IH. simpl. lia.
Qed.

Lemma leadingFraction_length (s : string) : forall x sc ov,
  (String.length (leadingFraction x sc ov s).2 <= String.length s)%nat.
Proof.
  induction s as [|c s IH]; intros x sc ov; cbn [leadingFraction]; [done|].
  destruct (is_digit c); [|done]. destruct ov; [|cbn zeta; repeat case_if];
    (etransitivity; [apply IH|simpl; lia]).
Qed.

Lemma fraction_part_length (s : string) :
  (String.length (fraction_part s).2 <= String.length s)%nat.
Proof.
  destruct s as [|d s]; [done|]. unfold fraction_part. destruct (chr 46 d); [|done].
  pose proof (leadingFraction_length s 0 1 false).
  destruct (leadingFraction 0 1 false s) as [[f sc] r]. simpl in *. lia.
Qed.

(** A part consumes its unit at least, so the loop never runs out of rounds. *)
Lemma duration_part_shrinks (s s' : string) (v : Z) :
  duration_part s = Some (v, s') -> (String.length s' < String.length s)%nat.
Proof.
  unfold duration_part. destruct s as [|c s0]; [done|]. set (s := String c s0).
  case_if; [done|]. destruct (leadingInt 0 s) as [[n s1]|] eqn:E1; [|done].
  pose proof (leadingInt_length _ _ _ _ E1) as L1.
  pose proof (fraction_part_length s1) as L2.
  destruct (fraction_part s1) as [[[f sc] post] s2]. simpl in L2. case_if; [done|].
  destruct (span unit_char s2) as [u s3] eqn:E3.
  destruct (String.eqb u EmptyString) eqn:Eu; [done|].
  destruct (unitMap u); [|done]. case_if; [done|]. cbn zeta. case_if; [done|].
  intros [= _ <-].
  assert (L3 : (String.length s3 < String.length s2)%nat); [|lia].
  destruct s2 as [|e s2]; simpl in E3; [injection E3 as <- <-; done|].
  destruct (unit_char e); [|injection E3 as <- <-; done].
  injection E3 as <- <-. pose proof (span_length unit_char s2). simpl. lia.
Qed.

(** Enough rounds: more of them change nothing. *)
Lemma duration_sum_fuel (n k : nat) (d : Z) (s : string) :
  (String.length s <= n)%nat -> duration_sum (n + k) d s = duration_sum n d s.
Proof.
  revert d s. induction n as [|n IH]; intros d s Hn.
  { destruct s; [by destruct k|simpl in Hn; lia]. }
  destruct s as [|c s]; [done|]. cbn [Nat.add duration_sum].
  destruct (duration_part (String c s)) as [[v s']|] eqn:E; [|done].
  case_if; [done|]. apply IH. apply duration_part_shrinks in E. lia.
Qed.

Lemma digits_value_app (s t : string) (acc : Z) :
  digits_value acc (s +:+ t) = digits_value (digits_value acc s) t.
Proof. revert acc. induction s as [|c s IH]; intros acc; simpl; [done|apply IH]. Qed.

Example duration_strings :
  map Duration_String [0; 15; 2500; 1500000; 3 * 10 ^ 9; 61500000000; 3600 * 10 ^ 9; -90 * 10 ^ 9] =
  ["0s"; "15ns"; "2.5" +:+ micro_sign +:+ "s"; "1.5ms"; "3s"; "1m1.5s"; "1h0m0s"; "-1m30s"].
Proof. vm_compute. reflexivity. Qed.
