(* ===== verification/JsonFuel.v ===== *)
(** * The JSON scanner has enough fuel

    Each of the scanner's functions consumes at least one character, so the fuel
    [fuel_for] gives it is never exhausted: any greater fuel gives the same
    answer, on every text. A text is therefore rejected because it is not JSON
    and never because the recursion was cut. *)

From S2P Require Import Prelude GoString Json GoStd.
From Stdlib Require Import Ascii.

Open Scope nat_scope.

Abbreviation len := String.length.

Lemma skip_ws_len s : len (skip_ws s) <= len s.
Proof. induction s as [|c s IH]; simpl; [done|]. destruct (is_ws c); simpl; lia. Qed.

Lemma cons_fst_rest c p raw r : cons_fst c p = Some (raw, r) -> exists raw', p = Some (raw', r).
Proof. destruct p as [[a b]|]; [|done]. intros [= _ <-]. eauto. Qed.

Lemma scan_str_shrinks s raw r : scan_str s = Some (raw, r) -> len r < len s.
Proof.
  remember (len s) as n eqn:Hn. assert (Hle : len s <= n) by lia. clear Hn. revert s raw r Hle.
  induction n as [|n IH]; intros [|c s1] raw r; cbn [len]; try done; try lia. intros Hle.
  cbn [scan_str]. destruct (chr 34 c); [intros [= _ <-]; lia|].
  destruct (chr 92 c).
  - destruct s1 as [|e s2]; [done|]. cbn [len] in Hle. destruct (simple_escape e).
    + intros [? [? H]%cons_fst_rest]%cons_fst_rest. apply IH in H; lia.
    + destruct (chr 117 e); [|done].
      destruct s2 as [|h1 [|h2 [|h3 [|h4 s3]]]]; try done. cbn [len] in Hle.
      destruct (_ && _); [|done]. intros H.
      repeat (apply cons_fst_rest in H as [? H]). apply IH in H; lia.
  - destruct (code c <? 32)%Z; [done|]. intros [? H]%cons_fst_rest. apply IH in H; lia.
Qed.

Lemma strip_prefix_len p s r : strip_prefix p s = Some r -> len s = len p + len r.
Proof. intros ->%strip_prefix_Some. apply length_append. Qed.

Lemma span_parts f s : len (span f s).1 + len (span f s).2 = len s.
Proof. induction s as [|c s IH]; simpl; [done|]. destruct (f c); simpl; [|lia].
  destruct (span f s). simpl in *. lia. Qed.

Lemma number_nonempty lit : valid_number lit = true -> 0 < len lit.
Proof. destruct lit; [done|]. simpl. lia. Qed.

Lemma skip_ws_cons s c r : skip_ws s = String c r -> len r < len s.
Proof. intros H. pose proof (skip_ws_len s) as Hl. rewrite H in Hl. simpl in Hl. lia. Qed.

(** ** Every parser consumes *)

Lemma parse_shrinks n :
  (forall s v r, parse_value n s = Some (v, r) -> len r < len s) /\
  (forall s l r, parse_elems n s = Some (l, r) -> len r < len s) /\
  (forall s l r, parse_members n s = Some (l, r) -> len r < len s).
Proof.
  induction n as [|n (IHv & IHe & IHm)]; [done|]. split_and!.
  - intros s v r. cbn [parse_value]. destruct (skip_ws s) as [|c s1] eqn:E; [done|].
    apply skip_ws_cons in E as Hs1.
    destruct (chr 34 c).
    { destruct (scan_str s1) as [[raw r0]|] eqn:Es; [|done]. intros [= _ <-].
      apply scan_str_shrinks in Es. lia. }
    destruct (chr 91 c).
    { destruct (skip_ws s1) as [|c' r0] eqn:E1; [done|]. apply skip_ws_cons in E1.
      destruct (chr 93 c'); [intros [= _ <-]; lia|].
      destruct (parse_elems n s1) as [[l r']|] eqn:Ee; [|done]. intros [= _ <-].
      apply IHe in Ee. lia. }
    destruct (chr 123 c).
    { destruct (skip_ws s1) as [|c' r0] eqn:E1; [done|]. apply skip_ws_cons in E1.
      destruct (chr 125 c'); [intros [= _ <-]; lia|].
      destruct (parse_members n s1) as [[l r']|] eqn:Ee; [|done]. intros [= _ <-].
      apply IHm in Ee. lia. }
    pose proof (skip_ws_len s) as Hl. rewrite E in Hl.
    destruct (strip_prefix "null" (String c s1)) as [r0|] eqn:E1.
    { intros [= _ <-]. apply strip_prefix_len in E1. cbn [len] in *. lia. }
    destruct (strip_prefix "true" (String c s1)) as [r0|] eqn:E2.
    { intros [= _ <-]. apply strip_prefix_len in E2. cbn [len] in *. lia. }
    destruct (strip_prefix "false" (String c s1)) as [r0|] eqn:E3.
    { intros [= _ <-]. apply strip_prefix_len in E3. cbn [len] in *. lia. }
    pose proof (span_parts num_char (String c s1)) as Hp.
    destruct (span num_char (String c s1)) as [lit r0].
    destruct (valid_number lit) eqn:Ev; [|done]. intros [= _ <-].
    apply number_nonempty in Ev. cbn [fst snd] in Hp. lia.
  - intros s l r. cbn [parse_elems]. destruct (parse_value n s) as [[v r0]|] eqn:Ev; [|done].
    apply IHv in Ev. destruct (skip_ws r0) as [|c r1] eqn:E; [done|]. apply skip_ws_cons in E.
    destruct (chr 93 c); [intros [= _ <-]; lia|]. destruct (chr 44 c); [|done].
    destruct (parse_elems n r1) as [[l' r2]|] eqn:Ee; [|done]. intros [= _ <-].
    apply IHe in Ee. lia.
  - intros s l r. cbn [parse_members]. destruct (skip_ws s) as [|q s1] eqn:E; [done|].
    apply skip_ws_cons in E. destruct (chr 34 q); [|done].
    destruct (scan_str s1) as [[k r0]|] eqn:Es; [|done]. apply scan_str_shrinks in Es.
    destruct (skip_ws r0) as [|c r1] eqn:E1; [done|]. apply skip_ws_cons in E1.
    destruct (chr 58 c); [|done]. destruct (parse_value n r1) as [[v r2]|] eqn:Ev; [|done].
    apply IHv in Ev. destruct (skip_ws r2) as [|d r3] eqn:E2; [done|]. apply skip_ws_cons in E2.
    destruct (chr 125 d); [intros [= _ <-]; lia|]. destruct (chr 44 d); [|done].
    destruct (parse_members n r3) as [[l' r4]|] eqn:Em; [|done]. intros [= _ <-].
    apply IHm in Em. lia.
Qed.

(** ** More fuel changes nothing *)

Lemma parse_more n k :
  (forall s, 2 * len s + 1 <= n -> parse_value (n + k) s = parse_value n s) /\
  (forall s, 2 * len s + 2 <= n -> parse_elems (n + k) s = parse_elems n s) /\
  (forall s, 2 * len s + 2 <= n -> parse_members (n + k) s = parse_members n s).
Proof.
  induction n as [|n (IHv & IHe & IHm)]; [split_and!; intros; lia|].
  destruct (parse_shrinks n) as (Sv & Se & Sm). cbn [Nat.add]. split_and!; intros s Hs.
  - cbn [parse_value]. destruct (skip_ws s) as [|c s1] eqn:E; [done|]. apply skip_ws_cons in E.
    destruct (chr 34 c); [done|]. rewrite IHe, IHm by lia. done.
  - cbn [parse_elems]. rewrite IHv by lia.
    destruct (parse_value n s) as [[v r0]|] eqn:Ev; [|done]. apply Sv in Ev.
    destruct (skip_ws r0) as [|c r1] eqn:E; [done|]. apply skip_ws_cons in E.
    by rewrite IHe by lia.
  - cbn [parse_members]. destruct (skip_ws s) as [|q s1] eqn:E; [done|]. apply skip_ws_cons in E.
    destruct (chr 34 q); [|done].
    destruct (scan_str s1) as [[key r0]|] eqn:Es; [|done]. apply scan_str_shrinks in Es.
    destruct (skip_ws r0) as [|c r1] eqn:E1; [done|]. apply skip_ws_cons in E1.
    destruct (chr 58 c); [|done]. rewrite IHv by lia.
    destruct (parse_value n r1) as [[v r2]|] eqn:Ev; [|done]. apply Sv in Ev.
    destruct (skip_ws r2) as [|d r3] eqn:E2; [done|]. apply skip_ws_cons in E2.
    by rewrite IHm by lia.
Qed.

(** [parse] is the scanner with any fuel at least [fuel_for]. *)
Lemma parse_fuel s n :
  fuel_for s <= n ->
  parse s = match parse_value n s with
            | Some (v, r) => match skip_ws r with EmptyString => Some v | _ => None end
            | None => None
            end.
Proof.
  intros [k ->]%Nat.le_sum. unfold parse.
  destruct (parse_more (fuel_for s) k) as (H & _). rewrite H; [done|]. unfold fuel_for. lia.
Qed.

(** So is the reading of members with their texts. *)
Lemma raw_members_more n k s :
  2 * len s + 2 <= n -> raw_members (n + k) s = raw_members n s.
Proof.
  revert s. induction n as [|n IH]; intros s Hs; [lia|]. cbn [Nat.add raw_members].
  destruct (skip_ws s) as [|q s1] eqn:E; [done|]. apply skip_ws_cons in E.
  destruct (scan_str s1) as [[key r0]|] eqn:Es; [|done]. apply scan_str_shrinks in Es.
  destruct (skip_ws r0) as [|c r1] eqn:E1; [done|]. apply skip_ws_cons in E1. cbv zeta.
  pose proof (skip_ws_len r1) as Hl.
  destruct (parse_more n k) as (H & _). rewrite H by lia. clear H.
  destruct (parse_value n (skip_ws r1)) as [[v r2]|] eqn:Ev; [|done].
  apply (proj1 (parse_shrinks n)) in Ev.
  destruct (skip_ws r2) as [|d r3] eqn:E2; [done|]. apply skip_ws_cons in E2.
  by rewrite IH by lia.
Qed.
