(* ===== verification/Config.v ===== *)
(** * Configuration ([internal/config/config.go])

    The environment is a lookup function ([os.LookupEnv]). *)

From S2P Require Import Prelude GoBase F64 GoString Json GoStd.
From Stdlib Require Import Ascii DecimalString DecimalZ DecimalPos.
From Stdlib Require Decimal.

Open Scope Z_scope.

#[local] Arguments String.append !_ _ / : simpl nomatch.

(** ** Data *)

Record Config := MkConfig {
  DatabaseURL : string;
  RedisURL : string;
  HTTPAddr : string;
  WorkerConcurrency : Z;
  HeartbeatInterval : Z;
  HeartbeatTTL : Z;
  CoordinatorSweepInterval : Z;
  RetryBaseDelay : Z;
  RetryMaxDelay : Z;
  TaskTypes : list string;
  LeaseTTL : Z
}.

Abbreviation environ := (string -> option string).

Definition nonempty (s : string) : bool := negb (String.eqb s EmptyString).

(** ** Readers *)

Definition getEnv (E : environ) (key def : string) : string :=
  match E key with
  | Some v => if nonempty v then v else def
  | None => def
  end.

Definition getEnvInt (E : environ) (key : string) (def : Z) : Z :=
  match E key with
  | Some v => if nonempty v then match Atoi v with Ok n => n | Err _ => def end else def
  | None => def
  end.

Definition getEnvDuration (E : environ) (key : string) (def : Z) : Z :=
  match E key with
  | Some v => if nonempty v then match ParseDuration v with Ok d => d | Err _ => def end else def
  | None => def
  end.

Definition is_comma (k : chunk) : bool :=
  match k with Rune bs => String.eqb bs "," | Bad _ => false end.

(** The loop over the runes of the value. *)
Fixpoint split_loop (ks : list chunk) (cur : string) (out : list string) : list string :=
  match ks with
  | [] => if nonempty cur then out ++ [cur] else out
  | k :: ks' =>
      if is_comma k then
        if nonempty cur then split_loop ks' EmptyString (out ++ [cur])
        else split_loop ks' cur out
      else split_loop ks' (cur +:+ chunk_string k) out
  end.

Definition splitCSV (s : string) : list string :=
  if nonempty s then split_loop (chunks s) EmptyString [] else [].

Definition Load (E : environ) : Config :=
  MkConfig
    (getEnv E "DATABASE_URL" "host=localhost port=5432 user=postgres dbname=taskq sslmode=disable")
    (getEnv E "REDIS_URL" "redis://localhost:6379/0")
    (getEnv E "HTTP_ADDR" ":8080")
    (getEnvInt E "WORKER_CONCURRENCY" 4)
    (getEnvDuration E "HEARTBEAT_INTERVAL" (3 * second))
    (getEnvDuration E "HEARTBEAT_TTL" (9 * second))
    (getEnvDuration E "COORDINATOR_SWEEP_INTERVAL" second)
    (getEnvDuration E "RETRY_BASE_DELAY" (500 * millisecond))
    (getEnvDuration E "RETRY_MAX_DELAY" (60 * second))
    (splitCSV (default EmptyString (E "TASK_TYPES")))
    (getEnvDuration E "LEASE_TTL" (60 * second)).

(** [Config.String]: the summary that is logged, without the two addresses that
    hold credentials. *)
Definition Config_String (c : Config) : string :=
  "http=" +:+ HTTPAddr c +:+ " workers=" +:+ itoa (WorkerConcurrency c) +:+
  " heartbeat=" +:+ Duration_String (HeartbeatInterval c) +:+ "/" +:+
  Duration_String (HeartbeatTTL c) +:+
  " sweep=" +:+ Duration_String (CoordinatorSweepInterval c) +:+
  " lease=" +:+ Duration_String (LeaseTTL c).

(** ** Splitting: the reference definition *)

(** The maximal comma-free pieces, empty ones included. *)
Fixpoint fields (s : string) : list string :=
  match s with
  | EmptyString => [EmptyString]
  | String c s' =>
      if chr 44 c then EmptyString :: fields s'
      else match fields s' with
           | f :: r => String c f :: r
           | [] => [String c EmptyString]
           end
  end.

Fixpoint join_comma (l : list string) : string :=
  match l with
  | [] => EmptyString
  | [x] => x
  | x :: l' => x +:+ String "," (join_comma l')
  end.

Definition comma_free (s : string) : bool := string_forallb (fun c => negb (chr 44 c)) s.

Definition prepend (a : string) (l : list string) : list string :=
  match l with f :: r => (a +:+ f) :: r | [] => [a] end.

Definition keep_nonempty (l : list string) : list string := filter (fun x => nonempty x = true) l.

Lemma fields_cons (s : string) : exists f r, fields s = f :: r.
Proof.
  destruct s as [|c s]; simpl; [by eauto|]. case_if; [by eauto|]. destruct (fields s); eauto.
Qed.

Lemma prepend_empty (s : string) : prepend EmptyString (fields s) = fields s.
Proof. by destruct (fields_cons s) as (f & r & ->). Qed.

Lemma fields_app (a s : string) : comma_free a = true -> fields (a +:+ s) = prepend a (fields s).
Proof.
  induction a as [|c a IH]; intros H.
  { by rewrite prepend_empty. }
  unfold comma_free in *. cbn [string_forallb] in H. apply andb_prop in H as [Hc H].
  cbn [String.append fields]. apply negb_true_iff in Hc. rewrite Hc, IH by done.
  by destruct (fields s).
Qed.

(** A chunk is a comma or holds none. *)
Lemma chunk_comma (k : chunk) :
  chunk_shape k -> if is_comma k then chunk_string k = "," else comma_free (chunk_string k) = true.
Proof.
  assert (Hhigh : forall bs, string_forallb (fun a => 128 <=? code a) bs = true -> comma_free bs = true).
  { intros bs. unfold comma_free. induction bs as [|c bs IH]; [done|].
    cbn [string_forallb]. intros [Hc H]%andb_prop. rewrite IH by done. unfold chr in *. lia. }
  destruct k as [bs|b]; simpl; [|done].
  intros H. destruct (String.eqb_spec bs ",") as [->|Hne]; [done|].
  destruct bs as [|c [|d bs]]; [done| |by apply Hhigh].
  unfold comma_free. cbn [string_forallb]. rewrite andb_true_r.
  apply negb_true_iff. unfold chr. apply Z.eqb_neq. intros E. apply Hne. f_equal.
  rewrite <- (ascii_N_embedding c), <- (ascii_N_embedding ","). f_equal.
  unfold code in E. change (N_of_ascii ",") with 44%N. lia.
Qed.

Lemma prepend_assoc (a b : string) (l : list string) :
  l <> [] -> prepend (a +:+ b) l = prepend a (prepend b l).
Proof. destruct l as [|f r]; [done|]. intros _. simpl. by rewrite string_app_assoc. Qed.

(** The loop keeps the non-empty pieces, the first one extended by [cur]. *)
Lemma split_loop_fields (ks : list chunk) (cur : string) (out : list string) :
  Forall chunk_shape ks ->
  split_loop ks cur out =
    out ++ keep_nonempty (prepend cur (fields (sconcat (map chunk_string ks)))).
Proof.
  intros Hks. revert cur out. induction Hks as [|k ks Hk Hks IH]; intros cur out.
  { simpl. rewrite string_app_nil_r. unfold keep_nonempty. rewrite filter_cons, filter_nil.
    destruct (nonempty cur); [done|]. simpl. by rewrite app_nil_r. }
  apply chunk_comma in Hk. cbn [split_loop map sconcat]. destruct (is_comma k).
  - rewrite Hk. change ("," +:+ ?x) with (String "," x).
    cbn [String.append fields]. change (chr 44 ",") with true. cbn [prepend].
    rewrite string_app_nil_r. unfold keep_nonempty at 1. rewrite filter_cons.
    destruct (nonempty cur) eqn:Ec; rewrite IH.
    + rewrite decide_True by done. by rewrite <- app_assoc, prepend_empty.
    + rewrite decide_False by done. destruct cur; [|done]. by rewrite prepend_empty.
  - rewrite IH, fields_app by done. do 2 f_equal. apply prepend_assoc.
    by destruct (fields_cons (sconcat (map chunk_string ks))) as (f & r & ->).
Qed.

Lemma splitCSV_fields (s : string) : splitCSV s = keep_nonempty (fields (coerce s)).
Proof.
  unfold splitCSV. destruct (nonempty s) eqn:E.
  - rewrite split_loop_fields by apply chunks_shape. by rewrite prepend_empty.
  - by destruct s.
Qed.

Lemma fields_join (l : list string) :
  l <> [] -> Forall (fun x => comma_free x = true) l -> fields (join_comma l) = l.
Proof.
  intros Hne Hl. induction Hl as [|x l Hx Hl IH]; [done|].
  destruct l as [|y l].
  - simpl. rewrite <- (string_app_nil_r x) at 1. rewrite fields_app by done.
    simpl. by rewrite string_app_nil_r.
  - change (join_comma (x :: y :: l)) with (x +:+ String "," (join_comma (y :: l))).
    rewrite fields_app by done. cbn [fields]. change (chr 44 ",") with true. cbv iota.
    rewrite IH by done. simpl. by rewrite string_app_nil_r.
Qed.

(** ** Integers read back *)

Lemma digits_value_uint (d : Decimal.uint) (p : positive) :
  digits_value (Zpos p) (NilEmpty.string_of_uint d) = Zpos (Pos.of_uint_acc d p).
Proof. revert p. induction d; intros p; cbn [NilEmpty.string_of_uint digits_value]; [done|..];
  cbn [Pos.of_uint_acc]; rewrite <- IHd; f_equal; vm_compute (code _); lia. Qed.

Lemma digits_value_uint0 (d : Decimal.uint) :
  digits_value 0 (NilEmpty.string_of_uint d) = Z.of_uint d.
Proof.
  unfold Z.of_uint. induction d; cbn [NilEmpty.string_of_uint digits_value Pos.of_uint]; [done|..];
    vm_compute (0 * 10 + (code _ - 48)); [done|by apply digits_value_uint..].
Qed.

Lemma uint_head (d : Decimal.uint) :
  NilEmpty.string_of_uint d <> EmptyString ->
  take_sign (NilEmpty.string_of_uint d) = (false, NilEmpty.string_of_uint d).
Proof. by destruct d. Qed.

Lemma to_int_shape (z : Z) :
  match Z.to_int z with
  | Decimal.Pos d | Decimal.Neg d => NilEmpty.string_of_uint d <> EmptyString
  end.
Proof.
  destruct z as [|p|p]; simpl; [done|..];
    pose proof (DecimalPos.Unsigned.to_uint_nonnil p); by destruct (Pos.to_uint p).
Qed.

Lemma Atoi_itoa (z : Z) : in_int64 z = true -> Atoi (itoa z) = Ok z.
Proof.
  intros Hz. unfold Atoi, itoa. pose proof (to_int_shape z) as Hs.
  pose proof (DecimalZ.of_to z) as Hv.
  destruct (Z.to_int z) as [d|d]; cbn [NilEmpty.string_of_int Z.of_int] in *.
  - rewrite uint_head by done. rewrite uint_digits, digits_value_uint0, Hv, Hz.
    by destruct (String.eqb_spec (NilEmpty.string_of_uint d) EmptyString).
  - cbn [take_sign]. change (chr 45 "-") with true. cbv iota.
    rewrite uint_digits, digits_value_uint0, Hv, Hz.
    by destruct (String.eqb_spec (NilEmpty.string_of_uint d) EmptyString).
Qed.

Lemma itoa_nonempty (z : Z) : nonempty (itoa z) = true.
Proof.
  unfold itoa. pose proof (to_int_shape z) as Hs. unfold nonempty.
  destruct (Z.to_int z) as [d|d]; cbn [NilEmpty.string_of_int]; [|done].
  by destruct (String.eqb_spec (NilEmpty.string_of_uint d) EmptyString).
Qed.

(** ** Correctness *)

(** A comma-separated value is split into its non-empty comma-free pieces,
    in order (invalid bytes read as U+FFFD); and joining non-empty comma-free
    valid pieces with commas and splitting gives them back. *)
Theorem splitCSV_pieces (s : string) (l : list string) :
  Forall (fun x => comma_free x = true /\ nonempty x = true) l ->
  valid_utf8 (join_comma l) = true ->
  splitCSV s = keep_nonempty (fields (coerce s)) /\ splitCSV (join_comma l) = l.
Proof.
  intros Hl Hv. split; [apply splitCSV_fields|].
  rewrite splitCSV_fields, coerce_valid by done.
  destruct (decide (l = [])) as [->|Hne]; [done|].
  rewrite fields_join; [|done|by eapply Forall_impl; [exact Hl|intros ? []]].
  unfold keep_nonempty. clear Hne Hv. induction Hl as [|x l [_ Hx] Hl IH]; [done|].
  by rewrite filter_cons, decide_True, IH by done.
Qed.

Lemma splitCSV_pieces_witness :
  splitCSV ",echo,,email," = keep_nonempty (fields (coerce ",echo,,email,")) /\
  splitCSV (join_comma ["echo"; "email"; "sleep"]) = ["echo"; "email"; "sleep"].
Proof. apply splitCSV_pieces; [repeat constructor|reflexivity]. Defined.

(** An integer variable set to the decimal form of a 64-bit integer is read
    as that integer; an absent, empty or malformed one gives the default. *)
Theorem getEnvInt_reads (E : environ) key def v :
  E key = v ->
  match v with
  | None => getEnvInt E key def = def
  | Some s => (forall z, in_int64 z = true -> s = itoa z -> getEnvInt E key def = z) /\
              (nonempty s = false \/ is_ok (Atoi s) = false -> getEnvInt E key def = def)
  end.
Proof.
  intros Hv. unfold getEnvInt. rewrite Hv. destruct v as [s|]; [|done]. split.
  - intros z Hz ->. by rewrite itoa_nonempty, Atoi_itoa.
  - intros [-> |Ha]; [done|]. destruct (nonempty s); [|done]. by destruct (Atoi s).
Qed.

(** The defaults. *)
Definition default_config : Config := Load (fun _ => None).

Example default_summary :
  Config_String default_config = "http=:8080 workers=4 heartbeat=3s/9s sweep=1s lease=1m0s".
Proof. vm_compute. reflexivity. Qed.
