(* ===== verification/Handlers.v ===== *)
(** * Registry and sample handlers ([internal/task/task.go], [handlers.go])

    A handler is a program that answers a result or an error. The registry is a
    Go map from type names to handlers; a missing entry reads as [nil]. *)

From S2P Require Import Prelude GoBase F64 GoString Json GoStd Redis Task Db Effects Queue.
From S2P Require Import RefRedis RefWorld.

Open Scope Z_scope.
Open Scope taskq_scope.

Section Handlers.
Context {U : Uuid} {R : Redis} {UC : Unicode} {PF : Platform}.

(** ** Registry *)

Definition Handler : Type := ctx -> Task -> prog (res RawMessage).

Definition Registry : Type := gmap string Handler.

Definition NewRegistry : Registry := ∅.

Definition Register (r : Registry) (taskType : string) (h : Handler) : Registry :=
  <[taskType := h]> r.

Definition Lookup (r : Registry) (taskType : string) : option Handler := r !! taskType.

Definition Types (r : Registry) : prog (list string) :=
  range_over (map fst (map_to_list r)).

(** ** Payload fields: decoding errors are ignored, the other members are read *)

Definition field_values (name payload : string) : list json :=
  match object_members payload with
  | Some ms => omap (fun m : string * json * string =>
                       if String.eqb (fold_name (unquote m.1.1)) name then Some m.1.2 else None) ms
  | None => []
  end.

Definition set_float (old : f64) (v : json) : f64 :=
  match v with JNum lit => default old (ParseFloat lit) | _ => old end.

Definition set_string (old : string) (v : json) : string :=
  match v with JStr raw => unquote raw | _ => old end.

Definition payload_values (name : string) (payload : RawMessage) : list json :=
  match payload with
  | Some s => match parse s with Some _ => field_values name s | None => [] end
  | None => []
  end.

Definition float_field (name : string) (payload : RawMessage) : f64 :=
  foldl set_float (F 0 0) (payload_values name payload).

Definition string_field (name : string) (payload : RawMessage) : string :=
  foldl set_string EmptyString (payload_values name payload).

(** ** Handlers *)

Definition echoHandler : Handler := fun _ t => Ret (Ok (Payload t)).

Definition sleepHandler : Handler := fun c t =>
  let p := float_field "SECONDS" (Payload t) in
  let seconds := if fgt p (F 0 0) then p else dec_float 1 (-1) in
  fired <- perform (EWait c (to_int64 unrepresentable (fmul seconds (F second 0)))) ;;
  match fired with
  | None => Ret (Ok (Some ("{" +:+ quoted "slept_seconds" +:+ ":" +:+ format_v seconds +:+ "}")))
  | Some err => Ret (Err err)
  end.

Definition flakyHandler : Handler := fun _ t =>
  let p := float_field "FAIL_RATE" (Payload t) in
  let rate := if fgt p (F 0 0) then p else dec_float 3 (-1) in
  x <- rand_Float64 ;;
  if fgt rate x then Ret (Err (ErrText "simulated transient failure"))
  else Ret (Ok (Some ("{" +:+ quoted "ok" +:+ ":true}"))).

Definition contains_at (s : string) : bool := negb (string_forallb (fun c => negb (chr 64 c)) s).

Definition newline : string := String (byte_of 10) EmptyString.

(** The line written to standard output. *)
Definition email_line (to subject : string) : string :=
  "[email] would send to=" +:+ to +:+ " subject=" +:+ Quote subject +:+ newline.

Definition emailHandler : Handler := fun _ t =>
  let to := string_field "TO" (Payload t) in
  let subject := string_field "SUBJECT" (Payload t) in
  if negb (contains_at to) then
    Ret (Err (ErrText ("invalid recipient: " +:+ Quote to)))
  else
    perform (EPrint (email_line to subject)) ;;;
    Ret (Ok (Some ("{" +:+ quoted "delivered" +:+ ":true}"))).

Definition RegisterDefaults (r : Registry) : Registry :=
  let r := Register r "echo" echoHandler in
  let r := Register r "sleep" sleepHandler in
  let r := Register r "flaky" flakyHandler in
  Register r "email" emailHandler.

(** ** Correctness *)

(** The registry answers the last handler registered for a type and nothing
    for a type never registered; the types it lists are exactly the registered
    ones, each once. *)
Theorem registry_lookup (o : env) (EO : EnvOk o) (r : Registry) typ typ' h w :
  Lookup (Register r typ h) typ = Some h /\
  (typ <> typ' -> Lookup (Register r typ h) typ' = Lookup r typ') /\
  Lookup NewRegistry typ = None /\
  (forall l w', run o (Types r) w = (l, w') ->
     NoDup l /\ forall t, t ∈ l <-> Lookup r t <> None).
Proof.
  unfold Lookup, Register, NewRegistry. split_and!.
  - apply lookup_insert_eq.
  - intros Hne. by apply lookup_insert_ne.
  - apply lookup_empty.
  - intros l w' H. cbn in H. injection H as <- _. rewrite shuffle_perm. split.
    + apply NoDup_fst_map_to_list.
    + intros t. rewrite shuffle_perm, list_elem_of_fmap. split.
      * intros ([k h'] & -> & Hk%elem_of_map_to_list). simpl. unfold Registry in *. intros Hn. rewrite Hn in Hk. done.
      * destruct (r !! t) as [h'|] eqn:E; [|done]. intros _.
        exists (t, h'). split; [done|]. by apply elem_of_map_to_list.
Qed.

(** The email handler fails, without printing, exactly when the recipient of
    the payload has no at sign; otherwise it prints exactly the line for that recipient
    and subject and reports the delivery. In both cases it touches neither Redis nor the database. *)
Theorem emailHandler_outcome (o : env) c t w :
  let to := string_field "TO" (Payload t) in
  let '(r, w') := run o (emailHandler c t) w in
  redis w' = redis w /\ database w' = database w /\
  if contains_at to
  then r = Ok (Some ("{" +:+ quoted "delivered" +:+ ":true}")) /\
       stdout w' = stdout w ++ [email_line to (string_field "SUBJECT" (Payload t))]
  else (exists e, r = Err e) /\ stdout w' = stdout w.
Proof.
  cbv zeta. unfold emailHandler. destruct (contains_at _); cbn; split_and!; eauto.
Qed.

(** The flaky handler fails exactly when the draw is below the configured
    rate, 0.3 when the payload gives none that is positive; it makes one draw
    and changes nothing else. *)
Theorem flakyHandler_outcome (o : env) c t w :
  let p := float_field "FAIL_RATE" (Payload t) in
  let rate := if fgt p (F 0 0) then p else dec_float 3 (-1) in
  let '(r, w') := run o (flakyHandler c t) w in
  w' = tick w /\ (is_ok r = false <-> fgt rate (unit_draw (draw o (ticks w))) = true).
Proof.
  cbv zeta. unfold flakyHandler. cbn. by destruct (fgt _ (unit_draw _)).
Qed.

End Handlers.

(** The decoded payload fields on concrete payloads. *)
Definition json_fail_rate : string := "{" +:+ quoted "Fail_Rate" +:+ ": 2.5e-1, " +:+ quoted "x" +:+ ":[]}".
Example read_fail_rate : feq (float_field "FAIL_RATE" (Some json_fail_rate)) (F 1 (-2)) = true.
Proof. vm_compute. reflexivity. Qed.

(** Every field a default handler is registered under. *)
Example defaults_registered `{Uuid, Redis, Unicode, Platform} :
  forallb (fun t => match Lookup (RegisterDefaults NewRegistry) t with Some _ => true | None => false end)
    ["echo"; "sleep"; "flaky"; "email"] = true.
Proof. vm_compute. reflexivity. Qed.
