(* ===== verification/Store.v ===== *)
(** * The PostgreSQL store ([internal/store/store.go])

    Each SQL text of the file is a statement over the tables of [Db.v]; each
    method is the program that sends it. A parameter PostgreSQL refuses (invalid
    text, invalid JSON, an integer that does not fit its column) fails the
    statement. [New], [Close] and [Pool] only manage connections. *)

From S2P Require Import Prelude GoBase F64 GoString Json Redis Task Db Effects.

Open Scope Z_scope.
Open Scope taskq_scope.

(** ** Rows as values *)

Section Rows.
Context {U : Uuid}.

(** [scanTask] on a row of the fifteen columns; a NULL reads as nil, and an empty
    result is left nil. *)
Definition scanTask (id : uuid) (r : TaskRow) : Task :=
  MkTask id (row_type r) (Some (row_payload r)) (row_priority r) (row_status r)
         (row_attempts r) (row_max_attempts r) (row_available_at r) (row_started_at r)
         (row_finished_at r) (row_worker_id r)
         (match row_result r with
          | Some s => if String.eqb s EmptyString then None else Some s | None => None end)
         (row_last_error r) (row_created_at r) (row_updated_at r).

Record Worker := MkWorker {
  wk_ID : string;
  wk_Hostname : string;
  wk_Status : string;
  wk_LastHeartbeat : Z
}.

Record Stats := MkStats {
  ByStatus : gmap string Z;
  ByType : gmap string Z;
  Total : Z
}.

(** Field updates of a row. *)
Definition row_set_status (s : string) (r : TaskRow) : TaskRow :=
  MkTaskRow (row_type r) (row_payload r) (row_priority r) s (row_attempts r)
    (row_max_attempts r) (row_available_at r) (row_started_at r) (row_finished_at r)
    (row_worker_id r) (row_result r) (row_last_error r) (row_created_at r) (row_updated_at r).
Definition row_set_attempts (n : Z) (r : TaskRow) : TaskRow :=
  MkTaskRow (row_type r) (row_payload r) (row_priority r) (row_status r) n
    (row_max_attempts r) (row_available_at r) (row_started_at r) (row_finished_at r)
    (row_worker_id r) (row_result r) (row_last_error r) (row_created_at r) (row_updated_at r).
Definition row_set_available (t : Z) (r : TaskRow) : TaskRow :=
  MkTaskRow (row_type r) (row_payload r) (row_priority r) (row_status r) (row_attempts r)
    (row_max_attempts r) t (row_started_at r) (row_finished_at r)
    (row_worker_id r) (row_result r) (row_last_error r) (row_created_at r) (row_updated_at r).
Definition row_set_started (t : option Z) (r : TaskRow) : TaskRow :=
  MkTaskRow (row_type r) (row_payload r) (row_priority r) (row_status r) (row_attempts r)
    (row_max_attempts r) (row_available_at r) t (row_finished_at r)
    (row_worker_id r) (row_result r) (row_last_error r) (row_created_at r) (row_updated_at r).
Definition row_set_finished (t : option Z) (r : TaskRow) : TaskRow :=
  MkTaskRow (row_type r) (row_payload r) (row_priority r) (row_status r) (row_attempts r)
    (row_max_attempts r) (row_available_at r) (row_started_at r) t
    (row_worker_id r) (row_result r) (row_last_error r) (row_created_at r) (row_updated_at r).
Definition row_set_worker (w : option string) (r : TaskRow) : TaskRow :=
  MkTaskRow (row_type r) (row_payload r) (row_priority r) (row_status r) (row_attempts r)
    (row_max_attempts r) (row_available_at r) (row_started_at r) (row_finished_at r)
    w (row_result r) (row_last_error r) (row_created_at r) (row_updated_at r).
Definition row_set_result (x : option string) (r : TaskRow) : TaskRow :=
  MkTaskRow (row_type r) (row_payload r) (row_priority r) (row_status r) (row_attempts r)
    (row_max_attempts r) (row_available_at r) (row_started_at r) (row_finished_at r)
    (row_worker_id r) x (row_last_error r) (row_created_at r) (row_updated_at r).
Definition row_set_error (x : string) (r : TaskRow) : TaskRow :=
  MkTaskRow (row_type r) (row_payload r) (row_priority r) (row_status r) (row_attempts r)
    (row_max_attempts r) (row_available_at r) (row_started_at r) (row_finished_at r)
    (row_worker_id r) (row_result r) x (row_created_at r) (row_updated_at r).
Definition row_set_updated (t : Z) (r : TaskRow) : TaskRow :=
  MkTaskRow (row_type r) (row_payload r) (row_priority r) (row_status r) (row_attempts r)
    (row_max_attempts r) (row_available_at r) (row_started_at r) (row_finished_at r)
    (row_worker_id r) (row_result r) (row_last_error r) (row_created_at r) t.

End Rows.

(** ** Statements *)

Section Statements.
Context {U : Uuid} {P : Postgres}.

(** [now()] as stored. *)
Definition pg_now (e : sqlenv) : Z := timestamptz_in (sql_now e).

(** [INSERT INTO task_events]. *)
Definition insert_event (id : uuid) (eventType message : string) : stmt unit := fun e d =>
  if text_ok eventType && text_ok message
  then (Ok tt, add_event id eventType message (pg_now e) d)
  else (sql_error, d).

(** [INSERT INTO tasks]. *)
Definition insert_task (t : Task) : stmt unit := fun e d =>
  match jsonb_in (default EmptyString (Payload t)), tasks d !! ID t with
  | Some payload, None =>
      if text_ok (Type_ t) && text_ok (Status t) && int4_ok (Priority t) &&
         int4_ok (Attempts t) && int4_ok (MaxAttempts t)
      then (Ok tt, set_tasks (<[ID t := MkTaskRow (Type_ t) payload (Priority t) (Status t)
                     (Attempts t) (MaxAttempts t) (timestamptz_in (AvailableAt t)) None None None
                     None EmptyString (timestamptz_in (CreatedAt t))
                     (timestamptz_in (UpdatedAt t))]> (tasks d)) d)
      else (sql_error, d)
  | _, _ => (sql_error, d)
  end.

(** [SELECT ... FROM tasks WHERE id=$1] read by [scanTask]. *)
Definition select_task (id : uuid) : stmt Task := fun e d =>
  match tasks d !! id with
  | Some r => (Ok (scanTask id r), d)
  | None => (Err ErrNoRows, d)
  end.

Definition newer (a b : Task) : Prop := CreatedAt b <= CreatedAt a.
#[export] Instance newer_dec : RelDecision newer.
Proof. intros a b. unfold newer. apply _. Defined.

Definition matches (status typ : string) (t : Task) : bool :=
  (String.eqb status EmptyString || String.eqb (Status t) status) &&
  (String.eqb typ EmptyString || String.eqb (Type_ t) typ).

Definition all_tasks (d : db) : list Task := map (fun p => scanTask p.1 p.2) (map_to_list (tasks d)).

(** [SELECT ... WHERE ... ORDER BY created_at DESC LIMIT]; ties in any order. *)
Definition select_tasks (status typ : string) (limit : Z) : stmt (list Task) := fun e d =>
  if text_ok status && text_ok typ then
    (Ok (take (Z.to_nat limit)
           (merge_sort newer (sql_order e _ (filter (fun t => matches status typ t = true) (all_tasks d))))), d)
  else (sql_error, d).

(** [UPDATE tasks SET ... WHERE id=$n AND guard]: rewrites the row if it exists and
    satisfies the guard; no row is not an error. *)
Definition update_row (id : uuid) (guard : TaskRow -> bool) (f : TaskRow -> TaskRow) (d : db) : db :=
  match tasks d !! id with
  | Some r => if guard r then set_tasks (<[id := f r]> (tasks d)) d else d
  | None => d
  end.

Definition always (r : TaskRow) : bool := true.

Definition set_running (now : Z) (worker : string) (r : TaskRow) : TaskRow :=
  row_set_attempts (row_attempts r + 1) (row_set_updated now (row_set_worker (Some worker)
    (row_set_started (Some now) (row_set_status StatusRunning r)))).

Definition update_running (id : uuid) (now : Z) (worker : string) : stmt unit := fun e d =>
  if text_ok worker then
    match tasks d !! id with
    | Some r => if int4_ok (row_attempts r + 1)
                then (Ok tt, update_row id always (set_running (timestamptz_in now) worker) d)
                else (sql_error, d)
    | None => (Ok tt, d)
    end
  else (sql_error, d).

Definition set_succeeded (now : Z) (result : string) (r : TaskRow) : TaskRow :=
  row_set_result (Some result) (row_set_updated now (row_set_finished (Some now)
    (row_set_status StatusSucceeded r))).

Definition update_succeeded (id : uuid) (now : Z) (result : string) : stmt unit := fun e d =>
  match jsonb_in result with
  | Some j => (Ok tt, update_row id always (set_succeeded (timestamptz_in now) j) d)
  | None => (sql_error, d)
  end.

Definition set_retrying (now availableAt : Z) (lastErr : string) (r : TaskRow) : TaskRow :=
  row_set_updated now (row_set_worker None (row_set_error lastErr
    (row_set_available availableAt (row_set_status StatusRetrying r)))).

Definition update_retry (id : uuid) (now availableAt : Z) (lastErr : string) : stmt unit := fun e d =>
  if text_ok lastErr then
    (Ok tt, update_row id always
              (set_retrying (timestamptz_in now) (timestamptz_in availableAt) lastErr) d)
  else (sql_error, d).

Definition set_dead (now : Z) (lastErr : string) (r : TaskRow) : TaskRow :=
  row_set_error lastErr (row_set_updated now (row_set_finished (Some now)
    (row_set_status StatusDead r))).

(** [UPDATE ... RETURNING payload]. *)
Definition update_dead (id : uuid) (now : Z) (lastErr : string) : stmt string := fun e d =>
  if text_ok lastErr then
    match tasks d !! id with
    | Some r => (Ok (row_payload r), update_row id always (set_dead (timestamptz_in now) lastErr) d)
    | None => (Err ErrNoRows, d)
    end
  else (sql_error, d).

(** [INSERT INTO dead_letters]. *)
Definition insert_dead (id : uuid) (reason payload : string) (now : Z) : stmt unit := fun e d =>
  match jsonb_in payload with
  | Some j => if text_ok reason then (Ok tt, add_dead id reason j (timestamptz_in now) d)
              else (sql_error, d)
  | None => (sql_error, d)
  end.

(** The three statements of [MarkDead] in one transaction. *)
Definition dead_tx (id : uuid) (now : Z) (lastErr : string) : stmt unit :=
  sql_tx (sql_bind (update_dead id now lastErr) (fun payload =>
          sql_bind (insert_dead id lastErr payload now) (fun _ =>
          insert_event id "dead" lastErr))).

Definition cancelable (r : TaskRow) : bool :=
  String.eqb (row_status r) StatusQueued || String.eqb (row_status r) StatusRetrying.

Definition set_canceled (now : Z) (r : TaskRow) : TaskRow :=
  row_set_updated now (row_set_finished (Some now) (row_set_status StatusCanceled r)).

Definition update_canceled (id : uuid) (now : Z) : stmt unit := fun e d =>
  (Ok tt, update_row id cancelable (set_canceled (timestamptz_in now)) d).

(** Running on one of the workers. *)
Definition orphaned (dead : list string) (r : TaskRow) : bool :=
  String.eqb (row_status r) StatusRunning &&
  match row_worker_id r with Some w => bool_decide (w ∈ dead) | None => false end.

Definition set_requeued (now : Z) (r : TaskRow) : TaskRow :=
  row_set_updated now (row_set_available now (row_set_worker None (row_set_status StatusQueued r))).

(** [UPDATE ... RETURNING]: the rows as updated, in the server's order. *)
Definition update_orphans (dead : list string) : stmt (list Task) := fun e d =>
  if forallb text_ok dead then
    let f r := if orphaned dead r then set_requeued (pg_now e) r else r in
    let hit := filter (fun p => orphaned dead p.2 = true) (map_to_list (tasks d)) in
    (Ok (map (fun p => scanTask p.1 (set_requeued (pg_now e) p.2)) (sql_order e _ hit)),
     set_tasks (f <$> tasks d) d)
  else (sql_error, d).

(** [INSERT ... ON CONFLICT (id) DO UPDATE]. *)
Definition upsert_worker (id hostname status : string) : stmt unit := fun e d =>
  if text_ok id && text_ok hostname && text_ok status then
    let started := match workers d !! id with Some w => w_started_at w | None => pg_now e end in
    (Ok tt, set_workers (<[id := MkWorkerRow hostname status (pg_now e) started]> (workers d)) d)
  else (sql_error, d).

Definition update_worker (id : string) (f : WorkerRow -> WorkerRow) : stmt unit := fun e d =>
  if text_ok id then (Ok tt, set_workers (alter f id (workers d)) d) else (sql_error, d).

Definition later_beat (a b : Worker) : Prop := wk_LastHeartbeat b <= wk_LastHeartbeat a.
#[export] Instance later_beat_dec : RelDecision later_beat.
Proof. intros a b. unfold later_beat. apply _. Defined.

Definition worker_of (p : string * WorkerRow) : Worker :=
  MkWorker p.1 (w_hostname p.2) (w_status p.2) (w_last_heartbeat p.2).

Definition select_workers : stmt (list Worker) := fun e d =>
  (Ok (merge_sort later_beat (sql_order e _ (map worker_of (map_to_list (workers d))))), d).

Definition select_stale (threshold : Z) : stmt (list string) := fun e d =>
  (Ok (map fst (sql_order e _ (filter (fun p => negb (String.eqb (w_status p.2) "dead") &&
                                 (w_last_heartbeat p.2 <? timestamptz_in threshold) = true)
                        (map_to_list (workers d))))), d).

Definition event_before (a b : EventRow) : Prop := er_id a <= er_id b.
#[export] Instance event_before_dec : RelDecision event_before.
Proof. intros a b. unfold event_before. apply _. Defined.

Definition select_events (id : uuid) : stmt (list EventRow) := fun e d =>
  (Ok (merge_sort event_before
         (sql_order e _ (filter (fun r => er_task_id r = id) (task_events d)))), d).

Definition dead_newer (a b : DeadRow) : Prop := dr_failed_at b <= dr_failed_at a.
#[export] Instance dead_newer_dec : RelDecision dead_newer.
Proof. intros a b. unfold dead_newer. apply _. Defined.

Definition select_dead (limit : Z) : stmt (list DeadRow) := fun e d =>
  (Ok (take (Z.to_nat limit) (merge_sort dead_newer (sql_order e _ (dead_letters d)))), d).

Definition set_redriven (now : Z) (r : TaskRow) : TaskRow :=
  row_set_updated now (row_set_finished None (row_set_started None (row_set_worker None
    (row_set_available now (row_set_error EmptyString (row_set_attempts 0
      (row_set_status StatusQueued r))))))).

Definition update_redrive (id : uuid) : stmt Task := fun e d =>
  match tasks d !! id with
  | Some r =>
      if String.eqb (row_status r) StatusDead then
        (Ok (scanTask id (set_redriven (pg_now e) r)),
         set_tasks (<[id := set_redriven (pg_now e) r]> (tasks d)) d)
      else (Err ErrNoRows, d)
  | None => (Err ErrNoRows, d)
  end.

(** [COUNT( * ) ... GROUP BY]. *)
Definition count_by (key : TaskRow -> string) (l : list TaskRow) : gmap string Z :=
  foldr (fun r m => <[key r := default 0 (m !! key r) + 1]> m) ∅ l.

Definition select_counts (key : TaskRow -> string) : stmt (list (string * Z)) := fun e d =>
  (Ok (sql_order e _ (map_to_list (count_by key (map snd (map_to_list (tasks d)))))), d).

End Statements.

(** ** Methods *)

Section Store.
Context {U : Uuid} {R : Redis} {P : Postgres}.

Definition LogEvent (c : ctx) (id : uuid) (eventType message : string) : prog (res unit) :=
  sql c (insert_event id eventType message).

(** The task is passed by pointer: the completed task is answered as well. *)
Definition CreateTask (c : ctx) (t : Task) : prog (Task * res unit) :=
  id <- (if decide (ID t = uuid_Nil) then uuid_New else Ret (ID t)) ;;
  let max := if MaxAttempts t <=? 0 then 3 else MaxAttempts t in
  let status := if String.eqb (Status t) EmptyString then StatusQueued else Status t in
  available <- (if AvailableAt t =? zero_time then time_Now else Ret (AvailableAt t)) ;;
  let payload := if raw_empty (Payload t) then Some "{}" else Payload t in
  now <- time_Now ;;
  let t' := MkTask id (Type_ t) payload (Priority t) status (Attempts t) max available
              (StartedAt t) (FinishedAt t) (WorkerID t) (Result t) (LastError t) now now in
  r <- sql c (insert_task t') ;;
  match r with
  | Err err => Ret (t', Err (ErrWrap "insert task" err))
  | Ok _ => e <- LogEvent c id "created" EmptyString ;; Ret (t', e)
  end.

(** [scanTask] maps [pgx.ErrNoRows] to [ErrNotFound]. *)
Definition not_found {X} (r : res X) : res X :=
  match r with
  | Err err => if errors_Is err ErrNoRows then Err ErrNotFound else Err err
  | Ok x => Ok x
  end.

Definition GetTask (c : ctx) (id : uuid) : prog (res Task) :=
  r <- sql c (select_task id) ;; Ret (not_found r).

Definition clamp_limit (limit : Z) : Z := if (limit <=? 0) || (500 <? limit) then 100 else limit.

Definition ListTasks (c : ctx) (status typ : string) (limit : Z) : prog (res (list Task)) :=
  sql c (select_tasks status typ (clamp_limit limit)).

(** The statement, then the audit event. *)
Definition then_log (c : ctx) (s : stmt unit) (id : uuid) (eventType message : string) :
    prog (res unit) :=
  r <- sql c s ;;
  match r with
  | Err err => Ret (Err err)
  | Ok _ => LogEvent c id eventType message
  end.

Definition MarkRunning (c : ctx) (id : uuid) (workerID : string) : prog (res unit) :=
  now <- time_Now ;;
  then_log c (update_running id now workerID) id "started" ("worker=" +:+ workerID).

Definition MarkSucceeded (c : ctx) (id : uuid) (result : RawMessage) : prog (res unit) :=
  now <- time_Now ;;
  let result := if raw_empty result then "null" else default EmptyString result in
  then_log c (update_succeeded id now result) id "succeeded" EmptyString.

Definition MarkRetry (c : ctx) (id : uuid) (availableAt : Z) (lastErr : string) :
    prog (res unit) :=
  now <- time_Now ;;
  then_log c (update_retry id now availableAt lastErr) id "retry_scheduled" lastErr.

Definition MarkDead (c : ctx) (id : uuid) (lastErr : string) : prog (res unit) :=
  now <- time_Now ;; sql c (dead_tx id now lastErr).

Definition MarkCanceled (c : ctx) (id : uuid) : prog (res unit) :=
  now <- time_Now ;; then_log c (update_canceled id now) id "canceled" EmptyString.

(** One audit event per task, failures ignored. *)
Fixpoint log_all (c : ctx) (ts : list Task) (eventType message : string) : prog unit :=
  match ts with
  | [] => Ret tt
  | t :: ts' => LogEvent c (ID t) eventType message ;;; log_all c ts' eventType message
  end.

Definition RequeueOrphans (c : ctx) (deadWorkerIDs : list string) : prog (res (list Task)) :=
  if (length deadWorkerIDs =? 0)%nat then Ret (Ok [])
  else
    r <- sql c (update_orphans deadWorkerIDs) ;;
    match r with
    | Err err => Ret (Err err)
    | Ok ts => log_all c ts "reassigned" "previous worker dead" ;;; Ret (Ok ts)
    end.

Definition UpsertWorker (c : ctx) (id hostname status : string) : prog (res unit) :=
  sql c (upsert_worker id hostname status).

Definition TouchWorker (c : ctx) (id : string) : prog (res unit) :=
  sql c (fun e => update_worker id (fun w =>
           MkWorkerRow (w_hostname w) "alive" (pg_now e) (w_started_at w)) e).

Definition MarkWorkerDead (c : ctx) (id : string) : prog (res unit) :=
  sql c (update_worker id (fun w =>
           MkWorkerRow (w_hostname w) "dead" (w_last_heartbeat w) (w_started_at w))).

Definition ListWorkers (c : ctx) : prog (res (list Worker)) := sql c select_workers.

Definition StaleWorkers (c : ctx) (threshold : Z) : prog (res (list string)) :=
  sql c (select_stale threshold).

Definition ListTaskEvents (c : ctx) (id : uuid) : prog (res (list EventRow)) :=
  sql c (select_events id).

Definition ListDeadLetters (c : ctx) (limit : Z) : prog (res (list DeadRow)) :=
  sql c (select_dead (clamp_limit limit)).

Definition Redrive (c : ctx) (id : uuid) : prog (res Task) :=
  r <- sql c (update_redrive id) ;;
  match not_found r with
  | Err err => Ret (Err err)
  | Ok t => LogEvent c id "redriven" EmptyString ;;; Ret (Ok t)
  end.

(** The loops of [GetStats] over the rows. *)
Definition add_status (st : Stats) (kv : string * Z) : Stats :=
  MkStats (<[kv.1 := kv.2]> (ByStatus st)) (ByType st) (wrap64 (Total st + kv.2)).
Definition add_type (st : Stats) (kv : string * Z) : Stats :=
  MkStats (ByStatus st) (<[kv.1 := kv.2]> (ByType st)) (Total st).

Definition GetStats (c : ctx) : prog (Stats * res unit) :=
  let st := MkStats ∅ ∅ 0 in
  r <- sql c (select_counts row_status) ;;
  match r with
  | Err err => Ret (st, Err err)
  | Ok rows =>
      let st := foldl add_status st rows in
      r <- sql c (select_counts row_type) ;;
      match r with
      | Err err => Ret (st, Err err)
      | Ok rows => Ret (foldl add_type st rows, Ok tt)
      end
  end.

End Store.
