(* ===== verification/StoreInv.v ===== *)
(** * Invariants of the database

    [db_ok]: identifiers of the log tables increase, every dead letter belongs
    to a task, statuses are the declared ones, integers fit their columns and
    every task may be attempted at least once. [db_grows]: no task is ever
    removed or changed in what identifies it, and both logs only grow. Every
    statement of [Store.v] keeps the first and satisfies the second. *)

From S2P Require Import Prelude GoBase GoString Json Redis Task Db Effects Store.

Open Scope Z_scope.

Definition statuses : list string :=
  [StatusQueued; StatusRunning; StatusSucceeded; StatusFailed; StatusRetrying; StatusDead;
   StatusCanceled].

Section Inv.
Context {U : Uuid} {P : Postgres}.

Definition row_ok (r : TaskRow) : Prop :=
  row_status r ∈ statuses /\ int4_ok (row_priority r) = true /\
  int4_ok (row_attempts r) = true /\ int4_ok (row_max_attempts r) = true /\
  0 < row_max_attempts r.

Record db_ok (d : db) : Prop := {
  rows_ok : map_Forall (fun _ r => row_ok r) (tasks d);
  events_sorted : StronglySorted Z.lt (map er_id (task_events d));
  events_below : Forall (fun r => er_id r < event_seq d) (task_events d);
  dead_sorted : StronglySorted Z.lt (map dr_id (dead_letters d));
  dead_below : Forall (fun r => dr_id r < dead_seq d) (dead_letters d);
  dead_tasks : Forall (fun r => is_Some (tasks d !! dr_task_id r)) (dead_letters d)
}.

(** What an update never changes in a row. *)
Definition same_task (a b : TaskRow) : Prop :=
  row_type a = row_type b /\ row_payload a = row_payload b /\
  row_priority a = row_priority b /\ row_max_attempts a = row_max_attempts b /\
  row_created_at a = row_created_at b.

Record db_grows (a b : db) : Prop := {
  grows_tasks id r : tasks a !! id = Some r ->
    exists r', tasks b !! id = Some r' /\ same_task r r';
  grows_workers : dom (workers a) ⊆ dom (workers b);
  grows_events : task_events a `prefix_of` task_events b;
  grows_dead : dead_letters a `prefix_of` dead_letters b
}.

#[export] Instance same_task_preorder : PreOrder same_task.
Proof.
  split; [by intros a|]. intros a b c (?&?&?&?&?) (?&?&?&?&?). unfold same_task. split_and!; congruence.
Qed.

#[export] Instance db_grows_preorder : PreOrder db_grows.
Proof.
  split.
  - intros a. split; [intros id r H; exists r; by split|done..].
  - intros a b c [A1 A2 A3 A4] [B1 B2 B3 B4]. split.
    + intros id r (r' & H' & S)%A1. destruct (B1 _ _ H') as (r'' & H'' & S').
      exists r''. split; [done|]. by etransitivity.
    + by etransitivity.
    + by etransitivity.
    + by etransitivity.
Qed.

(** A statement that keeps the database well formed and only adds to it. *)
Definition stmt_ok {X} (s : stmt X) : Prop :=
  forall e d, db_ok d -> db_ok (s e d).2 /\ db_grows d (s e d).2.

Lemma stmt_ok_read {X} (f : sqlenv -> db -> res X) : stmt_ok (fun e d => (f e d, d)).
Proof. intros e d Hd. done. Qed.

Lemma stmt_ok_tx {X} (s : stmt X) : stmt_ok s -> stmt_ok (sql_tx s).
Proof. intros H e d Hd. specialize (H e d Hd). unfold sql_tx. by destruct (s e d) as [[] ?]. Qed.

Definition kept {X} (d : db) (out : res X * db) : Prop := db_ok out.2 /\ db_grows d out.2.

Lemma kept_bind {X Y} (s : stmt X) (k : X -> stmt Y) e d :
  kept d (s e d) -> (forall x d', s e d = (Ok x, d') -> db_ok d' -> kept d' (k x e d')) ->
  kept d (sql_bind s k e d).
Proof.
  intros [Hd' Hg] Hk. unfold sql_bind. destruct (s e d) as [[x|] d'] eqn:E; [|done].
  simpl in *. destruct (Hk x d' eq_refl Hd') as [Hd'' Hg']. split; [done|]. by etransitivity.
Qed.

(** ** The building blocks *)

Lemma map_snoc_sorted {A} (f : A -> Z) (l : list A) (x : A) n :
  StronglySorted Z.lt (map f l) -> Forall (fun y => f y < n) l -> f x = n ->
  StronglySorted Z.lt (map f (l ++ [x])) /\ Forall (fun y => f y < n + 1) (l ++ [x]).
Proof.
  intros Hs Hb Hx. split.
  - rewrite map_app. apply StronglySorted_app_2; [|done|repeat constructor].
    intros a b Ha Hb'. apply list_elem_of_fmap in Ha as (y & -> & Hy).
    apply list_elem_of_fmap in Hb' as (z & -> & ->%list_elem_of_singleton).
    rewrite Forall_forall in Hb. rewrite Hx. by apply Hb.
  - apply Forall_app. split; [|constructor; [lia|done]].
    eapply Forall_impl; [exact Hb|]. simpl. lia.
Qed.

Lemma add_event_ok id typ msg t d :
  db_ok d -> db_ok (add_event id typ msg t d) /\ db_grows d (add_event id typ msg t d).
Proof.
  intros [H1 H2 H3 H4 H5 H6].
  destruct (map_snoc_sorted er_id _ (MkEventRow (event_seq d) id typ msg t) _ H2 H3 eq_refl).
  split; [by split|]. split; [intros i r Hr; by exists r|done|by eexists|done].
Qed.

Lemma add_dead_ok id reason payload t d :
  is_Some (tasks d !! id) -> db_ok d ->
  db_ok (add_dead id reason payload t d) /\ db_grows d (add_dead id reason payload t d).
Proof.
  intros Hid [H1 H2 H3 H4 H5 H6].
  destruct (map_snoc_sorted dr_id _ (MkDeadRow (dead_seq d) id reason payload t) _ H4 H5 eq_refl).
  split; [split; try done|].
  - simpl. apply Forall_app. split; [done|by constructor].
  - split; [intros i r Hr; by exists r|done|done|by eexists].
Qed.

(** Replacing the rows one for one. *)
Lemma set_tasks_ok (t : gmap uuid TaskRow) d :
  db_ok d -> map_Forall (fun _ r => row_ok r) t ->
  (forall id r, tasks d !! id = Some r -> exists r', t !! id = Some r' /\ same_task r r') ->
  db_ok (set_tasks t d) /\ db_grows d (set_tasks t d).
Proof.
  intros [H1 H2 H3 H4 H5 H6] Ht Hs. split; [split; try done|by split].
  eapply Forall_impl; [exact H6|]. intros r [x Hx]. simpl.
  destruct (Hs _ _ Hx) as (r' & -> & _). eauto.
Qed.

Lemma insert_row_ok id r d :
  db_ok d -> row_ok r ->
  (forall r0, tasks d !! id = Some r0 -> same_task r0 r) ->
  db_ok (set_tasks (<[id := r]> (tasks d)) d) /\ db_grows d (set_tasks (<[id := r]> (tasks d)) d).
Proof.
  intros Hd Hr Hs. apply set_tasks_ok; [done| |].
  - apply map_Forall_insert_2; [done|apply Hd].
  - intros i r0 Hr0. destruct (decide (id = i)) as [->|].
    + exists r. rewrite lookup_insert_eq. split; [done|by apply Hs].
    + exists r0. by rewrite lookup_insert_ne.
Qed.

Definition update_ok (f : TaskRow -> TaskRow) : Prop :=
  forall r, row_ok r -> row_ok (f r) /\ same_task r (f r).

Lemma update_row_ok id guard f d :
  db_ok d -> (forall r, tasks d !! id = Some r -> row_ok r -> row_ok (f r) /\ same_task r (f r)) ->
  db_ok (update_row id guard f d) /\ db_grows d (update_row id guard f d).
Proof.
  intros Hd Hf. unfold update_row. destruct (tasks d !! id) as [r|] eqn:E; [|done].
  destruct (guard r); [|done].
  destruct (Hf r eq_refl (rows_ok d Hd _ _ E)) as [Hr Hs].
  apply insert_row_ok; [done|done|]. intros r0 Hr0. congruence.
Qed.

Lemma set_workers_ok ws d :
  db_ok d -> dom (workers d) ⊆ dom ws -> db_ok (set_workers ws d) /\ db_grows d (set_workers ws d).
Proof.
  intros [H1 H2 H3 H4 H5 H6] Hw. split; [by split|]. split; try done.
  intros i r Hr. by exists r.
Qed.

(** ** Every statement *)

Lemma known (s : string) : existsb (String.eqb s) statuses = true -> s ∈ statuses.
Proof.
  intros (x & Hx & ->%String.eqb_eq)%existsb_exists. by apply list_elem_of_In.
Qed.

Ltac row_update :=
  intros; match goal with H : row_ok _ |- _ => destruct H as (? & ? & ? & ? & ?) end;
  split; [split_and!; simpl; auto; by apply known|done].

Lemma insert_event_ok id typ msg : stmt_ok (insert_event id typ msg).
Proof.
  intros e d Hd. unfold insert_event. case_if; [|done]. by apply add_event_ok.
Qed.

Lemma insert_task_ok t :
  Status t ∈ statuses -> 0 < MaxAttempts t -> stmt_ok (insert_task t).
Proof.
  intros Hs Hm e d Hd. unfold insert_task.
  destruct (jsonb_in _) as [j|]; [|done]. destruct (tasks d !! ID t) eqn:E; [done|].
  case_if; [|done]. bool_to_prop.
  apply insert_row_ok; [done| |by intros r0; rewrite E]. split_and!; simpl; done.
Qed.

Lemma update_running_ok id now wk : stmt_ok (update_running id now wk).
Proof.
  intros e d Hd. unfold update_running. case_if; [|done].
  destruct (tasks d !! id) as [r|] eqn:E; [|done]. case_if; [|done].
  apply update_row_ok; [done|]. intros r' Hr'. assert (r' = r) as -> by congruence. row_update.
Qed.

Lemma update_succeeded_ok id now result : stmt_ok (update_succeeded id now result).
Proof.
  intros e d Hd. unfold update_succeeded. destruct (jsonb_in _); [|done].
  apply update_row_ok; [done|row_update].
Qed.

Lemma update_retry_ok id now avail lastErr : stmt_ok (update_retry id now avail lastErr).
Proof.
  intros e d Hd. unfold update_retry. case_if; [|done]. apply update_row_ok; [done|row_update].
Qed.

Lemma update_dead_ok id now lastErr : stmt_ok (update_dead id now lastErr).
Proof.
  intros e d Hd. unfold update_dead. case_if; [|done].
  destruct (tasks d !! id); [|done]. apply update_row_ok; [done|row_update].
Qed.

Lemma update_dead_found id now lastErr e d payload d' :
  update_dead id now lastErr e d = (Ok payload, d') -> is_Some (tasks d' !! id).
Proof.
  unfold update_dead. case_if; [|done].
  destruct (tasks d !! id) as [r|] eqn:E; [|done]. intros [= _ <-].
  unfold update_row. rewrite E. simpl. rewrite lookup_insert_eq. eauto.
Qed.

Lemma dead_tx_ok id now lastErr : stmt_ok (dead_tx id now lastErr).
Proof.
  apply stmt_ok_tx. intros e d Hd. apply kept_bind; [by apply update_dead_ok|].
  intros payload d' Hu%update_dead_found Hd'. apply kept_bind; [|intros; by apply insert_event_ok].
  unfold insert_dead, kept. destruct (jsonb_in payload); [|done]. case_if; [|done].
  by apply add_dead_ok.
Qed.

Lemma update_canceled_ok id now : stmt_ok (update_canceled id now).
Proof. intros e d Hd. apply update_row_ok; [done|row_update]. Qed.

Lemma update_orphans_ok dead : stmt_ok (update_orphans dead).
Proof.
  intros e d Hd. unfold update_orphans. case_if; [|done]. simpl.
  set (f r := if orphaned dead r then set_requeued (pg_now e) r else r).
  assert (Hf : forall r, row_ok r -> row_ok (f r) /\ same_task r (f r)).
  { intros r Hr. unfold f. destruct (orphaned dead r); [|done]. revert Hr. row_update. }
  apply set_tasks_ok; [done| |].
  - intros id r (r0 & <- & Hr0)%lookup_fmap_Some. apply Hf, (rows_ok d Hd _ _ Hr0).
  - intros id r Hr. exists (f r). rewrite lookup_fmap, Hr. split; [done|].
    apply Hf, (rows_ok d Hd _ _ Hr).
Qed.

Lemma upsert_worker_ok id hostname status : stmt_ok (upsert_worker id hostname status).
Proof.
  intros e d Hd. unfold upsert_worker. case_if; [|done]. apply set_workers_ok; [done|].
  rewrite dom_insert_L. set_solver.
Qed.

Lemma update_worker_ok id f : stmt_ok (update_worker id f).
Proof.
  intros e d Hd. unfold update_worker. case_if; [|done]. apply set_workers_ok; [done|].
  by rewrite dom_alter_L.
Qed.

Lemma update_redrive_ok id : stmt_ok (update_redrive id).
Proof.
  intros e d Hd. unfold update_redrive. destruct (tasks d !! id) as [r|] eqn:E; [|done].
  case_if; [|done].
  assert (Hs : row_ok (set_redriven (pg_now e) r) /\ same_task r (set_redriven (pg_now e) r)).
  { assert (Hr : row_ok r) by exact (rows_ok d Hd _ _ E). revert Hr. row_update. }
  destruct Hs. apply insert_row_ok; [done|done|]. intros r0. rewrite E. by intros [= <-].
Qed.

Lemma select_tasks_ok status typ limit : stmt_ok (select_tasks status typ limit).
Proof. intros e d Hd. unfold select_tasks. by case_if. Qed.

Lemma select_task_ok id : stmt_ok (select_task id).
Proof. intros e d Hd. unfold select_task. by destruct (tasks d !! id). Qed.

End Inv.

#[export] Hint Resolve stmt_ok_read insert_event_ok insert_task_ok update_running_ok
  update_succeeded_ok update_retry_ok dead_tx_ok update_canceled_ok update_orphans_ok
  upsert_worker_ok update_worker_ok update_redrive_ok select_tasks_ok select_task_ok : taskq.
