(* ===== verification/Lifecycle.v ===== *)
(** * The life cycle of a row

    [moves]: how one statement may change the row of a task; [rows_move]: how it
    may change the table. Every statement of [Store.v] is a [stmt_moves], so the
    status machine of a task is the relation [allowed] whatever the program does. *)

From S2P Require Import Prelude GoBase GoString Json Redis Task Db Effects Store StoreInv.

Open Scope Z_scope.

Section Lifecycle.
Context {U : Uuid} {P : Postgres}.

(** The statuses a row may go from and to: [running], [succeeded], [retrying] and
    [dead] are written whatever the row's status is; [canceled] and [queued] are
    guarded; nothing writes [failed]. *)
Definition allowed (a b : string) : bool :=
  String.eqb a b ||
  existsb (String.eqb b) [StatusRunning; StatusSucceeded; StatusRetrying; StatusDead] ||
  String.eqb b StatusCanceled && existsb (String.eqb a) [StatusQueued; StatusRetrying] ||
  String.eqb b StatusQueued && existsb (String.eqb a) [StatusDead; StatusRunning].

(** How a statement may change the row of a task. *)
Definition moves (r r' : TaskRow) : Prop :=
  allowed (row_status r) (row_status r') = true /\ same_task r r' /\
  (row_attempts r' = row_attempts r \/ row_attempts r' = row_attempts r + 1 \/
   row_attempts r' = 0 /\ row_status r = StatusDead).

Lemma moves_refl r : moves r r.
Proof. unfold moves, allowed. rewrite String.eqb_refl. split_and!; [done|done|by left]. Qed.

Lemma allowed_running a : allowed a StatusRunning = true.
Proof. unfold allowed. destruct (String.eqb a StatusRunning); reflexivity. Qed.
Lemma allowed_free a b :
  existsb (String.eqb b) [StatusRunning; StatusSucceeded; StatusRetrying; StatusDead] = true ->
  allowed a b = true.
Proof. intros H. unfold allowed. rewrite H, orb_true_r. reflexivity. Qed.

Lemma moves_update id guard f d id' r :
  (forall r, guard r = true -> moves r (f r)) -> tasks d !! id' = Some r ->
  exists r', tasks (update_row id guard f d) !! id' = Some r' /\ moves r r'.
Proof.
  intros Hf Hr. unfold update_row. destruct (tasks d !! id) as [r0|] eqn:E0;
    [|exists r; split; [done|apply moves_refl]].
  destruct (guard r0) eqn:Eg; [|exists r; split; [done|apply moves_refl]]. cbn.
  destruct (decide (id = id')) as [->|Hne].
  - exists (f r0). rewrite lookup_insert_eq. split; [done|].
    assert (r0 = r) as -> by congruence. by apply Hf.
  - exists r. rewrite lookup_insert_ne by done. split; [done|apply moves_refl].
Qed.

Lemma moves_free f : (forall r, same_task r (f r)) ->
  (forall r, row_attempts (f r) = row_attempts r \/ row_attempts (f r) = row_attempts r + 1) ->
  (forall r, existsb (String.eqb (row_status (f r)))
     [StatusRunning; StatusSucceeded; StatusRetrying; StatusDead] = true) ->
  forall r, always r = true -> moves r (f r).
Proof.
  intros Hs Ha Ht r _. split_and!; [by apply allowed_free|done|].
  destruct (Ha r); [by left|by right; left].
Qed.

Lemma moves_canceled now r : cancelable r = true -> moves r (set_canceled now r).
Proof.
  unfold cancelable. intros H. split_and!; [|done|by left].
  destruct (String.eqb_spec (row_status r) StatusQueued) as [E|]; [by rewrite E|].
  destruct (String.eqb_spec (row_status r) StatusRetrying) as [E|]; [by rewrite E|done].
Qed.

Lemma moves_requeued now dead r : orphaned dead r = true -> moves r (set_requeued now r).
Proof.
  unfold orphaned. intros [H%String.eqb_eq _]%andb_prop. split_and!; [|done|by left].
  by rewrite H.
Qed.

Lemma moves_redriven now r : row_status r = StatusDead -> moves r (set_redriven now r).
Proof. intros H. split_and!; [by rewrite H|done|right; right; done]. Qed.

(** ** The table *)

(** A new row is queued and not yet attempted; no row disappears. *)
Definition row_step (old new : option TaskRow) : Prop :=
  match old, new with
  | None, None => True
  | None, Some r => row_status r = StatusQueued /\ row_attempts r = 0
  | Some r, Some r' => moves r r'
  | Some _, None => False
  end.

Definition rows_move (a b : gmap uuid TaskRow) : Prop := forall id, row_step (a !! id) (b !! id).

#[export] Instance rows_move_refl : Reflexive rows_move.
Proof. intros a id. unfold row_step. destruct (a !! id); [apply moves_refl|done]. Qed.

Definition stmt_moves {X} (s : stmt X) : Prop :=
  forall e d, rows_move (tasks d) (tasks (s e d).2).

Lemma stmt_moves_reads {X} (s : stmt X) : (forall e d, (s e d).2 = d) -> stmt_moves s.
Proof. intros H e d. by rewrite H. Qed.

Lemma rows_move_update id guard f d :
  (forall r, guard r = true -> moves r (f r)) ->
  rows_move (tasks d) (tasks (update_row id guard f d)).
Proof.
  intros Hf i. destruct (tasks d !! i) as [r|] eqn:E.
  - by destruct (moves_update id guard f d i r Hf E) as (r' & -> & H).
  - unfold update_row. destruct (tasks d !! id) eqn:E0; [|by rewrite E]. destruct (guard _); [|by rewrite E].
    cbn. rewrite lookup_insert_ne by congruence. by rewrite E.
Qed.

(** An update that sets one of the unguarded statuses. *)
Ltac free_update :=
  apply rows_move_update, moves_free; [by intros|intros; simpl; lia|by intros].

Lemma running_moves id now wk : stmt_moves (update_running id now wk).
Proof.
  intros e d. unfold update_running. case_if; [|done]. destruct (tasks d !! id); [|done].
  case_if; [|done]. free_update.
Qed.

Lemma succeeded_moves id now result : stmt_moves (update_succeeded id now result).
Proof. intros e d. unfold update_succeeded. destruct (jsonb_in _); [|done]. free_update. Qed.

Lemma retry_moves id now avail err : stmt_moves (update_retry id now avail err).
Proof. intros e d. unfold update_retry. case_if; [|done]. free_update. Qed.

Lemma dead_moves id now err : stmt_moves (dead_tx id now err).
Proof.
  intros e d. unfold dead_tx, sql_tx, sql_bind, update_dead, insert_dead, insert_event.
  destruct (text_ok err); [|done]. destruct (tasks d !! id); [|done].
  destruct (jsonb_in _); [|done]. destruct (text_ok "dead"); [|done]. cbn. free_update.
Qed.

Lemma canceled_moves id now : stmt_moves (update_canceled id now).
Proof. intros e d. apply rows_move_update, moves_canceled. Qed.

Lemma orphans_moves dead : stmt_moves (update_orphans dead).
Proof.
  intros e d id. unfold update_orphans. case_if; [|apply rows_move_refl]. cbn. rewrite lookup_fmap.
  destruct (tasks d !! id) as [r|]; [|done]. cbn. destruct (orphaned dead r) eqn:E; [|apply moves_refl].
  by eapply moves_requeued.
Qed.

Lemma redrive_moves id : stmt_moves (update_redrive id).
Proof.
  intros e d i. unfold update_redrive. destruct (tasks d !! id) as [r|] eqn:E; [|apply rows_move_refl].
  destruct (String.eqb_spec (row_status r) StatusDead) as [Ed|]; [|apply rows_move_refl]. cbn.
  destruct (decide (id = i)) as [<-|Hne].
  - rewrite E, lookup_insert_eq. by apply moves_redriven.
  - rewrite lookup_insert_ne by done. apply rows_move_refl.
Qed.

Lemma insert_task_moves t :
  Status t = StatusQueued -> Attempts t = 0 -> stmt_moves (insert_task t).
Proof.
  intros Hs Ha e d i. unfold insert_task. destruct (jsonb_in _); [|apply rows_move_refl].
  destruct (tasks d !! ID t) eqn:E; [apply rows_move_refl|]. case_if; [|apply rows_move_refl]. cbn.
  destruct (decide (ID t = i)) as [<-|Hne].
  - by rewrite E, lookup_insert_eq.
  - rewrite lookup_insert_ne by done. apply rows_move_refl.
Qed.

(** The statements on other tables. *)
Lemma insert_event_moves id typ msg : stmt_moves (insert_event id typ msg).
Proof. intros e d. unfold insert_event. by case_if. Qed.

Lemma upsert_worker_moves id hostname status : stmt_moves (upsert_worker id hostname status).
Proof. intros e d. unfold upsert_worker. by case_if. Qed.

Lemma update_worker_moves id f : stmt_moves (update_worker id f).
Proof. intros e d. unfold update_worker. by case_if. Qed.

End Lifecycle.

#[export] Hint Resolve running_moves succeeded_moves retry_moves dead_moves canceled_moves
  orphans_moves redrive_moves insert_event_moves upsert_worker_moves update_worker_moves : taskq.
