(* ===== verification/StoreThms.v ===== *)
(** * Correctness of the store

    What the methods of [store.go] leave in the tables, branch by branch. *)

From S2P Require Import Prelude GoBase GoString Json Redis RefRedis Task Db Effects Store.
From S2P Require Import StoreInv Lifecycle RefWorld.

Open Scope Z_scope.
Open Scope taskq_scope.

Section Facts.
Context {U : Uuid} {R : Redis} {P : Postgres} {PL : PostgresLaws P}.

Lemma run_sql {X} (o : env) c (s : stmt X) w :
  quiet o -> run o (sql c s) w =
    ((s (sqlenv_at o (ticks w)) (database w)).1,
     with_db (s (sqlenv_at o (ticks w)) (database w)).2 w).
Proof.
  intros Hq. apply run_sql_ok; [done|]. by destruct (s _ _).
Qed.

(** The event a method logs. *)
Definition logged (o : env) (w : world) (d : db) (id : uuid) (typ msg : string) : db :=
  add_event id typ msg (timestamptz_in (clock o (ticks w))) d.

Lemma run_log_event (o : env) c id typ msg w :
  quiet o -> text_ok typ = true -> text_ok msg = true ->
  run o (LogEvent c id typ msg) w = (Ok tt, with_db (logged o w (database w) id typ msg) w).
Proof. intros Hq H1 H2. unfold LogEvent. rewrite run_sql by done. unfold insert_event. by rewrite H1, H2. Qed.

Lemma run_then_log (o : env) c s id typ msg w d :
  quiet o -> text_ok typ = true -> text_ok msg = true ->
  s (sqlenv_at o (ticks w)) (database w) = (Ok tt, d) ->
  run o (then_log c s id typ msg) w =
    (Ok tt, with_db (logged o (with_db d w) d id typ msg) (with_db d w)).
Proof.
  intros Hq H1 H2 Hs. unfold then_log. rewrite run_bind, run_sql, Hs by done. cbn [fst snd].
  by rewrite run_log_event.
Qed.

Lemma run_then_log_err (o : env) c s id typ msg w e :
  quiet o -> s (sqlenv_at o (ticks w)) (database w) = (Err e, database w) ->
  run o (then_log c s id typ msg) w = (Err e, with_db (database w) w).
Proof. intros Hq Hs. unfold then_log. rewrite run_bind, run_sql, Hs by done. done. Qed.

Lemma text_const (s : string) :
  string_forallb (fun c => (32 <=? code c) && (code c <? 127)) s = true -> text_ok s = true.
Proof. apply text_printable. Qed.

#[export] Instance newer_total : base.Total newer.
Proof. intros a b. unfold newer. lia. Qed.
#[export] Instance newer_trans : Transitive newer.
Proof. intros a b c. unfold newer. lia. Qed.

End Facts.

(** Evaluate [text_ok] on a literal. *)
Ltac text := apply text_const; vm_compute; reflexivity.

(** ** Creation *)

Section Create.
Context {U : Uuid} {R : Redis} {P : Postgres} {PL : PostgresLaws P}.

(** The defaults [CreateTask] fills in before the insertion. *)
Definition filled (t : Task) (id : uuid) (available now : Z) : Task :=
  MkTask id (Type_ t) (if raw_empty (Payload t) then Some "{}" else Payload t) (Priority t)
    (if String.eqb (Status t) EmptyString then StatusQueued else Status t) (Attempts t)
    (if MaxAttempts t <=? 0 then 3 else MaxAttempts t) available
    (StartedAt t) (FinishedAt t) (WorkerID t) (Result t) (LastError t) now now.

(** The row the insertion leaves, read back. *)
Definition stored (t : Task) (payload : string) : Task :=
  MkTask (ID t) (Type_ t) (Some payload) (Priority t) (Status t) (Attempts t) (MaxAttempts t)
    (timestamptz_in (AvailableAt t)) None None None None EmptyString
    (timestamptz_in (CreatedAt t)) (timestamptz_in (UpdatedAt t)).

Definition insertable (d : db) (t : Task) (payload : string) : Prop :=
  tasks d !! ID t = None /\ jsonb_in (default EmptyString (Payload t)) = Some payload /\
  text_ok (Type_ t) = true /\ text_ok (Status t) = true /\ int4_ok (Priority t) = true /\
  int4_ok (Attempts t) = true /\ int4_ok (MaxAttempts t) = true.

Lemma insert_task_inserts t payload e d :
  insertable d t payload ->
  exists r, scanTask (ID t) r = stored t payload /\
    insert_task t e d = (Ok tt, set_tasks (<[ID t := r]> (tasks d)) d).
Proof.
  intros (Hn & Hj & H1 & H2 & H3 & H4 & H5). unfold insert_task.
  rewrite Hj, Hn, H1, H2, H3, H4, H5. eexists. split; [|reflexivity]. done.
Qed.

Lemma create_prefix (o : env) c t w :
  exists id available now w1,
    id = (if decide (ID t = uuid_Nil) then fresh o (ticks w) else ID t) /\
    (AvailableAt t <> zero_time -> available = AvailableAt t) /\
    redis w1 = redis w /\ database w1 = database w /\
    run o (CreateTask c t) w =
      run o (r <- sql c (insert_task (filled t id available now)) ;;
             match r with
             | Err err => Ret (filled t id available now, Err (ErrWrap "insert task" err))
             | Ok _ => e <- LogEvent c id "created" EmptyString ;;
                       Ret (filled t id available now, e)
             end) w1.
Proof.
  unfold CreateTask. destruct (decide (ID t = uuid_Nil)), (AvailableAt t =? zero_time) eqn:E;
    do 4 eexists; (split; [reflexivity|]); (split; [by intros; try lia|]);
    (split; [|split; [|reflexivity]]); done.
Qed.

(** A creation the database accepts. *)
Lemma create_run (o : env) c t w payload :
  quiet o ->
  (forall id available now, id = (if decide (ID t = uuid_Nil) then fresh o (ticks w) else ID t) ->
     insertable (database w) (filled t id available now) payload) ->
  exists id available now r w1,
    id = (if decide (ID t = uuid_Nil) then fresh o (ticks w) else ID t) /\
    run o (CreateTask c t) w = ((filled t id available now, Ok tt), w1) /\
    scanTask id r = stored (filled t id available now) payload /\
    tasks (database w1) = <[id := r]> (tasks (database w)) /\
    (exists at_, task_events (database w1) = task_events (database w) ++
       [MkEventRow (event_seq (database w)) id "created" EmptyString at_]) /\
    redis w1 = redis w.
Proof.
  intros Hq Hok. destruct (create_prefix o c t w) as (id & av & now & w0 & Hid & _ & Hr & Hd & Hrun).
  pose proof (Hok id av now Hid) as Hi. rewrite <- Hd in Hi.
  destruct (insert_task_inserts (filled t id av now) payload (sqlenv_at o (ticks w0)) (database w0) Hi)
    as (r & Hscan & Hins).
  rewrite run_bind, run_sql, Hins in Hrun by done. cbn [fst snd] in Hrun.
  assert (Hc : text_ok "created" = true) by (apply text_const; vm_compute; reflexivity).
  assert (He : text_ok EmptyString = true) by (apply text_const; vm_compute; reflexivity).
  rewrite run_bind, run_log_event in Hrun by done. cbn [run] in Hrun.
  exists id, av, now, r. eexists. split; [done|]. split; [exact Hrun|]. split; [done|].
  cbn. rewrite Hd. split_and!; [done|by eexists|done].
Qed.

End Create.

(** Creating a task whose fields the database accepts stores it under its
    identifier (a fresh one if it had none) with the defaults filled in, logs one
    "created" event, touches no other row and not Redis; reading it back gives
    the stored task. *)
Theorem create_then_get {U : Uuid} {R : Redis} {P : Postgres} {PL : PostgresLaws P}
    (o : env) c t w :
  quiet o ->
  (exists payload, forall id available now,
     id = (if decide (ID t = uuid_Nil) then fresh o (ticks w) else ID t) ->
     insertable (database w) (filled t id available now) payload) ->
  exists t' payload w1 w2, run o (CreateTask c t) w = ((t', Ok tt), w1) /\
    ID t' = (if decide (ID t = uuid_Nil) then fresh o (ticks w) else ID t) /\
    run o (GetTask c (ID t')) w1 = (Ok (stored t' payload), w2) /\
    (forall id, id <> ID t' -> tasks (database w1) !! id = tasks (database w) !! id) /\
    (exists at_, task_events (database w1) = task_events (database w) ++
       [MkEventRow (event_seq (database w)) (ID t') "created" EmptyString at_]) /\
    redis w1 = redis w.
Proof.
  intros Hq [payload Hok].
  destruct (create_run o c t w payload Hq Hok) as (id & av & now & r & w1 & Hid & Hrun & Hscan & Ht & He & Hr).
  exists (filled t id av now), payload, w1. eexists. split; [done|]. split; [done|]. split_and!.
  - unfold GetTask. rewrite run_bind, run_sql by done. unfold select_task.
    rewrite Ht. cbn -[scanTask stored]. rewrite lookup_insert_eq. cbn -[scanTask stored].
    by rewrite Hscan.
  - intros id' Hne. by rewrite Ht, lookup_insert_ne.
  - done.
  - done.
Qed.

Definition plain_task (typ : string) : Task :=
  MkTask (U := RefUuid) 0%N typ None 5 EmptyString 0 0 zero_time None None None None EmptyString
    zero_time zero_time.

Lemma create_then_get_witness :
  exists t' payload w1 w2,
    run ref_env (CreateTask CtxMain (plain_task "mail")) ref_world = ((t', Ok tt), w1) /\
    ID t' = 1%N /\
    run ref_env (GetTask CtxMain (ID t')) w1 = (Ok (stored t' payload), w2) /\
    (forall id, id <> ID t' -> tasks (database w1) !! id = tasks (database ref_world) !! id) /\
    (exists at_, task_events (database w1) = task_events (database ref_world) ++
       [MkEventRow (event_seq (database ref_world)) (ID t') "created" EmptyString at_]) /\
    redis w1 = redis ref_world.
Proof.
  apply (create_then_get ref_env CtxMain (plain_task "mail") ref_world).
  - exact ref_quiet.
  - exists "{}". intros id av now ->. repeat split.
Defined.

(** A task identifier that exists already, or a payload that is not JSON, makes
    the creation fail with the database's error wrapped, without any change. *)
Theorem create_rejects {U : Uuid} {R : Redis} {P : Postgres} (o : env) c t w :
  quiet o -> ID t <> uuid_Nil -> raw_empty (Payload t) = false ->
  is_Some (tasks (database w) !! ID t) \/ jsonb_in (default EmptyString (Payload t)) = None ->
  exists t' e w1, run o (CreateTask c t) w = ((t', Err (ErrWrap "insert task" e)), w1) /\
    database w1 = database w /\ redis w1 = redis w.
Proof.
  intros Hq Hid Hp Hbad.
  destruct (create_prefix o c t w) as (id & av & now & w0 & -> & _ & Hr & Hd & Hrun).
  rewrite decide_False in Hrun by done.
  assert (Hins : forall e, insert_task (filled t (ID t) av now) e (database w0) =
                           (sql_error, database w0)).
  { intros e. unfold insert_task. rewrite Hd. cbn. rewrite Hp.
    destruct (jsonb_in _) as [j|]; [|done].
    destruct Hbad as [[r ->]|?]; [done|done]. }
  rewrite Hrun, run_bind, run_sql, Hins by done. cbn. do 3 eexists. split; [reflexivity|done].
Qed.

(** ** Dead letters *)

Section Dead.
Context {U : Uuid} {R : Redis} {P : Postgres} {PL : PostgresLaws P}.

(** Everything [MarkDead] writes. *)
Definition buried (d : db) (id : uuid) (r : TaskRow) (now at_ : Z) (lastErr payload : string) : db :=
  add_event id "dead" lastErr at_
    (add_dead id lastErr payload now
      (set_tasks (<[id := set_dead now lastErr r]> (tasks d)) d)).

Lemma dead_tx_all_or_nothing id now lastErr e d :
  (exists err, dead_tx id now lastErr e d = (Err err, d)) \/
  (exists r j, tasks d !! id = Some r /\ jsonb_in (row_payload r) = Some j /\
     dead_tx id now lastErr e d =
       (Ok tt, buried d id r (timestamptz_in now) (pg_now e) lastErr j)).
Proof.
  unfold dead_tx, sql_tx, sql_bind, update_dead, insert_dead, insert_event.
  destruct (text_ok lastErr) eqn:Ht; [|left; eexists; reflexivity].
  destruct (tasks d !! id) as [r|] eqn:Er; [|left; eexists; reflexivity].
  destruct (jsonb_in (row_payload r)) as [j|] eqn:Ej; [|left; eexists; reflexivity].
  assert (text_ok "dead" = true) as -> by text. right. exists r, j.
  split; [done|]. split; [done|]. unfold update_row. rewrite Er. reflexivity.
Qed.

End Dead.

(** C21: [MarkDead] is atomic, whatever call fails: either the database is as it was
    or the row is dead, with its reason and finish time, one dead letter with the
    row's payload is added and one "dead" event, together; success means the
    latter. *)
Theorem mark_dead_atomic {U : Uuid} {R : Redis} {P : Postgres} {PL : PostgresLaws P}
    (o : env) c id lastErr w :
  let '(r, w') := run o (MarkDead c id lastErr) w in
  redis w' = redis w /\
  (database w' = database w /\ r <> Ok tt \/
   exists row j now at_, tasks (database w) !! id = Some row /\
     jsonb_in (row_payload row) = Some j /\
     database w' = buried (database w) id row now at_ lastErr j).
Proof.
  unfold MarkDead. cbn. set (n := S (ticks w)).
  destruct (dead_tx_all_or_nothing id (clock o (ticks w)) lastErr (sqlenv_at o n) (database w))
    as [[err E]|(row & j & Hrow & Hj & E)];
    unfold serve; rewrite E; destruct (faults o n c); cbn; (split; [done|]);
    try (left; split; [done|discriminate]);
    right; exists row, j, (timestamptz_in (clock o (ticks w))), (pg_now (sqlenv_at o n)); done.
Qed.

Definition one_task_world : world :=
  (run ref_env (CreateTask CtxMain (plain_task "mail")) ref_world).2.

Lemma mark_dead_atomic_witness :
  let '(r, w') := run ref_env (MarkDead CtxMain (uid 1) "boom") one_task_world in
  redis w' = redis one_task_world /\
  (database w' = database one_task_world /\ r <> Ok tt \/
   exists row j now at_, tasks (database one_task_world) !! uid 1 = Some row /\
     jsonb_in (row_payload row) = Some j /\
     database w' = buried (database one_task_world) (uid 1) row now at_ "boom" j).
Proof. exact (mark_dead_atomic ref_env CtxMain (uid 1) "boom" one_task_world). Defined.

(** ** Cancellation *)

(** Canceling changes the row only of a task that is queued or waiting for a
    retry, which becomes canceled; every other task, and a task that does not
    exist, is left as it was. In all cases the call succeeds, logs a "canceled"
    event under the identifier and leaves every queue alone. *)
Theorem mark_canceled_outcome {U : Uuid} {R : Redis} {P : Postgres} {PL : PostgresLaws P}
    (o : env) c id w :
  quiet o ->
  exists w' at_, run o (MarkCanceled c id) w = (Ok tt, w') /\ redis w' = redis w /\
    (forall id', id' <> id -> tasks (database w') !! id' = tasks (database w) !! id') /\
    tasks (database w') !! id =
      match tasks (database w) !! id with
      | Some r => Some (if cancelable r then set_canceled (timestamptz_in (clock o (ticks w))) r else r)
      | None => None
      end /\
    task_events (database w') = task_events (database w) ++
      [MkEventRow (event_seq (database w)) id "canceled" EmptyString at_].
Proof.
  intros Hq. unfold MarkCanceled. rewrite run_bind. cbn [run time_Now perform do_effect].
  rewrite (run_then_log o c _ id "canceled" EmptyString (tick w) _ Hq) by (text || reflexivity).
  do 2 eexists. split; [reflexivity|]. split; [done|].
  unfold logged, update_row. cbn. destruct (tasks (database w) !! id) as [r|] eqn:E.
  - destruct (cancelable r); cbn; split_and!; try done; [|by rewrite lookup_insert_eq].
    intros id' Hne. by rewrite lookup_insert_ne.
  - split_and!; done.
Qed.

Definition canceled_twice :=
  (run ref_env (CreateTask CtxMain (plain_task "mail") ;;; MarkCanceled CtxMain (uid 1)) ref_world).2.

Lemma mark_canceled_outcome_witness :
  exists w' at_, run ref_env (MarkCanceled CtxMain (uid 7)) canceled_twice = (Ok tt, w') /\
    redis w' = redis canceled_twice /\
    (forall id', id' <> (uid 7) -> tasks (database w') !! id' = tasks (database canceled_twice) !! id') /\
    tasks (database w') !! (uid 7) =
      match tasks (database canceled_twice) !! (uid 7) with
      | Some r => Some (if cancelable r
                        then set_canceled (timestamptz_in (clock ref_env (ticks canceled_twice))) r else r)
      | None => None
      end /\
    task_events (database w') = task_events (database canceled_twice) ++
      [MkEventRow (event_seq (database canceled_twice)) (uid 7) "canceled" EmptyString at_].
Proof. exact (mark_canceled_outcome ref_env CtxMain (uid 7) canceled_twice ref_quiet). Defined.

(** ** Redrive *)

Lemma redrive_run {U : Uuid} {R : Redis} {P : Postgres} {PL : PostgresLaws P} (o : env) c id w :
  quiet o ->
  let now := timestamptz_in (clock o (ticks w)) in
  match tasks (database w) !! id with
  | Some r =>
      if String.eqb (row_status r) StatusDead then
        exists w', run o (Redrive c id) w = (Ok (scanTask id (set_redriven now r)), w') /\
          redis w' = redis w /\
          tasks (database w') = <[id := set_redriven now r]> (tasks (database w)) /\
          length (task_events (database w')) = S (length (task_events (database w))) /\
          dead_letters (database w') = dead_letters (database w)
      else exists w', run o (Redrive c id) w = (Err ErrNotFound, w') /\
             database w' = database w /\ redis w' = redis w
  | None => exists w', run o (Redrive c id) w = (Err ErrNotFound, w') /\
              database w' = database w /\ redis w' = redis w
  end.
Proof.
  intros Hq now. unfold Redrive. rewrite run_bind, run_sql by done. unfold update_redrive.
  destruct (tasks (database w) !! id) as [r|] eqn:E; [|eexists; split; [reflexivity|done]].
  destruct (String.eqb (row_status r) StatusDead);
    [|eexists; split; [reflexivity|done]].
  cbn [fst snd not_found]. rewrite run_bind, run_log_event by (done || text).
  eexists. split; [reflexivity|]. cbn. rewrite length_app. cbn. split_and!; (done || lia).
Qed.

(** A redrive succeeds exactly on a dead task, which becomes queued with zero
    attempts, no error, worker, start or finish, and one "redriven" event; on any
    other identifier it answers [ErrNotFound] and changes nothing. *)
Theorem redrive_outcome {U : Uuid} {R : Redis} {P : Postgres} {PL : PostgresLaws P}
    (o : env) c id w :
  quiet o ->
  let now := timestamptz_in (clock o (ticks w)) in
  match tasks (database w) !! id with
  | Some r =>
      if String.eqb (row_status r) StatusDead then
        exists w', run o (Redrive c id) w = (Ok (scanTask id (set_redriven now r)), w') /\
          redis w' = redis w /\
          tasks (database w') = <[id := set_redriven now r]> (tasks (database w)) /\
          length (task_events (database w')) = S (length (task_events (database w))) /\
          dead_letters (database w') = dead_letters (database w)
      else exists w', run o (Redrive c id) w = (Err ErrNotFound, w') /\
             database w' = database w /\ redis w' = redis w
  | None => exists w', run o (Redrive c id) w = (Err ErrNotFound, w') /\
              database w' = database w /\ redis w' = redis w
  end.
Proof.
  intros Hq now. exact (redrive_run o c id w Hq).
Qed.

Definition buried_world :=
  (run ref_env (CreateTask CtxMain (plain_task "mail") ;;; MarkDead CtxMain (uid 1) "boom") ref_world).2.

Lemma redrive_outcome_witness :
  let now := timestamptz_in (clock ref_env (ticks buried_world)) in
  exists r, tasks (database buried_world) !! (uid 1) = Some r /\
  exists w', run ref_env (Redrive CtxMain (uid 1)) buried_world =
               (Ok (scanTask (uid 1) (set_redriven now r)), w') /\
    redis w' = redis buried_world /\
    tasks (database w') = <[(uid 1) := set_redriven now r]> (tasks (database buried_world)) /\
    length (task_events (database w')) = S (length (task_events (database buried_world))) /\
    dead_letters (database w') = dead_letters (database buried_world).
Proof.
  intros now.
  destruct (tasks (database buried_world) !! (uid 1)) as [r|] eqn:E;
    [|vm_compute in E; discriminate E].
  assert (Hs : String.eqb (row_status r) StatusDead = true).
  { vm_compute in E. injection E as <-. reflexivity. }
  exists r. split; [reflexivity|].
  pose proof (redrive_outcome ref_env CtxMain (uid 1) buried_world ref_quiet) as H.
  cbv zeta in H. rewrite E, Hs in H. exact H.
Defined.

(** ** Orphans *)

Section Orphans.
Context {U : Uuid} {R : Redis} {P : Postgres} {PL : PostgresLaws P}.

Lemma run_log_all (o : env) c ts typ msg w :
  quiet o -> text_ok typ = true -> text_ok msg = true ->
  exists w', run o (log_all c ts typ msg) w = (tt, w') /\ redis w' = redis w /\
    tasks (database w') = tasks (database w) /\
    dead_letters (database w') = dead_letters (database w) /\
    length (task_events (database w')) = (length (task_events (database w)) + length ts)%nat.
Proof.
  intros Hq H1 H2. revert w. induction ts as [|t ts IH]; intros w.
  { exists w. cbn. split_and!; (done || lia). }
  cbn [log_all]. rewrite run_bind, run_log_event by done.
  destruct (IH (with_db (logged o w (database w) (ID t) typ msg) w))
    as (w' & -> & ? & Ht & Hd & Hl).
  exists w'. rewrite Ht, Hd, Hl. cbn. rewrite length_app. cbn. split_and!; (done || lia).
Qed.

End Orphans.


Definition running_world :=
  (run ref_env (CreateTask CtxMain (plain_task "mail") ;;; MarkRunning CtxMain (uid 1) "w1") ref_world).2.


(** ** Listing *)

Section Listing.
Context {U : Uuid}.

Lemma clamp_limit_range (n : Z) : 1 <= clamp_limit n <= 500.
Proof. unfold clamp_limit. destruct (n <=? 0) eqn:?, (500 <? n) eqn:?; simpl; lia. Qed.

Lemma elem_of_all_tasks (d : db) (t : Task) :
  t ∈ all_tasks d <-> exists id r, tasks d !! id = Some r /\ t = scanTask id r.
Proof.
  unfold all_tasks. rewrite list_elem_of_fmap. split.
  - intros ([id r] & -> & H%elem_of_map_to_list). eauto.
  - intros (id & r & H & ->). exists (id, r). split; [done|]. by apply elem_of_map_to_list.
Qed.

End Listing.

(** Listing answers at most the requested number of tasks (100 when the number
    is not between 1 and 500), newest first, only tasks of the requested status
    and type, and leaves out no such task that is newer than a listed one; when
    they fit, all of them are listed. *)
Theorem list_tasks_page {U : Uuid} {R : Redis} {P : Postgres}
    (o : env) (EO : EnvOk o) c status typ limit w :
  quiet o -> text_ok status = true -> text_ok typ = true ->
  let wanted := filter (fun t => matches status typ t = true) (all_tasks (database w)) in
  exists ts w', run o (ListTasks c status typ limit) w = (Ok ts, w') /\
    database w' = database w /\
    Z.of_nat (length ts) <= clamp_limit limit <= 500 /\ StronglySorted newer ts /\
    (forall t, t ∈ ts -> t ∈ wanted) /\
    (forall t, t ∈ wanted -> t ∈ ts \/ forall u, u ∈ ts -> newer u t) /\
    (Z.of_nat (length wanted) <= clamp_limit limit -> ts ≡ₚ wanted).
Proof.
  intros Hq H1 H2 wanted. unfold ListTasks. rewrite run_sql by done.
  unfold select_tasks. rewrite H1, H2. cbn [andb fst snd sql_order sqlenv_at]. fold wanted.
  set (l := shuffle o (ticks w) Task wanted). set (n := Z.to_nat (clamp_limit limit)).
  pose proof (clamp_limit_range limit) as Hlim.
  assert (Hperm : merge_sort newer l ≡ₚ wanted).
  { etransitivity; [apply merge_sort_Permutation|apply shuffle_perm]. }
  assert (Hsort : StronglySorted newer (take n (merge_sort newer l) ++ drop n (merge_sort newer l))).
  { rewrite take_drop. apply StronglySorted_merge_sort; apply _. }
  do 2 eexists. split; [reflexivity|]. split; [done|]. split_and!; try lia.
  - pose proof (take_permutation_length n (merge_sort newer l)). lia.
  - by apply StronglySorted_app_1_l in Hsort.
  - intros t Ht%subseteq_take. by rewrite <- Hperm.
  - intros t Ht. rewrite <- Hperm, <- (take_drop n (merge_sort newer l)) in Ht.
    apply elem_of_app in Ht as [Ht|Ht]; [by left|right].
    apply StronglySorted_app in Hsort as (Hs & _ & _). intros u Hu. by apply Hs.
  - intros Hfit. rewrite take_ge; [done|]. rewrite Hperm. lia.
Qed.

Lemma list_tasks_page_witness :
  let wanted := filter (fun t => matches "running" EmptyString t = true)
                  (all_tasks (database running_world)) in
  exists ts w', run ref_env (ListTasks CtxMain "running" EmptyString 0) running_world = (Ok ts, w') /\
    database w' = database running_world /\
    Z.of_nat (length ts) <= clamp_limit 0 <= 500 /\ StronglySorted newer ts /\
    (forall t, t ∈ ts -> t ∈ wanted) /\
    (forall t, t ∈ wanted -> t ∈ ts \/ forall u, u ∈ ts -> newer u t) /\
    (Z.of_nat (length wanted) <= clamp_limit 0 -> ts ≡ₚ wanted).
Proof.
  exact (list_tasks_page ref_env ref_env_ok CtxMain "running" EmptyString 0 running_world
           ref_quiet eq_refl eq_refl).
Defined.

(** ** Statistics *)

Section StatsFacts.
Context {U : Uuid}.

Definition zsum (l : list Z) : Z := foldr Z.add 0 l.

#[export] Instance zsum_proper : Proper (Permutation ==> eq) zsum.
Proof. intros l l' H. unfold zsum. induction H; simpl; lia. Qed.

Definition msum (m : gmap string Z) : Z := zsum (map snd (map_to_list m)).

Lemma msum_insert_new (m : gmap string Z) k v : m !! k = None -> msum (<[k := v]> m) = v + msum m.
Proof. intros H. unfold msum. by rewrite map_to_list_insert. Qed.

Lemma msum_bump (m : gmap string Z) k :
  msum (<[k := default 0 (m !! k) + 1]> m) = msum m + 1.
Proof.
  destruct (m !! k) as [v|] eqn:E; simpl.
  - rewrite <- insert_delete_eq, msum_insert_new by apply lookup_delete_eq.
    rewrite <- (insert_delete_id m k v E) at 2.
    rewrite (msum_insert_new (delete k m)) by apply lookup_delete_eq. lia.
  - rewrite msum_insert_new by done. lia.
Qed.

Lemma msum_count_by key (l : list TaskRow) : msum (count_by key l) = Z.of_nat (length l).
Proof.
  induction l as [|r l IH]; [done|]. cbn [count_by foldr length].
  rewrite msum_bump. fold (count_by key l). lia.
Qed.

Lemma count_by_pos key (l : list TaskRow) k v : count_by key l !! k = Some v -> 0 < v.
Proof.
  revert k v. induction l as [|r l IH]; intros k v; [done|].
  cbn [count_by foldr]. fold (count_by key l). rewrite lookup_insert_Some.
  intros [[_ <-]|[_ H]]; [|by eapply IH].
  destruct (count_by key l !! key r) as [u|] eqn:E; simpl; [|lia]. apply IH in E. lia.
Qed.

Lemma add_status_all (rows : list (string * Z)) st :
  (forall kv, kv ∈ rows -> 0 <= kv.2) -> 0 <= Total st ->
  Total st + zsum (map snd rows) < 2 ^ 63 ->
  foldl add_status st rows =
    MkStats (foldl (fun m kv => <[kv.1 := kv.2]> m) (ByStatus st) rows) (ByType st)
            (Total st + zsum (map snd rows)).
Proof.
  revert st. induction rows as [|[k v] rows IH]; intros st Hpos Ht Hb.
  { cbn. rewrite Z.add_0_r. by destruct st. }
  cbn [foldl map zsum foldr] in *. fold (zsum (map snd rows)) in *. simpl in Hb.
  assert (Hv : 0 <= v) by exact (Hpos (k, v) ltac:(left)).
  assert (Hrest : 0 <= zsum (map snd rows)).
  { assert (Hp : forall kv, kv ∈ rows -> 0 <= kv.2) by (intros; apply Hpos; by right).
    clear -Hp. induction rows as [|kv rows IH]; simpl; [lia|].
    pose proof (Hp kv ltac:(left)). assert (0 <= zsum (map snd rows)); [|simpl in *; lia].
    apply IH. intros. apply Hp. by right. }
  rewrite IH; simpl; try (intros; apply Hpos; by right);
    rewrite wrap64_id by (unfold in_int64, min_int64, max_int64; lia); try lia.
  f_equal. lia.
Qed.

Lemma add_type_all (rows : list (string * Z)) st :
  foldl add_type st rows =
    MkStats (ByStatus st) (foldl (fun m kv => <[kv.1 := kv.2]> m) (ByType st) rows) (Total st).
Proof.
  revert st. induction rows as [|kv rows IH]; intros st; [by destruct st|]. cbn [foldl]. by rewrite IH.
Qed.

(** Inserting the entries of a map in any order rebuilds it. *)
Lemma rebuild (m acc : gmap string Z) (rows : list (string * Z)) :
  rows ≡ₚ map_to_list m -> acc ##ₘ m ->
  foldl (fun m kv => <[kv.1 := kv.2]> m) acc rows = acc ∪ m.
Proof.
  revert m acc. induction rows as [|[k v] rows IH]; intros m acc Hp Hd.
  { apply Permutation_nil, map_to_list_empty_iff in Hp as ->. by rewrite map_union_empty. }
  assert (Hk : m !! k = Some v).
  { apply elem_of_map_to_list. rewrite <- Hp. left. }
  assert (Ha : acc !! k = None) by (eapply map_disjoint_Some_r; eauto).
  cbn [foldl fst snd]. rewrite (IH (delete k m)).
  - rewrite <- insert_union_l, insert_union_r by done. by rewrite insert_delete_id.
  - apply (Permutation_cons_inv (a := (k, v))). rewrite Hp. symmetry.
    by apply map_to_list_delete.
  - apply map_disjoint_insert_l. split; [apply lookup_delete_eq|]. by apply map_disjoint_delete_r.
Qed.

(** A count, absent ones read as zero. *)
Lemma count_by_lookup key (l : list TaskRow) k :
  default 0 (count_by key l !! k) = Z.of_nat (length (filter (fun r => key r = k) l)).
Proof.
  induction l as [|r l IH]; [done|]. cbn [count_by foldr]. fold (count_by key l).
  rewrite filter_cons. case_decide as Hk.
  - subst k. rewrite lookup_insert_eq. cbn [default from_option id length]. rewrite IH. lia.
  - rewrite lookup_insert_ne by done. exact IH.
Qed.

Lemma count_by_dom key (l : list TaskRow) k v :
  count_by key l !! k = Some v -> exists r, r ∈ l /\ key r = k.
Proof.
  intros H. pose proof (count_by_pos key l k v H) as Hv. pose proof (count_by_lookup key l k) as Hl.
  rewrite H in Hl. cbn in Hl. destruct (filter _ l) as [|r f] eqn:E; [cbn in Hl; lia|].
  assert (Hr : r ∈ filter (fun r => key r = k) l) by (rewrite E; left).
  apply list_elem_of_filter in Hr as [??]. by exists r.
Qed.

End StatsFacts.

Lemma get_stats_run {U : Uuid} {R : Redis} (o : env) (EO : EnvOk o) c w :
  quiet o -> Z.of_nat (size (tasks (database w))) < 2 ^ 63 ->
  let rows := map snd (map_to_list (tasks (database w))) in
  exists st w', run o (GetStats c) w = ((st, Ok tt), w') /\ database w' = database w /\ redis w' = redis w /\
    ByStatus st = count_by row_status rows /\ ByType st = count_by row_type rows /\
    Total st = Z.of_nat (size (tasks (database w))) /\
    msum (ByStatus st) = Total st /\ msum (ByType st) = Total st.
Proof.
  intros Hq Hsize rows.
  assert (Hlen : Z.of_nat (length rows) = Z.of_nat (size (tasks (database w)))).
  { unfold rows. rewrite length_map. by rewrite length_map_to_list. }
  assert (Hsum : forall n key, zsum (map snd (shuffle o n _ (map_to_list (count_by key rows)))) =
                               Z.of_nat (length rows)).
  { intros n key. rewrite shuffle_perm. apply msum_count_by. }
  unfold GetStats. rewrite run_bind, run_sql by done. cbn [fst snd select_counts sql_order sqlenv_at].
  fold rows. rewrite add_status_all; [|..|cbn [Total]; rewrite Hsum; lia].
  - rewrite run_bind, run_sql by done. cbn [fst snd select_counts sql_order sqlenv_at].
    cbn [database with_db]. fold rows. rewrite add_type_all. cbn [ByStatus ByType Total].
    do 2 eexists. split; [reflexivity|]. cbn [database with_db ByStatus ByType Total].
    rewrite (rebuild (count_by row_status rows)), (rebuild (count_by row_type rows)), !map_empty_union
      by (apply shuffle_perm || apply map_disjoint_empty_l).
    rewrite !msum_count_by, Hsum. split_and!; (done || lia).
  - intros [k v] H. rewrite shuffle_perm in H. apply elem_of_map_to_list, count_by_pos in H. simpl. lia.
  - done.
Qed.

(** The statistics are the exact counts per status and per type, and the total
    is the number of tasks, which both breakdowns sum to. *)
Theorem get_stats_exact {U : Uuid} {R : Redis} (o : env) (EO : EnvOk o) c w :
  quiet o -> Z.of_nat (size (tasks (database w))) < 2 ^ 63 ->
  let rows := map snd (map_to_list (tasks (database w))) in
  exists st w', run o (GetStats c) w = ((st, Ok tt), w') /\ database w' = database w /\
    ByStatus st = count_by row_status rows /\ ByType st = count_by row_type rows /\
    Total st = Z.of_nat (size (tasks (database w))) /\
    msum (ByStatus st) = Total st /\ msum (ByType st) = Total st.
Proof.
  intros Hq Hs. destruct (get_stats_run o EO c w Hq Hs) as (st & w' & H1 & H2 & _ & H3). by exists st, w'.
Qed.

Lemma get_stats_exact_witness :
  let rows := map snd (map_to_list (tasks (database running_world))) in
  exists st w', run ref_env (GetStats CtxMain) running_world = ((st, Ok tt), w') /\
    database w' = database running_world /\
    ByStatus st = count_by row_status rows /\ ByType st = count_by row_type rows /\
    Total st = Z.of_nat (size (tasks (database running_world))) /\
    msum (ByStatus st) = Total st /\ msum (ByType st) = Total st.
Proof.
  apply (get_stats_exact ref_env ref_env_ok CtxMain running_world).
  - exact ref_quiet.
  - vm_compute. reflexivity.
Defined.

(** ** The life cycle of a row *)

Section Lifecycle.
Context {U : Uuid} {P : Postgres}.

Definition forget {X} (s : stmt X) : stmt unit := fun e d => (res_err (s e d).1, (s e d).2).

(** The statements that write to existing tasks. *)
Inductive lifecycle : stmt unit -> Prop :=
  | L_running id now wk : lifecycle (update_running id now wk)
  | L_succeeded id now result : lifecycle (update_succeeded id now result)
  | L_retry id now avail err : lifecycle (update_retry id now avail err)
  | L_dead id now err : lifecycle (dead_tx id now err)
  | L_canceled id now : lifecycle (update_canceled id now)
  | L_orphans dead : lifecycle (forget (update_orphans dead))
  | L_redrive id : lifecycle (forget (update_redrive id)).

End Lifecycle.

(** C18: no statement of the store creates a status outside the table: a task is
    canceled only from queued or retrying, returns to queued only from dead or
    running, is never set to failed, keeps its type, payload, priority, attempt
    limit and creation time, and its attempts stay, grow by one, or are reset
    when it was dead. *)
Theorem lifecycle_moves {U : Uuid} {P : Postgres} {PL : PostgresLaws P} (s : stmt unit) e d id r :
  lifecycle s -> tasks d !! id = Some r ->
  exists r', tasks (s e d).2 !! id = Some r' /\ moves r r'.
Proof.
  intros Hs Hr. assert (H : stmt_moves s).
  { destruct Hs; [apply running_moves|apply succeeded_moves|apply retry_moves|apply dead_moves
      |apply canceled_moves|intros ??; apply orphans_moves|intros ??; apply redrive_moves]. }
  specialize (H e d id). rewrite Hr in H. destruct (tasks (s e d).2 !! id) as [r'|]; [|done]. by exists r'.
Qed.

Lemma lifecycle_moves_witness :
  exists r r', tasks (database running_world) !! uid 1 = Some r /\
    tasks (update_canceled (uid 1) 5 (sqlenv_at ref_env 0) (database running_world)).2 !! uid 1 = Some r' /\
    moves r r'.
Proof.
  destruct (tasks (database running_world) !! uid 1) as [r|] eqn:E; [|vm_compute in E; discriminate E].
  destruct (lifecycle_moves (update_canceled (uid 1) 5) (sqlenv_at ref_env 0)
              (database running_world) (uid 1) r (L_canceled _ _) E) as (r' & H & Hm).
  exists r, r'. split; [reflexivity|]. split; [exact H|exact Hm].
Defined.
