(* ===== verification/Scheduler.v ===== *)
(** * Worker and coordinator ([internal/scheduler/scheduler.go])

    A worker is its registration, its configuration and its handlers; the pieces
    of [Run] between two channel operations are programs of their own
    ([register], [served_types], [pause], [beat], [execute], [stop]), put
    together in [WorkerLoop.v]. Log lines are not modelled. *)

From S2P Require Import Prelude GoBase F64 GoString Json GoTime GoStd Redis Task Db Effects.
From S2P Require Import Queue Config Store Handlers.

Open Scope Z_scope.
Open Scope taskq_scope.

Section Scheduler.
Context {U : Uuid} {R : Redis} {P : Postgres} {PF : Platform}.

(** ** Worker *)

Record Worker := MkWorker {
  worker_ID : string;
  worker_Hostname : string;
  worker_cfg : Config;
  worker_registry : Registry
}.

(** [os.Getenv("WORKER_ID")], or a fresh name. *)
Definition NewWorker (E : environ) (host : string) (cfg : Config) (reg : Registry) : prog Worker :=
  let id := default EmptyString (E "WORKER_ID") in
  id <- (if String.eqb id EmptyString
         then u <- uuid_New ;; Ret ("worker-" +:+ str_take 8 (uuid_String u))
         else Ret id) ;;
  Ret (MkWorker id host cfg reg).

(** The registration at the start of [Run]. *)
Definition register (c : ctx) (w : Worker) : prog (res unit) :=
  r <- UpsertWorker c (worker_ID w) (worker_Hostname w) "alive" ;;
  match r with
  | Err err => Ret (Err (ErrWrap "register worker" err))
  | Ok _ =>
      r <- Heartbeat c (worker_ID w) (HeartbeatTTL (worker_cfg w)) ;;
      match r with
      | Err err => Ret (Err (ErrWrap "initial heartbeat" err))
      | Ok _ => Ret (Ok tt)
      end
  end.

(** The types it will serve. *)
Definition served_types (w : Worker) : prog (list string) :=
  match TaskTypes (worker_cfg w) with
  | [] => Types (worker_registry w)
  | ts => Ret ts
  end.

(** A failed lease: how long the loop waits, and whether a cancellation ends the wait. *)
Definition pause (c : ctx) (err : error) : prog unit :=
  if errors_Is err ErrEmpty
  then perform (EWait c (200 * millisecond)) ;;; Ret tt
  else perform (EWait CtxBackground (500 * millisecond)) ;;; Ret tt.

(** One tick of [heartbeatLoop]. *)
Definition beat (c : ctx) (w : Worker) : prog unit :=
  Heartbeat c (worker_ID w) (HeartbeatTTL (worker_cfg w)) ;;;
  TouchWorker c (worker_ID w) ;;; Ret tt.

(** The end of [Run], after the running tasks have finished. *)
Definition stop (w : Worker) : prog unit := MarkWorkerDead CtxBackground (worker_ID w) ;;; Ret tt.

Definition publishEvent (w : Worker) (env : Envelope) (status msg : string) : prog unit :=
  now <- time_Now ;;
  Publish CtxBackground (MarshalEvent
    (MkEvent (env_ID env) (env_Type env) status (worker_ID w) msg now)) ;;; Ret tt.

Definition BackoffDelay (attempt base max : Z) : prog Z :=
  let attempt := if attempt <? 1 then 1 else attempt in
  let exp := fmul (of_int base) (pow2 (attempt - 1)) in
  let exp := if fgt exp (of_int max) then of_int max else exp in
  x <- rand_Float64 ;;
  let d := to_int64 unrepresentable (fmul x exp) in
  Ret (if d <? base then base else d).

(** The task handed to a handler. *)
Definition job (env : Envelope) : Task :=
  MkTask (env_ID env) (env_Type env) (env_Payload env) (env_Priority env) EmptyString
    (env_Attempts env) (env_MaxAttempts env) zero_time None None None None EmptyString
    zero_time zero_time.

Definition no_handler : string := "no handler registered".

Definition execute (c : ctx) (w : Worker) (env : Envelope) : prog unit :=
  match Lookup (worker_registry w) (env_Type env) with
  | None =>
      Nack c (worker_ID w) (env_ID env) ;;;
      DeadLetter c env no_handler ;;;
      MarkDead c (env_ID env) no_handler ;;;
      publishEvent w env StatusDead no_handler ;;;
      count_up (worker_ID w) Dead
  | Some h =>
      MarkRunning c (env_ID env) (worker_ID w) ;;;
      publishEvent w env StatusRunning EmptyString ;;;
      r <- h CtxJob (job env) ;;
      match r with
      | Ok result =>
          Ack c (worker_ID w) (env_ID env) ;;;
          MarkSucceeded c (env_ID env) result ;;;
          publishEvent w env StatusSucceeded EmptyString ;;;
          count_up (worker_ID w) Completed
      | Err err =>
          count_up (worker_ID w) Failed ;;;
          let env := set_attempts (wrap64 (env_Attempts env + 1)) env in
          Nack c (worker_ID w) (env_ID env) ;;;
          if env_MaxAttempts env <=? env_Attempts env then
            DeadLetter c env (Error err) ;;;
            MarkDead c (env_ID env) (Error err) ;;;
            publishEvent w env StatusDead (Error err) ;;;
            count_up (worker_ID w) Dead
          else
            delay <- BackoffDelay (env_Attempts env) (RetryBaseDelay (worker_cfg w))
                                  (RetryMaxDelay (worker_cfg w)) ;;
            now <- time_Now ;;
            let availableAt := now + delay in
            EnqueueDelayed c env availableAt ;;;
            MarkRetry c (env_ID env) availableAt (Error err) ;;;
            publishEvent w env StatusRetrying (Error err)
      end
  end.

(** ** Coordinator *)

(** [json.Marshal]'s error is dropped: the message is then empty. *)
Definition coord_publishEvent (env : Envelope) (status msg : string) : prog unit :=
  now <- time_Now ;;
  let body := match MarshalEvent (MkEvent (env_ID env) (env_Type env) status EmptyString msg now) with
              | Ok b => b | Err _ => EmptyString end in
  rdb CtxBackground (PUBLISH EventsChannel body) ;;; Ret tt.

(** [k[len("delayed:"):]]. *)
Definition scanDelayedTypes (fuel : nat) (c : ctx) : prog (res (list string)) :=
  r <- scan_keys fuel c "delayed:*" 0 ∅ (fun k => str_drop (String.length "delayed:") k) ;;
  match r with
  | Err err => Ret (Err err)
  | Ok types => out <- range_over (elements types) ;; Ret (Ok out)
  end.

(** The loop over the types, each promoted once. *)
Fixpoint promote_each (c : ctx) (seen : gset string) (types : list string) : prog unit :=
  match types with
  | [] => Ret tt
  | t :: rest =>
      if decide (t ∈ seen) then promote_each c seen rest
      else now <- time_Now ;; PromoteDelayed c t now ;;; promote_each c ({[t]} ∪ seen) rest
  end.

Definition promoteDelayed (fuel : nat) (c : ctx) : prog unit :=
  r <- ListTypes fuel c ;;
  match r with
  | Err _ => Ret tt
  | Ok types =>
      d <- scanDelayedTypes fuel c ;;
      promote_each c ∅ (types ++ match d with Ok l => l | Err _ => [] end)
  end.

(** What becomes of the envelopes of a dead worker. *)
Fixpoint requeue_each (c : ctx) (wk : string) (envs : list Envelope) : prog unit :=
  match envs with
  | [] => Ret tt
  | env :: rest =>
      let env := set_attempts (wrap64 (env_Attempts env + 1)) env in
      (if env_MaxAttempts env <=? env_Attempts env then
         DeadLetter c env "worker died" ;;;
         MarkDead c (env_ID env) "worker died mid-task" ;;;
         coord_publishEvent env StatusDead "worker died mid-task"
       else
         r <- Enqueue c env ;;
         match r with
         | Err _ => Ret tt
         | Ok _ => coord_publishEvent env StatusQueued ("reassigned from dead worker " +:+ wk)
         end) ;;;
      requeue_each c wk rest
  end.

Definition reclaim_worker (c : ctx) (w : Store.Worker) : prog unit :=
  if String.eqb (wk_Status w) "dead" then Ret tt
  else
    alive <- IsAlive c (wk_ID w) ;;
    match alive with
    | Err _ | Ok true => Ret tt
    | Ok false =>
        r <- ReclaimInflight c (wk_ID w) ;;
        match r with
        | Err _ => Ret tt
        | Ok envs =>
            requeue_each c (wk_ID w) envs ;;;
            RequeueOrphans c [wk_ID w] ;;;
            MarkWorkerDead c (wk_ID w) ;;; Ret tt
        end
    end.

Fixpoint reclaim_each (c : ctx) (ws : list Store.Worker) : prog unit :=
  match ws with
  | [] => Ret tt
  | w :: rest => reclaim_worker c w ;;; reclaim_each c rest
  end.

Definition reclaimDead (c : ctx) : prog unit :=
  r <- ListWorkers c ;;
  match r with
  | Err _ => Ret tt
  | Ok workers => reclaim_each c workers
  end.

Definition coord_tick (fuel : nat) (c : ctx) : prog unit :=
  promoteDelayed fuel c ;;; reclaimDead c.

End Scheduler.
