(* ===== verification/SchedulerSpec.v ===== *)
(** * What the worker and the coordinator do to the queue

    [qstep o p w f]: when no call fails, program [p] run from [w] ends in a
    well-typed world whose queue is [f] of the one before. Programs that send no
    Redis command ([no_redis]) are steps of the identity; sequences compose. *)

From S2P Require Import Prelude GoBase F64 GoString Json GoTime GoStd Redis Task Db Effects.
From S2P Require Import Queue Abstract QueueSpec QueueInv Config Store Handlers Scheduler.

Open Scope Z_scope.
Open Scope taskq_scope.

(** ** Programs that leave Redis alone *)

Section NoRedis.
Context {U : Uuid} {R : Redis}.

Definition pure_effect {X} (e : effect X) : Prop :=
  match e with ERedis _ _ => False | _ => True end.

Fixpoint no_redis {A} (p : prog A) : Prop :=
  match p with
  | Ret _ => True
  | Do e k => pure_effect e /\ forall x, no_redis (k x)
  end.

Lemma no_redis_bind {A B} (p : prog A) (f : A -> prog B) :
  no_redis p -> (forall a, no_redis (f a)) -> no_redis (bind p f).
Proof. intros Hp Hf. induction p as [a|X e k IH]; simpl; [done|]. destruct Hp. split; auto. Qed.

Lemma no_redis_run {A} (o : env) (p : prog A) w :
  no_redis p -> redis (run o p w).2 = redis w.
Proof.
  revert w. induction p as [a|X e k IH]; intros w; simpl; [done|]. intros [He Hk].
  destruct (do_effect o e w) as [x w'] eqn:E. rewrite (IH x w' (Hk x)).
  destruct e; try done; cbn in E; unfold serve in E; repeat case_match; naive_solver.
Qed.

End NoRedis.

(** ** Steps of the queue *)

Section Steps.
Context {U : Uuid} {R : Redis} {RL : RedisLaws R} (o : env) (Hq : quiet o).

Definition qdoes {A} (p : prog A) (w : world) (a : A) (q : qstate) : Prop :=
  exists w', run o p w = (a, w') /\ good w' /\ l_q (abs w') ≡ q.

Definition qstep {A} (p : prog A) (w : world) (f : qstate -> qstate) : Prop :=
  exists a, qdoes p w a (f (l_q (abs w))).

Lemma yields_qdoes {A} (p : prog A) w n a L : yields o p w n a L -> qdoes p w a (l_q L).
Proof. intros (w' & H1 & [H2 _] & H3 & _). by exists w'. Qed.

Lemma yields_qstep {A} (p : prog A) w n a f :
  yields o p w n a (on_q f (abs w)) -> qstep p w f.
Proof. intros H. exists a. exact (yields_qdoes _ _ _ _ _ H). Qed.

Lemma qdoes_bind {A B} (p : prog A) (k : A -> prog B) w a b q q' :
  qdoes p w a q ->
  (forall w', good w' -> l_q (abs w') ≡ q -> qdoes (k a) w' b q') -> qdoes (bind p k) w b q'.
Proof.
  intros (w' & H1 & H2 & H3) Hk. destruct (Hk w' H2 H3) as (w'' & K1 & K2 & K3).
  exists w''. rewrite run_bind, H1. done.
Qed.

Lemma qstep_bind {A B} (p : prog A) (k : A -> prog B) w (f g : qstate -> qstate)
    `{!Proper ((≡) ==> (≡)) g} :
  qstep p w f -> (forall a w', good w' -> qstep (k a) w' g) -> qstep (bind p k) w (g ∘ f).
Proof.
  intros (a & w' & H1 & H2 & H3) Hk. destruct (Hk a w' H2) as (b & w'' & K1 & K2 & K3).
  exists b, w''. rewrite run_bind, H1. split; [done|]. split; [done|].
  rewrite K3. simpl. by rewrite H3.
Qed.

Lemma qstep_ret {A} (a : A) w : good w -> qstep (Ret a) w id.
Proof. intros H. exists a, w. done. Qed.

Lemma qstep_no_redis {A} (p : prog A) w : good w -> no_redis p -> qstep p w id.
Proof.
  intros Hg Hp. destruct (run o p w) as [a w'] eqn:E. exists a, w'. split; [done|].
  pose proof (no_redis_run o p w Hp) as Hr. rewrite E in Hr. simpl in Hr.
  unfold good, abs. cbn. by rewrite Hr.
Qed.

(** Steps of the identity compose to one. *)
Lemma qstep_bind_id {A B} (p : prog A) (k : A -> prog B) w f `{!Proper ((≡) ==> (≡)) f} :
  qstep p w id -> (forall a w', good w' -> qstep (k a) w' f) -> qstep (bind p k) w f.
Proof. intros Hp Hk. exact (qstep_bind p k w id f Hp Hk). Qed.

Lemma qstep_then_id {A B} (p : prog A) (k : A -> prog B) w f :
  qstep p w f -> (forall a w', good w' -> qstep (k a) w' id) -> qstep (bind p k) w f.
Proof. intros Hp Hk. exact (qstep_bind p k w f id Hp Hk). Qed.

Lemma qstep_sql {X} c (s : stmt X) w : good w -> qstep (sql c s) w id.
Proof. intros Hg. apply qstep_no_redis; [done|]. by split. Qed.

Lemma qstep_publish c m w : good w -> qstep (Publish c m) w id.
Proof.
  intros Hg. unfold Publish. destruct m as [body|err]; [|by apply qstep_ret].
  destruct (yields_publish o Hq c body w Hg) as (w' & H1 & [H2 _] & H3 & _).
  by exists (Ok tt), w'.
Qed.

End Steps.

#[export] Instance compose_proper (f g : qstate -> qstate) :
  Proper ((≡) ==> (≡)) f -> Proper ((≡) ==> (≡)) g -> Proper ((≡) ==> (≡)) (f ∘ g).
Proof. intros Hf Hg a b H. apply Hf, Hg, H. Qed.

#[export] Instance id_proper : Proper ((≡) ==> (≡)) (@id qstate).
Proof. by intros a b H. Qed.

(** ** The store leaves Redis alone *)

Section StoreNoRedis.
Context {U : Uuid} {R : Redis} {P : Postgres}.

Lemma no_redis_sql {X} c (s : stmt X) : no_redis (sql c s).
Proof. by split. Qed.
Lemma no_redis_now : no_redis time_Now.
Proof. by split. Qed.

Lemma no_redis_then_log c s id typ msg : no_redis (then_log c s id typ msg).
Proof. apply no_redis_bind; [apply no_redis_sql|]. intros [|]; [apply no_redis_sql|done]. Qed.

Lemma no_redis_mark_running c id wk : no_redis (MarkRunning c id wk).
Proof. apply no_redis_bind; [apply no_redis_now|]. intros. apply no_redis_then_log. Qed.
Lemma no_redis_mark_succeeded c id r : no_redis (MarkSucceeded c id r).
Proof. apply no_redis_bind; [apply no_redis_now|]. intros. apply no_redis_then_log. Qed.
Lemma no_redis_mark_retry c id t e : no_redis (MarkRetry c id t e).
Proof. apply no_redis_bind; [apply no_redis_now|]. intros. apply no_redis_then_log. Qed.
Lemma no_redis_mark_canceled c id : no_redis (MarkCanceled c id).
Proof. apply no_redis_bind; [apply no_redis_now|]. intros. apply no_redis_then_log. Qed.
Lemma no_redis_mark_dead c id e : no_redis (MarkDead c id e).
Proof. apply no_redis_bind; [apply no_redis_now|]. intros. apply no_redis_sql. Qed.

Lemma no_redis_log_all c ts typ msg : no_redis (log_all c ts typ msg).
Proof.
  induction ts as [|t ts IH]; [done|]. cbn [log_all].
  apply no_redis_bind; [apply no_redis_sql|done].
Qed.

Lemma no_redis_requeue_orphans c l : no_redis (RequeueOrphans c l).
Proof.
  unfold RequeueOrphans. case_if; [done|]. apply no_redis_bind; [apply no_redis_sql|].
  intros [ts|]; [|done]. apply no_redis_bind; [apply no_redis_log_all|done].
Qed.

Lemma no_redis_count wk k : no_redis (count_up wk k).
Proof. by split. Qed.

End StoreNoRedis.

#[export] Hint Resolve no_redis_sql no_redis_now no_redis_mark_running no_redis_mark_succeeded
  no_redis_mark_retry no_redis_mark_canceled no_redis_mark_dead no_redis_requeue_orphans
  no_redis_count : taskq.

(** ** The default handlers leave Redis alone *)

Lemma no_redis_defaults {U : Uuid} {R : Redis} {UC : Unicode} {PF : Platform} typ h c t :
  Lookup (RegisterDefaults NewRegistry) typ = Some h -> no_redis (h c t).
Proof.
  unfold Lookup, RegisterDefaults, Register, NewRegistry, Registry.
  rewrite !lookup_insert_Some. intros [[_ <-]|[_ [[_ <-]|[_ [[_ <-]|[_ [[_ <-]|[_ H]]]]]]]].
  - unfold emailHandler. case_if; by repeat split.
  - split; [done|]. intros x. cbn. by case_if.
  - split; [done|]. by intros [|].
  - done.
  - by rewrite lookup_empty in H.
Qed.
