(* ===== verification/Backoff.v ===== *)
(** * The retry delay

    [BackoffDelay] in double precision: bounds that hold for every attempt
    number and every draw, as long as the configured delays are below 2^53
    nanoseconds (104 days). *)

From S2P Require Import Prelude GoBase F64 GoStd RefRedis Redis Task Db Effects RefWorld Config.
From S2P Require Import Scheduler.

Open Scope Z_scope.

(** A random fraction of an integer-valued double, truncated, is between zero and
    that integer. *)
Lemma ftrunc_bound (m' m e : Z) :
  0 <= m' <= 2 ^ 53 * m -> 0 <= e -> 0 <= ftrunc m' (e - 53) <= m * 2 ^ e.
Proof.
  intros H He. assert (0 < 2 ^ e) by (apply Z.pow_pos_nonneg; lia). unfold ftrunc. case_if; bool_to_prop.
  - assert (0 < 2 ^ (e - 53)) by (apply Z.pow_pos_nonneg; lia).
    assert (Hp : 2 ^ e = 2 ^ 53 * 2 ^ (e - 53)) by (rewrite <- Z.pow_add_r by lia; f_equal; lia).
    rewrite Hp. nia.
  - replace (- (e - 53)) with (53 - e) by lia.
    assert (Hp : 2 ^ 53 = 2 ^ (53 - e) * 2 ^ e).
    { rewrite <- Z.pow_add_r by lia. f_equal. lia. }
    assert (0 < 2 ^ (53 - e)) by (apply Z.pow_pos_nonneg; lia).
    rewrite Z.quot_div_nonneg by lia. split; [apply Z.div_pos; lia|].
    apply Z.div_le_upper_bound; [lia|]. rewrite Hp in H. nia.
Qed.

Lemma fmul_draw (k m e : Z) :
  0 <= k < 2 ^ 53 -> 0 <= m -> 0 <= e -> m * 2 ^ e <= 2 ^ 53 ->
  exists z, 0 <= z <= m * 2 ^ e /\
    forall u, to_int64 u (fmul (unit_draw k) (F m e)) = z.
Proof.
  intros Hk Hm He Hb. assert (0 < 2 ^ e) by (apply Z.pow_pos_nonneg; lia).
  assert (Hm53 : m <= 2 ^ 53) by nia.
  assert (Hr : 0 <= rnd53 (k * m) <= 2 ^ 53 * m).
  { split; [apply rnd53_nonneg; nia|].
    rewrite <- (rnd53_scale m 53) at 1 by lia. apply rnd53_mono. nia. }
  assert (Hf : fmul (unit_draw k) (F m e) = F (rnd53 (k * m)) (e - 53)).
  { cbn [fmul unit_draw]. unfold fround.
    replace (-53 + e) with (e - 53) by lia.
    assert (Hs : Z.max (ulp_exp (k * m)) (-1074 - (e - 53)) = ulp_exp (k * m)).
    { unfold ulp_exp. pose proof (Z.log2_nonneg (Z.abs (k * m))). lia. }
    rewrite Hs. fold (rnd53 (k * m)). set (z := rnd53 (k * m)) in *.
    destruct (Z.eqb_spec z 0) as [->|Hz]; [done|]. cbn [orb].
    assert (Hl : Z.log2 (Z.abs z) + (e - 53) < 1024); [|by rewrite (proj2 (Z.ltb_lt _ _) Hl)].
    assert (e <= 53).
    { destruct (Z.le_gt_cases e 53) as [|Hgt]; [done|].
      assert (2 ^ 54 <= 2 ^ e) by (apply Z.pow_le_mono_r; lia). nia. }
    assert (Z.log2 (Z.abs z) <= 107); [|lia].
    rewrite <- (Z.log2_pow2 107) by lia. apply Z.log2_le_mono. nia. }
  pose proof (ftrunc_bound _ m e Hr He) as Hz.
  exists (ftrunc (rnd53 (k * m)) (e - 53)). split; [done|]. intros u. rewrite Hf. unfold to_int64.
  assert (in_int64 (ftrunc (rnd53 (k * m)) (e - 53)) = true) as ->; [|done].
  unfold in_int64, min_int64, max_int64. lia.
Qed.

Lemma of_int_exact (z : Z) : 0 <= z <= 2 ^ 53 -> of_int z = F z 0.
Proof.
  intros H. assert (2 ^ 53 < 2 ^ 1000) by reflexivity.
  rewrite of_int_rnd by lia. by rewrite rnd53_exact by lia.
Qed.

Lemma fmul_pow2 (base n : Z) :
  0 < base <= 2 ^ 53 -> 0 <= n ->
  fmul (F base 0) (pow2 n) = F base n \/ fmul (F base 0) (pow2 n) = Inf false /\ 971 <= n.
Proof.
  intros Hb Hn. unfold pow2. destruct (n <? 1024) eqn:En; bool_to_prop.
  - cbn [fmul]. rewrite Z.mul_1_r, Z.add_0_l.
    assert (Hr : (if Z.max (ulp_exp base) (- 1074 - n) <=? 0 then base
                  else rne (Z.max (ulp_exp base) (- 1074 - n)) base) = base).
    { destruct (Z.eq_dec base (2 ^ 53)) as [->|Hne].
      - change (ulp_exp (2 ^ 53)) with 1. rewrite Z.max_l by lia. reflexivity.
      - assert (Z.log2 (Z.abs base) < 53) by (apply Z.log2_lt_pow2; lia).
        unfold ulp_exp. by rewrite (proj2 (Z.leb_le _ _)) by lia. }
    unfold fround. rewrite Hr.
    destruct (Z.log2 (Z.abs base) + n <? 1024) eqn:El; [left; by rewrite orb_true_r|].
    bool_to_prop. assert (Z.log2 (Z.abs base) <= 53).
    { rewrite <- (Z.log2_pow2 53) by lia. apply Z.log2_le_mono. lia. }
    right. rewrite (proj2 (Z.eqb_neq base 0)), (proj2 (Z.ltb_ge base 0)) by lia. split; [done|lia].
  - right. cbn [fmul fsign]. rewrite Z.sgn_pos by lia. split; [done|lia].
Qed.

(** The capped exponential. *)
Lemma capped_exp (base max n : Z) :
  0 < base <= 2 ^ 53 -> 0 <= max <= 2 ^ 53 -> 0 <= n ->
  exists m e, 0 <= m /\ 0 <= e /\ m * 2 ^ e <= max /\ m * 2 ^ e <= base * 2 ^ n /\
    (let exp := fmul (of_int base) (pow2 n) in
     (if fgt exp (of_int max) then of_int max else exp) = F m e).
Proof.
  intros Hb Hm Hn. rewrite !of_int_exact by lia. cbv zeta.
  destruct (fmul_pow2 base n Hb Hn) as [->|[-> Hpos]].
  - cbn [fgt]. rewrite Z.min_r, !Z.sub_0_r, Z.pow_0_r, Z.mul_1_r by lia. case_if; bool_to_prop.
    + exists max, 0. split_and!; (done || lia).
    + exists base, n. split_and!; (done || lia).
  - cbn [fgt negb]. exists max, 0. split_and!; try (done || lia).
    assert (2 ^ 971 <= 2 ^ n) by (apply Z.pow_le_mono_r; lia).
    assert (2 ^ 53 <= 2 ^ 971) by (apply Z.pow_le_mono_r; lia). nia.
Qed.

(** C29: for delays between zero and 2^53 nanoseconds (a positive base), every
    attempt number and every draw, the delay is at least [base], at most the larger
    of [base] and [max], and at most [base] doubled once per attempt after the
    first; so on a first attempt, or when the base is not below the cap, it is
    exactly [base] (no jitter, and above the cap if [base] is). *)
Theorem backoff_bounds {U : Uuid} {R : Redis} {PF : Platform} (o : env) (EO : EnvOk o)
    attempt base max w :
  0 < base <= 2 ^ 53 -> 0 <= max <= 2 ^ 53 ->
  exists d, run o (BackoffDelay attempt base max) w = (d, tick w) /\
    base <= d <= Z.max base max /\ d <= base * 2 ^ (Z.max attempt 1 - 1) /\
    (attempt <= 1 \/ max <= base -> d = base).
Proof.
  intros Hb Hm. unfold BackoffDelay.
  set (n := (if attempt <? 1 then 1 else attempt) - 1).
  assert (Hn : 0 <= n) by (unfold n; case_if; bool_to_prop; lia).
  destruct (capped_exp base max n Hb Hm Hn) as (m & e & H1 & H2 & H3 & H4 & Hexp).
  cbv zeta in Hexp |- *. rewrite Hexp. cbn [bind run rand_Float64 perform do_effect].
  destruct (fmul_draw (draw o (ticks w)) m e (draw_range _) H1 H2 ltac:(lia)) as (z & Hz & Hto).
  rewrite Hto. eexists. split; [reflexivity|].
  assert (Hn' : n = Z.max attempt 1 - 1) by (unfold n; case_if; bool_to_prop; lia).
  rewrite <- Hn'. assert (0 < 2 ^ n) by (apply Z.pow_pos_nonneg; lia).
  assert (Hone : attempt <= 1 -> 2 ^ n = 1) by (intros; replace n with 0 by lia; done).
  case_if; bool_to_prop; split_and!; try lia; try nia; intros [Ha|Ha]; try lia; specialize (Hone Ha); nia.
Qed.

Lemma backoff_bounds_witness :
  exists d, run ref_env (BackoffDelay 4 (RetryBaseDelay default_config)
                           (RetryMaxDelay default_config)) ref_world = (d, tick ref_world) /\
    RetryBaseDelay default_config <= d <= Z.max (RetryBaseDelay default_config) (RetryMaxDelay default_config) /\
    d <= RetryBaseDelay default_config * 2 ^ (Z.max 4 1 - 1) /\
    (4 <= 1 \/ RetryMaxDelay default_config <= RetryBaseDelay default_config ->
     d = RetryBaseDelay default_config).
Proof.
  apply (backoff_bounds ref_env ref_env_ok 4); vm_compute; split; discriminate || reflexivity.
Defined.
