(* ===== verification/SchedulerThms.v ===== *)
(** * Correctness of the worker and the coordinator

    What an execution, a promotion sweep and a reclaim sweep do to the queue
    when no call fails; that a task is only ever given up after a success, a
    dead letter, or the windows shown in [LossWindows.v]. *)

From S2P Require Import Prelude GoBase F64 GoString Json GoTime GoStd Redis RefRedis Task Db.
From S2P Require Import Effects Queue Abstract QueueSpec QueueInv RefWorld Config Store Handlers.
From S2P Require Import Scheduler SchedulerSpec.

Open Scope Z_scope.
Open Scope taskq_scope.

(** ** One execution *)

(** The envelope after a failed attempt. *)
Definition bumped {U : Uuid} (env : Envelope) : Envelope :=
  set_attempts (wrap64 (env_Attempts env + 1)) env.

(** Is a failed attempt the last one? *)
Definition exhausted {U : Uuid} (env : Envelope) : bool :=
  env_MaxAttempts (bumped env) <=? env_Attempts (bumped env).

Section Execute.
Context {U : Uuid} {UL : UuidLaws U} {R : Redis} {RL : RedisLaws R} {P : Postgres} {PF : Platform}.
Context (o : env) (Hq : quiet o).

Lemma publishEvent_step w env status msg w0 :
  good w0 -> qstep o (publishEvent w env status msg) w0 id.
Proof.
  intros Hg. apply qstep_bind_id; [apply _|by apply qstep_no_redis; auto with taskq|].
  intros now w1 Hg1. apply qstep_then_id; [by apply qstep_publish|].
  intros _ w2 Hg2. by apply qstep_ret.
Qed.

Lemma coord_publishEvent_step env status msg w0 :
  good w0 -> qstep o (coord_publishEvent env status msg) w0 id.
Proof.
  intros Hg. apply qstep_bind_id; [apply _|by apply qstep_no_redis; auto with taskq|].
  intros now w1 Hg1. set (body := match MarshalEvent _ with Ok b => b | Err _ => _ end).
  apply qstep_then_id; [|intros _ w2 Hg2; by apply qstep_ret].
  destruct (publish_law (redis w1) EventsChannel body) as (n & r' & Hf & Hks & _).
  exists (Ok n), (with_redis r' w1). rewrite (run_rdb_ok o _ _ w1 _ _ Hq Hf).
  unfold good, abs. cbn. by rewrite Hks.
Qed.

Lemma leave_step c wk id w0 :
  good w0 -> qstep o (Nack c wk id) w0 (drop_inflight wk (uuid_String id)).
Proof. intros Hg. eapply yields_qstep. by apply nack_yields. Qed.

(** Dead-lettering: one record that reads as the envelope. *)
Lemma dead_letter_step c env m reason w0 :
  good w0 -> encodes env m ->
  exists body, buries env body /\
    qstep o (DeadLetter c env reason) w0 (push_dlq (env_Type env) body).
Proof.
  intros Hg [Hm Hi]. pose proof Hm as (p & Hp & _)%Marshal_inv.
  assert (Hd : exists b, MarshalDead env reason (UnixMilli (clock o (ticks w0))) = Ok b).
  { unfold MarshalDead. rewrite Hp. eauto. }
  destruct Hd as [b Hb]. exists b. split; [by split; eauto|].
  eapply yields_qstep. by apply dead_letter_yields.
Qed.

Lemma bumped_encodes env m : encodes env m -> exists m', encodes (bumped env) m'.
Proof.
  intros [Hm Hi]. destruct (Marshal_set_attempts env (wrap64 (env_Attempts env + 1)) m Hm) as [b Hb].
  exists b. split; [done|]. apply ints_set_attempts; [done|apply wrap64_in_int64].
Qed.

(** Where a failed or finished execution leaves the envelope. *)
Inductive settled (wk : string) (env : Envelope) : option (res RawMessage) -> (qstate -> qstate) -> Prop :=
  | settled_unknown body :
      Unmarshal body = Ok (wire env) ->
      settled wk env None
        (push_dlq (env_Type env) body ∘ drop_inflight wk (uuid_String (env_ID env)))
  | settled_done result :
      settled wk env (Some (Ok result)) (drop_inflight wk (uuid_String (env_ID env)))
  | settled_dead err body :
      exhausted env = true -> Unmarshal body = Ok (wire (bumped env)) ->
      settled wk env (Some (Err err))
        (push_dlq (env_Type env) body ∘ drop_inflight wk (uuid_String (env_ID env)))
  | settled_retry err body now delay :
      exhausted env = false -> encodes (bumped env) body ->
      settled wk env (Some (Err err))
        (push_delayed (env_Type env) (rnd53 (UnixMilli (now + delay))) body ∘
         drop_inflight wk (uuid_String (env_ID env))).

Lemma settled_proper wk env r f : settled wk env r f -> Proper ((≡) ==> (≡)) f.
Proof. destruct 1; apply _. Qed.

(** Burying the task after it left the table. *)
Lemma bury_step c w env m reason dberr w0 :
  good w0 -> encodes env m ->
  exists body, Unmarshal body = Ok (wire env) /\
    qstep o (DeadLetter c env reason ;;; MarkDead c (env_ID env) dberr ;;;
             publishEvent w env StatusDead dberr ;;; count_up (worker_ID w) Dead)
      w0 (push_dlq (env_Type env) body).
Proof.
  intros Hg He. destruct (dead_letter_step c env m reason w0 Hg He) as (body & Hb & Hs).
  exists body. split; [by apply buries_Unmarshal|]. apply qstep_then_id; [done|]. intros _ w1 Hg1.
  apply qstep_bind_id; [apply _|by apply qstep_no_redis; auto with taskq|]. intros _ w2 Hg2.
  apply qstep_bind_id; [apply _|by apply publishEvent_step|]. intros _ w3 Hg3.
  by apply qstep_no_redis; auto with taskq.
Qed.

(** Scheduling the retry after it left the table. *)
Lemma retry_step c w env m err w0 :
  good w0 -> encodes env m ->
  exists s, qstep o
    (delay <- BackoffDelay (env_Attempts env) (RetryBaseDelay (worker_cfg w)) (RetryMaxDelay (worker_cfg w)) ;;
     now <- time_Now ;;
     EnqueueDelayed c env (now + delay) ;;;
     MarkRetry c (env_ID env) (now + delay) (Error err) ;;;
     publishEvent w env StatusRetrying (Error err)) w0 (push_delayed (env_Type env) s m) /\
    exists now delay, s = rnd53 (UnixMilli (now + delay)).
Proof.
  intros Hg [Hm Hi]. set (p := BackoffDelay _ _ _).
  assert (Hp : no_redis p) by done.
  destruct (run o p w0) as [d w1] eqn:E.
  pose proof (no_redis_run o p w0 Hp) as Hr. rewrite E in Hr. simpl in Hr.
  assert (Hg1 : good w1) by (unfold good; by rewrite Hr).
  exists (rnd53 (UnixMilli (clock o (ticks w1) + d))). split; [|by eauto].
  assert (Hq1 : l_q (abs w1) = l_q (abs w0)) by (unfold abs; cbn; by rewrite Hr).
  assert (Hrest : qstep o (now <- time_Now ;; EnqueueDelayed c env (now + d) ;;;
      MarkRetry c (env_ID env) (now + d) (Error err) ;;; publishEvent w env StatusRetrying (Error err))
      w1 (push_delayed (env_Type env) (rnd53 (UnixMilli (clock o (ticks w1) + d))) m)).
  { set (f := push_delayed _ _ _).
    assert (Hs : qstep o (EnqueueDelayed c env (clock o (ticks w1) + d) ;;;
      MarkRetry c (env_ID env) (clock o (ticks w1) + d) (Error err) ;;;
      publishEvent w env StatusRetrying (Error err)) (tick w1) f).
    { apply qstep_then_id; [eapply yields_qstep; by apply enqueue_delayed_yields|].
      intros _ w2 Hg2. apply qstep_bind_id; [apply _|by apply qstep_no_redis; auto with taskq|].
      intros _ w3 Hg3. by apply publishEvent_step. }
    destruct Hs as (a & w2 & H). by exists a, w2. }
  destruct Hrest as (a & w2 & H1 & H2). exists a, w2. rewrite run_bind, E. split; [exact H1|].
  by rewrite <- Hq1.
Qed.

(** After the handler has failed. *)
Lemma failed_step c w env m err w0 :
  good w0 -> encodes env m ->
  exists f, settled (worker_ID w) env (Some (Err err)) f /\
    qstep o
     (count_up (worker_ID w) Failed ;;;
      Nack c (worker_ID w) (env_ID env) ;;;
      if env_MaxAttempts (bumped env) <=? env_Attempts (bumped env) then
        DeadLetter c (bumped env) (Error err) ;;;
        MarkDead c (env_ID env) (Error err) ;;;
        publishEvent w (bumped env) StatusDead (Error err) ;;;
        count_up (worker_ID w) Dead
      else
        delay <- BackoffDelay (env_Attempts (bumped env)) (RetryBaseDelay (worker_cfg w))
                              (RetryMaxDelay (worker_cfg w)) ;;
        now <- time_Now ;;
        EnqueueDelayed c (bumped env) (now + delay) ;;;
        MarkRetry c (env_ID env) (now + delay) (Error err) ;;;
        publishEvent w (bumped env) StatusRetrying (Error err)) w0 f.
Proof.
  intros Hg He. destruct (bumped_encodes env m He) as [m' He'].
  (* the queue after the first two steps *)
  assert (Hcount : qstep o (count_up (worker_ID w) Failed) w0 id)
    by (apply qstep_no_redis; auto with taskq).
  destruct Hcount as ([] & w1 & Hc1 & Hg1 & Hv1).
  destruct (leave_step c (worker_ID w) (env_ID env) w1 Hg1) as (r & w2 & Hc2 & Hg2 & Hv2).
  assert (Hdrop : l_q (abs w2) ≡ drop_inflight (worker_ID w) (uuid_String (env_ID env)) (l_q (abs w0))).
  { rewrite Hv2. by apply drop_inflight_proper. }
  assert (Hglue : forall (p : prog unit) g, Proper ((≡) ==> (≡)) g -> qstep o p w2 g ->
            qstep o (count_up (worker_ID w) Failed ;;; Nack c (worker_ID w) (env_ID env) ;;; p) w0
              (g ∘ drop_inflight (worker_ID w) (uuid_String (env_ID env)))).
  { intros p g Hg' (a & w3 & H1 & H2 & H3). exists a, w3.
    rewrite run_bind, Hc1, run_bind, Hc2. split; [done|]. split; [done|].
    rewrite H3. by apply Hg'. }
  destruct (env_MaxAttempts (bumped env) <=? env_Attempts (bumped env)) eqn:Ex.
  - destruct (bury_step c w (bumped env) m' (Error err) (Error err) w2 Hg2 He') as (body & Hb & Hs).
    eexists. split; [by eapply settled_dead|]. by apply Hglue; [apply _|].
  - destruct (retry_step c w (bumped env) m' err w2 Hg2 He') as (s & Hs & now & d & ->).
    eexists. split; [by eapply settled_retry|]. by apply Hglue; [apply _|].
Qed.

End Execute.

Section ExecuteThm.
Context {U : Uuid} {UL : UuidLaws U} {R : Redis} {RL : RedisLaws R} {P : Postgres} {PF : Platform}.
Context (o : env) (Hq : quiet o).

(** The execution with a handler. *)
Lemma handled_step c w env m h w0 :
  good w0 -> encodes env m -> Lookup (worker_registry w) (env_Type env) = Some h ->
  (forall t, no_redis (h CtxJob t)) ->
  exists wh f, settled (worker_ID w) env (Some (run o (h CtxJob (job env)) wh).1) f /\
    qstep o (execute c w env) w0 f.
Proof.
  intros Hg He Hl Hh. unfold execute. rewrite Hl.
  destruct (qstep_no_redis o (MarkRunning c (env_ID env) (worker_ID w)) w0 Hg
              ltac:(auto with taskq)) as (a1 & w1 & R1 & Hg1 & V1).
  destruct (publishEvent_step o Hq w env StatusRunning EmptyString w1 Hg1) as (a2 & w2 & R2 & Hg2 & V2).
  destruct (qstep_no_redis o (h CtxJob (job env)) w2 Hg2 (Hh _)) as (r & w3 & R3 & Hg3 & V3).
  exists w2. rewrite R3. cbn [fst].
  assert (Hglue : forall (k : res RawMessage -> prog unit) f, Proper ((≡) ==> (≡)) f ->
            qstep o (k r) w3 f ->
            qstep o (MarkRunning c (env_ID env) (worker_ID w) ;;;
                     publishEvent w env StatusRunning EmptyString ;;;
                     x <- h CtxJob (job env) ;; k x) w0 f).
  { intros k f Hf (a & w4 & H1 & H2 & H3). exists a, w4.
    rewrite run_bind, R1, run_bind, R2, run_bind, R3. split; [done|]. split; [done|].
    rewrite H3. apply Hf. rewrite V3, V2, V1. done. }
  destruct r as [result|err].
  - eexists. split; [apply settled_done|]. apply Hglue; [apply _|].
    apply qstep_then_id; [by apply (leave_step o Hq)|]. intros _ w4 Hg4.
    apply qstep_bind_id; [apply _|by apply qstep_no_redis; auto with taskq|]. intros _ w5 Hg5.
    apply qstep_bind_id; [apply _|by apply publishEvent_step|]. intros _ w6 Hg6.
    by apply qstep_no_redis; auto with taskq.
  - destruct (failed_step o Hq c w env m err w3 Hg3 He) as (f & Hf & Hs).
    exists f. split; [done|]. apply Hglue; [by eapply settled_proper|]. exact Hs.
Qed.

Lemma unknown_step c w env m w0 :
  good w0 -> encodes env m -> Lookup (worker_registry w) (env_Type env) = None ->
  exists f, settled (worker_ID w) env None f /\ qstep o (execute c w env) w0 f.
Proof.
  intros Hg He Hl. unfold execute. rewrite Hl.
  destruct (leave_step o Hq c (worker_ID w) (env_ID env) w0 Hg) as (r & w1 & R1 & Hg1 & V1).
  destruct (bury_step o Hq c w env m no_handler no_handler w1 Hg1 He) as (body & Hb & a & w2 & R2 & Hg2 & V2).
  eexists. split; [by eapply settled_unknown|]. exists a, w2.
  rewrite run_bind, R1. split; [exact R2|]. split; [done|]. rewrite V2.
  by apply push_dlq_proper.
Qed.

End ExecuteThm.

(** C2: one execution, when no call fails and the handler does not touch Redis
    itself, takes the task out of the worker's in-flight table and then does one
    of four things with it, and nothing else to the queue: a type without handler
    is dead-lettered; a success is dropped; a failure with attempts left is put
    in the delayed set with one more attempt; the last failure is dead-lettered
    with its attempts. *)
Theorem execute_settles {U : Uuid} {UL : UuidLaws U} {R : Redis} {RL : RedisLaws R}
    {P : Postgres} {PF : Platform} (o : env) c w env m w0 :
  quiet o -> good w0 -> encodes env m ->
  (forall h t, Lookup (worker_registry w) (env_Type env) = Some h -> no_redis (h CtxJob t)) ->
  exists r f w1, settled (worker_ID w) env r f /\
    run o (execute c w env) w0 = (tt, w1) /\ good w1 /\ l_q (abs w1) ≡ f (l_q (abs w0)) /\
    match Lookup (worker_registry w) (env_Type env) with
    | None => r = None
    | Some h => exists wh, r = Some (run o (h CtxJob (job env)) wh).1
    end.
Proof.
  intros Hq Hg He Hh. destruct (Lookup (worker_registry w) (env_Type env)) as [h|] eqn:Hl.
  - destruct (handled_step o Hq c w env m h w0 Hg He Hl) as (wh & f & Hf & [] & w1 & H1 & H2 & H3);
      [intros t; by apply Hh|].
    exists (Some (run o (h CtxJob (job env)) wh).1), f, w1. split_and!; eauto.
  - destruct (unknown_step o Hq c w env m w0 Hg He Hl) as (f & Hf & [] & w1 & H1 & H2 & H3).
    exists None, f, w1. split_and!; done.
Qed.

Definition ref_worker : Worker :=
  MkWorker "w1" "host" default_config (RegisterDefaults NewRegistry).

(** A task of a type without handler, leased by the worker. *)
Definition odd_job : Envelope := sample 9 "resize" 5 0 3 1000.
Definition odd_world : world :=
  after (Enqueue CtxMain odd_job ;;; Lease CtxMain "resize" "w1" 0) ref_world.

Lemma execute_settles_witness :
  exists m, encodes odd_job m /\
  exists r f w1, settled "w1" odd_job r f /\
    run ref_env (execute CtxMain ref_worker odd_job) odd_world = (tt, w1) /\
    good w1 /\ l_q (abs w1) ≡ f (l_q (abs odd_world)) /\
    match Lookup (worker_registry ref_worker) (env_Type odd_job) with
    | None => r = None
    | Some h => exists wh, r = Some (run ref_env (h CtxJob (job odd_job)) wh).1
    end.
Proof.
  assert (He : exists m, encodes odd_job m) by (eexists; split; reflexivity).
  destruct He as [m He]. exists m. split; [exact He|].
  apply (execute_settles ref_env CtxMain ref_worker odd_job m odd_world).
  - exact ref_quiet.
  - apply well_typedb_sound. vm_compute. reflexivity.
  - exact He.
  - intros h t Hh. eapply (no_redis_defaults (env_Type odd_job)). exact Hh.
Defined.

(** ** How often a failing task runs *)

(** [e] is the task [env] after [k] more attempts; its enqueue time and the spelling
    of its payload may have changed on the way. *)
Definition attempt_of {U : Uuid} (env : Envelope) (k : Z) (e : Envelope) : Prop :=
  env_ID e = env_ID env /\ env_Type e = env_Type env /\
  env_MaxAttempts e = env_MaxAttempts env /\ env_Attempts e = env_Attempts env + k.

(** Executions the task has left. *)
Definition attempts_left {U : Uuid} (env : Envelope) : Z :=
  Z.max 1 (env_MaxAttempts env - env_Attempts env).

Lemma attempt_bumped {U : Uuid} env k e :
  in_int64 (env_MaxAttempts env) = true -> 0 <= env_Attempts env < 2 ^ 63 - 1 ->
  0 <= k < attempts_left env -> attempt_of env k e ->
  attempt_of env (k + 1) (bumped e) /\ exhausted e = (attempts_left env =? k + 1).
Proof.
  unfold in_int64, min_int64, max_int64, attempts_left. intros Hm Ha Hk (E1 & E2 & E3 & E4).
  unfold attempt_of, exhausted, bumped. cbn [set_attempts env_ID env_Type env_MaxAttempts env_Attempts].
  rewrite wrap64_id by (unfold in_int64, min_int64, max_int64; lia).
  split; [split_and!; (done || lia)|]. rewrite E3, E4. lia.
Qed.


(** A worker whose only handler always fails. *)
Definition failing_worker : Worker :=
  MkWorker "w1" "host" default_config
    (Register NewRegistry "resize" (fun _ _ => Ret (Err (ErrText "no")))).


(** ** The promotion sweep *)

(** The clock of the machines stays within the range of [int64] milliseconds, and
    the runtime iterates and draws as Go says. *)
Record runtime_ok {U : Uuid} (o : env) : Prop := {
  runtime_clock n : in_int64 (UnixMilli (clock o n)) = true;
  runtime_env : EnvOk o
}.

Section Sweep.
Context {U : Uuid} {UL : UuidLaws U} {R : Redis} {RL : RedisLaws R} {P : Postgres} {PF : Platform}.
Context (o : env) (Hq : quiet o) (Hc : runtime_ok o).

(** The delayed set [d] after a promotion at some reading of the clock. *)
Definition promoted_at (q : qstate) (t : string) (d : gmap string Z) : Prop :=
  exists n, d = foldr delete (q_delayed q t) (due t (UnixMilli (clock o n)) q).

Lemma due_ext q q' t n : q_delayed q t = q_delayed q' t -> due t n q = due t n q'.
Proof. intros H. unfold due. by rewrite H. Qed.

(** One promotion, as far as the sweep is concerned. *)
Lemma promote_sweep_step c t w :
  good w -> data_ok (l_q (abs w)) ->
  exists w', (forall p : prog unit,
      run o (now <- time_Now ;; PromoteDelayed c t now ;;; p) w = run o p w') /\
    good w' /\ data_ok (l_q (abs w')) /\ promoted_at (l_q (abs w)) t (q_delayed (l_q (abs w')) t) /\
    (forall t', t <> t' -> q_delayed (l_q (abs w')) t' = q_delayed (l_q (abs w)) t') /\
    (forall id, accounted (l_q (abs w)) id -> accounted (l_q (abs w')) id).
Proof.
  intros Hg Hd. set (now := clock o (ticks w)).
  destruct (promote_yields o Hq c t now (tick w) (good_tick w Hg)) as (w' & Hrun & [HL _] & Hg' & _).
  set (nowMs := UnixMilli now) in *. set (ms := due t nowMs (l_q (abs (tick w)))) in *.
  change (abs (tick w)) with (abs w) in *. cbn [on_q l_q] in HL.
  assert (Hms : forall m, m ∈ ms -> exists e, encodes e m).
  { intros m Hm. apply subseteq_take, elem_of_zupto in Hm as (s & Hm & _).
    destruct (ok_delayed _ Hd _ _ _ Hm) as (e & He & _). eauto. }
  assert (Hn : in_int64 nowMs = true) by apply (runtime_clock o Hc).
  exists w'. split_and!.
  - intros p. cbn [time_Now perform bind run do_effect]. fold now. by rewrite run_bind, Hrun.
  - done.
  - rewrite HL. by apply data_ok_promote.
  - exists (ticks w). destruct HL as (_ & HE & _). rewrite HE. by apply promote_delayed_same.
  - intros t' Hne. destruct HL as (_ & HE & _). rewrite HE. by apply promote_delayed_other.
  - intros id [H|(t' & m & H & Hh)]; rewrite HL; [left; by apply tracked_promote|right].
    exists t', m. split; [|done]. by destruct (promote_all_frame t nowMs ms (l_q (abs w))) as (_ & -> & _).
Qed.

Lemma promote_each_sweep c types : forall seen w,
  good w -> data_ok (l_q (abs w)) ->
  exists w', run o (promote_each c seen types) w = (tt, w') /\
    good w' /\ data_ok (l_q (abs w')) /\
    (forall t, t ∈ types -> t ∉ seen -> promoted_at (l_q (abs w)) t (q_delayed (l_q (abs w')) t)) /\
    (forall t, t ∉ types \/ t ∈ seen -> q_delayed (l_q (abs w')) t = q_delayed (l_q (abs w)) t) /\
    (forall id, accounted (l_q (abs w)) id -> accounted (l_q (abs w')) id).
Proof.
  induction types as [|t types IH]; intros seen w Hg Hd.
  { exists w. split_and!; try done. by intros t ?%not_elem_of_nil. }
  cbn [promote_each]. destruct (decide (t ∈ seen)) as [Hin|Hnin].
  - destruct (IH seen w Hg Hd) as (w' & H1 & H2 & H3 & H4 & H5 & H6).
    exists w'. split_and!; try done.
    + intros t' [->|Ht']%elem_of_cons Hs; [done|by apply H4].
    + intros t' Ht'. apply H5. set_solver.
  - destruct (promote_sweep_step c t w Hg Hd) as (w1 & R1 & Hg1 & Hd1 & Hp1 & Ho1 & Ha1).
    destruct (IH ({[t]} ∪ seen) w1 Hg1 Hd1) as (w' & H1 & H2 & H3 & H4 & H5 & H6).
    exists w'. rewrite R1. split_and!; try done.
    + intros t' Ht' Hs. destruct (decide (t = t')) as [<-|Hne].
      * rewrite H5 by set_solver. exact Hp1.
      * destruct (H4 t' ltac:(set_solver) ltac:(set_solver)) as [n Hn].
        exists n. rewrite Hn, (Ho1 t' Hne). by rewrite (due_ext _ (l_q (abs w)) t') by apply (Ho1 t' Hne).
    + intros t' Ht'. rewrite H5, Ho1; [done| |set_solver]. intros ->. set_solver.
    + intros id Hid. by apply H6, Ha1.
Qed.

Lemma str_drop_delayed (x : string) :
  str_drop (String.length "delayed:") ("delayed:" +:+ x) = x.
Proof. reflexivity. Qed.

Lemma scan_delayed_run {EO : EnvOk o} c w :
  good w ->
  exists n types, (forall t, delayed w t <> ∅ -> t ∈ types) /\
    forall fuel, (n <= fuel)%nat -> run o (scanDelayedTypes fuel c) w = (Ok types, idle (S n) w).
Proof.
  intros Hg.
  destruct (scan_family o Hq FDelayed "delayed:" c (fun k => str_drop (String.length "delayed:") k) w)
    as (n & types & Ht & H); [done|done|apply str_drop_delayed|done|done|].
  exists n, (shuffle o (ticks w + n) _ (elements types)). split.
  - intros t Hne. rewrite shuffle_perm, elem_of_elements, Ht. by apply delayed_present.
  - intros fuel Hf. unfold scanDelayedTypes. rewrite run_bind.
    change "delayed:*" with ("delayed:" +:+ "*"). rewrite H by done.
    cbn [run range_over perform bind do_effect]. f_equal. unfold idle, tick. cbn. f_equal. lia.
Qed.

End Sweep.

(** C11: a promotion sweep ends, visits every type that has delayed tasks (also one
    that has nothing ready), promotes what is due there, and loses nothing. *)
Theorem promote_sweep_covers {U : Uuid} {UL : UuidLaws U} {R : Redis} {RL : RedisLaws R}
    (o : env) (EO : EnvOk o) c w :
  quiet o -> runtime_ok o -> good w -> data_ok (l_q (abs w)) ->
  exists n, forall fuel, (n <= fuel)%nat ->
    exists w', run o (promoteDelayed fuel c) w = (tt, w') /\ good w' /\ data_ok (l_q (abs w')) /\
      (forall t, delayed w t <> ∅ -> promoted_at o (l_q (abs w)) t (delayed w' t)) /\
      (forall id, accounted (l_q (abs w)) id -> accounted (l_q (abs w')) id).
Proof.
  intros Hq Hc Hg Hd.
  destruct (list_types_run o Hq c w Hg) as (n1 & types & _ & _ & H1).
  destruct (scan_delayed_run o Hq c (idle (S n1) w) Hg) as (n2 & dtypes & Hd2 & H2).
  exists (Nat.max n1 n2). intros fuel Hf. unfold promoteDelayed.
  rewrite run_bind, H1, run_bind, H2 by lia.
  destruct (promote_each_sweep o Hq Hc c (types ++ dtypes) ∅ (idle (S n2) (idle (S n1) w)) Hg Hd)
    as (w' & Hrun & Hg' & Hd' & Hin & _ & Ha).
  exists w'. rewrite Hrun. split_and!; [done|done|done| |done].
  intros t Hne. apply Hin; [|set_solver]. apply elem_of_app. right. by apply Hd2.
Qed.

(** A retry that is due of a type with nothing ready. *)
Definition delayed_only_world : world :=
  after (EnqueueDelayed CtxMain (sample 5 "email" 2 1 3 1000) (1700000000 * second)) ref_world.

Lemma ref_runtime_ok : runtime_ok ref_env.
Proof.
  split; [|apply ref_env_ok]. intros n. unfold in_int64, UnixMilli, min_int64, max_int64, second, millisecond. cbn [clock ref_env].
  pose proof (Z.mod_pos_bound (Z.of_nat n) (10 ^ 12) ltac:(lia)) as H.
  unfold second, millisecond. set (k := Z.of_nat n mod 10 ^ 12) in *. clearbody k.
  replace (1700000000 * 10 ^ 9 + k * 10 ^ 6) with ((1700000000 * 10 ^ 3 + k) * 10 ^ 6) by lia.
  rewrite Z.div_mul by lia. lia.
Qed.

Lemma promote_sweep_covers_witness :
  exists n, forall fuel, (n <= fuel)%nat ->
    exists w', run ref_env (promoteDelayed fuel CtxMain) delayed_only_world = (tt, w') /\ good w' /\
      data_ok (l_q (abs w')) /\
      (forall t, delayed delayed_only_world t <> ∅ ->
         promoted_at ref_env (l_q (abs delayed_only_world)) t (delayed w' t)) /\
      (forall id, accounted (l_q (abs delayed_only_world)) id -> accounted (l_q (abs w')) id).
Proof.
  apply (promote_sweep_covers ref_env ref_env_ok CtxMain delayed_only_world).
  - exact ref_quiet.
  - exact ref_runtime_ok.
  - apply well_typedb_sound. vm_compute. reflexivity.
  - apply data_okb_sound. vm_compute. reflexivity.
Defined.

(** ** The reclaim sweep *)

Section Reclaim.
Context {U : Uuid} {UL : UuidLaws U} {R : Redis} {RL : RedisLaws R} {P : Postgres} {PF : Platform}.
Context (o : env) (EO : EnvOk o) (Hq : quiet o) (Hc : runtime_ok o).

(** A step that leaves the tables and heartbeats alone and gives up no task. *)
Record gentle (a b : qstate) : Prop := {
  gentle_data : data_ok a -> data_ok b;
  gentle_inflight wk : q_inflight b wk = q_inflight a wk;
  gentle_beat wk : q_beat b wk = q_beat a wk;
  gentle_accounted id : accounted a id -> accounted b id
}.

#[export] Instance gentle_preorder : PreOrder gentle.
Proof.
  split; [by intros a; split|]. intros a b c [A1 A2 A3 A4] [B1 B2 B3 B4].
  split; intros; [auto|by rewrite B2|by rewrite B3|auto].
Qed.

Lemma gentle_equiv a b : a ≡ b -> gentle a b.
Proof.
  intros E. split.
  - by rewrite E.
  - intros wk. by destruct E as (_ & _ & -> & _).
  - intros wk. by destruct E as (_ & _ & _ & _ & ->).
  - intros id. by rewrite E.
Qed.

Lemma gentle_push_ready e m q :
  encodes e m -> gentle q (push_ready (env_Type e) (priorityScore (env_Priority e) (env_EnqueuedAt e)) m q).
Proof.
  intros He. split; [intros; by apply data_ok_push_ready|done|done|].
  intros id. apply accounted_push_ready.
Qed.

Lemma gentle_push_dlq e m q : buries e m -> gentle q (push_dlq (env_Type e) m q).
Proof.
  intros He. split; [intros; by apply data_ok_push_dlq|done|done|].
  intros id. apply accounted_push_dlq.
Qed.

(** [p] is a gentle step, after which [id] is accounted for. *)
Definition rescues (p : prog unit) (w : world) (id : uuid) : Prop :=
  exists w', run o p w = (tt, w') /\ good w' /\ gentle (l_q (abs w)) (l_q (abs w')) /\
    accounted (l_q (abs w')) id.

Lemma stamped_encodes env w m :
  encodes env m -> exists m', encodes (stamped o env w) m'.
Proof.
  intros [Hm Hi]. unfold stamped. destruct (env_EnqueuedAt env =? 0); [|by exists m].
  destruct (Marshal_set_enqueued env (UnixMilli (clock o (ticks w))) m Hm) as [b Hb].
  exists b. split; [done|]. apply ints_set_enqueued; [done|apply (runtime_clock o Hc)].
Qed.

Lemma requeue_enqueue c env m status msg w :
  good w -> encodes env m ->
  rescues (r <- Enqueue c env ;; match r with Err _ => Ret tt
             | Ok _ => coord_publishEvent env status msg end) w (env_ID env).
Proof.
  intros Hg He. destruct (stamped_encodes env w m He) as [m' He'].
  destruct (enqueue_yields o Hq c env w m' Hg (proj1 He')) as (w1 & R1 & [V1 _] & Hg1 & _).
  destruct (coord_publishEvent_step o Hq env status msg w1 Hg1) as ([] & w2 & R2 & Hg2 & V2).
  exists w2. rewrite run_bind, R1. split; [exact R2|]. split; [done|].
  cbn [on_q l_q] in V1.
  assert (Hsame : env_Type (stamped o env w) = env_Type env /\
                  env_Priority (stamped o env w) = env_Priority env /\
                  env_ID (stamped o env w) = env_ID env).
  { unfold stamped. by destruct (env_EnqueuedAt env =? 0). }
  destruct Hsame as (E1 & E2 & E3). rewrite <- E1, <- E2 in V1. split.
  - etransitivity; [by apply (gentle_push_ready (stamped o env w) m')|].
    apply gentle_equiv. symmetry. rewrite V2. simpl. exact V1.
  - rewrite V2. simpl. rewrite V1. left. apply tracked_pushed_ready. rewrite <- E3.
    by apply encodes_holds.
Qed.

Lemma requeue_bury c env m reason dberr w :
  good w -> encodes env m ->
  rescues (DeadLetter c env reason ;;; MarkDead c (env_ID env) dberr ;;;
           coord_publishEvent env StatusDead dberr) w (env_ID env).
Proof.
  intros Hg He. destruct (dead_letter_step o Hq c env m reason w Hg He) as (body & Hb & r & w1 & R1 & Hg1 & V1).
  destruct (qstep_no_redis o (MarkDead c (env_ID env) dberr) w1 Hg1 ltac:(auto with taskq))
    as (r2 & w2 & R2 & Hg2 & V2).
  destruct (coord_publishEvent_step o Hq env StatusDead dberr w2 Hg2) as ([] & w3 & R3 & Hg3 & V3).
  exists w3. rewrite run_bind, R1, run_bind, R2. split; [exact R3|]. split; [done|].
  assert (V : l_q (abs w3) ≡ push_dlq (env_Type env) body (l_q (abs w))).
  { rewrite V3. simpl. rewrite V2. exact V1. }
  split.
  - etransitivity; [by apply gentle_push_dlq|]. apply gentle_equiv. symmetry. exact V.
  - rewrite V. by apply accounted_pushed_dlq, buries_holds.
Qed.

Lemma requeue_each_rescues c wk envs : forall w,
  good w -> (forall e, e ∈ envs -> exists m, encodes e m) ->
  exists w', run o (requeue_each c wk envs) w = (tt, w') /\ good w' /\
    gentle (l_q (abs w)) (l_q (abs w')) /\ forall e, e ∈ envs -> accounted (l_q (abs w')) (env_ID e).
Proof.
  induction envs as [|env envs IH]; intros w Hg He.
  { exists w. split_and!; [done|done|done|]. by intros e ?%not_elem_of_nil. }
  destruct (He env ltac:(left)) as [m Hm]. destruct (bumped_encodes env m Hm) as [m' Hm'].
  assert (Hone : rescues (if env_MaxAttempts (bumped env) <=? env_Attempts (bumped env)
             then DeadLetter c (bumped env) "worker died" ;;;
                  MarkDead c (env_ID (bumped env)) "worker died mid-task" ;;;
                  coord_publishEvent (bumped env) StatusDead "worker died mid-task"
             else r <- Enqueue c (bumped env) ;; match r with Err _ => Ret tt
                  | Ok _ => coord_publishEvent (bumped env) StatusQueued
                              ("reassigned from dead worker " +:+ wk) end) w (env_ID env)).
  { destruct (_ <=? _); [by apply (requeue_bury c (bumped env) m')|].
    by apply (requeue_enqueue c (bumped env) m'). }
  destruct Hone as (w1 & R1 & Hg1 & K1 & A1).
  destruct (IH w1 Hg1) as (w2 & R2 & Hg2 & K2 & A2); [intros e ?; apply He; by right|].
  exists w2. cbn [requeue_each]. fold (bumped env). rewrite run_bind, R1. split_and!; [done|done|by etransitivity|].
  intros e [->|Hin]%elem_of_cons; [by apply (gentle_accounted _ _ K2)|by apply A2].
Qed.

(** What the sweep does about one worker. *)
Lemma reclaim_worker_step c wk w :
  good w -> data_ok (l_q (abs w)) ->
  exists w', run o (reclaim_worker c wk) w = (tt, w') /\ good w' /\ data_ok (l_q (abs w')) /\
    (forall id, accounted (l_q (abs w)) id -> accounted (l_q (abs w')) id) /\
    (forall x, q_beat (l_q (abs w')) x = q_beat (l_q (abs w)) x) /\
    (forall x, x <> wk_ID wk -> inflight w' x = inflight w x) /\
    inflight w' (wk_ID wk) =
      (if String.eqb (wk_Status wk) "dead" || alive_at (clock o (ticks w)) (l_q (abs w)) (wk_ID wk)
       then inflight w (wk_ID wk) else ∅).
Proof.
  intros Hg Hd. unfold reclaim_worker. destruct (String.eqb (wk_Status wk) "dead").
  { exists w. split_and!; done. }
  destruct (is_alive_yields o Hq c (wk_ID wk) w Hg) as (w1 & R1 & [V1 _] & Hg1 & _).
  rewrite run_bind, R1. cbn [orb]. destruct (alive_at _ _ _).
  { exists w1. split_and!; [done|done|by rewrite V1|intros id; by rewrite V1|..];
      intros; destruct V1 as (_ & _ & E3 & _ & E5); unfold inflight; by rewrite ?E3, ?E5. }
  destruct (reclaim_yields o Hq c (wk_ID wk) w1 Hg1) as (w2 & R2 & [V2 _] & Hg2 & _).
  rewrite run_bind, R2. set (envs := decode_all _) in *.
  assert (Hd1 : data_ok (l_q (abs w1))) by (by rewrite V1).
  assert (Hin : forall m, m ∈ map snd (reclaim_entries o (wk_ID wk) w1) ->
                          exists f e, inflight w1 (wk_ID wk) !! f = Some m /\ encodes e m).
  { intros m Hm. apply (list_elem_of_fmap snd) in Hm as ([f m'] & -> & H).
    unfold reclaim_entries in H. rewrite shuffle_perm in H. apply elem_of_map_to_list in H.
    destruct (ok_inflight _ Hd1 _ _ _ H) as (e & He & _). eauto. }
  assert (Henvs : forall e, e ∈ envs -> exists m, encodes e m).
  { intros e He. unfold envs, decode_all in He. apply elem_of_omap in He as (m & Hm & Hu).
    destruct (Hin m Hm) as (f & e0 & _ & He0). rewrite (encodes_Unmarshal e0 m He0) in Hu.
    injection Hu as <-. destruct (Marshal_wire e0 m He0) as [b Hb]. exists b.
    split; [done|]. apply wire_ints, He0. }
  destruct (requeue_each_rescues c (wk_ID wk) envs w2 Hg2 Henvs) as (w3 & R3 & Hg3 & K3 & A3).
  rewrite run_bind, R3.
  destruct (qstep_no_redis o (RequeueOrphans c [wk_ID wk] ;;; MarkWorkerDead c (wk_ID wk) ;;; Ret tt)
              w3 Hg3) as ([] & w4 & R4 & Hg4 & V4).
  { apply no_redis_bind; [auto with taskq|]. intros _. by split. }
  exists w4. split; [exact R4|]. split; [done|]. simpl in V4. cbn [on_q l_q] in V2.
  assert (K : gentle (set_inflight (wk_ID wk) ∅ (l_q (abs w))) (l_q (abs w4))).
  { etransitivity; [|by apply gentle_equiv; symmetry].
    etransitivity; [|exact K3]. apply gentle_equiv. symmetry. rewrite V2.
    by apply set_inflight_proper. }
  split_and!.
  - apply (gentle_data _ _ K). by apply data_ok_clear_inflight.
  - intros id Hid. destruct (accounted_clear_inflight (wk_ID wk) _ id Hid) as [H|(f & m & H & Hh)].
    + by apply (gentle_accounted _ _ K).
    + rewrite V4. destruct Hh as (e' & Hu & <-). apply A3. unfold envs, decode_all.
      apply elem_of_omap. exists m. rewrite Hu. split; [|done].
      apply (list_elem_of_fmap snd). exists (f, m). split; [done|].
      unfold reclaim_entries. rewrite shuffle_perm. apply elem_of_map_to_list.
      unfold inflight. by destruct V1 as (_ & _ & -> & _).
  - intros x. by rewrite (gentle_beat _ _ K).
  - intros x Hx. unfold inflight. rewrite (gentle_inflight _ _ K). simpl. unfold upd.
    by rewrite decide_False.
  - unfold inflight. rewrite (gentle_inflight _ _ K). simpl. unfold upd. by rewrite decide_True.
Qed.

Lemma reclaim_each_sweep c ws : forall w,
  good w -> data_ok (l_q (abs w)) ->
  exists w', run o (reclaim_each c ws) w = (tt, w') /\ good w' /\ data_ok (l_q (abs w')) /\
    (forall id, accounted (l_q (abs w)) id -> accounted (l_q (abs w')) id) /\
    (forall x, q_beat (l_q (abs w')) x = q_beat (l_q (abs w)) x) /\
    (forall x, inflight w' x = inflight w x \/ inflight w' x = ∅) /\
    (forall x, (forall y, y ∈ ws -> wk_ID y = x -> wk_Status y = "dead") ->
               inflight w' x = inflight w x) /\
    (forall y, y ∈ ws -> wk_Status y <> "dead" -> q_beat (l_q (abs w)) (wk_ID y) = None ->
               inflight w' (wk_ID y) = ∅).
Proof.
  induction ws as [|wk ws IH]; intros w Hg Hd.
  { exists w. split_and!; try done; [intros; by left|by intros y ?%not_elem_of_nil]. }
  destruct (reclaim_worker_step c wk w Hg Hd) as (w1 & R1 & Hg1 & Hd1 & A1 & B1 & O1 & I1).
  destruct (IH w1 Hg1 Hd1) as (w2 & R2 & Hg2 & Hd2 & A2 & B2 & O2 & K2 & E2).
  exists w2. cbn [reclaim_each]. rewrite run_bind, R1.
  split_and!; [done|done|done|auto|intros x; by rewrite B2|..].
  - intros x. destruct (O2 x) as [->|]; [|by right].
    destruct (decide (x = wk_ID wk)) as [->|Hne]; [|left; by apply O1].
    rewrite I1. destruct (_ || _); [by left|by right].
  - intros x Hx. rewrite K2 by (intros y Hy; apply Hx; by right).
    destruct (decide (x = wk_ID wk)) as [->|Hne]; [|by apply O1].
    rewrite I1. by rewrite (Hx wk ltac:(left) eq_refl).
  - intros y Hy Hs Hb. apply elem_of_cons in Hy as [->|Hy].
    + destruct (O2 (wk_ID wk)) as [->|?]; [|done]. rewrite I1. unfold alive_at. rewrite Hb.
      by destruct (String.eqb_spec (wk_Status wk) "dead").
    + apply E2; [done|done|]. by rewrite B1.
Qed.

End Reclaim.


(** A registered worker that took a task and never sent a heartbeat. *)
Definition crashed_world : world :=
  after (UpsertWorker CtxMain "w1" "host" "alive" ;;;
         Enqueue CtxMain odd_job ;;; Lease CtxMain "resize" "w1" 0) ref_world.

