(* ===== verification/LossWindows.v ===== *)
(** * Where a task can be lost or run against its status

    Executions of the program, on the reference services, in which a promise of
    the documentation ("at least once", "canceled") is not kept. They show that
    the hypotheses of the conservation theorems (no crash between two commands,
    no canceled context) cannot be dropped. *)

From S2P Require Import Prelude GoBase F64 GoString Json GoStd Redis RefRedis Task Db Effects.
From S2P Require Import Queue Abstract QueueSpec QueueInv RefWorld Config Store Handlers Scheduler.
From S2P Require Import SchedulerThms.

Open Scope Z_scope.
Open Scope taskq_scope.

(** A submitted task (row, ready envelope) of the flaky type. *)
Definition flaky_task : Task :=
  MkTask (uid 1) "flaky" None 5 EmptyString 0 3 zero_time None None None None EmptyString
    zero_time zero_time.
Definition flaky_job : Envelope := sample 1 "flaky" 5 0 3 1000.

Definition submitted : world :=
  after (UpsertWorker CtxMain "w1" "host" "alive" ;;;
         CreateTask CtxMain flaky_task ;;; Enqueue CtxMain flaky_job) ref_world.

(** Leased by the worker. *)
Definition leased : world := after (Lease CtxMain "flaky" "w1" 0) submitted.

Definition status_of (w : world) (id : N) : option string := row_status <$> tasks (database w) !! uid id.

(** The worker dies after that many effects of the execution; the draw 0 makes the
    handler fail. Later the coordinator sweeps. *)
Definition crashed (n : nat) : world := (steps ref_env n (execute CtxMain ref_worker flaky_job) leased).2.
Definition swept (n : nat) : world := after (coord_tick 5 CtxMain) (crashed n).


(** A graceful shutdown: from effect [k] on, every call made under the canceled
    context fails before it is sent and every wait ends with the cancellation;
    calls under the background context still work. *)
Definition shutdown_env (k : nat) : env := MkEnv (U := RefUuid) (clock ref_env) (draw ref_env)
  (fresh ref_env) (shuffle ref_env)
  (fun n c => if decide (c = CtxBackground) then NoFault
              else if (k <=? n)%nat then NotSent ErrCanceled else NoFault)
  (fun _ _ _ => Some ErrCanceled).

Definition slow_task : Task :=
  MkTask (uid 1) "sleep" None 5 EmptyString 0 3 zero_time None None None None EmptyString
    zero_time zero_time.
Definition slow_job : Envelope := sample 1 "sleep" 5 0 3 1000.
Definition sleeping : world :=
  after (UpsertWorker CtxMain "w1" "host" "alive" ;;; CreateTask CtxMain slow_task ;;;
         Enqueue CtxMain slow_job ;;; Lease CtxMain "sleep" "w1" 0) ref_world.

(** The context is canceled while the handler sleeps; [Run] waits for the
    execution to end and then marks the worker dead. *)
Definition stopped : world :=
  (run (shutdown_env (ticks sleeping + 5)) (execute CtxMain ref_worker slow_job ;;; stop ref_worker)
     sleeping).2.

Definition stranded (w : world) : Prop :=
  (exists m, inflight w "w1" !! "1" = Some m) /\ ready w "sleep" = ∅ /\ delayed w "sleep" = ∅ /\
  q_dlq (l_q (abs w)) "sleep" = [] /\ status_of w 1 = Some StatusRunning /\
  (w_status <$> workers (database w) !! "w1") = Some "dead".


(** Submitted, canceled through the store, then taken by a worker. *)
Definition echo_job : Envelope := sample 1 "echo" 5 0 3 1000.
Definition canceled : world :=
  after (CreateTask CtxMain
           (MkTask (uid 1) "echo" None 5 EmptyString 0 3 zero_time None None None None EmptyString
              zero_time zero_time) ;;;
         Enqueue CtxMain echo_job ;;; MarkCanceled CtxMain (uid 1)) ref_world.

(** What the next worker gets. *)
Definition canceled_lease : res Envelope * world :=
  run ref_env (LeaseAny CtxMain ["echo"] "w1" 0) canceled.

