(* ===== verification/WorkerLoop.v ===== *)
(** * The worker's goroutines ([Worker.Run] and [heartbeatLoop] in
    [internal/scheduler/scheduler.go])

    The dispatcher, the heartbeat goroutine and one goroutine per leased task,
    with what they share: the semaphore [sem] (a buffered channel: the number of
    tokens in it), the wait group (the goroutines not yet done), [hbStop] and the
    context. One step is one effect of one goroutine or one channel operation.
    [taken] and [finished] record which envelopes were handed to a goroutine and
    which goroutines have ended. A handler that panics is not modelled. *)

From S2P Require Import Prelude GoBase F64 GoString Json GoStd Redis RefRedis Task Db Effects.
From S2P Require Import Queue Abstract RefWorld Config Handlers Store Scheduler SchedulerThms.

Open Scope Z_scope.
Open Scope taskq_scope.

Section Loop.
Context {U : Uuid} {R : Redis} {P : Postgres} {PF : Platform}.

(** Where the dispatcher is. *)
Inductive phase :=
  | Registering (p : prog (res unit))
  | Choosing (p : prog (list string))
  | Selecting (types : list string)                    (* select { ctx.Done; sem <- } *)
  | Leasing (types : list string) (p : prog (res Envelope))
  | Pausing (types : list string) (p : prog unit)
  | Waiting                                            (* wg.Wait() *)
  | Stopping (p : prog unit)
  | Returned (r : res unit)
  | Panicked.

(** A task's goroutine: executing, or past the release of its slot. *)
Inductive job_state := Executing (p : prog unit) | Released.

Inductive beater := NotStarted | Ticking | Beating (p : prog unit) | Ended.

Record run_state := MkRun {
  ph : phase;
  slots : nat;                               (* len(sem) *)
  jobs : list (Envelope * job_state);        (* wg *)
  beats : beater;
  hbStop : bool;
  canceled : bool;
  taken : list Envelope;
  finished : list Envelope
}.

Definition set_ph (x : phase) (s : run_state) : run_state :=
  MkRun x (slots s) (jobs s) (beats s) (hbStop s) (canceled s) (taken s) (finished s).
Definition set_beats (x : beater) (s : run_state) : run_state :=
  MkRun (ph s) (slots s) (jobs s) x (hbStop s) (canceled s) (taken s) (finished s).
Definition set_slots (n : nat) (s : run_state) : run_state :=
  MkRun (ph s) n (jobs s) (beats s) (hbStop s) (canceled s) (taken s) (finished s).
Definition set_jobs (l : list (Envelope * job_state)) (s : run_state) : run_state :=
  MkRun (ph s) (slots s) l (beats s) (hbStop s) (canceled s) (taken s) (finished s).

Definition no_types : error :=
  ErrText "no task handlers registered and no TASK_TYPES configured".

Context (c : ctx) (w : Worker).

Abbreviation capacity := (WorkerConcurrency (worker_cfg w)).

Definition run_start : run_state :=
  MkRun (Registering (register c w)) 0 [] NotStarted false false [] [].

(** After registration: the heartbeat goroutine is started (its ticker panics on an
    interval that is not positive), then the semaphore made (panics on a
    negative capacity). *)
Definition after_register (s : run_state) : run_state :=
  if (0 <? HeartbeatInterval (worker_cfg w)) && (0 <=? capacity)
  then set_beats Ticking (set_ph (Choosing (served_types w)) s)
  else set_ph Panicked s.

(** One effect of the dispatcher's own code. *)
Definition phase_effect (o : env) (x : phase) (v : world) : phase * world :=
  match x with
  | Registering p => let '(p', v') := steps o 1 p v in (Registering p', v')
  | Choosing p => let '(p', v') := steps o 1 p v in (Choosing p', v')
  | Leasing ts p => let '(p', v') := steps o 1 p v in (Leasing ts p', v')
  | Pausing ts p => let '(p', v') := steps o 1 p v in (Pausing ts p', v')
  | Stopping p => let '(p', v') := steps o 1 p v in (Stopping p', v')
  | _ => (x, v)
  end.

Inductive run_step : run_state * world -> run_state * world -> Prop :=
  | r_cancel s v :
      run_step (s, v)
        (MkRun (ph s) (slots s) (jobs s) (beats s) (hbStop s) true (taken s) (finished s), v)
  | r_effect o s v x v' :
      runtime_ok o -> phase_effect o (ph s) v = (x, v') -> run_step (s, v) (set_ph x s, v')
  | r_register_failed s v err :
      ph s = Registering (Ret (Err err)) -> run_step (s, v) (set_ph (Returned (Err err)) s, v)
  | r_registered s v :
      ph s = Registering (Ret (Ok tt)) -> run_step (s, v) (after_register s, v)
  | r_no_types s v :
      ph s = Choosing (Ret []) -> run_step (s, v) (set_ph (Returned (Err no_types)) s, v)
  | r_types s v t ts :
      ph s = Choosing (Ret (t :: ts)) -> run_step (s, v) (set_ph (Selecting (t :: ts)) s, v)
  | r_done s v ts :
      ph s = Selecting ts -> canceled s = true ->
      run_step (s, v)
        (MkRun Waiting (slots s) (jobs s) (beats s) true true (taken s) (finished s), v)
  | r_slot s v ts :
      ph s = Selecting ts -> Z.of_nat (slots s) < capacity ->
      run_step (s, v)
        (set_slots (S (slots s))
           (set_ph (Leasing ts (LeaseAny c ts (worker_ID w) (LeaseTTL (worker_cfg w)))) s), v)
  | r_lease_failed s v ts err n :
      ph s = Leasing ts (Ret (Err err)) -> slots s = S n ->
      run_step (s, v) (set_slots n (set_ph (Pausing ts (pause c err)) s), v)
  | r_leased s v ts e :
      ph s = Leasing ts (Ret (Ok e)) ->
      run_step (s, v)
        (MkRun (Selecting ts) (slots s) (jobs s ++ [(e, Executing (execute c w e))]) (beats s)
           (hbStop s) (canceled s) (taken s ++ [e]) (finished s), v)
  | r_paused s v ts :
      ph s = Pausing ts (Ret tt) -> run_step (s, v) (set_ph (Selecting ts) s, v)
  | r_job_effect o s v l1 e p l2 :
      runtime_ok o -> jobs s = l1 ++ (e, Executing p) :: l2 ->
      run_step (s, v)
        (set_jobs (l1 ++ (e, Executing (steps o 1 p v).1) :: l2) s, (steps o 1 p v).2)
  | r_job_release s v l1 e l2 n :
      jobs s = l1 ++ (e, Executing (Ret tt)) :: l2 -> slots s = S n ->
      run_step (s, v) (set_slots n (set_jobs (l1 ++ (e, Released) :: l2) s), v)
  | r_job_done s v l1 e l2 :
      jobs s = l1 ++ (e, Released) :: l2 ->
      run_step (s, v)
        (MkRun (ph s) (slots s) (l1 ++ l2) (beats s) (hbStop s) (canceled s) (taken s)
           (finished s ++ [e]), v)
  | r_waited s v :
      ph s = Waiting -> jobs s = [] -> run_step (s, v) (set_ph (Stopping (stop w)) s, v)
  | r_stopped s v :
      ph s = Stopping (Ret tt) -> run_step (s, v) (set_ph (Returned (Ok tt)) s, v)
  | r_beat_tick s v : beats s = Ticking -> run_step (s, v) (set_beats (Beating (beat c w)) s, v)
  | r_beat_effect o s v p :
      runtime_ok o -> beats s = Beating p ->
      run_step (s, v) (set_beats (Beating (steps o 1 p v).1) s, (steps o 1 p v).2)
  | r_beat_over s v : beats s = Beating (Ret tt) -> run_step (s, v) (set_beats Ticking s, v)
  | r_beat_end s v :
      beats s = Ticking -> canceled s = true \/ hbStop s = true ->
      run_step (s, v) (set_beats Ended s, v).

(** ** The invariant *)

Definition running (j : Envelope * job_state) : nat :=
  match j.2 with Executing _ => 1 | Released => 0 end.
Definition executing (l : list (Envelope * job_state)) : nat := sum_list_with running l.

Definition leasing (x : phase) : nat := match x with Leasing _ _ => 1 | _ => 0 end.

(** The dispatcher has seen the cancellation and waited for the goroutines. *)
Definition drained (x : phase) : bool :=
  match x with Stopping _ | Returned (Ok _) => true | _ => false end.

Definition before_loop (x : phase) : bool :=
  match x with Registering _ | Choosing _ | Returned (Err _) | Panicked => true | _ => false end.

Record run_ok (s : run_state) : Prop := {
  slots_used : slots s = (executing (jobs s) + leasing (ph s))%nat;
  slots_bounded : Z.of_nat (slots s) <= Z.max 0 capacity;
  all_taken : taken s ≡ₚ finished s ++ map fst (jobs s);
  stop_clean : drained (ph s) = true -> jobs s = [] /\ hbStop s = true /\ canceled s = true;
  wait_stopped : ph s = Waiting -> hbStop s = true /\ canceled s = true;
  loop_started : before_loop (ph s) = true -> jobs s = []
}.

Lemma executing_app l1 l2 : executing (l1 ++ l2) = (executing l1 + executing l2)%nat.
Proof. apply sum_list_with_app. Qed.

Lemma executing_mid l1 j l2 :
  executing (l1 ++ j :: l2) = (executing (l1 ++ l2) + running j)%nat.
Proof. rewrite !executing_app. cbn. unfold executing. lia. Qed.

Lemma fst_mid l1 (j : Envelope * job_state) l2 :
  map fst (l1 ++ j :: l2) ≡ₚ j.1 :: map fst (l1 ++ l2).
Proof. by rewrite !map_app, Permutation_middle. Qed.

(** An effect of the dispatcher does not move it. *)
Lemma phase_effect_same o x v x' v' :
  phase_effect o x v = (x', v') ->
  leasing x' = leasing x /\ drained x' = drained x /\ before_loop x' = before_loop x /\
  (x' = Waiting -> x = Waiting).
Proof.
  destruct x; unfold phase_effect; try destruct (steps o 1 _ v); intros [= <- <-]; done.
Qed.

Lemma run_start_ok : run_ok run_start.
Proof. split; simpl; (done || lia). Qed.

(** Replacing or removing one goroutine of the list. *)
Lemma mid_nonempty {A} (l1 : list A) x l2 : l1 ++ x :: l2 <> [].
Proof. by destruct l1. Qed.

Lemma run_step_ok x y : run_ok x.1 -> run_step x y -> run_ok y.1.
Proof.
  intros [H1 H2 H3 H4 H5 H6] Hs.
  destruct Hs as [s v|o s v x v' _ Hx|s v err Hp|s v Hp|s v Hp|s v t ts Hp|s v ts Hp Hc|s v ts Hp Hlt
    |s v ts err n Hp Hn|s v ts e Hp|s v ts Hp|o s v l1 e p l2 _ Hj|s v l1 e l2 n Hj Hn|s v l1 e l2 Hj
    |s v Hp Hj|s v Hp|s v Hb|o s v p _ Hb|s v Hb|s v Hb Hc]; cbn [fst snd] in *.
  - (* cancel *) split; simpl; try done; naive_solver.
  - (* effect *) destruct (phase_effect_same _ _ _ _ _ Hx) as (E1 & E2 & E3 & E4).
    split; simpl; rewrite ?E1, ?E2, ?E3; auto.
  - rewrite Hp in *. split; simpl; (done || auto).
  - rewrite Hp in *. unfold after_register. case_if; split; simpl; (done || auto).
  - rewrite Hp in *. split; simpl; (done || auto).
  - rewrite Hp in *. split; simpl; (done || auto).
  - (* done *) rewrite Hp in *. split; simpl; (done || auto).
  - (* slot *) rewrite Hp in *. split; simpl in *; (done || lia || auto).
  - (* lease failed *) rewrite Hp in *. split; simpl in *; (done || lia || auto).
  - (* leased *) rewrite Hp in *. split; simpl in *; try done.
    + rewrite executing_app. cbn. lia.
    + by rewrite map_app, H3, <- app_assoc.
  - rewrite Hp in *. split; simpl in *; (done || lia || auto).
  - (* effect of a job *)
    rewrite Hj in *. rewrite executing_mid in H1. rewrite fst_mid in H3.
    split; simpl; try done.
    + by rewrite executing_mid.
    + by rewrite fst_mid.
    + intros Hd%H4. destruct Hd as [Hd _]. by destruct (mid_nonempty _ _ _ Hd).
    + intros Hd%H6. by destruct (mid_nonempty _ _ _ Hd).
  - (* release *)
    rewrite Hj in *. rewrite executing_mid in H1. rewrite fst_mid in H3. cbn [running snd] in H1.
    split; simpl; try done.
    + rewrite executing_mid. cbn [running snd]. lia.
    + lia.
    + by rewrite fst_mid.
    + intros Hd%H4. destruct Hd as [Hd _]. by destruct (mid_nonempty _ _ _ Hd).
    + intros Hd%H6. by destruct (mid_nonempty _ _ _ Hd).
  - (* done *)
    rewrite Hj in *. rewrite executing_mid in H1. rewrite fst_mid in H3. cbn [running snd] in H1.
    split; simpl; try done.
    + lia.
    + rewrite H3, <- app_assoc. by rewrite Permutation_app_comm, Permutation_app_comm.
    + intros Hd%H4. destruct Hd as [Hd _]. by destruct (mid_nonempty _ _ _ Hd).
    + intros Hd%H6. by destruct (mid_nonempty _ _ _ Hd).
  - (* waited *) destruct (H5 Hp). rewrite Hp in *. split; simpl; auto.
  - rewrite Hp in *. split; simpl; (done || auto).
  - by split.
  - by split.
  - by split.
  - by split.
Qed.

Lemma reachable_ok v y : rtc run_step (run_start, v) y -> run_ok y.1.
Proof.
  intros H. pose proof run_start_ok as Hok. change run_start with (run_start, v).1 in Hok.
  revert Hok. induction H as [x|x y z Hxy _ IH]; [done|]. intros Hx. by eapply IH, run_step_ok.
Qed.

(** ** The loop can always end *)

Section Progress.
Context (o : env) (Ho : runtime_ok o).

(** The dispatcher's program runs to its end. *)
Lemma phase_run {A} (K : prog A -> phase) p s v :
  (forall p v, phase_effect o (K p) v = (K (steps o 1 p v).1, (steps o 1 p v).2)) ->
  exists a v', rtc run_step (set_ph (K p) s, v) (set_ph (K (Ret a)) s, v').
Proof.
  intros HK. revert v. induction p as [a|X e k IH]; intros v; [by exists a, v|].
  destruct (do_effect o e v) as [x v1] eqn:E. destruct (IH x v1) as (a & v' & H).
  exists a, v'. eapply rtc_l; [|exact H].
  apply (r_effect o (set_ph (K (Do e k)) s) v (K (k x)) v1 Ho).
  simpl ph. rewrite HK. cbn [steps]. by rewrite E.
Qed.

Lemma job_run s v l1 e p l2 :
  exists v', rtc run_step (set_jobs (l1 ++ (e, Executing p) :: l2) s, v)
                          (set_jobs (l1 ++ (e, Executing (Ret tt)) :: l2) s, v').
Proof.
  revert v. induction p as [[]|X ef k IH]; intros v; [by exists v|].
  destruct (do_effect o ef v) as [x v1] eqn:E. destruct (IH x v1) as (v' & H).
  exists v'. eapply rtc_l; [|exact H].
  pose proof (r_job_effect o (set_jobs (l1 ++ (e, Executing (Do ef k)) :: l2) s) v l1 e (Do ef k) l2 Ho eq_refl)
    as Hs.
  cbn [steps] in Hs. by rewrite E in Hs.
Qed.

Definition over (x : phase) : Prop := x = Panicked \/ exists r, x = Returned r.
Definition ends (x : run_state * world) : Prop := exists y, rtc run_step x y /\ over (ph y.1).

Lemma ends_rtc x y : rtc run_step x y -> ends y -> ends x.
Proof. intros H (z & Hz & Hov). exists z. split; [by etransitivity|done]. Qed.

Lemma ends_step x y : run_step x y -> ends y -> ends x.
Proof. intros H. by apply ends_rtc, rtc_once. Qed.

Lemma ends_now s v : over (ph s) -> ends (s, v).
Proof. intros H. by exists (s, v). Qed.

Lemma ends_at {A} (K : prog A -> phase) p s v :
  ph s = K p ->
  (forall p v, phase_effect o (K p) v = (K (steps o 1 p v).1, (steps o 1 p v).2)) ->
  (forall a v', ends (set_ph (K (Ret a)) s, v')) -> ends (s, v).
Proof.
  intros Hp HK Hk. destruct (phase_run K p s v HK) as (a & v' & H).
  rewrite <- Hp in H. replace (set_ph (ph s) s) with s in H by (by destruct s).
  by eapply ends_rtc.
Qed.

Ltac effects := intros ? ?; unfold phase_effect; by destruct (steps o 1 _ _).

Lemma ends_stopping s v p : ph s = Stopping p -> ends (s, v).
Proof.
  intros Hp. apply (ends_at Stopping p); [done|effects|]. intros [] v'.
  eapply ends_step; [by apply r_stopped|]. apply ends_now. right. eauto.
Qed.

Lemma ends_waiting s v : run_ok s -> ph s = Waiting -> ends (s, v).
Proof.
  intros Hok Hp. remember (length (jobs s)) as n eqn:Hn.
  revert s v Hok Hp Hn. induction n as [|n IH]; intros s v Hok Hp Hn.
  - eapply ends_step; [apply r_waited; [done|by apply nil_length_inv]|].
    by apply (ends_stopping _ _ (stop w)).
  - destruct (jobs s) as [|[e j] l] eqn:Hj; [done|].
    assert (Hl : n = length l) by (simpl in Hn; lia).
    assert (Hrel : forall s v, run_ok s -> ph s = Waiting -> jobs s = (e, Released) :: l -> ends (s, v)).
    { clear s v Hok Hp Hn Hj. intros s v Hok Hp Hj.
      pose proof (r_job_done s v [] e l Hj) as Hs. pose proof (run_step_ok (s, v) _ Hok Hs) as Hok'.
      eapply ends_step; [exact Hs|]. by apply (IH _ _ Hok'). }
    destruct j as [p|]; [|by apply Hrel].
    destruct (job_run s v [] e p l) as (v' & Hr). cbn [app] in Hr.
    replace (set_jobs ((e, Executing p) :: l) s) with s in Hr by (destruct s; cbn in Hj; by subst).
    eapply ends_rtc; [exact Hr|]. set (s1 := set_jobs _ s) in *.
    assert (Hok1 : run_ok s1).
    { clear -Hok Hr. change s1 with (s1, v').1. change s with (s, v).1 in Hok. revert Hok.
      induction Hr as [x|x y z Hxy _ IH]; [done|]. intros Hx. by eapply IH, run_step_ok. }
    destruct (slots s1) as [|m] eqn:Hm.
    { pose proof (slots_used _ Hok1) as Hu. rewrite Hm in Hu. cbn in Hu. lia. }
    pose proof (r_job_release s1 v' [] e l m eq_refl Hm) as Hs.
    pose proof (run_step_ok (s1, v') _ Hok1 Hs) as Hok2.
    eapply ends_step; [exact Hs|]. by apply Hrel.
Qed.

Lemma ends_selecting s v ts :
  run_ok s -> canceled s = true -> ph s = Selecting ts -> ends (s, v).
Proof.
  intros Hok Hc Hp. pose proof (r_done s v ts Hp Hc) as Hs.
  pose proof (run_step_ok (s, v) _ Hok Hs) as Hok'.
  eapply ends_step; [exact Hs|]. by apply ends_waiting.
Qed.

(** A step to a state from which the loop ends. *)
Lemma ends_via s v s' v' ts :
  run_step (s, v) (s', v') -> run_ok s -> canceled s' = true -> ph s' = Selecting ts -> ends (s, v).
Proof.
  intros Hs Hok Hc Hp. eapply ends_step; [exact Hs|].
  apply (ends_selecting _ _ ts); [exact (run_step_ok (s, v) (s', v') Hok Hs)|done..].
Qed.

(** Moving to the end of the dispatcher's program keeps the invariant. *)
Lemma set_ph_ok x s :
  run_ok s -> leasing x = leasing (ph s) -> drained x = drained (ph s) ->
  before_loop x = before_loop (ph s) -> (x = Waiting -> ph s = Waiting) -> run_ok (set_ph x s).
Proof. intros [] E1 E2 E3 E4. split; simpl; rewrite ?E1, ?E2, ?E3; auto. Qed.

Lemma ends_pausing s v ts p :
  run_ok s -> canceled s = true -> ph s = Pausing ts p -> ends (s, v).
Proof.
  intros Hok Hc Hp. apply (ends_at (Pausing ts) p); [done|effects|]. intros [] v'.
  eapply (ends_via _ _ _ _ ts); [by apply r_paused| |done|done].
  by apply set_ph_ok; rewrite ?Hp.
Qed.

Lemma ends_leasing s v ts p :
  run_ok s -> canceled s = true -> ph s = Leasing ts p -> ends (s, v).
Proof.
  intros Hok Hc Hp. apply (ends_at (Leasing ts) p); [done|effects|]. intros r v'.
  set (s1 := set_ph _ s).
  assert (Hok1 : run_ok s1) by (by apply set_ph_ok; rewrite ?Hp).
  destruct r as [e|err].
  - by eapply (ends_via s1); [by apply r_leased|..].
  - destruct (slots s1) as [|n] eqn:Hn.
    { pose proof (slots_used _ Hok1) as Hu. rewrite Hn in Hu. cbn in Hu. lia. }
    pose proof (r_lease_failed s1 v' ts err n eq_refl Hn) as Hs.
    pose proof (run_step_ok (s1, v') _ Hok1 Hs) as Hok2.
    eapply ends_step; [exact Hs|]. by eapply ends_pausing.
Qed.

Lemma ends_choosing s v p : run_ok s -> canceled s = true -> ph s = Choosing p -> ends (s, v).
Proof.
  intros Hok Hc Hp. apply (ends_at Choosing p); [done|effects|]. intros [|t ts] v'.
  - eapply ends_step; [by apply r_no_types|]. apply ends_now. right. eauto.
  - eapply (ends_via _ _ _ _ (t :: ts)); [by apply r_types| |done|done].
    by apply set_ph_ok; rewrite ?Hp.
Qed.

Lemma ends_registering s v p : run_ok s -> canceled s = true -> ph s = Registering p -> ends (s, v).
Proof.
  intros Hok Hc Hp. apply (ends_at Registering p); [done|effects|]. intros [[]|err] v'.
  - set (s1 := set_ph _ s).
    assert (Hok1 : run_ok s1) by (by apply set_ph_ok; rewrite ?Hp).
    pose proof (r_registered s1 v' eq_refl) as Hs.
    pose proof (run_step_ok (s1, v') _ Hok1 Hs) as Hok2. eapply ends_step; [exact Hs|].
    revert Hok2. cbn [fst]. unfold after_register. case_if; intros Hok2.
    + by eapply ends_choosing.
    + apply ends_now. by left.
  - eapply ends_step; [by apply r_register_failed|]. apply ends_now. right. eauto.
Qed.

Lemma canceled_ends s v : run_ok s -> canceled s = true -> ends (s, v).
Proof.
  intros Hok Hc. destruct (ph s) eqn:Hp.
  - by eapply ends_registering.
  - by eapply ends_choosing.
  - by eapply ends_selecting.
  - by eapply ends_leasing.
  - by eapply ends_pausing.
  - by apply ends_waiting.
  - by eapply ends_stopping.
  - apply ends_now. right. eauto.
  - apply ends_now. by left.
Qed.

End Progress.

(** C13: at every moment at most WORKER_CONCURRENCY tasks are leased or executing,
    and the envelopes handed to a goroutine are exactly those whose goroutine has
    ended and those whose goroutine is still there, each as often as it was
    leased. *)
Theorem concurrency_bounded (s : run_state) v v' :
  rtc run_step (run_start, v) (s, v') ->
  Z.of_nat (executing (jobs s) + leasing (ph s)) <= Z.max 0 capacity /\
  taken s ≡ₚ finished s ++ map fst (jobs s).
Proof.
  intros H. pose proof (reachable_ok _ _ H) as [H1 H2 H3 _ _ _]. cbn [fst] in *.
  rewrite H1 in H2. done.
Qed.

(** C12: [Run] returns without error only after the context was canceled, the
    heartbeat told to stop, and every task it had leased executed to the end of
    its goroutine. *)
Theorem shutdown_waits (s : run_state) v v' :
  rtc run_step (run_start, v) (s, v') -> ph s = Returned (Ok tt) ->
  canceled s = true /\ hbStop s = true /\ jobs s = [] /\ taken s ≡ₚ finished s.
Proof.
  intros H Hp. pose proof (reachable_ok _ _ H) as [_ _ H3 H4 _ _]. cbn [fst] in *.
  rewrite Hp in H4. destruct (H4 eq_refl) as (H5 & H6 & H7). rewrite H5 in H3.
  cbn in H3. rewrite app_nil_r in H3. done.
Qed.

(** C25: the worker never deadlocks on its way down: from every state it reaches,
    once the context is canceled, some sequence of steps ends [Run] (or it has
    panicked on a configuration with a negative concurrency or a heartbeat
    interval that is not positive). *)
Theorem shutdown_possible (o : env) (s : run_state) v v' :
  runtime_ok o -> rtc run_step (run_start, v) (s, v') -> canceled s = true ->
  exists y, rtc run_step (s, v') y /\ over (ph y.1).
Proof. intros Ho H Hc. exact (canceled_ends o Ho s v' (reachable_ok _ _ H) Hc). Qed.

(** *** Concrete runs *)

Fixpoint dispatch (o : env) (n : nat) (x : run_state * world) : run_state * world :=
  match n with
  | O => x
  | S n => dispatch o n (set_ph (phase_effect o (ph x.1) x.2).1 x.1, (phase_effect o (ph x.1) x.2).2)
  end.

Lemma dispatch_reach o n x : runtime_ok o -> rtc run_step x (dispatch o n x).
Proof.
  intros Ho. revert x. induction n as [|n IH]; intros [s v]; [apply rtc_refl|]. cbn [dispatch fst snd].
  eapply rtc_l; [|apply IH]. apply (r_effect o); [done|apply surjective_pairing].
Qed.

(** Effects of the first goroutine. *)
Definition head_effect (o : env) (x : run_state * world) : run_state * world :=
  match jobs x.1 with
  | (e, Executing p) :: l =>
      (set_jobs ((e, Executing (steps o 1 p x.2).1) :: l) x.1, (steps o 1 p x.2).2)
  | _ => x
  end.

Lemma head_effect_reach o n x : runtime_ok o -> rtc run_step x (Nat.iter n (head_effect o) x).
Proof.
  intros Ho. induction n as [|n IH]; [apply rtc_refl|]. etransitivity; [exact IH|].
  change (Nat.iter (S n) (head_effect o) x) with (head_effect o (Nat.iter n (head_effect o) x)).
  destruct (Nat.iter n (head_effect o) x) as [s v]. unfold head_effect. cbn [fst snd].
  destruct (jobs s) as [|[en [p|]] l] eqn:E; try apply rtc_refl.
  apply rtc_once, (r_job_effect o s v [] en p l Ho E).
Qed.

End Loop.

Lemma types_step (s : run_state) v ts :
  ph s = Choosing (Ret ts) -> ts <> [] ->
  run_step CtxMain ref_worker (s, v) (set_ph (Selecting ts) s, v).
Proof. intros H Hne. destruct ts as [|t ts]; [done|]. by apply r_types. Qed.

(** What the dispatcher's program has answered, read as plain data. *)
Definition is_registered {U : Uuid} {R : Redis} (x : phase) : bool :=
  match x with Registering (Ret (Ok _)) => true | _ => false end.
Definition chosen {U : Uuid} {R : Redis} (x : phase) : option (list string) :=
  match x with Choosing (Ret ts) => Some ts | _ => None end.
Definition leased_env {U : Uuid} {R : Redis} (x : phase) : option Envelope :=
  match x with Leasing _ (Ret (Ok e)) => Some e | _ => None end.

Definition leased_types {U : Uuid} {R : Redis} (x : phase) : option (list string) :=
  match x with Leasing ts _ => Some ts | _ => None end.

Lemma registered_ph {U : Uuid} {R : Redis} x : is_registered x = true -> x = Registering (Ret (Ok tt)).
Proof. by destruct x as [[[[]|]|]| | | | | | | |]. Qed.
Lemma chosen_ph {U : Uuid} {R : Redis} x ts : chosen x = Some ts -> x = Choosing (Ret ts).
Proof. destruct x as [|[]| | | | | | |]; try done. by intros [= ->]. Qed.
Lemma leased_ph {U : Uuid} {R : Redis} x e ts :
  leased_env x = Some e -> leased_types x = Some ts -> x = Leasing ts (Ret (Ok e)).
Proof. destruct x as [| | |ts' [[a|]|]| | | | |]; try done. by intros [= ->] [= ->]. Qed.

(** A worker starts on the busy world, leases one task, is canceled, executes the
    task to its end and returns. *)
Definition with_cancel (s : run_state) : run_state :=
  MkRun (ph s) (slots s) (jobs s) (beats s) (hbStop s) true (taken s) (finished s).

Definition loop0 : run_state * world := (run_start CtxMain ref_worker, busy_world).
Definition loop1 := dispatch ref_env 6 loop0.
Definition loop2 := (after_register ref_worker loop1.1, loop1.2).
Definition loop3 := dispatch ref_env 2 loop2.
Definition loop_types : list string := default [] (chosen (ph loop3.1)).
Definition loop4 := (set_ph (Selecting loop_types) loop3.1, loop3.2).
Definition loop5 :=
  (set_slots (S (slots loop4.1)) (set_ph (Leasing loop_types
     (LeaseAny CtxMain loop_types "w1" (LeaseTTL (worker_cfg ref_worker)))) loop4.1), loop4.2).
Definition loop6 := dispatch ref_env 8 loop5.
Definition loop_env : Envelope := default zero_envelope (leased_env (ph loop6.1)).
Definition loop7 :=
  (MkRun (Selecting loop_types) (slots loop6.1)
     (jobs loop6.1 ++ [(loop_env, Executing (execute CtxMain ref_worker loop_env))])
     (beats loop6.1) (hbStop loop6.1) (canceled loop6.1) (taken loop6.1 ++ [loop_env])
     (finished loop6.1), loop6.2).
Definition loop8 := (with_cancel loop7.1, loop7.2).

(** Each step of the run. *)
Abbreviation loop_step := (run_step CtxMain ref_worker).

Lemma step_at (x y : run_state * world) : loop_step (x.1, x.2) y -> rtc loop_step x y.
Proof. destruct x. apply rtc_once. Qed.

Lemma loop2_reached : rtc loop_step loop0 loop2.
Proof.
  transitivity loop1; [exact (dispatch_reach CtxMain ref_worker ref_env 6 loop0 ref_runtime_ok)|].
  apply step_at, (r_registered CtxMain ref_worker loop1.1 loop1.2), registered_ph.
  vm_compute. reflexivity.
Qed.

Lemma loop4_reached : rtc loop_step loop0 loop4.
Proof.
  transitivity loop2; [exact loop2_reached|].
  transitivity loop3; [exact (dispatch_reach CtxMain ref_worker ref_env 2 loop2 ref_runtime_ok)|].
  assert (H : chosen (ph loop3.1) = Some loop_types) by (vm_compute; reflexivity).
  assert (Hne : loop_types <> []) by (vm_compute; discriminate).
  apply step_at. exact (types_step loop3.1 loop3.2 loop_types (chosen_ph _ _ H) Hne).
Qed.

Lemma loop5_reached : rtc loop_step loop0 loop5.
Proof.
  transitivity loop4; [exact loop4_reached|]. apply step_at.
  apply (r_slot CtxMain ref_worker loop4.1 loop4.2 loop_types); [reflexivity|].
  vm_compute. reflexivity.
Qed.

Lemma loop8_reached : rtc loop_step loop0 loop8.
Proof.
  transitivity loop5; [exact loop5_reached|].
  transitivity loop6; [exact (dispatch_reach CtxMain ref_worker ref_env 8 loop5 ref_runtime_ok)|].
  transitivity loop7.
  - assert (H : leased_env (ph loop6.1) = Some loop_env) by (vm_compute; reflexivity).
    assert (Hts : leased_types (ph loop6.1) = Some loop_types) by (vm_compute; reflexivity).
    apply step_at.
    exact (r_leased CtxMain ref_worker loop6.1 loop6.2 loop_types loop_env (leased_ph _ _ _ H Hts)).
  - apply step_at, (r_cancel CtxMain ref_worker loop7.1 loop7.2).
Qed.

(** The shutdown: the select takes the cancellation, the goroutine of the task
    ends, the worker marks itself dead. *)
Definition head_done (s : run_state) : bool :=
  match jobs s with (_, Executing (Ret _)) :: _ => true | _ => false end.
Definition release_head (s : run_state) : run_state :=
  set_slots (pred (slots s))
    (set_jobs (match jobs s with (e, _) :: l => (e, Released) :: l | [] => [] end) s).
Definition done_head (s : run_state) : run_state :=
  MkRun (ph s) (slots s) (tail (jobs s)) (beats s) (hbStop s) (canceled s) (taken s)
    (finished s ++ match jobs s with (e, _) :: _ => [e] | [] => [] end).

Lemma release_done_step (s : run_state) v :
  head_done s = true -> (0 <? slots s)%nat = true ->
  rtc loop_step (s, v) (done_head (release_head s), v).
Proof.
  destruct s as [p n l b h k t f]. unfold head_done. cbn.
  destruct l as [|[e [[[]|]|]] l]; try done. destruct n as [|n]; [done|]. intros _ _.
  eapply rtc_l; [by eapply (r_job_release _ _ _ v [] e l n)|].
  apply rtc_once, (r_job_done CtxMain ref_worker (MkRun p n ((e, Released) :: l) b h k t f) v [] e l eq_refl).
Qed.

Definition loop9 := (MkRun Waiting (slots loop8.1) (jobs loop8.1) (beats loop8.1) true true
                       (taken loop8.1) (finished loop8.1), loop8.2).
Definition loop10 := Nat.iter 20 (head_effect ref_env) loop9.
Definition loop11 := (done_head (release_head loop10.1), loop10.2).
Definition loop12 := (set_ph (Stopping (stop ref_worker)) loop11.1, loop11.2).
Definition loop13 := dispatch ref_env 2 loop12.
Definition loop14 := (set_ph (Returned (Ok tt)) loop13.1, loop13.2).

Definition is_waiting {U : Uuid} {R : Redis} (x : phase) : bool :=
  match x with Waiting => true | _ => false end.
Definition is_stopped {U : Uuid} {R : Redis} (x : phase) : bool :=
  match x with Stopping (Ret _) => true | _ => false end.

Lemma waiting_ph {U : Uuid} {R : Redis} x : is_waiting x = true -> x = Waiting.
Proof. by destruct x. Qed.
Lemma stopped_ph {U : Uuid} {R : Redis} x : is_stopped x = true -> x = Stopping (Ret tt).
Proof. by destruct x as [| | | | | |[[]|]| |]. Qed.

Lemma loop11_reached : rtc loop_step loop0 loop11.
Proof.
  transitivity loop8; [exact loop8_reached|]. transitivity loop9.
  { apply step_at, (r_done CtxMain ref_worker loop8.1 loop8.2 loop_types); reflexivity. }
  transitivity loop10; [exact (head_effect_reach CtxMain ref_worker ref_env 20 loop9 ref_runtime_ok)|].
  pose proof (release_done_step loop10.1 loop10.2) as Hs.
  rewrite <- surjective_pairing in Hs. apply Hs; vm_compute; reflexivity.
Qed.

Lemma loop14_reached : rtc loop_step loop0 loop14.
Proof.
  transitivity loop11; [exact loop11_reached|]. transitivity loop12.
  { assert (Hw : is_waiting (ph loop11.1) = true) by (vm_compute; reflexivity).
    assert (Hj : length (jobs loop11.1) = 0%nat) by (vm_compute; reflexivity).
    apply step_at, (r_waited CtxMain ref_worker loop11.1 loop11.2 (waiting_ph _ Hw)).
    exact (nil_length_inv _ Hj). }
  transitivity loop13; [exact (dispatch_reach CtxMain ref_worker ref_env 2 loop12 ref_runtime_ok)|].
  apply step_at, (r_stopped CtxMain ref_worker loop13.1 loop13.2), stopped_ph.
  vm_compute. reflexivity.
Qed.

Lemma pair_reached (x y : run_state * world) :
  rtc loop_step x y -> rtc loop_step (x.1, x.2) (y.1, y.2).
Proof. by destruct x, y. Qed.

(** The run executed the leased task. *)
Example loop14_finished : map env_Type (finished loop14.1) = ["echo"].
Proof. vm_compute. reflexivity. Qed.

Lemma concurrency_bounded_witness :
  Z.of_nat (executing (jobs loop8.1) + leasing (ph loop8.1)) <=
    Z.max 0 (WorkerConcurrency (worker_cfg ref_worker)) /\
  taken loop8.1 ≡ₚ finished loop8.1 ++ map fst (jobs loop8.1).
Proof.
  apply (concurrency_bounded CtxMain ref_worker loop8.1 busy_world loop8.2).
  exact (pair_reached _ _ loop8_reached).
Defined.

Lemma shutdown_waits_witness :
  canceled loop14.1 = true /\ hbStop loop14.1 = true /\ jobs loop14.1 = [] /\
  taken loop14.1 ≡ₚ finished loop14.1.
Proof.
  apply (shutdown_waits CtxMain ref_worker loop14.1 busy_world loop14.2).
  - exact (pair_reached _ _ loop14_reached).
  - reflexivity.
Defined.

Lemma shutdown_possible_witness :
  exists y, rtc (run_step CtxMain ref_worker) (loop8.1, loop8.2) y /\ over (ph y.1).
Proof.
  apply (shutdown_possible CtxMain ref_worker ref_env loop8.1 busy_world loop8.2).
  - exact ref_runtime_ok.
  - exact (pair_reached _ _ loop8_reached).
  - reflexivity.
Defined.
