(* ===== verification/CoordLoop.v ===== *)
(** * The coordinator's loop ([Coordinator.Run] in [internal/scheduler/scheduler.go])

    The ticker (a channel of capacity one: a tick that finds it full is
    dropped), the context and the select between them, as a step relation. One
    sweep is [coord_tick], made effect by effect. *)

From S2P Require Import Prelude GoBase F64 GoString Json GoStd Redis RefRedis Task Db Effects.
From S2P Require Import Queue Abstract RefWorld Config Handlers Store Scheduler SchedulerThms.

Open Scope Z_scope.
Open Scope taskq_scope.

Section CoordLoop.
Context {U : Uuid} {R : Redis} {P : Postgres}.

(** The queue and the store are the shared services. *)
Record Coordinator := MkCoordinator { coord_cfg : Config }.

Definition NewCoordinator (cfg : Config) : Coordinator := MkCoordinator cfg.

Inductive coord_phase :=
  | Starting                       (* time.NewTicker *)
  | Idle                           (* select { ctx.Done; t.C } *)
  | Sweeping (p : prog unit)       (* c.tick *)
  | CoordReturned
  | CoordPanicked.

Record coord_state := MkCoord {
  cph : coord_phase;
  pending : bool;                  (* len(t.C) = 1 *)
  ccanceled : bool;
  sweeps : nat                     (* sweeps started so far *)
}.

Definition set_cph (x : coord_phase) (s : coord_state) : coord_state :=
  MkCoord x (pending s) (ccanceled s) (sweeps s).

Definition coord_start : coord_state := MkCoord Starting false false 0.

Context (ctx0 : ctx) (c : Coordinator).

(** [time.NewTicker] panics on an interval that is not positive. *)
Definition start_ticker (s : coord_state) : coord_state :=
  if 0 <? CoordinatorSweepInterval (coord_cfg c) then set_cph Idle s else set_cph CoordPanicked s.

Inductive coord_step : coord_state * world -> coord_state * world -> Prop :=
  | c_cancel s v : coord_step (s, v) (MkCoord (cph s) (pending s) true (sweeps s), v)
  | c_start s v : cph s = Starting -> coord_step (s, v) (start_ticker s, v)
  | c_fire s v :
      cph s = Idle \/ (exists p, cph s = Sweeping p) ->
      coord_step (s, v) (MkCoord (cph s) true (ccanceled s) (sweeps s), v)
  | c_done s v :
      cph s = Idle -> ccanceled s = true -> coord_step (s, v) (set_cph CoordReturned s, v)
  | c_tick fuel s v :
      cph s = Idle -> pending s = true ->
      coord_step (s, v) (MkCoord (Sweeping (coord_tick fuel ctx0)) false (ccanceled s) (S (sweeps s)), v)
  | c_effect o s v p :
      runtime_ok o -> cph s = Sweeping p ->
      coord_step (s, v) (set_cph (Sweeping (steps o 1 p v).1) s, (steps o 1 p v).2)
  | c_swept s v : cph s = Sweeping (Ret tt) -> coord_step (s, v) (set_cph Idle s, v).

(** ** What the loop guarantees *)

Record coord_ok (s : coord_state) : Prop := {
  panics_only : cph s = CoordPanicked -> CoordinatorSweepInterval (coord_cfg c) <= 0;
  runs_only : cph s <> Starting -> cph s <> CoordPanicked ->
              0 < CoordinatorSweepInterval (coord_cfg c);
  returns_only : cph s = CoordReturned -> ccanceled s = true
}.

Lemma coord_step_ok x y : coord_ok x.1 -> coord_step x y -> coord_ok y.1.
Proof.
  intros [H1 H2 H3] Hs.
  destruct Hs as [s v|s v Hp|s v Hp|s v Hp Hc|fuel s v Hp Hc|o s v p Ho Hp|s v Hp]; cbn [fst snd] in *.
  - split; simpl; auto.
  - unfold start_ticker. case_if; split; simpl; (done || lia).
  - split; simpl; auto.
  - split; simpl; try done. intros _ _. apply H2; congruence.
  - split; simpl; try done. intros _ _. apply H2; congruence.
  - split; simpl; try done. intros _ _. apply H2; congruence.
  - split; simpl; try done. intros _ _. apply H2; congruence.
Qed.

Lemma coord_reachable_ok v y : rtc coord_step (coord_start, v) y -> coord_ok y.1.
Proof.
  intros H. assert (Hok : coord_ok (coord_start, v).1) by by split.
  revert Hok. induction H as [x|x y z Hxy _ IH]; [done|]. intros Hx. by eapply IH, coord_step_ok.
Qed.

(** A sweep runs to its end. *)
Lemma sweep_run (o : env) p s v :
  runtime_ok o -> exists v', rtc coord_step (set_cph (Sweeping p) s, v) (set_cph (Sweeping (Ret tt)) s, v').
Proof.
  intros Ho. revert v. induction p as [[]|X e k IH]; intros v; [by exists v|].
  destruct (do_effect o e v) as [x v1] eqn:E. destruct (IH x v1) as (v' & H). exists v'.
  eapply rtc_l; [|exact H].
  pose proof (c_effect o (set_cph (Sweeping (Do e k)) s) v (Do e k) Ho eq_refl) as Hs.
  cbn [steps] in Hs. rewrite E in Hs. exact Hs.
Qed.

(** C26: the coordinator's [Run] panics exactly on a sweep interval that is not
    positive, before its first sweep; otherwise it returns only once its context is
    canceled, and from every state it reaches it can return after a
    cancellation, at the latest when the sweep under way has ended. *)
Theorem coordinator_stops (o : env) (s : coord_state) v v' :
  runtime_ok o -> rtc coord_step (coord_start, v) (s, v') ->
  (cph s = CoordPanicked -> CoordinatorSweepInterval (coord_cfg c) <= 0) /\
  (CoordinatorSweepInterval (coord_cfg c) <= 0 -> cph s = Starting \/ cph s = CoordPanicked) /\
  (cph s = CoordReturned -> ccanceled s = true) /\
  (0 < CoordinatorSweepInterval (coord_cfg c) -> ccanceled s = true ->
   exists s' v'', rtc coord_step (s, v') (s', v'') /\ cph s' = CoordReturned /\ sweeps s' = sweeps s).
Proof.
  intros Ho H. pose proof (coord_reachable_ok _ _ H) as [H1 H2 H3]. cbn [fst] in *.
  split; [done|]. split; [|split; [done|]].
  - intros Hi. destruct (cph s) eqn:E; auto; assert (0 < CoordinatorSweepInterval (coord_cfg c))
      by (by apply H2); lia.
  - intros Hi Hc.
    assert (Hidle : forall s v, cph s = Idle -> ccanceled s = true ->
              rtc coord_step (s, v) (set_cph CoordReturned s, v)).
    { clear. intros s v E Hc. by apply rtc_once, c_done. }
    destruct (cph s) as [| |p| |] eqn:E.
    + exists (set_cph CoordReturned (set_cph Idle s)), v'. split; [|done].
      eapply rtc_l; [by apply c_start|]. unfold start_ticker.
      replace (0 <? _) with true by (symmetry; by apply Z.ltb_lt). by apply Hidle.
    + exists (set_cph CoordReturned s), v'. split; [by apply Hidle|done].
    + destruct (sweep_run o p s v' Ho) as (v'' & Hr). exists (set_cph CoordReturned (set_cph Idle s)), v''.
      split; [|done]. replace (set_cph (Sweeping p) s) with s in Hr by (destruct s; cbn in E; by subst).
      etransitivity; [exact Hr|]. eapply rtc_l; [by apply c_swept|]. by apply Hidle.
    + by exists s, v'.
    + specialize (H1 eq_refl). lia.
Qed.

End CoordLoop.

(** A sweep started, then the cancellation. *)
Definition ref_coordinator : Coordinator := NewCoordinator default_config.
Definition coord1 : coord_state * world :=
  (MkCoord (Sweeping (steps ref_env 3 (coord_tick 5 CtxMain) busy_world).1) false true 1,
   (steps ref_env 3 (coord_tick 5 CtxMain) busy_world).2).

Lemma sweep_steps `{U : Uuid, R : Redis, P : Postgres} ctx0 c (o : env) n p s v :
  runtime_ok o ->
  rtc (coord_step ctx0 c) (set_cph (Sweeping p) s, v)
      (set_cph (Sweeping (steps o n p v).1) s, (steps o n p v).2).
Proof.
  intros Ho. revert p v. induction n as [|n IH]; intros p v; [by destruct p|].
  destruct p as [a|X e k]; [done|].
  pose proof (c_effect ctx0 c o (set_cph (Sweeping (Do e k)) s) v (Do e k) Ho eq_refl) as Hs.
  cbn [steps] in *. destruct (do_effect o e v) as [x v1]. eapply rtc_l; [exact Hs|]. apply (IH (k x)).
Qed.

Lemma coord1_reached : rtc (coord_step CtxMain ref_coordinator) (coord_start, busy_world) coord1.
Proof.
  eapply rtc_l; [by apply c_start|]. eapply rtc_l; [by apply c_fire; left|].
  eapply rtc_l; [by apply (c_tick _ _ 5)|]. eapply rtc_l; [apply c_cancel|].
  exact (sweep_steps CtxMain ref_coordinator ref_env 3 (coord_tick 5 CtxMain)
           (MkCoord Idle false true 1) busy_world ref_runtime_ok).
Qed.

Lemma coordinator_stops_witness :
  (cph coord1.1 = CoordPanicked -> CoordinatorSweepInterval (coord_cfg ref_coordinator) <= 0) /\
  (CoordinatorSweepInterval (coord_cfg ref_coordinator) <= 0 ->
   cph coord1.1 = Starting \/ cph coord1.1 = CoordPanicked) /\
  (cph coord1.1 = CoordReturned -> ccanceled coord1.1 = true) /\
  (0 < CoordinatorSweepInterval (coord_cfg ref_coordinator) -> ccanceled coord1.1 = true ->
   exists s' v'', rtc (coord_step CtxMain ref_coordinator) (coord1.1, coord1.2) (s', v'') /\
     cph s' = CoordReturned /\ sweeps s' = sweeps coord1.1).
Proof.
  apply (coordinator_stops CtxMain ref_coordinator ref_env coord1.1 busy_world coord1.2).
  - exact ref_runtime_ok.
  - exact coord1_reached.
Defined.
