(* ===== verification/Hub.v ===== *)
(** * The WebSocket hub ([internal/ws/hub.go])

    The clients are objects in a heap, the hub's map a set of their addresses;
    [send] is a Go channel: a buffer of 64, and a flag once it is closed. Sending
    on a closed channel or closing it again panics ([None]). One step is one
    channel operation, one critical section or one write of one goroutine; the
    read lock of [broadcast] is held from its first send to its last. The socket
    is outside: a read or a write fails whenever it likes. For the statements a
    client remembers when it joined, what was offered to it and how many
    messages were waiting then, and the message a failed write took with it. *)

From S2P Require Import Prelude.

Record client := MkClient {
  send : list string;              (* the channel's buffer *)
  send_closed : bool;
  writing : bool;                  (* writeLoop runs *)
  reading : option bool;           (* readLoop: running, leaving (Some false), gone *)
  sent : list string;              (* text frames written to the socket *)
  lost : list string;              (* taken by a write that failed *)
  joined : nat;                    (* broadcasts begun before it was registered *)
  offered : list (string * nat)    (* message, messages waiting *)
}.

Record hub := MkHub {
  clients : gset nat;                        (* h.clients *)
  heap : gmap nat client;
  casting : option (string * list nat);      (* broadcast: message, clients to visit *)
  log : list string;                         (* broadcasts begun, oldest first *)
  running : bool                             (* Run has not returned *)
}.

Definition send_cap : nat := 64.

Definition NewHub : hub := MkHub ∅ ∅ None [] true.

Definition put (id : nat) (c : client) (h : hub) : hub :=
  MkHub (clients h) (<[id := c]> (heap h)) (casting h) (log h) (running h).
Definition set_casting (x : option (string * list nat)) (h : hub) : hub :=
  MkHub (clients h) (heap h) x (log h) (running h).

(** ** Channel operations *)

(** [select { case c.send <- b: default: }]. *)
Definition try_send (b : string) (c : client) : option client :=
  if send_closed c then None
  else
    let n := length (send c) in
    Some (MkClient (if (n <? send_cap)%nat then send c ++ [b] else send c) false (writing c)
            (reading c) (sent c) (lost c) (joined c) (offered c ++ [(b, n)])).

(** [close(c.send)]. *)
Definition chan_close (c : client) : option client :=
  if send_closed c then None
  else Some (MkClient (send c) true (writing c) (reading c) (sent c) (lost c) (joined c) (offered c)).

(** ** The hub's operations *)

(** [broadcast]: the loop starts on the clients in some order. *)
Definition broadcast (b : string) (order : list nat) (h : hub) : hub :=
  MkHub (clients h) (heap h) (Some (b, order)) (log h ++ [b]) (running h).

(** One round of its loop. *)
Definition broadcast_round (b : string) (id : nat) (rest : list nat) (h : hub) : option hub :=
  c ← heap h !! id; c' ← try_send b c; Some (set_casting (Some (b, rest)) (put id c' h)).

(** [ServeHTTP] after a successful upgrade. *)
Definition new_client (h : hub) : client :=
  MkClient [] false true (Some true) [] [] (length (log h)) [].
Definition ServeHTTP (id : nat) (h : hub) : hub :=
  MkHub ({[id]} ∪ clients h) (<[id := new_client h]> (heap h)) (casting h) (log h) (running h).

(** [readLoop] on a read error: the deferred [disconnect] is next. *)
Definition read_failed (c : client) : client :=
  MkClient (send c) (send_closed c) (writing c) (Some false) (sent c) (lost c) (joined c) (offered c).
Definition reader_gone (c : client) : client :=
  MkClient (send c) (send_closed c) (writing c) None (sent c) (lost c) (joined c) (offered c).

Definition disconnect (id : nat) (h : hub) : option hub :=
  c ← heap h !! id;
  if decide (id ∈ clients h) then
    c' ← chan_close c;
    Some (MkHub (clients h ∖ {[id]}) (<[id := reader_gone c']> (heap h)) (casting h) (log h) (running h))
  else Some (put id (reader_gone c) h).

(** One round of [writeLoop] that takes a message: the write succeeds or not. *)
Definition write_message (ok : bool) (c : client) : option client :=
  match send c with
  | [] => None
  | b :: l =>
      Some (if ok
            then MkClient l (send_closed c) true (reading c) (sent c ++ [b]) (lost c) (joined c) (offered c)
            else MkClient l (send_closed c) false (reading c) (sent c) (lost c ++ [b]) (joined c) (offered c))
  end.

(** [writeLoop] ends on a closed and drained channel, or on a ping that fails. *)
Definition writer_ends (c : client) : client :=
  MkClient (send c) (send_closed c) false (reading c) (sent c) (lost c) (joined c) (offered c).

Definition ClientCount (h : hub) : nat := size (clients h).

Inductive hub_step (h : hub) : hub -> Prop :=
  | h_message b order :
      running h = true -> casting h = None -> order ≡ₚ elements (clients h) ->
      hub_step h (broadcast b order h)
  | h_round b id rest h' :
      casting h = Some (b, id :: rest) -> broadcast_round b id rest h = Some h' -> hub_step h h'
  | h_unlock b : casting h = Some (b, []) -> hub_step h (set_casting None h)
  | h_stop :
      casting h = None -> hub_step h (MkHub (clients h) (heap h) None (log h) false)
  | h_serve id : casting h = None -> heap h !! id = None -> hub_step h (ServeHTTP id h)
  | h_read_failed id c :
      heap h !! id = Some c -> reading c = Some true -> hub_step h (put id (read_failed c) h)
  | h_disconnect id c h' :
      casting h = None -> heap h !! id = Some c -> reading c = Some false ->
      disconnect id h = Some h' -> hub_step h h'
  | h_write ok id c c' :
      heap h !! id = Some c -> writing c = true -> write_message ok c = Some c' ->
      hub_step h (put id c' h)
  | h_writer_closed id c :
      heap h !! id = Some c -> writing c = true -> send c = [] -> send_closed c = true ->
      hub_step h (put id (writer_ends c) h)
  | h_ping_failed id c :
      heap h !! id = Some c -> writing c = true -> hub_step h (put id (writer_ends c) h).

(** ** The invariant *)

(** What was accepted of what was offered. *)
Definition accepted (l : list (string * nat)) : list string :=
  map fst (filter (fun x => (x.2 < send_cap)%nat) l).

(** Visits of the broadcast in progress still to come to the client. *)
Definition pending (id : nat) (h : hub) : list string :=
  match casting h with
  | Some (b, rest) => if decide (id ∈ rest) then [b] else []
  | None => []
  end.

Record client_ok (h : hub) (id : nat) (c : client) : Prop := {
  buffer_bounded : (length (send c) <= send_cap)%nat;
  open_registered : send_closed c = false <-> id ∈ clients h;
  delivered : accepted (offered c) = sent c ++ lost c ++ send c;
  writer_lost : writing c = true -> lost c = [];
  reader_registered : is_Some (reading c) -> id ∈ clients h;
  offers : id ∈ clients h -> map fst (offered c) ++ pending id h = drop (joined c) (log h);
  offers_prefix : map fst (offered c) `prefix_of` drop (joined c) (log h);
  joined_before : (joined c <= length (log h))%nat
}.

Record hub_ok (h : hub) : Prop := {
  clients_heap : forall id, id ∈ clients h -> is_Some (heap h !! id);
  heap_ok : map_Forall (client_ok h) (heap h);
  casting_ok : forall b rest, casting h = Some (b, rest) ->
    NoDup rest /\ forall id, id ∈ rest -> id ∈ clients h
}.

Lemma accepted_snoc l b n :
  accepted (l ++ [(b, n)]) = accepted l ++ (if (n <? send_cap)%nat then [b] else []).
Proof.
  unfold accepted. rewrite filter_app, map_app. f_equal.
  destruct (Nat.ltb_spec n send_cap).
  - by rewrite filter_cons_True.
  - rewrite filter_cons_False by (simpl; lia). done.
Qed.

Lemma new_hub_ok : hub_ok NewHub.
Proof. split; [set_solver|apply map_Forall_empty|done]. Qed.

(** Replacing a client by one that is as good, nothing else changed. *)
Lemma put_ok h id c c' :
  hub_ok h -> heap h !! id = Some c -> client_ok h id c' -> hub_ok (put id c' h).
Proof.
  intros [H1 H2 H3] Hc Hc'. split; simpl; [|apply map_Forall_insert_2|done].
  - intros i Hi. destruct (decide (id = i)) as [->|]; [rewrite lookup_insert_eq; eauto|].
    rewrite lookup_insert_ne by done. auto.
  - by destruct Hc'.
  - intros i x Hx. by destruct (H2 i x Hx).
Qed.

Lemma heap_insert h id c (m : gmap nat client) :
  client_ok h id c -> (forall i x, i <> id -> m !! i = Some x -> client_ok h i x) ->
  map_Forall (client_ok h) (<[id := c]> m).
Proof.
  intros Hc Hm i x. destruct (decide (id = i)) as [->|Hne].
  - rewrite lookup_insert_eq. by intros [= <-].
  - rewrite lookup_insert_ne by done. by apply Hm.
Qed.

Lemma heap_present (h : hub) (s : gset nat) id c i :
  i ∈ s -> (i ∈ s -> i <> id -> is_Some (heap h !! i)) -> is_Some (<[id := c]> (heap h) !! i).
Proof.
  intros Hi H. destruct (decide (id = i)) as [->|]; [rewrite lookup_insert_eq; eauto|].
  rewrite lookup_insert_ne by done. auto.
Qed.

(** [client_ok] looks at the hub through the registration of the client, its
    pending visit and the log. *)
Lemma client_ok_ext h h' id c :
  (id ∈ clients h' <-> id ∈ clients h) -> pending id h' = pending id h -> log h' = log h ->
  client_ok h id c -> client_ok h' id c.
Proof. intros E1 E2 E3 []. split; rewrite ?E1, ?E2, ?E3; auto. Qed.

Lemma broadcast_ok b order h :
  hub_ok h -> casting h = None -> order ≡ₚ elements (clients h) -> hub_ok (broadcast b order h).
Proof.
  intros [H1 H2 H3] Hn Ho. split; simpl.
  - auto.
  - intros id c Hc. destruct (H2 id c Hc) as [A1 A2 A3 A4 A5 A6 A7 A8].
    assert (Hd : drop (joined c) (log h ++ [b]) = drop (joined c) (log h) ++ [b])
      by (by rewrite drop_app_le).
    split; simpl; try done.
    + intros Hid. rewrite Hd, <- (A6 Hid). unfold pending. rewrite Hn, app_nil_r. simpl.
      by rewrite decide_True by (rewrite Ho; by apply elem_of_elements).
    + rewrite Hd. by apply prefix_app_r.
    + rewrite length_app. lia.
  - intros b' rest [= <- <-]. rewrite Ho. split; [apply NoDup_elements|].
    intros id Hid. apply elem_of_elements. by rewrite <- Ho.
Qed.

Lemma broadcast_round_ok b id rest h h' :
  hub_ok h -> casting h = Some (b, id :: rest) -> broadcast_round b id rest h = Some h' -> hub_ok h'.
Proof.
  intros [H1 H2 H3] Hc. unfold broadcast_round.
  destruct (heap h !! id) as [c|] eqn:E; [|done]. cbn [mbind option_bind].
  unfold try_send. destruct (send_closed c) eqn:Ec; [done|]. cbn [mbind option_bind].
  intros [= <-]. destruct (H3 _ _ Hc) as [[Hnin Hnd]%NoDup_cons Hin].
  assert (Hid : id ∈ clients h) by (apply Hin; left).
  destruct (H2 id c E) as [A1 A2 A3 A4 A5 A6 A7 A8]. split; simpl.
  - intros i Hi. by eapply heap_present; eauto.
  - apply heap_insert.
    + specialize (A6 Hid). unfold pending in A6. rewrite Hc, decide_True in A6 by left.
      assert (Hoff : map fst (offered c ++ [(b, length (send c))]) = drop (joined c) (log h))
        by (by rewrite map_app).
      split; simpl; try done.
      * destruct (Nat.ltb_spec (length (send c)) send_cap); [|done].
        rewrite length_app. simpl. lia.
      * rewrite accepted_snoc, A3. case_if; by rewrite ?app_nil_r, <- ?app_assoc.
      * intros _. unfold pending. simpl. rewrite decide_False by done. by rewrite app_nil_r.
      * by rewrite Hoff.
    + intros i x Hne Hx. apply (client_ok_ext h); [done| |done|by apply H2].
      unfold pending. simpl. rewrite Hc. by rewrite (decide_ext _ (i ∈ id :: rest)) by set_solver.
  - intros b' rest' [= <- <-]. split; [done|]. intros i Hi. apply Hin. by right.
Qed.

Lemma unlock_ok b h :
  hub_ok h -> casting h = Some (b, []) \/ casting h = None -> forall r,
  hub_ok (MkHub (clients h) (heap h) None (log h) r).
Proof.
  intros [H1 H2 H3] Hc r. split; simpl; [done| |done].
  intros i x Hx. apply (client_ok_ext h); [done| |done|by apply H2].
  unfold pending. simpl. destruct Hc as [-> | ->]; [|done].
  by rewrite decide_False by apply not_elem_of_nil.
Qed.

Lemma serve_ok id h :
  hub_ok h -> casting h = None -> heap h !! id = None -> hub_ok (ServeHTTP id h).
Proof.
  intros [H1 H2 H3] Hn Hid. split; simpl.
  - intros i Hi. eapply heap_present; [exact Hi|]. intros Hi' Hne. apply H1. set_solver.
  - apply heap_insert.
    + split; simpl; try done; try lia.
      * split; [set_solver|done].
      * set_solver.
      * intros _. unfold pending. simpl. by rewrite Hn, drop_all.
      * by rewrite drop_all.
    + intros i x Hne Hx. apply (client_ok_ext h); simpl; [set_solver| |done|by apply H2].
      unfold pending. simpl. by rewrite Hn.
  - by rewrite Hn.
Qed.

(** The deferred [disconnect] of a reader finds its client registered and its
    channel open. *)
Lemma disconnect_spec id c h :
  hub_ok h -> heap h !! id = Some c -> is_Some (reading c) ->
  exists c', chan_close c = Some c' /\
    disconnect id h = Some (MkHub (clients h ∖ {[id]}) (<[id := reader_gone c']> (heap h))
                              (casting h) (log h) (running h)).
Proof.
  intros [H1 H2 H3] E Hr. destruct (H2 id c E) as [A1 A2 A3 A4 A5 A6 A7 A8].
  assert (Hid : id ∈ clients h) by auto.
  unfold disconnect, chan_close. rewrite E. cbn [mbind option_bind]. rewrite decide_True by done.
  rewrite (proj2 A2 Hid). eexists. done.
Qed.

Lemma disconnect_ok id c h h' :
  hub_ok h -> casting h = None -> heap h !! id = Some c -> is_Some (reading c) ->
  disconnect id h = Some h' -> hub_ok h'.
Proof.
  intros Hok Hn E Hr. destruct (disconnect_spec id c h Hok E Hr) as (c' & Hcl & ->).
  intros [= <-]. unfold chan_close in Hcl. destruct (send_closed c); [done|].
  injection Hcl as <-. destruct Hok as [H1 H2 H3].
  destruct (H2 id c E) as [A1 A2 A3 A4 A5 A6 A7 A8]. split; simpl.
  - intros i Hi. eapply heap_present; [exact Hi|]. intros Hi' Hne. apply H1. set_solver.
  - apply heap_insert.
    + split; simpl; try done.
      * split; [done|set_solver].
      * set_solver.
    + intros i x Hne Hx. apply (client_ok_ext h); simpl; [set_solver| |done|by apply H2].
      unfold pending. simpl. by rewrite Hn.
  - by rewrite Hn.
Qed.

Lemma write_ok ok c c' h id :
  client_ok h id c -> writing c = true -> write_message ok c = Some c' -> client_ok h id c'.
Proof.
  intros [A1 A2 A3 A4 A5 A6 A7 A8] Hw. unfold write_message.
  destruct (send c) as [|b l] eqn:E; [done|]. intros [= <-].
  rewrite (A4 Hw) in *. cbn [length app] in *.
  destruct ok; split; simpl; try done; try lia; by rewrite A3, <- ?app_assoc.
Qed.

Lemma hub_step_ok h h' : hub_ok h -> hub_step h h' -> hub_ok h'.
Proof.
  intros Hok [b order _ Hn Ho|b id rest h1 Hc Hr|b Hc|Hc|id Hn Hi|id c E Hr|id c h1 Hn E Hr Hd
    |ok id c c' E Hw Hm|id c E Hw Hs Hcl|id c E Hw].
  - by apply broadcast_ok.
  - by eapply broadcast_round_ok.
  - apply (unlock_ok b); auto.
  - apply (unlock_ok EmptyString); auto.
  - by apply serve_ok.
  - eapply put_ok; [done|done|]. destruct (heap_ok h Hok id c E) as [A1 A2 A3 A4 A5 A6 A7 A8].
    split; simpl; try done. intros _. apply A5. by rewrite Hr.
  - eapply disconnect_ok; [done..| |done]. by rewrite Hr.
  - eapply put_ok; [done|done|]. eapply write_ok; [|done..]. by apply heap_ok.
  - eapply put_ok; [done|done|]. destruct (heap_ok h Hok id c E). by split.
  - eapply put_ok; [done|done|]. destruct (heap_ok h Hok id c E). by split.
Qed.

Lemma hub_reach_ok h : rtc hub_step NewHub h -> hub_ok h.
Proof.
  intros H. pose proof new_hub_ok as Hok. revert Hok.
  induction H as [h|h1 h2 h3 H12 _ IH]; intros Hok; [done|]. by eapply IH, hub_step_ok.
Qed.

(** ** Theorems *)

(** C28: the hub never panics: in every state it reaches, the next send of a broadcast
    finds an open channel, whichever clients have come and gone, and a client
    that disconnects finds its channel not yet closed; the clients counted are
    exactly those with an open channel, none with more than 64 waiting messages. *)
Theorem hub_never_panics (h : hub) :
  rtc hub_step NewHub h ->
  (forall b id rest, casting h = Some (b, id :: rest) -> is_Some (broadcast_round b id rest h)) /\
  (forall id c, heap h !! id = Some c -> reading c = Some false -> is_Some (disconnect id h)) /\
  (forall id, id ∈ clients h <-> exists c, heap h !! id = Some c /\ send_closed c = false) /\
  map_Forall (fun _ c => (length (send c) <= send_cap)%nat) (heap h).
Proof.
  intros Hok%hub_reach_ok. split_and!.
  - intros b id rest Hc. destruct (casting_ok h Hok _ _ Hc) as [_ Hin].
    assert (Hid : id ∈ clients h) by (apply Hin; left).
    destruct (clients_heap h Hok id Hid) as [c E]. unfold broadcast_round, try_send.
    rewrite E. cbn [mbind option_bind].
    rewrite (proj2 (open_registered _ _ _ (heap_ok h Hok id c E)) Hid). by eexists.
  - intros id c E Hr. destruct (disconnect_spec id c h Hok E) as (c' & _ & ->); [|by eexists].
    by rewrite Hr.
  - intros id. split.
    + intros Hid. destruct (clients_heap h Hok id Hid) as [c E]. exists c. split; [done|].
      by apply (open_registered _ _ _ (heap_ok h Hok id c E)).
    + intros (c & E & Hc). by apply (open_registered _ _ _ (heap_ok h Hok id c E)).
  - intros id c E. by destruct (heap_ok h Hok id c E).
Qed.

(** C27: between broadcasts, a connected client has been offered exactly the messages
    broadcast since it registered, in order; the socket has got, in order, those
    that found fewer than 64 waiting, up to the ones still waiting and, once a
    write has failed, the message lost with it. *)
Theorem hub_delivers (h : hub) id c :
  rtc hub_step NewHub h -> casting h = None -> id ∈ clients h -> heap h !! id = Some c ->
  map fst (offered c) = drop (joined c) (log h) /\
  accepted (offered c) = sent c ++ lost c ++ send c /\
  (writing c = true -> lost c = []).
Proof.
  intros Hok%hub_reach_ok Hn Hid E. destruct (heap_ok h Hok id c E) as [A1 A2 A3 A4 A5 A6 A7 A8].
  specialize (A6 Hid). unfold pending in A6. rewrite Hn, app_nil_r in A6. done.
Qed.

(** A client connects, two messages are broadcast, the first is written. *)
Definition hub1 : hub := ServeHTTP 0 NewHub.
Definition round_of (b : string) (h : hub) : hub :=
  default h (broadcast_round b 0 [] (broadcast b [0%nat] h)).
Definition hub2 : hub := set_casting None (round_of "one" hub1).
Definition hub3 : hub := set_casting None (round_of "two" hub2).
Definition written (c : client) : client := default c (write_message true c).
Definition client0 (h : hub) : client := default (new_client h) (heap h !! 0%nat).
Definition hub4 : hub := put 0 (written (client0 hub3)) hub3.

Lemma round_reached b h h' :
  running h = true -> casting h = None -> clients h = {[0%nat]} ->
  broadcast_round b 0 [] (broadcast b [0%nat] h) = Some h' -> casting h' = Some (b, []) ->
  rtc hub_step h (set_casting None h').
Proof.
  intros Hr Hn Hc Hb Hc'. eapply rtc_l; [apply (h_message h b [0%nat]); [done|done|]|].
  { by rewrite Hc, elements_singleton. }
  eapply rtc_l; [by eapply h_round|]. by apply rtc_once, (h_unlock _ b).
Qed.

Lemma hub4_reached : rtc hub_step NewHub hub4.
Proof.
  eapply rtc_l; [by apply (h_serve NewHub 0)|].
  transitivity hub2; [by apply (round_reached "one" hub1)|].
  transitivity hub3; [by apply (round_reached "two" hub2)|].
  by apply rtc_once, (h_write hub3 true 0 (client0 hub3) (written (client0 hub3))).
Qed.

Lemma hub_never_panics_witness :
  (forall b id rest, casting hub4 = Some (b, id :: rest) -> is_Some (broadcast_round b id rest hub4)) /\
  (forall id c, heap hub4 !! id = Some c -> reading c = Some false -> is_Some (disconnect id hub4)) /\
  (forall id, id ∈ clients hub4 <-> exists c, heap hub4 !! id = Some c /\ send_closed c = false) /\
  map_Forall (fun _ c => (length (send c) <= send_cap)%nat) (heap hub4).
Proof. exact (hub_never_panics hub4 hub4_reached). Defined.

Lemma hub_delivers_witness :
  sent (client0 hub4) = ["one"] /\ send (client0 hub4) = ["two"] /\
  (map fst (offered (client0 hub4)) = drop (joined (client0 hub4)) (log hub4) /\
   accepted (offered (client0 hub4)) =
     sent (client0 hub4) ++ lost (client0 hub4) ++ send (client0 hub4) /\
   (writing (client0 hub4) = true -> lost (client0 hub4) = [])).
Proof.
  split; [vm_compute; reflexivity|]. split; [vm_compute; reflexivity|].
  apply (hub_delivers hub4 0 (client0 hub4)).
  - exact hub4_reached.
  - vm_compute; reflexivity.
  - apply elem_of_union_l. by apply elem_of_singleton.
  - vm_compute; reflexivity.
Defined.
