(* ===== verification/Api.v ===== *)
(** * The HTTP handlers ([internal/api/api.go])

    A handler is a program that answers a status and a body; path and query
    parameters reach it as strings. A response whose encoding fails has its status
    sent and no body. [Router.v] puts the handlers together. *)

From S2P Require Import Prelude GoBase F64 GoString Json GoTime GoStd Redis Task Db Effects.
From S2P Require Import Queue Store.

Open Scope Z_scope.
Open Scope taskq_scope.

Inductive body := BJson (j : option json) | BText (s : string) | BEmpty.

Record response := MkResponse { status : Z; content : body }.

(** ** Encoding *)

Section Encoding.
Context {U : Uuid}.

Definition str (s : string) : json := JStr (quote s).
Definition num (z : Z) : json := JNum (itoa z).
Definition time_json (t : Z) : option json := JStr <$> rfc3339 t.

(** A member that is left out when absent. *)
Definition omitempty (name : string) (v : option json) : list (string * json) :=
  match v with Some j => [(name, j)] | None => [] end.

(** A pointer to a time, under [omitempty]. *)
Definition time_member (name : string) (t : option Z) : option (list (string * json)) :=
  match t with
  | None => Some []
  | Some t => (fun j => [(name, j)]) <$> time_json t
  end.

Definition task_json (t : Task) : option json :=
  match payload_json (Payload t), time_json (AvailableAt t), time_member "started_at" (StartedAt t),
        time_member "finished_at" (FinishedAt t),
        (if raw_empty (Result t) then Some [] else (fun j => [("result", j)]) <$> payload_json (Result t)),
        time_json (CreatedAt t), time_json (UpdatedAt t) with
  | Some payload, Some available, Some started, Some finished, Some result, Some created, Some updated =>
      Some (JObj (
        [("id", str (uuid_String (ID t))); ("type", str (Type_ t)); ("payload", payload);
         ("priority", num (Priority t)); ("status", str (Status t));
         ("attempts", num (Attempts t)); ("max_attempts", num (MaxAttempts t));
         ("available_at", available)] ++ started ++ finished ++
        omitempty "worker_id" (str <$> WorkerID t) ++ result ++
        (if String.eqb (LastError t) EmptyString then [] else [("last_error", str (LastError t))]) ++
        [("created_at", created); ("updated_at", updated)]))
  | _, _, _, _, _, _, _ => None
  end.

(** A nil slice is written as [null]. *)
Definition slice_json {A} (f : A -> option json) (l : list A) : option json :=
  match l with [] => Some JNull | _ => JArr <$> mapM f l end.

Definition event_json (e : EventRow) : option json :=
  (fun created => JObj [("id", num (er_id e)); ("task_id", str (uuid_String (er_task_id e)));
     ("event_type", str (er_event_type e)); ("message", str (er_message e));
     ("created_at", created)]) <$> time_json (er_created_at e).

Definition dead_json (d : DeadRow) : option json :=
  match payload_json (Some (dr_payload d)), time_json (dr_failed_at d) with
  | Some payload, Some failed =>
      Some (JObj [("id", num (dr_id d)); ("task_id", str (uuid_String (dr_task_id d)));
        ("reason", str (dr_reason d)); ("payload", payload); ("failed_at", failed)])
  | _, _ => None
  end.

Definition worker_json (w : Worker) : option json :=
  (fun beat => JObj [("id", str (wk_ID w)); ("hostname", str (wk_Hostname w));
     ("status", str (wk_Status w)); ("last_heartbeat", beat)]) <$> time_json (wk_LastHeartbeat w).

(** A map is written with its keys in byte order. *)
Definition key_le {A} (a b : string * A) : Prop := String.le a.1 b.1.
#[export] Instance key_le_dec {A} : RelDecision (@key_le A).
Proof. intros a b. unfold key_le. apply _. Defined.

Definition map_json {A} (f : A -> json) (m : gmap string A) : json :=
  JObj (map (fun kv => (quote kv.1, f kv.2)) (merge_sort key_le (map_to_list m))).

Record QueueDepths := MkQueueDepths { Ready : Z; Delayed : Z; DLQ : Z }.

Record StatsResponse := MkStatsResponse {
  sr_Tasks : Stats;
  sr_Queues : gmap string QueueDepths;
  sr_Clients : Z
}.

Definition stats_json (s : StatsResponse) : json :=
  JObj [("tasks", JObj [("by_status", map_json num (ByStatus (sr_Tasks s)));
                        ("by_type", map_json num (ByType (sr_Tasks s)));
                        ("total", num (Total (sr_Tasks s)))]);
        ("queues", map_json (fun d => JObj [("ready", num (Ready d)); ("delayed", num (Delayed d));
                                            ("dlq", num (DLQ d))]) (sr_Queues s));
        ("ws_clients", num (sr_Clients s))].

Definition writeJSON (code : Z) (v : option json) : response := MkResponse code (BJson v).
Definition writeError (code : Z) (msg : string) : response :=
  writeJSON code (Some (JObj [("error", str msg)])).

End Encoding.

(** ** Decoding *)

Record CreateTaskRequest := MkCreateTaskRequest {
  req_Type : string;
  req_Payload : RawMessage;
  req_Priority : Z;
  req_MaxAttempts : Z
}.

Definition zero_request : CreateTaskRequest := MkCreateTaskRequest EmptyString None 0 0.

Definition assign_request (q : CreateTaskRequest) (m : string * json * string) :
    res CreateTaskRequest :=
  let '(key, v, raw) := m in
  let name := fold_name (unquote key) in
  let '(MkCreateTaskRequest typ pay pri max) := q in
  if String.eqb name "TYPE" then
    match decode_string typ v with
    | Ok x => Ok (MkCreateTaskRequest x pay pri max) | Err e => Err e end
  else if String.eqb name "PAYLOAD" then Ok (MkCreateTaskRequest typ (Some raw) pri max)
  else if String.eqb name "PRIORITY" then
    match decode_int pri v with
    | Ok x => Ok (MkCreateTaskRequest typ pay x max) | Err e => Err e end
  else if String.eqb name "MAX_ATTEMPTS" then
    match decode_int max v with
    | Ok x => Ok (MkCreateTaskRequest typ pay pri x) | Err e => Err e end
  else Ok q.

Fixpoint assign_requests (q : CreateTaskRequest) (ms : list (string * json * string)) :
    res CreateTaskRequest :=
  match ms with
  | [] => Ok q
  | m :: ms' => match assign_request q m with Ok q' => assign_requests q' ms' | Err e => Err e end
  end.

(** [json.NewDecoder(body).Decode]: the first value of the stream; what follows it
    is not read. *)
Definition decode_request (s : string) : res CreateTaskRequest :=
  match parse_value (fuel_for s) (skip_ws s) with
  | None => Err (ErrText "invalid character in JSON input")
  | Some (JNull, _) => Ok zero_request
  | Some (JObj _, rest) =>
      let s' := skip_ws s in
      match object_members (take_str (String.length s' - String.length rest) s') with
      | Some ms => assign_requests zero_request ms
      | None => Err unmarshal_error
      end
  | Some _ => Err unmarshal_error
  end.

(** A query parameter as a number: the default if it is empty or has a rune that is
    not an ASCII digit; the accumulator wraps around. *)
Fixpoint parse_digits (ks : list chunk) (n def : Z) : Z :=
  match ks with
  | [] => n
  | k :: ks' =>
      let r := match k with Rune bs => rune_value bs | Bad _ => 65533 end in
      if (r <? 48) || (57 <? r) then def else parse_digits ks' (wrap64 (n * 10 + (r - 48))) def
  end.

Definition parseInt (s : string) (def : Z) : Z :=
  if String.eqb s EmptyString then def else parse_digits (chunks s) 0 def.

(** ** Handlers *)

Section Server.
Context {U : Uuid} {R : Redis} {P : Postgres}.

Definition healthz : response := MkResponse 200 (BText "ok").

(** [http.Error]. *)
Definition http_error (code : Z) (msg : string) : response :=
  MkResponse code (BText (msg +:+ String (byte_of 10) EmptyString)).

(** [pool.Ping]. *)
Definition pool_Ping (c : ctx) : prog (res unit) := sql c (fun _ d => (Ok tt, d)).

Definition readyz (c : ctx) : prog response :=
  r <- Ping c ;;
  match r with
  | Err err => Ret (http_error 503 ("redis: " +:+ Error err))
  | Ok _ =>
      r <- pool_Ping c ;;
      match r with
      | Err err => Ret (http_error 503 ("postgres: " +:+ Error err))
      | Ok _ => Ret (MkResponse 200 (BText "ready"))
      end
  end.

(** The envelope made of a stored task. *)
Definition fresh_envelope (t : Task) : Envelope :=
  MkEnvelope (ID t) (Type_ t) (Priority t) 0 (MaxAttempts t) (Payload t) 0.

Definition createTask (c : ctx) (reqBody : string) : prog response :=
  match decode_request reqBody with
  | Err _ => Ret (writeError 400 "invalid json")
  | Ok req =>
      if String.eqb (req_Type req) EmptyString then Ret (writeError 400 "type is required")
      else
        let max := if req_MaxAttempts req <=? 0 then 3 else req_MaxAttempts req in
        let payload := if raw_empty (req_Payload req) then Some "{}" else req_Payload req in
        let t := MkTask uuid_Nil (req_Type req) payload (req_Priority req) StatusQueued 0 max
                   zero_time None None None None EmptyString zero_time zero_time in
        r <- CreateTask c t ;;
        match r with
        | (_, Err err) => Ret (writeError 500 (Error err))
        | (t, Ok _) =>
            e <- Enqueue c (fresh_envelope t) ;;
            match e with
            | Err err => Ret (writeError 500 ("enqueue: " +:+ Error err))
            | Ok _ =>
                now <- time_Now ;;
                Publish c (MarshalEvent
                  (MkEvent (ID t) (Type_ t) StatusQueued EmptyString EmptyString now)) ;;;
                Ret (writeJSON 201 (task_json t))
            end
        end
  end.

Definition listTasks (c : ctx) (qstatus qtype qlimit : string) : prog response :=
  r <- ListTasks c qstatus qtype (parseInt qlimit 100) ;;
  match r with
  | Err err => Ret (writeError 500 (Error err))
  | Ok ts => Ret (writeJSON 200 (slice_json task_json ts))
  end.

Definition getTask (c : ctx) (id : string) : prog response :=
  match uuid_Parse id with
  | None => Ret (writeError 400 "invalid id")
  | Some id =>
      r <- GetTask c id ;;
      match r with
      | Err err => if errors_Is err ErrNotFound then Ret (writeError 404 "not found")
                   else Ret (writeError 500 (Error err))
      | Ok t => Ret (writeJSON 200 (task_json t))
      end
  end.

Definition getTaskEvents (c : ctx) (id : string) : prog response :=
  match uuid_Parse id with
  | None => Ret (writeError 400 "invalid id")
  | Some id =>
      r <- ListTaskEvents c id ;;
      match r with
      | Err err => Ret (writeError 500 (Error err))
      | Ok es => Ret (writeJSON 200 (slice_json event_json es))
      end
  end.

Definition cancelTask (c : ctx) (id : string) : prog response :=
  match uuid_Parse id with
  | None => Ret (writeError 400 "invalid id")
  | Some id =>
      r <- MarkCanceled c id ;;
      match r with
      | Err err => Ret (writeError 500 (Error err))
      | Ok _ => Ret (writeJSON 200 (Some (JObj [("status", str "canceled")])))
      end
  end.

Definition listDLQ (c : ctx) (qlimit : string) : prog response :=
  r <- ListDeadLetters c (parseInt qlimit 100) ;;
  match r with
  | Err err => Ret (writeError 500 (Error err))
  | Ok ds => Ret (writeJSON 200 (slice_json dead_json ds))
  end.

Definition redriveDLQ (c : ctx) (id : string) : prog response :=
  match uuid_Parse id with
  | None => Ret (writeError 400 "invalid id")
  | Some id =>
      r <- Redrive c id ;;
      match r with
      | Err err => Ret (writeError 500 (Error err))
      | Ok t =>
          e <- Enqueue c (fresh_envelope t) ;;
          match e with
          | Err err => Ret (writeError 500 ("enqueue: " +:+ Error err))
          | Ok _ => Ret (writeJSON 200 (task_json t))
          end
      end
  end.

Definition listWorkers (c : ctx) : prog response :=
  r <- ListWorkers c ;;
  match r with
  | Err err => Ret (writeError 500 (Error err))
  | Ok ws => Ret (writeJSON 200 (slice_json worker_json ws))
  end.

(** [n, _ := f()]: zero on an error. *)
Definition or_zero (r : res Z) : Z := match r with Ok n => n | Err _ => 0 end.

Fixpoint read_depths (c : ctx) (types : list string) (acc : gmap string QueueDepths) :
    prog (gmap string QueueDepths) :=
  match types with
  | [] => Ret acc
  | t :: rest =>
      ready <- QueueDepth c t ;;
      delayed <- DelayedDepth c t ;;
      dlq <- DLQDepth c t ;;
      read_depths c rest (<[t := MkQueueDepths (or_zero ready) (or_zero delayed) (or_zero dlq)]> acc)
  end.

(** [clients] is what the hub reports, if there is one. *)
Definition getStats (fuel : nat) (c : ctx) (clients : option Z) : prog response :=
  s <- GetStats c ;;
  match s with
  | (_, Err err) => Ret (writeError 500 (Error err))
  | (st, Ok _) =>
      r <- ListTypes fuel c ;;
      match r with
      | Err err => Ret (writeError 500 (Error err))
      | Ok types =>
          depths <- read_depths c types ∅ ;;
          Ret (writeJSON 200 (Some (stats_json (MkStatsResponse st depths (default 0 clients)))))
      end
  end.

End Server.
