(* ===== verification/Router.v ===== *)
(** * The routing table ([Server.Router] in [internal/api/api.go])

    The table of methods, patterns and handlers, and what happens to a request.
    Matching a path against the patterns is the chi library: the class [Chi]
    with its documented behaviour in [ChiLaws]; [RefChi] is a concrete matcher.
    The request-id, real-ip and recover middlewares do not change an answer (no
    handler of the model panics), the CORS middleware is modelled. *)

From S2P Require Import Prelude GoBase F64 GoString Json GoTime GoStd Redis RefRedis Task Db.
From S2P Require Import Effects Queue RefWorld Config Store Api.
From Stdlib Require Import Ascii.

Open Scope Z_scope.
Open Scope taskq_scope.

#[local] Arguments String.append !_ _ / : simpl nomatch.

(** ** Requests *)

(** [query] is [r.URL.Query().Get]. *)
Record request := MkRequest {
  req_method : string;
  req_path : string;
  query : string -> string;
  req_body : string
}.

(** A handler answers, or hands the connection to the hub ([Hub.v]). *)
Inductive answer := Respond (r : response) | Upgrade.

(** ** Matching *)

(** The parts of a path between slashes. *)
Fixpoint segments (s : string) : list string :=
  match s with
  | EmptyString => [EmptyString]
  | String c s' =>
      if chr 47 c then EmptyString :: segments s'
      else match segments s' with
           | f :: r => String c f :: r
           | [] => [String c EmptyString]
           end
  end.

(** [{name}] matches one part. *)
Definition placeholder (seg : string) : option string :=
  match seg with
  | String c s =>
      if chr 123 c then
        match strip_prefix "}" (str_drop (String.length s - 1) s) with
        | Some EmptyString => Some (str_take (String.length s - 1) s)
        | _ => None
        end
      else None
  | EmptyString => None
  end.

(** The library accepts an empty part for a placeholder in the middle of a path
    but not at its end: [lax] accepts both, its negation neither. *)
Fixpoint match_segments (lax : bool) (pat path : list string) : option (list (string * string)) :=
  match pat, path with
  | [], [] => Some []
  | p :: pat', s :: path' =>
      match placeholder p with
      | Some name =>
          if negb lax && String.eqb s EmptyString then None
          else cons (name, s) <$> match_segments lax pat' path'
      | None => if String.eqb p s then match_segments lax pat' path' else None
      end
  | _, _ => None
  end.

Definition match_path (lax : bool) (pat path : string) : option (list (string * string)) :=
  match_segments lax (segments pat) (segments path).

(** What the library does with a method and a path: call the [n]-th route with the
    parameters of the path, or answer itself (404 or 405). *)
Inductive routed := Matched (n : nat) (params : list (string * string)) | Unmatched (r : response).

Class Chi := { chi_route : list (string * string) -> string -> string -> routed }.

Class ChiLaws (C : Chi) : Prop := {
  chi_matched table m path n ps :
    chi_route table m path = Matched n ps ->
    exists pat, table !! n = Some (m, pat) /\ match_path true pat path = Some ps;
  chi_unmatched table m path r :
    chi_route table m path = Unmatched r ->
    (status r = 404 \/ status r = 405) /\
    forall n pat, table !! n = Some (m, pat) -> match_path false pat path = None
}.

(** [chi.URLParam]: empty when there is none. *)
Definition URLParam (ps : list (string * string)) (name : string) : string :=
  match find (fun kv => String.eqb kv.1 name) ps with Some kv => kv.2 | None => EmptyString end.

(** ** The server *)

Section Router.
Context {U : Uuid} {R : Redis} {P : Postgres} {C : Chi}.

(** The store and the queue are the shared services; of the hub, if there is one,
    a handler sees the number of clients. *)
Record Server := MkServer { server_Hub : option Z }.

Abbreviation handler := (request -> list (string * string) -> prog answer).

Definition respond (p : prog response) : prog answer := r <- p ;; Ret (Respond r).

Definition api_routes (fuel : nat) (c : ctx) (s : Server) : list (string * string * handler) :=
  [("POST", "/tasks", fun r _ => respond (createTask c (req_body r)));
   ("GET", "/tasks", fun r _ =>
      respond (listTasks c (query r "status") (query r "type") (query r "limit")));
   ("GET", "/tasks/{id}", fun _ ps => respond (getTask c (URLParam ps "id")));
   ("GET", "/tasks/{id}/events", fun _ ps => respond (getTaskEvents c (URLParam ps "id")));
   ("POST", "/tasks/{id}/cancel", fun _ ps => respond (cancelTask c (URLParam ps "id")));
   ("GET", "/dlq", fun r _ => respond (listDLQ c (query r "limit")));
   ("POST", "/dlq/{id}/redrive", fun _ ps => respond (redriveDLQ c (URLParam ps "id")));
   ("GET", "/workers", fun _ _ => respond (listWorkers c));
   ("GET", "/stats", fun _ _ => respond (getStats fuel c (server_Hub s)))].

(** [r.Route]: the table under a prefix. *)
Definition mount (prefix : string) (table : list (string * string * handler)) :
    list (string * string * handler) :=
  map (fun e => (e.1.1, prefix +:+ e.1.2, e.2)) table.

Definition routes (fuel : nat) (c : ctx) (s : Server) : list (string * string * handler) :=
  [("GET", "/healthz", fun _ _ => Ret (Respond healthz));
   ("GET", "/readyz", fun _ _ => respond (readyz c))] ++
  mount "/api" (api_routes fuel c s) ++
  match server_Hub s with
  | Some _ => [("GET", "/ws", fun _ _ => Ret Upgrade)]
  | None => []
  end.

(** The CORS headers are added to every answer; a preflight request stops here. *)
Definition corsMiddleware (next : request -> prog answer) : request -> prog answer := fun r =>
  if String.eqb (req_method r) "OPTIONS" then Ret (Respond (MkResponse 204 BEmpty)) else next r.

Definition Router (fuel : nat) (c : ctx) (s : Server) : request -> prog answer :=
  corsMiddleware (fun r =>
    match chi_route (map fst (routes fuel c s)) (req_method r) (req_path r) with
    | Matched n ps =>
        match routes fuel c s !! n with
        | Some (_, _, h) => h r ps
        | None => Ret (Respond (MkResponse 404 BEmpty))     (* not reached: [chi_matched] *)
        end
    | Unmatched resp => Ret (Respond resp)
    end).

End Router.

(** ** A reference matcher: the first route that matches *)

Fixpoint first_match (table : list (string * string)) (m path : string) (n : nat) :
    option (nat * list (string * string)) :=
  match table with
  | [] => None
  | (m', pat) :: rest =>
      match (if String.eqb m' m then match_path false pat path else None) with
      | Some ps => Some (n, ps)
      | None => first_match rest m path (S n)
      end
  end.

Definition some_path (table : list (string * string)) (path : string) : bool :=
  existsb (fun e => match match_path false e.2 path with Some _ => true | None => false end) table.

#[export] Instance RefChi : Chi := {
  chi_route table m path :=
    match first_match table m path 0 with
    | Some (n, ps) => Matched n ps
    | None => Unmatched (if some_path table path then MkResponse 405 BEmpty
                         else MkResponse 404 (BText "404 page not found"))
    end
}.

Lemma first_match_found table m path k n ps :
  first_match table m path k = Some (n, ps) ->
  exists pat, (k <= n)%nat /\ table !! (n - k)%nat = Some (m, pat) /\ match_path false pat path = Some ps.
Proof.
  revert k. induction table as [|[m' pat] table IH]; intros k; [done|]. cbn [first_match].
  assert (Hrest : first_match table m path (S k) = Some (n, ps) ->
    exists pat0, (k <= n)%nat /\ ((m', pat) :: table) !! (n - k)%nat = Some (m, pat0) /\
                 match_path false pat0 path = Some ps).
  { intros (pat' & Hle & Hl & Hm)%IH. exists pat'. split; [lia|]. split; [|done].
    by replace (n - k)%nat with (S (n - S k)) by lia. }
  destruct (String.eqb_spec m' m) as [->|]; [|exact Hrest].
  destruct (match_path false pat path) as [ps'|] eqn:E; [|exact Hrest].
  intros [= <- <-]. exists pat. split; [lia|]. by rewrite Nat.sub_diag.
Qed.

Lemma first_match_none table m path k :
  first_match table m path k = None ->
  forall n pat, table !! n = Some (m, pat) -> match_path false pat path = None.
Proof.
  revert k. induction table as [|[m' pat] table IH]; intros k; cbn [first_match]; [done|].
  intros H [|n] pat' Hn; cbn in Hn.
  - injection Hn as -> ->. rewrite String.eqb_refl in H. by destruct (match_path _ _ _).
  - apply (IH (S k)) with n; [|done]. destruct (String.eqb m' m); [|done].
    by destruct (match_path _ _ _).
Qed.

Lemma match_segments_lax pat path ps :
  match_segments false pat path = Some ps -> match_segments true pat path = Some ps.
Proof.
  revert path ps. induction pat as [|p pat IH]; intros [|s path] ps; cbn [match_segments]; try done.
  cbn [negb andb]. destruct (placeholder p) as [name|].
  - case_if; [done|]. intros (l & H & ->)%fmap_Some. apply fmap_Some. eauto.
  - case_if; [apply IH|done].
Qed.

#[export] Instance RefChi_laws : ChiLaws RefChi.
Proof.
  split; simpl; intros table m path *; destruct (first_match table m path 0) as [[n' ps']|] eqn:E; try done.
  - intros [= <- <-]. apply first_match_found in E as (pat & _ & H & Hm).
    rewrite Nat.sub_0_r in H. exists pat. split; [done|]. by apply match_segments_lax.
  - intros [= <-]. split; [destruct (some_path table path); simpl; auto|].
    by eapply first_match_none.
Qed.

(** The table reaches every handler it should. *)
Example routes_events :
  match chi_route (map fst (routes 5 CtxMain (MkServer None))) "GET" "/api/tasks/42/events" with
  | Matched n ps => (n, ps)
  | Unmatched _ => (0%nat, [])
  end = (5%nat, [("id", "42")]).
Proof. vm_compute. reflexivity. Qed.
