(* ===== verification/ApiTypes.v ===== *)
(** * The types of the API's answers

    [jtype]: a small language of JSON types; [contract]: for each route the
    statuses it may answer and the type of the body under each. The theorem:
    every request is answered as the contract of its route says, whatever the
    services answer, and every body sent is JSON that reads back. *)

From S2P Require Import Prelude GoBase F64 GoString Json GoTime GoStd Redis RefRedis Task Db.
From S2P Require Import Effects Queue RefWorld Config Store Api Router.
From Stdlib Require Import Ascii.

Open Scope Z_scope.
Open Scope taskq_scope.

#[local] Arguments String.append !_ _ / : simpl nomatch.

(** ** JSON types *)

#[warnings="-register-all"]
Inductive jtype :=
  | TAny | TNum | TStr
  | TSlice (t : jtype)                              (* a Go slice: an array, or null *)
  | TMap (t : jtype)                                (* a Go map with string keys *)
  | TObject (fields : list (string * bool * jtype)). (* name, required, type: in this order *)

Fixpoint has_type (t : jtype) (j : json) : bool :=
  match t with
  | TAny => true
  | TNum => match j with JNum _ => true | _ => false end
  | TStr => match j with JStr _ => true | _ => false end
  | TSlice t' => match j with JNull => true | JArr l => forallb (has_type t') l | _ => false end
  | TMap t' => match j with JObj ms => forallb (fun kv => has_type t' kv.2) ms | _ => false end
  | TObject fields =>
      match j with
      | JObj ms =>
          (fix go (fs : list (string * bool * jtype)) (ms : list (string * json)) : bool :=
             match fs with
             | [] => match ms with [] => true | _ => false end
             | (name, required, ft) :: fs' =>
                 match ms with
                 | (k, v) :: ms' =>
                     if String.eqb k name && has_type ft v then go fs' ms'
                     else negb required && go fs' ms
                 | [] => negb required && go fs' []
                 end
             end) fields ms
      | _ => false
      end
  end.

Definition req (name : string) (t : jtype) : string * bool * jtype := (name, true, t).
Definition opt (name : string) (t : jtype) : string * bool * jtype := (name, false, t).

Definition TTask : jtype := TObject
  [req "id" TStr; req "type" TStr; req "payload" TAny; req "priority" TNum; req "status" TStr;
   req "attempts" TNum; req "max_attempts" TNum; req "available_at" TStr; opt "started_at" TStr;
   opt "finished_at" TStr; opt "worker_id" TStr; opt "result" TAny; opt "last_error" TStr;
   req "created_at" TStr; req "updated_at" TStr].

Definition TEvent : jtype := TObject
  [req "id" TNum; req "task_id" TStr; req "event_type" TStr; req "message" TStr;
   req "created_at" TStr].

Definition TDead : jtype := TObject
  [req "id" TNum; req "task_id" TStr; req "reason" TStr; req "payload" TAny; req "failed_at" TStr].

Definition TWorker : jtype := TObject
  [req "id" TStr; req "hostname" TStr; req "status" TStr; req "last_heartbeat" TStr].

Definition TDepths : jtype := TObject [req "ready" TNum; req "delayed" TNum; req "dlq" TNum].

Definition TStats : jtype := TObject
  [req "tasks" (TObject [req "by_status" (TMap TNum); req "by_type" (TMap TNum); req "total" TNum]);
   req "queues" (TMap TDepths); req "ws_clients" TNum].

Definition TStatus : jtype := TObject [req "status" TStr].
Definition TError : jtype := TObject [req "error" TStr].

(** ** Contracts *)

(** A body of JSON of the type, or (its encoding failed) none; or plain text. *)
Inductive body_type := AsJson (t : jtype) | AsText | AsNothing.

Definition body_ok (bt : body_type) (b : body) : Prop :=
  match bt, b with
  | AsJson t, BJson (Some j) => has_type t j = true /\ parse (print j) = Some j
  | AsJson _, BJson None => True
  | AsText, BText _ => True
  | AsNothing, BEmpty => True
  | _, _ => False
  end.

Abbreviation contract := (list (Z * body_type)).

Definition meets (ct : contract) (r : response) : Prop :=
  exists bt, (status r, bt) ∈ ct /\ body_ok bt (content r).

Definition errors (codes : list Z) : contract := map (fun c => (c, AsJson TError)) codes.

(** A status, a body type: the routes in the order of [routes]; [None] is the
    hand-over to the hub. *)
Definition contracts : list (option contract) :=
  [Some [(200, AsText)];
   Some [(200, AsText); (503, AsText)];
   Some ((201, AsJson TTask) :: errors [400; 500]);
   Some ((200, AsJson (TSlice TTask)) :: errors [500]);
   Some ((200, AsJson TTask) :: errors [400; 404; 500]);
   Some ((200, AsJson (TSlice TEvent)) :: errors [400; 500]);
   Some ((200, AsJson TStatus) :: errors [400; 500]);
   Some ((200, AsJson (TSlice TDead)) :: errors [500]);
   Some ((200, AsJson TTask) :: errors [400; 500]);
   Some ((200, AsJson (TSlice TWorker)) :: errors [500]);
   Some ((200, AsJson TStats) :: errors [500]);
   None].

(** ** Programs whose every answer satisfies a predicate *)

Section Returns.
Context {U : Uuid} {R : Redis}.

Fixpoint returns {A} (p : prog A) (Q : A -> Prop) : Prop :=
  match p with
  | Ret a => Q a
  | Do e k => forall x, returns (k x) Q
  end.

Lemma returns_run {A} (o : env) (p : prog A) Q w : returns p Q -> Q (run o p w).1.
Proof.
  revert w. induction p as [a|X e k IH]; intros w; simpl; [done|]. intros H.
  destruct (do_effect o e w) as [x w']. by apply IH.
Qed.

Lemma returns_mono {A} (p : prog A) (Q Q' : A -> Prop) :
  (forall a, Q a -> Q' a) -> returns p Q -> returns p Q'.
Proof. intros H. induction p as [a|X e k IH]; simpl; auto. Qed.

Lemma returns_bind {A B} (p : prog A) (f : A -> prog B) Q1 Q :
  returns p Q1 -> (forall a, Q1 a -> returns (f a) Q) -> returns (bind p f) Q.
Proof. intros Hp Hf. induction p as [a|X e k IH]; simpl in *; auto. Qed.

Lemma returns_any {A B} (p : prog A) (f : A -> prog B) Q :
  (forall a, returns (f a) Q) -> returns (bind p f) Q.
Proof. intros Hf. induction p as [a|X e k IH]; simpl in *; auto. Qed.

End Returns.

(** ** Encodings are well formed and typed *)

Lemma plain_raw_ok s : string_forallb plain_char s = true -> raw_ok s = true.
Proof. intros H. rewrite <- (quote_plain s H). apply raw_ok_quote. Qed.

Lemma plain_app a b :
  string_forallb plain_char a = true -> string_forallb plain_char b = true ->
  string_forallb plain_char (a +:+ b) = true.
Proof.
  induction a as [|c a IH]; [done|]. cbn [string_forallb String.append].
  intros [Hc Ha]%andb_prop Hb. by rewrite Hc, IH.
Qed.

Lemma digit_plain z : plain_char (hex_digit (z mod 10)) = true.
Proof.
  pose proof (Z.mod_pos_bound z 10 ltac:(lia)) as H. revert H. generalize (z mod 10). intros d Hd.
  assert (Hc : d = 0 \/ d = 1 \/ d = 2 \/ d = 3 \/ d = 4 \/ d = 5 \/ d = 6 \/ d = 7 \/ d = 8 \/ d = 9)
    by lia.
  destruct Hc as [->|[->|[->|[->|[->|[->|[->|[->|[->| ->]]]]]]]]]; reflexivity.
Qed.

Lemma digits_plain n z : string_forallb plain_char (digits n z) = true.
Proof.
  revert z. induction n as [|n IH]; intros z; [done|]. cbn [digits]. apply plain_app; [done|].
  cbn [string_forallb]. by rewrite digit_plain.
Qed.

Lemma trimmed_plain s :
  string_forallb plain_char s = true -> string_forallb plain_char (drop_trailing_zeros s) = true.
Proof.
  induction s as [|c s IH]; [done|]. cbn [string_forallb drop_trailing_zeros].
  intros [Hc Hs]%andb_prop. specialize (IH Hs). destruct (drop_trailing_zeros s).
  - case_if; [done|]. cbn [string_forallb]. by rewrite Hc.
  - cbn [string_forallb] in *. by rewrite Hc.
Qed.

Lemma fraction_plain ns : string_forallb plain_char (fraction ns) = true.
Proof.
  unfold fraction. pose proof (trimmed_plain _ (digits_plain 9 ns)) as H.
  by destruct (drop_trailing_zeros (digits 9 ns)).
Qed.

#[local] Opaque digits fraction.

Lemma rfc3339_plain t s : rfc3339 t = Some s -> string_forallb plain_char s = true.
Proof.
  unfold rfc3339. destruct (civil _) as [[y m] d]. case_if; [|done]. intros [= <-].
  repeat match goal with
         | |- string_forallb _ (_ +:+ _) = true =>
             apply plain_app; [first [apply digits_plain|apply fraction_plain]|]
         | |- string_forallb _ (String _ _) = true => cbn [string_forallb]; apply andb_true_intro; split
         end; reflexivity.
Qed.

(** [j] is a well-formed value of type [t]. *)
Definition fits (t : jtype) (j : json) : Prop := has_type t j = true /\ wf_json j = true.

Definition not_next (name : string) (ms : list (string * json)) : bool :=
  match ms with (k, _) :: _ => negb (String.eqb k name) | [] => true end.

(** The members of an object against the fields of its type. *)
Inductive members_fit : list (string * bool * jtype) -> list (string * json) -> Prop :=
  | mf_nil : members_fit [] []
  | mf_take name b t v fs ms :
      raw_ok name = true -> fits t v -> members_fit fs ms ->
      members_fit ((name, b, t) :: fs) ((name, v) :: ms)
  | mf_skip name t fs ms :
      not_next name ms = true -> members_fit fs ms -> members_fit ((name, false, t) :: fs) ms.

Lemma fits_object fs ms : members_fit fs ms -> fits (TObject fs) (JObj ms).
Proof.
  intros H. split.
  - induction H as [|name b t v fs ms _ [Ht _] _ IH|name t fs ms Hn _ IH]; [done|..]; cbn in *.
    + by rewrite String.eqb_refl, Ht.
    + destruct ms as [|[k v] ms]; [done|]. cbn in Hn. apply negb_true_iff in Hn. by rewrite Hn.
  - induction H as [|name b t v fs ms Hr [_ Hw] _ IH|]; [done| |done]. cbn in *. by rewrite Hr, Hw.
Qed.

Lemma fits_any j : wf_json j = true -> fits TAny j.
Proof. done. Qed.

Lemma fits_list (t : jtype) l : Forall (fits t) l -> forallb (has_type t) l = true /\ forallb wf_json l = true.
Proof. intros H. induction H as [|j l [H1 H2] _ [IH1 IH2]]; [done|]. cbn. by rewrite H1, H2, IH1, IH2. Qed.

Section Fits.
Context {U : Uuid}.

Lemma fits_str s : fits TStr (str s).
Proof. split; [done|]. apply raw_ok_quote. Qed.

Lemma fits_num z : fits TNum (num z).
Proof. split; [done|]. apply wf_num. Qed.

Lemma fits_payload m j : payload_json m = Some j -> fits TAny j.
Proof. intros H. by apply fits_any, (payload_json_wf m). Qed.

Lemma fits_time t j : time_json t = Some j -> fits TStr j.
Proof.
  unfold time_json. intros (s & Hs & ->)%fmap_Some. split; [done|]. by eapply plain_raw_ok, rfc3339_plain.
Qed.

Lemma time_member_cases name t l :
  time_member name t = Some l -> l = [] \/ exists j, l = [(name, j)] /\ fits TStr j.
Proof.
  unfold time_member. destruct t as [t|]; [|by intros [= <-]; left].
  intros (j & Hj & ->)%fmap_Some. right. exists j. split; [done|]. by eapply fits_time.
Qed.

Lemma fits_slice {A} (t : jtype) (f : A -> option json) l j :
  (forall a b, f a = Some b -> fits t b) -> slice_json f l = Some j -> fits (TSlice t) j.
Proof.
  intros Hf. destruct l as [|a l]; [by intros [= <-]|]. unfold slice_json.
  intros (js & Hjs & ->)%fmap_Some. apply mapM_Some in Hjs.
  assert (H : Forall (fits t) js).
  { revert Hjs. generalize (a :: l). intros l' Hl. induction Hl; constructor; eauto. }
  apply fits_list in H as [H1 H2]. split; [|exact H2]. exact H1.
Qed.

Lemma fits_map {A} (t : jtype) (f : A -> json) (m : gmap string A) :
  (forall a, fits t (f a)) -> fits (TMap t) (map_json f m).
Proof.
  intros Hf. unfold map_json. generalize (merge_sort key_le (map_to_list m)). intros l.
  split; induction l as [|[k v] l IH]; try done;
    cbn [has_type wf_json map forallb fst snd] in *; destruct (Hf v) as [H1 H2].
  - by rewrite H1.
  - by rewrite raw_ok_quote, H2.
Qed.

End Fits.

(** Discharge the fields one after the other. *)
Ltac solve_fields :=
  apply fits_object;
  repeat first
    [ apply mf_nil
    | apply mf_take; [reflexivity|eauto using fits_str, fits_num, fits_payload, fits_time|]
    | apply mf_skip; [reflexivity|] ].

Section FitsRows.
Context {U : Uuid}.

Lemma fits_task t j : task_json t = Some j -> fits TTask j.
Proof.
  unfold task_json.
  destruct (payload_json (Payload t)) as [payload|] eqn:E1; [|done].
  destruct (time_json (AvailableAt t)) as [available|] eqn:E2; [|done].
  destruct (time_member "started_at" _) as [started|] eqn:E3; [|done].
  destruct (time_member "finished_at" _) as [finished|] eqn:E4; [|done].
  destruct (if raw_empty (Result t) then _ else _) as [result|] eqn:E5; [|done].
  destruct (time_json (CreatedAt t)) as [created|] eqn:E6; [|done].
  destruct (time_json (UpdatedAt t)) as [updated|] eqn:E7; [|done]. intros [= <-].
  assert (Hr : result = [] \/ exists j, result = [("result", j)] /\ fits TAny j).
  { destruct (raw_empty (Result t)); [left; congruence|right].
    apply fmap_Some in E5 as (r & Hr & ->). exists r. split; [done|]. by eapply fits_payload. }
  clear E5.
  destruct (time_member_cases _ _ _ E3) as [->|(s & -> & Hs)];
    destruct (time_member_cases _ _ _ E4) as [->|(f & -> & Hf)];
    destruct Hr as [->|(r & -> & Hr)]; destruct (WorkerID t) as [w|];
    destruct (String.eqb (LastError t) EmptyString); cbn [app fmap option_fmap option_map omitempty]; solve_fields.
Qed.

Lemma fits_event e j : event_json e = Some j -> fits TEvent j.
Proof. unfold event_json. intros (c & Hc & ->)%fmap_Some. solve_fields. Qed.

Lemma fits_dead d j : dead_json d = Some j -> fits TDead j.
Proof.
  unfold dead_json. destruct (payload_json _) as [p|] eqn:E1; [|done].
  destruct (time_json _) as [f|] eqn:E2; [|done]. intros [= <-]. solve_fields.
Qed.

Lemma fits_worker w j : worker_json w = Some j -> fits TWorker j.
Proof. unfold worker_json. intros (c & Hc & ->)%fmap_Some. solve_fields. Qed.

Lemma fits_depths d :
  fits TDepths (JObj [("ready", num (Ready d)); ("delayed", num (Delayed d)); ("dlq", num (DLQ d))]).
Proof. solve_fields. Qed.

Lemma fits_stats s : fits TStats (stats_json s).
Proof.
  unfold stats_json. apply fits_object.
  apply mf_take; [reflexivity|solve_fields; apply fits_map, fits_num|].
  apply mf_take; [reflexivity|apply fits_map, fits_depths|].
  apply mf_take; [reflexivity|apply fits_num|apply mf_nil].
Qed.

End FitsRows.

(** ** Every handler meets its contract *)

Lemma body_json t (v : option json) :
  (forall j, v = Some j -> fits t j) -> body_ok (AsJson t) (BJson v).
Proof.
  intros H. destruct v as [j|]; [|done]. destruct (H j eq_refl) as [H1 H2].
  split; [done|]. by apply parse_print.
Qed.

Lemma meets_json ct code t v :
  (code, AsJson t) ∈ ct -> (forall j, v = Some j -> fits t j) -> meets ct (writeJSON code v).
Proof. intros H Hv. exists (AsJson t). split; [done|]. by apply body_json. Qed.

Lemma fits_error msg : fits TError (JObj [("error", str msg)]).
Proof. solve_fields. Qed.

Lemma meets_error ct code msg : (code, AsJson TError) ∈ ct -> meets ct (writeError code msg).
Proof. intros H. eapply meets_json; [exact H|]. intros j [= <-]. apply fits_error. Qed.

Lemma meets_text ct code s : (code, AsText) ∈ ct -> meets ct (MkResponse code (BText s)).
Proof. intros H. exists AsText. by split. Qed.

(** Membership in a literal contract. *)
Ltac listed := cbn; repeat (first [left; reflexivity|right]).

Ltac responds :=
  cbn [returns];
  first [ apply meets_error; listed
        | eapply meets_json; [listed|intros ? ?] ].

Section Contracts.
Context {U : Uuid} {R : Redis} {P : Postgres}.

Lemma typed_readyz c : returns (readyz c) (meets [(200, AsText); (503, AsText)]).
Proof.
  apply returns_any. intros [u|e]; [|apply meets_text; listed].
  apply returns_any. intros [u'|e]; apply meets_text; listed.
Qed.

Lemma typed_createTask c b :
  returns (createTask c b) (meets ((201, AsJson TTask) :: errors [400; 500])).
Proof.
  unfold createTask. destruct (decode_request b) as [q|]; [|responds]. case_if; [responds|]. cbv zeta.
  apply returns_any. intros [t [u|e]]; [|responds].
  apply returns_any. intros [u'|e]; [|responds].
  apply returns_any. intros now. apply returns_any. intros _. responds. by apply fits_task with t.
Qed.

Lemma typed_listTasks c a b l :
  returns (listTasks c a b l) (meets ((200, AsJson (TSlice TTask)) :: errors [500])).
Proof.
  apply returns_any. intros [ts|e]; [|responds]. responds. by eapply fits_slice; [apply fits_task|].
Qed.

Lemma typed_getTask c id :
  returns (getTask c id) (meets ((200, AsJson TTask) :: errors [400; 404; 500])).
Proof.
  unfold getTask. destruct (uuid_Parse id) as [u|]; [|responds].
  apply returns_any. intros [t|e]; [|case_if; responds]. responds. by eapply fits_task.
Qed.

Lemma typed_getTaskEvents c id :
  returns (getTaskEvents c id) (meets ((200, AsJson (TSlice TEvent)) :: errors [400; 500])).
Proof.
  unfold getTaskEvents. destruct (uuid_Parse id) as [u|]; [|responds].
  apply returns_any. intros [es|e]; responds. by eapply fits_slice; [apply fits_event|].
Qed.

Lemma typed_cancelTask c id :
  returns (cancelTask c id) (meets ((200, AsJson TStatus) :: errors [400; 500])).
Proof.
  unfold cancelTask. destruct (uuid_Parse id) as [u|]; [|responds].
  apply returns_any. intros [u'|e]; responds. simplify_eq. solve_fields.
Qed.

Lemma typed_listDLQ c l :
  returns (listDLQ c l) (meets ((200, AsJson (TSlice TDead)) :: errors [500])).
Proof. apply returns_any. intros [ds|e]; responds. by eapply fits_slice; [apply fits_dead|]. Qed.

Lemma typed_redriveDLQ c id :
  returns (redriveDLQ c id) (meets ((200, AsJson TTask) :: errors [400; 500])).
Proof.
  unfold redriveDLQ. destruct (uuid_Parse id) as [u|]; [|responds].
  apply returns_any. intros [t|e]; [|responds]. apply returns_any. intros [u'|e]; responds.
  by eapply fits_task.
Qed.

Lemma typed_listWorkers c :
  returns (listWorkers c) (meets ((200, AsJson (TSlice TWorker)) :: errors [500])).
Proof. apply returns_any. intros [ws|e]; responds. by eapply fits_slice; [apply fits_worker|]. Qed.

Lemma typed_getStats fuel c n :
  returns (getStats fuel c n) (meets ((200, AsJson TStats) :: errors [500])).
Proof.
  apply returns_any. intros [st [u|e]]; [|responds].
  apply returns_any. intros [types|e]; [|responds]. apply returns_any. intros depths. responds.
  simplify_eq. apply fits_stats.
Qed.

(** ** The whole table *)

Definition answer_meets (ct : option contract) (a : answer) : Prop :=
  match ct, a with
  | Some ct, Respond r => meets ct r
  | None, Upgrade => True
  | _, _ => False
  end.

Definition table_typed (table : list (string * string * (request -> list (string * string) -> prog answer)))
    (cts : list (option contract)) : Prop :=
  Forall2 (fun e ct => forall r ps, returns (e.2 r ps) (answer_meets ct)) table cts.

Lemma returns_respond (p : prog response) ct :
  returns p (meets ct) -> returns (respond p) (answer_meets (Some ct)).
Proof. intros H. by eapply returns_bind. Qed.

Lemma api_routes_typed fuel c s :
  table_typed (mount "/api" (api_routes fuel c s)) (take 9 (drop 2 contracts)).
Proof.
  repeat constructor; intros r ps; apply returns_respond; cbn [fst snd].
  - apply typed_createTask.
  - apply typed_listTasks.
  - apply typed_getTask.
  - apply typed_getTaskEvents.
  - apply typed_cancelTask.
  - apply typed_listDLQ.
  - apply typed_redriveDLQ.
  - apply typed_listWorkers.
  - apply typed_getStats.
Qed.

(** Without a hub the last row is absent. *)
Lemma routes_typed fuel c s :
  exists cts, cts `prefix_of` contracts /\ table_typed (routes fuel c s) cts.
Proof.
  assert (H2 : table_typed [("GET", "/healthz", fun _ _ => Ret (Respond healthz));
                            ("GET", "/readyz", fun _ _ => respond (readyz c))] (take 2 contracts)).
  { repeat constructor; intros r ps; cbn [snd].
    - apply meets_text. listed.
    - apply returns_respond, typed_readyz. }
  destruct (server_Hub s) as [n|] eqn:E.
  - exists contracts. split; [done|]. unfold routes. rewrite E.
    apply (Forall2_app (l1' := take 2 contracts) (l2' := drop 2 contracts)); [exact H2|].
    apply (Forall2_app (l1' := take 9 (drop 2 contracts)) (l2' := [None])); [apply api_routes_typed|].
    by repeat constructor.
  - exists (take 11 contracts). split; [by exists [None]|]. unfold routes. rewrite E, app_nil_r.
    apply (Forall2_app (l1' := take 2 contracts) (l2' := take 9 (drop 2 contracts))); [exact H2|].
    apply api_routes_typed.
Qed.

Context {C : Chi} {CL : ChiLaws C}.

(** What a request may be answered. *)
Definition answered (fuel : nat) (c : ctx) (s : Server) (r : request) (a : answer) : Prop :=
  if String.eqb (req_method r) "OPTIONS" then a = Respond (MkResponse 204 BEmpty)
  else match chi_route (map fst (routes fuel c s)) (req_method r) (req_path r) with
       | Matched n _ => exists ct, contracts !! n = Some ct /\ answer_meets ct a
       | Unmatched resp => a = Respond resp /\ (status resp = 404 \/ status resp = 405)
       end.

Lemma Router_answers fuel c s r : returns (Router fuel c s r) (answered fuel c s r).
Proof.
  unfold Router, corsMiddleware, answered. case_if; [done|].
  destruct (chi_route _ _ _) as [n ps|resp] eqn:E; [|split; [done|by apply chi_unmatched in E as [H _]]].
  apply chi_matched in E as (pat & Hn & _).
  apply list_lookup_fmap_Some in Hn as (e & He & Hn).
  destruct (routes_typed fuel c s) as (cts & Hpre & Ht).
  destruct (Forall2_lookup_l _ _ _ _ _ Ht Hn) as (ct & Hct & Hh).
  rewrite Hn. destruct e as [[m p] h]. eapply returns_mono; [|apply Hh].
  intros a Ha. exists ct. split; [|done]. by eapply prefix_lookup_Some.
Qed.

End Contracts.

(** C17: whatever Redis and the database answer or fail to, in any environment and
    from any state, a request is answered according to its route: with one of the
    statuses of the route's contract and, for that status, a body of the
    contract's type (a task, a list of tasks, null included, an error object, ...),
    sent as JSON text that parses back to it, or no body when its encoding failed;
    a preflight request with 204, an unknown path or method with 404 or 405. *)
Theorem api_typed {U : Uuid} {R : Redis} {P : Postgres} {C : Chi} {CL : ChiLaws C}
    (o : env) fuel c s r w :
  answered fuel c s r (run o (Router fuel c s r) w).1.
Proof. apply (returns_run o), Router_answers. Qed.

(** A submission, then the list of tasks, on the reference services. *)
Definition quoted_task : string := print (JObj [("type", JStr (quote "echo"))]).
Definition post_task : request := MkRequest "POST" "/api/tasks" (fun _ => EmptyString) quoted_task.
Definition get_tasks : request := MkRequest "GET" "/api/tasks" (fun _ => EmptyString) EmptyString.
Definition posted_world : world := (run ref_env (Router 5 CtxMain (MkServer None) post_task) ref_world).2.

Definition status_of (a : answer) : Z := match a with Respond r => status r | Upgrade => 101 end.
Definition json_of (a : answer) : option json :=
  match a with Respond (MkResponse _ (BJson j)) => j | _ => None end.

Example posted_status :
  status_of (run ref_env (Router 5 CtxMain (MkServer None) post_task) ref_world).1 = 201 /\
  (has_type (TSlice TTask) <$>
     json_of (run ref_env (Router 5 CtxMain (MkServer None) get_tasks) posted_world).1) = Some true /\
  (has_type TError <$>
     json_of (run ref_env (Router 5 CtxMain (MkServer None) get_tasks) posted_world).1) = Some false.
Proof. vm_compute. repeat split. Qed.

Lemma api_typed_witness :
  answered 5 CtxMain (MkServer None) get_tasks
    (run ref_env (Router 5 CtxMain (MkServer None) get_tasks) posted_world).1.
Proof. exact (api_typed ref_env 5 CtxMain (MkServer None) get_tasks posted_world). Defined.
