(* ===== verification/ApiThms.v ===== *)
(** * Correctness of the HTTP handlers

    How a query number is read, what a submission leaves behind when it is
    refused, when it succeeds and when only its enqueueing fails. *)

From S2P Require Import Prelude GoBase F64 GoString Json GoTime GoStd Redis RefRedis Task Db.
From S2P Require Import Effects Queue Abstract QueueSpec QueueInv RefWorld Config Store StoreInv.
From S2P Require Import StoreThms Scheduler SchedulerSpec LossWindows Api.
From Stdlib Require Import Ascii.

Open Scope Z_scope.
Open Scope taskq_scope.

#[local] Arguments String.append !_ _ / : simpl nomatch.

(** ** Numbers in the query *)

Lemma parse_digits_value (s : string) (n def : Z) :
  string_forallb is_digit s = true -> 0 <= n -> digits_value n s < 2 ^ 63 ->
  parse_digits (chunks s) n def = digits_value n s.
Proof.
  revert n. induction s as [|c s IH]; intros n Hs Hn Hb; [done|].
  cbn [string_forallb] in Hs. apply andb_prop in Hs as [Hc Hs].
  assert (Hcode : 48 <= code c <= 57) by (unfold is_digit, in_range in Hc; lia).
  cbn [chunks]. rewrite (proj2 (Z.ltb_lt (code c) 128)) by lia. cbn [parse_digits rune_value].
  rewrite (proj2 (Z.ltb_ge (code c) 48)), (proj2 (Z.ltb_ge 57 (code c))) by lia. cbn [orb].
  cbn [digits_value] in Hb |- *.
  assert (Hle : forall s m, string_forallb is_digit s = true -> 0 <= m -> m <= digits_value m s).
  { clear. induction s as [|c s IH]; intros m Hs Hm; [simpl; lia|]. cbn [string_forallb digits_value] in *.
    apply andb_prop in Hs as [Hc Hs]. unfold is_digit, in_range in Hc.
    etransitivity; [|apply IH; [done|]]; lia. }
  pose proof (Hle s (n * 10 + (code c - 48)) Hs ltac:(lia)).
  rewrite wrap64_id by (unfold in_int64, min_int64, max_int64; lia). apply IH; (done || lia).
Qed.

Definition ascii_only (s : string) : bool := string_forallb (fun c => code c <? 128) s.

Lemma parse_digits_reject (s : string) (n def : Z) :
  ascii_only s = true -> string_forallb is_digit s = false -> parse_digits (chunks s) n def = def.
Proof.
  unfold ascii_only. revert n. induction s as [|c s IH]; intros n Ha Hd; [done|].
  cbn [string_forallb] in *. apply andb_prop in Ha as [Hc Ha].
  cbn [chunks]. rewrite Hc. cbn [parse_digits rune_value].
  destruct ((code c <? 48) || (57 <? code c)) eqn:E; [done|].
  apply IH; [done|]. destruct (string_forallb is_digit s); [|done].
  unfold is_digit, in_range in Hd. lia.
Qed.

(** A query number made of digits whose value fits 64 bits is read as that
    value (so the decimal form of any such number is read back); an empty value
    and an ASCII value with any other character give the default. *)
Theorem parseInt_reads (s : string) (def : Z) :
  ascii_only s = true -> digits_value 0 s < 2 ^ 63 ->
  parseInt s def =
    if String.eqb s EmptyString || negb (string_forallb is_digit s) then def else digits_value 0 s.
Proof.
  intros Ha Hb. unfold parseInt. destruct (String.eqb s EmptyString); [done|]. cbn [orb].
  destruct (string_forallb is_digit s) eqn:E.
  - by apply parse_digits_value.
  - by apply parse_digits_reject.
Qed.

Lemma parseInt_reads_witness :
  parseInt "250" 100 =
    if String.eqb "250" EmptyString || negb (string_forallb is_digit "250")
    then 100 else digits_value 0 "250".
Proof. apply (parseInt_reads "250" 100); vm_compute; reflexivity. Defined.

(** ** Submission *)

(** The task row a valid request asks for. *)
Definition requested {U : Uuid} (req : CreateTaskRequest) : Task :=
  MkTask uuid_Nil (req_Type req)
    (if raw_empty (req_Payload req) then Some "{}" else req_Payload req) (req_Priority req)
    StatusQueued 0 (if req_MaxAttempts req <=? 0 then 3 else req_MaxAttempts req)
    zero_time None None None None EmptyString zero_time zero_time.

(** A request whose body is not JSON of the right shape, or has no type, is
    answered 400 before anything is sent: no row, no envelope, no effect at all. *)
Theorem create_task_refuses {U : Uuid} {R : Redis} {P : Postgres} (o : env) c reqBody w :
  match decode_request reqBody with
  | Err _ => run o (createTask c reqBody) w = (writeError 400 "invalid json", w)
  | Ok req => req_Type req = EmptyString ->
              run o (createTask c reqBody) w = (writeError 400 "type is required", w)
  end.
Proof.
  unfold createTask. destruct (decode_request reqBody) as [req|]; [|done]. by intros ->.
Qed.

Lemma publish_keeps {U : Uuid} {R : Redis} {RL : RedisLaws R} (o : env) c m w :
  quiet o -> good w ->
  exists x w', run o (Publish c m) w = (x, w') /\ good w' /\ l_q (abs w') ≡ l_q (abs w) /\
    database w' = database w.
Proof.
  intros Hq Hg. unfold Publish. destruct m as [b|err]; [|by exists (Err err), w].
  destruct (yields_publish o Hq c b w Hg) as (w' & H1 & (H2 & H3 & _) & H4 & _).
  by exists (Ok tt), w'.
Qed.

Lemma requested_payload {U : Uuid} req id av now :
  Payload (filled (requested req) id av now) = Payload (requested req).
Proof.
  destruct req as [ty pl pr mx]. unfold filled, requested. cbn.
  destruct (raw_empty pl) eqn:E; [done|]. by rewrite E.
Qed.

Lemma marshal_some {U : Uuid} (e : Envelope) p :
  payload_json (env_Payload e) = Some p -> exists m, Marshal e = Ok m.
Proof. intros Hp. unfold Marshal. rewrite Hp. eauto. Qed.

(** Stamping the enqueue time changes nothing else. *)
Lemma stamped_fields {U : Uuid} {R : Redis} (o : env) (e : Envelope) w :
  env_ID (stamped o e w) = env_ID e /\ env_Type (stamped o e w) = env_Type e /\
  env_Priority (stamped o e w) = env_Priority e /\ env_Attempts (stamped o e w) = env_Attempts e /\
  env_MaxAttempts (stamped o e w) = env_MaxAttempts e /\
  env_Payload (stamped o e w) = env_Payload e.
Proof. unfold stamped. by destruct (env_EnqueuedAt e =? 0). Qed.


(** A request of type "mail" with priority 7. *)
Definition mail_body : string :=
  print (JObj [("type", JStr (quote "mail")); ("priority", JNum (itoa 7))]).
Definition mail_request : CreateTaskRequest := MkCreateTaskRequest "mail" None 7 0.


(** ** Re-driving *)

Definition dead_row {U : Uuid} (d : db) (id : uuid) : option TaskRow :=
  match tasks d !! id with
  | Some r => if String.eqb (row_status r) StatusDead then Some r else None
  | None => None
  end.

(** C20: re-driving a dead task, when no call fails, is answered 200 with the task,
    whose row is queued again with no attempts used, and puts one envelope with
    its identifier, type, priority, attempt limit and payload and no attempts in
    the ready set; the dead-letter list keeps its entry. For any other identifier
    nothing changes and the answer is 500 (400 if it is not a UUID). *)
Theorem redrive_request_outcome {U : Uuid} {UL : UuidLaws U} {R : Redis} {RL : RedisLaws R}
    {P : Postgres} {PL : PostgresLaws P} (o : env) c s w :
  quiet o -> good w ->
  (forall id r, tasks (database w) !! id = Some r -> is_Some (payload_json (Some (row_payload r)))) ->
  let now := timestamptz_in (clock o (ticks w)) in
  match uuid_Parse s with
  | None => run o (redriveDLQ c s) w = (writeError 400 "invalid id", w)
  | Some id =>
      match dead_row (database w) id with
      | Some r =>
          let t := scanTask id (set_redriven now r) in
          exists e m w', run o (redriveDLQ c s) w = (writeJSON 200 (task_json t), w') /\ good w' /\
            tasks (database w') = <[id := set_redriven now r]> (tasks (database w)) /\
            Marshal e = Ok m /\ env_ID e = id /\ env_Type e = row_type r /\
            env_Priority e = row_priority r /\ env_Attempts e = 0 /\
            env_MaxAttempts e = row_max_attempts r /\ env_Payload e = Some (row_payload r) /\
            l_q (abs w') ≡ push_ready (row_type r)
                             (priorityScore (env_Priority e) (env_EnqueuedAt e)) m (l_q (abs w))
      | None =>
          exists w', run o (redriveDLQ c s) w = (writeError 500 "not found", w') /\
            database w' = database w /\ redis w' = redis w
      end
  end.
Proof.
  intros Hq Hg Hp now. unfold redriveDLQ. destruct (uuid_Parse s) as [id|]; [|done].
  unfold dead_row. pose proof (redrive_run o c id w Hq) as Hr. cbv zeta in Hr. fold now in Hr.
  destruct (tasks (database w) !! id) as [r|] eqn:E;
    [destruct (String.eqb (row_status r) StatusDead)|].
  2, 3: destruct Hr as (w' & H1 & H2); exists w'; rewrite run_bind, H1; done.
  destruct Hr as (w1 & R1 & Hr1 & Ht & _). set (t := scanTask id (set_redriven now r)) in *.
  rewrite run_bind, R1. cbv beta iota.
  assert (Hg1 : good w1) by (unfold good; by rewrite Hr1).
  set (e := stamped o (fresh_envelope t) w1).
  destruct (stamped_fields o (fresh_envelope t) w1) as (E1 & E2 & E3 & E4 & E5 & E6).
  fold e in E1, E2, E3, E4, E5, E6.
  destruct (Hp id r E) as [p Hpj].
  destruct (marshal_some e p) as [m Hm]; [by rewrite E6|].
  destruct (enqueue_yields o Hq c (fresh_envelope t) w1 m Hg1 Hm) as (w2 & R2 & HL & Hg2 & _).
  exists e, m, w2. rewrite run_bind, R2. split; [done|]. split; [done|].
  destruct HL as (HL & HE & _). split; [cbn in HE; rewrite HE; exact Ht|].
  split; [done|]. split_and!; try done.
  etransitivity; [exact HL|]. cbn [on_q l_q]. rewrite E3.
  apply push_ready_proper. unfold abs. cbn. by rewrite Hr1.
Qed.

Lemma redrive_request_outcome_witness :
  let now := timestamptz_in (clock ref_env (ticks buried_world)) in
  exists r, dead_row (database buried_world) (uid 1) = Some r /\
  exists e m w', run ref_env (redriveDLQ CtxMain "1") buried_world =
      (writeJSON 200 (task_json (scanTask (uid 1) (set_redriven now r))), w') /\ good w' /\
    tasks (database w') = <[uid 1 := set_redriven now r]> (tasks (database buried_world)) /\
    Marshal e = Ok m /\ env_ID e = uid 1 /\ env_Type e = row_type r /\
    env_Priority e = row_priority r /\ env_Attempts e = 0 /\
    env_MaxAttempts e = row_max_attempts r /\ env_Payload e = Some (row_payload r) /\
    l_q (abs w') ≡ push_ready (row_type r)
                     (priorityScore (env_Priority e) (env_EnqueuedAt e)) m (l_q (abs buried_world)).
Proof.
  intros now.
  assert (Hg : good buried_world) by (apply well_typedb_sound; vm_compute; reflexivity).
  assert (Hp : forall id r, tasks (database buried_world) !! id = Some r ->
                 is_Some (payload_json (Some (row_payload r)))).
  { intros id r H. assert (Hall : map_Forall (fun _ r => is_Some (payload_json (Some (row_payload r))))
                             (tasks (database buried_world))).
    { apply (bool_decide_unpack _). vm_compute. reflexivity. }
    exact (Hall id r H). }
  pose proof (redrive_request_outcome ref_env CtxMain "1" buried_world ref_quiet Hg Hp) as H.
  cbv zeta in H. change (uuid_Parse "1") with (Some (uid 1)) in H. cbv beta iota in H.
  destruct (dead_row (database buried_world) (uid 1)) as [r|] eqn:E; [|vm_compute in E; discriminate E].
  exists r. split; [reflexivity|exact H].
Defined.

(** ** A submission that is lost *)

(** Redis refuses one command: the seventh effect of a submission, the ZADD. *)
Definition refusing_env : env := MkEnv (U := RefUuid) (clock ref_env) (draw ref_env) (fresh ref_env)
  (shuffle ref_env) (fun n _ => if (n =? 6)%nat then NotSent (ErrText "connection refused") else NoFault)
  (wait ref_env).
Definition refused : response * world := run refusing_env (createTask CtxMain mail_body) ref_world.
Definition refused_swept : world := after (coord_tick 5 CtxMain) refused.2.

