(* ===== verification/Boot.v ===== *)
(** * Starting up ([store.New], [Migrate], [queue.New] and the first half of each
    [main])

    The schema script as data-definition statements run on a catalog, the two
    connection functions and what the three servers do before they diverge. The
    drivers' parsers of connection strings are the class [Drivers]. Closing a
    pool or a client has no effect the model sees. *)

From S2P Require Import Prelude GoBase F64 GoString Json GoStd Redis RefRedis Task Db Effects.
From S2P Require Import Queue RefWorld Config Store StoreInv Lifecycle Api.

Open Scope Z_scope.
Open Scope taskq_scope.

(** ** The schema *)

(** [CREATE TABLE IF NOT EXISTS] and [CREATE INDEX IF NOT EXISTS ... ON]. *)
Inductive ddl := CreateTable (name : string) | CreateIndex (name table : string).

Definition initSQL : list ddl :=
  [CreateTable "tasks";
   CreateIndex "tasks_status_priority_avail_idx" "tasks";
   CreateIndex "tasks_worker_idx" "tasks";
   CreateIndex "tasks_type_idx" "tasks";
   CreateTable "workers";
   CreateTable "task_events";
   CreateIndex "task_events_task_idx" "task_events";
   CreateTable "dead_letters";
   CreateIndex "dead_letters_task_idx" "dead_letters"].

Definition exec_ddl (s : ddl) (cat : gset string) : res (gset string) :=
  match s with
  | CreateTable name => Ok ({[name]} ∪ cat)
  | CreateIndex name table =>
      if decide (table ∈ cat) then Ok ({[name]} ∪ cat)
      else Err (ErrText "ERROR: relation does not exist (SQLSTATE 42P01)")
  end.

Fixpoint exec_all (script : list ddl) (cat : gset string) : res (gset string) :=
  match script with
  | [] => Ok cat
  | s :: rest => match exec_ddl s cat with Ok cat' => exec_all rest cat' | Err e => Err e end
  end.

(** A database: the relations that exist and the rows of the tables (a table that
    does not exist has none). *)
Record pgstate {U : Uuid} := MkPg { catalog : gset string; pg_content : db }.
Arguments MkPg {U}.

(** A script without parameters runs as one transaction. *)
Definition run_script {U : Uuid} (script : list ddl) (s : pgstate) : res unit * pgstate :=
  match exec_all script (catalog s) with
  | Ok cat => (Ok tt, MkPg cat (pg_content s))
  | Err e => (Err e, s)
  end.

Definition ddl_name (s : ddl) : string :=
  match s with CreateTable name => name | CreateIndex name _ => name end.

Definition relations : gset string := list_to_set (map ddl_name initSQL).

Section Boot.
Context {U : Uuid} {R : Redis} {P : Postgres}.


(** The statement on a database where the schema exists. *)
Definition apply_schema : stmt unit := fun e d =>
  let '(r, s) := run_script initSQL (MkPg relations d) in (r, pg_content s).

Lemma apply_schema_reads e d : (apply_schema e d).2 = d.
Proof. reflexivity. Qed.

(** ** Connections *)

Class Drivers := {
  pgxpool_ParseConfig : string -> res unit;
  redis_ParseURL : string -> res unit
}.

Context {D : Drivers}.

(** [store.New]: the pool connects lazily, so a wrong string fails first, an
    unreachable server at the ping. *)
Definition store_New (c : ctx) (dsn : string) : prog (res unit) :=
  match pgxpool_ParseConfig dsn with
  | Err err => Ret (Err (ErrWrap "connect postgres" err))
  | Ok _ =>
      r <- pool_Ping c ;;
      match r with
      | Err err => Ret (Err (ErrWrap "ping postgres" err))
      | Ok _ => Ret (Ok tt)
      end
  end.

Definition Migrate (c : ctx) : prog (res unit) :=
  r <- sql c apply_schema ;;
  match r with
  | Err err => Ret (Err (ErrWrap "apply migrations" err))
  | Ok _ => Ret (Ok tt)
  end.

Definition queue_New (url : string) : res unit :=
  match redis_ParseURL url with
  | Err err => Err (ErrWrap "parse redis url" err)
  | Ok _ => Ok tt
  end.

(** The part the three servers share; an error is what [log.Fatalf] prints before
    the process exits with status 1. *)
Definition boot (c : ctx) (E : environ) : prog (res Config) :=
  let cfg := Load E in
  r <- store_New c (DatabaseURL cfg) ;;
  match r with
  | Err err => Ret (Err (ErrWrap "store" err))
  | Ok _ =>
      r <- Migrate c ;;
      match r with
      | Err err => Ret (Err (ErrWrap "migrate" err))
      | Ok _ =>
          match queue_New (RedisURL cfg) with
          | Err err => Ret (Err (ErrWrap "queue" err))
          | Ok _ => Ret (Ok cfg)
          end
      end
  end.

End Boot.

#[export] Instance RefDrivers : Drivers := {
  pgxpool_ParseConfig _ := Ok tt;
  redis_ParseURL url :=
    if has_prefix "redis://" url then Ok tt else Err (ErrText "redis: invalid URL scheme")
}.

Example migrate_from_partial :
  let s := MkPg (U := RefUuid) {["tasks"; "workers"]} empty_db in
  (run_script initSQL s).1 = Ok tt /\ size (catalog (run_script initSQL s).2) = 9%nat.
Proof. vm_compute. done. Qed.
