(* ===== verification/Safety.v ===== *)
(** * Programs that keep the system's data well formed

    [keeps G p Q]: whatever the answers (failures and lost answers included), each
    Redis effect of [p] is at most one [G]-move of the abstract queue, each SQL
    effect keeps the tables well formed and moves rows along their life cycle,
    and [p] answers a value in [Q]. The statement is about single effects, so it
    holds however the effects of many processes are interleaved and wherever a
    process dies. Every program of the workers, the coordinator and the API
    satisfies it for [queue_move]; all but the lease for [quiet_move]. *)

From S2P Require Import Prelude GoBase F64 GoString Json GoTime GoStd Redis Task Db Effects.
From S2P Require Import Queue Abstract QueueSpec QueueInv QueueMoves Config Handlers Store StoreInv.
From S2P Require Import Lifecycle Scheduler Api SchedulerThms.

Open Scope Z_scope.
Open Scope taskq_scope.

Section Keeps.
Context {U : Uuid} {UL : UuidLaws U} {R : Redis} {P : Postgres}.

(** The Redis half of the invariant. *)
Definition queue_ok (r : rstate) : Prop :=
  well_typed (keyspace_of r) /\ data_ok (view (keyspace_of r)).

(** A key space that changes by at most one move. *)
Definition redis_moves (G : qstate -> qstate -> Prop) (r r' : rstate) : Prop :=
  well_typed (keyspace_of r') /\ may G (view (keyspace_of r)) (view (keyspace_of r')).

Definition keeps_effect {X} (G : qstate -> qstate -> Prop) (e : effect X) : (X -> Prop) -> Prop :=
  match e in effect Y return (Y -> Prop) -> Prop with
  | ERedis c f => fun Q =>
      (forall err, Q (Err err)) /\
      forall now r, queue_ok r -> redis_moves G r (f now r).2 /\ Q (f now r).1
  | ESql c f => fun Q =>
      (forall err, Q (Err err)) /\ (stmt_ok f /\ stmt_moves f) /\
      forall e d, db_ok d -> Q (f e d).1
  | ENow => fun Q => forall t, in_int64 (UnixMilli t) = true -> Q t
  | ERand => fun Q => forall x, Q x
  | EUuid => fun Q => forall u, Q u
  | EOrder l => fun Q => forall l', Q l'
  | EWait c d => fun Q => forall x, Q x
  | EPrint s => fun Q => Q tt
  | ECount w k => fun Q => Q tt
  end.

Fixpoint keeps {A} (G : qstate -> qstate -> Prop) (p : prog A) (Q : A -> Prop) : Prop :=
  match p with
  | Ret a => Q a
  | Do e k => keeps_effect G e (fun x => keeps G (k x) Q)
  end.

Lemma redis_moves_weaken (G G' : qstate -> qstate -> Prop) r r' :
  (forall a b, G a b -> G' a b) -> redis_moves G r r' -> redis_moves G' r r'.
Proof. intros H [Hw Hm]. split; [done|]. by eapply may_weaken. Qed.

Lemma redis_moves_ok (G : qstate -> qstate -> Prop) r r' :
  (forall a b, G a b -> queue_move anyone a b) -> queue_ok r -> redis_moves G r r' -> queue_ok r'.
Proof. intros HG [_ Hd] [Hw Hm]. split; [done|]. by eapply may_data. Qed.

Lemma keeps_effect_mono {X} (G G' : qstate -> qstate -> Prop) (e : effect X) (Q Q' : X -> Prop) :
  (forall a b, G a b -> G' a b) -> (forall x, Q x -> Q' x) ->
  keeps_effect G e Q -> keeps_effect G' e Q'.
Proof.
  intros HG H. destruct e; simpl; try (intros HQ; intros; by apply H, HQ).
  - intros [H1 H2]. split; [auto|]. intros now r Hr. destruct (H2 now r Hr) as [H3 H4].
    split; [by eapply redis_moves_weaken|auto].
  - intros (H1 & H2 & H3). split_and!; try apply H2; auto.
Qed.

Lemma keeps_weaken {A} (G G' : qstate -> qstate -> Prop) (p : prog A) (Q Q' : A -> Prop) :
  (forall a b, G a b -> G' a b) -> (forall a, Q a -> Q' a) -> keeps G p Q -> keeps G' p Q'.
Proof.
  intros HG H. induction p as [a|X e k IH]; simpl; [apply H|].
  apply keeps_effect_mono; [done|]. intros x. apply IH.
Qed.

Lemma keeps_mono {A} G (p : prog A) (Q Q' : A -> Prop) :
  (forall a, Q a -> Q' a) -> keeps G p Q -> keeps G p Q'.
Proof. by apply keeps_weaken. Qed.

Lemma keeps_bind {A B} G (p : prog A) (f : A -> prog B) (Q1 : A -> Prop) (Q : B -> Prop) :
  keeps G p Q1 -> (forall a, Q1 a -> keeps G (f a) Q) -> keeps G (bind p f) Q.
Proof.
  intros Hp Hf. induction p as [a|X e k IH]; simpl in *; [by apply Hf|].
  revert Hp. apply keeps_effect_mono; [done|]. intros x. apply IH.
Qed.

(** One effect, run in any environment whose clock is in range. *)
Definition world_ok (w : world) : Prop := queue_ok (redis w) /\ db_ok (database w).

(** What one effect may do to the world. *)
Record world_moves (G : qstate -> qstate -> Prop) (w w' : world) : Prop := {
  moves_queue : may G (l_q (abs w)) (l_q (abs w'));
  moves_rows : rows_move (tasks (database w)) (tasks (database w'));
  moves_history : db_grows (database w) (database w');
  moves_one : l_q (abs w) = l_q (abs w') \/ database w = database w'
}.

Lemma world_moves_same G w w' :
  keyspace_of (redis w) = keyspace_of (redis w') -> database w = database w' -> world_moves G w w'.
Proof.
  intros H1 H2. split; rewrite ?H2; unfold abs; rewrite ?H1; [apply may_refl|done|done|by left].
Qed.

Lemma do_effect_keeps {X} (o : env) G (e : effect X) Q w :
  (forall a b, G a b -> queue_move anyone a b) -> runtime_ok o -> world_ok w -> keeps_effect G e Q ->
  Q (do_effect o e w).1 /\ world_ok (do_effect o e w).2 /\ world_moves G w (do_effect o e w).2.
Proof.
  intros HG Ho [Hr Hd] He.
  destruct e; cbn in He |- *;
    try (split; [first [exact He|apply He; done || apply (runtime_clock o Ho)]
               |split; [by split|by apply world_moves_same]]).
  - destruct He as [H1 H2]. unfold serve.
    destruct (H2 (clock o (ticks w)) (redis w) Hr) as [H3 H4].
    pose proof (redis_moves_ok G _ _ HG Hr H3) as H5.
    assert (Hm : world_moves G w (with_redis (f (clock o (ticks w)) (redis w)).2 w)).
    { split; [apply H3|done|done|by right]. }
    destruct (faults o (ticks w) c); cbn; split; try done; split; try by split.
    by apply world_moves_same.
  - destruct He as (H1 & [H2 H3] & H4). unfold serve.
    destruct (H2 (sqlenv_at o (ticks w)) (database w) Hd) as [H5 H6].
    specialize (H3 (sqlenv_at o (ticks w)) (database w)).
    specialize (H4 (sqlenv_at o (ticks w)) (database w) Hd).
    assert (Hm : world_moves G w (with_db (f (sqlenv_at o (ticks w)) (database w)).2 w)).
    { split; [apply may_refl|done|done|by left]. }
    destruct (faults o (ticks w) c); cbn; split; try done; split; try by split.
    by apply world_moves_same.
Qed.

(** A move by an envelope of any kind. *)
Lemma quiet_anyone I a b : quiet_move I a b -> queue_move anyone a b.
Proof. intros H. by apply m_quiet, (quiet_move_mono I). Qed.

End Keeps.

(** The rest of the file is about programs that write only envelopes of a kind [I]
    that survives what the code does to envelopes. *)

(** ** The queue's commands *)

Lemma decode_int_in_int64 old v z :
  in_int64 old = true -> decode_int old v = Ok z -> in_int64 z = true.
Proof.
  intros Ho. unfold decode_int. destruct v; try done; [by intros [= <-]|].
  destruct (atoi _) as [x|]; [|done]. destruct (in_int64 x) eqn:E; [|done]. by intros [= <-].
Qed.

Section Commands.
Context {U : Uuid} {UL : UuidLaws U} {R : Redis} {RL : RedisLaws R} {P : Postgres}.
Context {I : Envelope -> Prop}.

(** A program without a lease, its answer ignored. *)
Abbreviation safe p := (keeps (quiet_move I) p (fun _ => True)).
Abbreviation quiet := (quiet_move I).

(** Integers that come off the wire fit 64 bits. *)
Lemma assign_ints e m e' : ints_ok e = true -> assign e m = Ok e' -> ints_ok e' = true.
Proof.
  destruct e as [id typ pri att max pay at_], m as [[k v] raw]. unfold ints_ok, assign. cbn [env_Priority
    env_Attempts env_MaxAttempts env_EnqueuedAt].
  intros [[[H1 H2]%andb_prop H3]%andb_prop H4]%andb_prop.
  repeat case_if; try (destruct (decode_uuid _ _); [|done]); try (destruct (decode_string _ _); [|done]);
    try (destruct (decode_int _ _) eqn:E; [apply decode_int_in_int64 in E; [|done]|done]);
    intros [= <-]; cbn; by rewrite ?H1, ?H2, ?H3, ?H4, ?E.
Qed.

Lemma assign_all_ints ms e e' : ints_ok e = true -> assign_all e ms = Ok e' -> ints_ok e' = true.
Proof.
  revert e. induction ms as [|m ms IH]; intros e He; cbn [assign_all]; [by intros [= <-]|].
  destruct (assign e m) as [e1|] eqn:E; [|done]. apply IH. by eapply assign_ints.
Qed.

Lemma Unmarshal_ints s e : Unmarshal s = Ok e -> ints_ok e = true.
Proof.
  unfold Unmarshal. destruct (parse s) as [[]|]; try done; [by intros [= <-]|].
  destruct (object_members s); [|done]. by apply assign_all_ints.
Qed.

Lemma keeps_rdb {X} G c (f : rstate -> res X * rstate) Q :
  (forall err, Q (Err err)) -> (forall r, queue_ok r -> redis_moves G r (f r).2 /\ Q (f r).1) ->
  keeps G (rdb c f) Q.
Proof. intros H1 H2. split; [done|]. intros now r. apply H2. Qed.

Lemma replies_moves {X} G (f : rstate -> res X * rstate) r Pr ks q :
  replies f r Pr ks -> well_typed ks -> view ks ≡ q -> G (view (keyspace_of r)) q ->
  redis_moves G r (f r).2.
Proof.
  intros (x & r' & -> & _ & <- & _) Hwt Hv HG. split; [done|]. by eapply may_move.
Qed.

Lemma reads_move G r : queue_ok r -> redis_moves G r r.
Proof. intros [H _]. split; [done|apply may_refl]. Qed.

Lemma answers_moves {X} G (f : rstate -> res X * rstate) r x :
  answers f r x -> queue_ok r -> redis_moves G r (f r).2.
Proof. intros ->. apply reads_move. Qed.

(** A command that makes at most one quiet move, its answer not looked at. *)
Definition cmd_ok {X} (f : rstate -> res X * rstate) : Prop :=
  forall r, queue_ok r -> redis_moves quiet r (f r).2.

Lemma safe_rdb {X} c (f : rstate -> res X * rstate) : cmd_ok f -> safe (rdb c f).
Proof. intros Hf. apply keeps_rdb; [done|]. intros r Hr. split; [by apply Hf|done]. Qed.

Lemma zadd_ready_ok e m :
  encodes e m -> I e ->
  cmd_ok (ZADD (QueueKey (env_Type e)) (priorityScore (env_Priority e) (env_EnqueuedAt e)) m).
Proof.
  intros He Hi r [Hw _].
  eapply replies_moves; [exact (zadd_law r (QueueKey _) _ m _ (well_typed_zset _ FReady _ Hw ltac:(auto)))
    |by apply (well_typed_put_zset _ FReady); auto|apply view_put_ready|exact (m_submit I e m (view (keyspace_of r)) He Hi)].
Qed.

Lemma zadd_delayed_ok e s m : encodes e m -> I e -> cmd_ok (ZADD (DelayedKey (env_Type e)) s m).
Proof.
  intros He Hi r [Hw _].
  eapply replies_moves; [exact (zadd_law r (DelayedKey _) _ m _ (well_typed_zset _ FDelayed _ Hw ltac:(auto)))
    |by apply (well_typed_put_zset _ FDelayed); auto|apply view_put_delayed|exact (m_delay I e m s (view (keyspace_of r)) He Hi)].
Qed.

Lemma hdel_ok wk id : cmd_ok (HDEL (InflightKey wk) (uuid_String id)).
Proof.
  intros r [Hw _].
  eapply replies_moves; [exact (hdel_law r (InflightKey wk) _ _ (well_typed_hash _ wk Hw))
    |auto with taskq|apply view_put_inflight|exact (m_release I wk id (view (keyspace_of r)))].
Qed.

Lemma rpush_ok e m : buries e m -> I e -> cmd_ok (RPUSH (DLQKey (env_Type e)) m).
Proof.
  intros He Hi r [Hw _]. set (t := env_Type e).
  assert (Hne : list_at (keyspace_of r) (DLQKey t) ++ [m] <> []) by (intros [_ ?]%app_eq_nil; done).
  eapply replies_moves; [exact (rpush_law r (DLQKey t) m _ (well_typed_list _ t Hw))
    |exact (well_typed_insert _ FDlq t (VList _) Hw Hne)|apply view_put_dlq|exact (m_bury I e m (view (keyspace_of r)) He Hi)].
Qed.

Lemma del_inflight_ok wk : cmd_ok (DEL (InflightKey wk)).
Proof.
  intros r [Hw _].
  eapply replies_moves; [exact (del_law r (InflightKey wk))|auto with taskq|apply view_del_inflight
    |exact (m_clear I wk (view (keyspace_of r)))].
Qed.

Lemma set_beat_ok wk v ttl now : cmd_ok (SET (HeartbeatKey wk) v ttl now).
Proof.
  intros r [Hw _].
  eapply replies_moves; [exact (set_law r (HeartbeatKey wk) v ttl now)
    |by apply (well_typed_insert _ FHeartbeat)|apply view_put_beat|exact (m_beat I wk _ (view (keyspace_of r)))].
Qed.

Lemma publish_ok ch m : cmd_ok (PUBLISH ch m).
Proof.
  intros r Hr. destruct (publish_law r ch m) as (n & r' & -> & Hk & _). cbn.
  destruct (reads_move quiet r Hr). unfold redis_moves. by rewrite Hk.
Qed.

Lemma exists_ok k now : cmd_ok (EXISTS k now).
Proof. intros r Hr. eapply answers_moves; [apply exists_law|done]. Qed.

Lemma hgetall_ok wk : cmd_ok (HGETALL (InflightKey wk)).
Proof. intros r Hr. eapply answers_moves; [by apply hgetall_law, well_typed_hash, Hr|done]. Qed.

Lemma zcard_ok f t : f = FReady \/ f = FDelayed -> cmd_ok (ZCARD (key f t)).
Proof.
  intros Hf r Hr. eapply answers_moves; [|done]. apply zcard_law, well_typed_zset; [apply Hr|done].
Qed.

Lemma llen_ok t : cmd_ok (LLEN (DLQKey t)).
Proof. intros r Hr. eapply answers_moves; [|done]. by apply llen_law, well_typed_list, Hr. Qed.

Lemma scan_ok cur pat n : cmd_ok (SCAN cur pat n).
Proof. intros r Hr. rewrite scan_read. by apply reads_move. Qed.

Lemma ping_ok : cmd_ok PING.
Proof. intros r Hr. eapply answers_moves; [apply ping_law|done]. Qed.

(** The members a promotion reads are promotable. *)
Lemma due_promotable t max n q :
  data_ok q -> promotable anyone t (take n (zupto max (q_delayed q t))).
Proof.
  intros Hd. apply Forall_take, Forall_forall. intros m (s & Hm & _)%elem_of_zupto.
  destruct (ok_delayed _ Hd _ _ _ Hm) as (e & ? & ?). by exists e.
Qed.

Definition due_members (K : Envelope -> Prop) (t : string) (r : res (list string)) : Prop :=
  match r with Ok ms => promotable K t ms | Err _ => True end.

(** Reading them: nothing moves. *)
Lemma zrange_answers t max n r :
  queue_ok r ->
  answers (ZRANGEBYSCORE (DelayedKey t) max 0 n) r
    (take n (zupto max (q_delayed (view (keyspace_of r)) t))).
Proof. intros Hr. exact (zrangebyscore_law r (DelayedKey t) max n _ (well_typed_zset _ FDelayed t (proj1 Hr) ltac:(auto))). Qed.

Lemma keeps_zrange c t max n :
  keeps quiet (rdb c (ZRANGEBYSCORE (DelayedKey t) max 0 n)) (due_members anyone t).
Proof.
  apply keeps_rdb; [done|]. intros r Hr. pose proof (zrange_answers t max n r Hr) as Ha.
  split; [by eapply answers_moves|]. rewrite Ha. exact (due_promotable t max n _ (proj2 Hr)).
Qed.

(** The transaction of a promotion is one move. *)
Lemma promote_tx_ok t nowMs ms :
  in_int64 nowMs = true -> promotable I t ms -> cmd_ok (tx_exec (flat_map (promote_cmds t nowMs) ms)).
Proof.
  intros Hn Hms r [Hw _]. destruct (promote_tx t nowMs ms r Hw) as (r' & Hf & Hw' & Hv & _).
  rewrite Hf. split; [done|]. eapply may_move; [by apply m_promote|exact Hv].
Qed.

(** The script: nothing, or the head of the ready set moves to the table and is
    the answer. *)
Lemma lease_script_cases t wk r :
  queue_ok r ->
  let out := leaseScript (QueueKey t) (InflightKey wk) r in
  (out.1 = Err ErrRedisNil /\ redis_moves quiet r out.2) \/
  exists e m s l, out.1 = Ok (RBulk m) /\ encodes e m /\
    zsorted (q_ready (view (keyspace_of r)) t) = (m, s) :: l /\
    well_typed (keyspace_of out.2) /\
    view (keyspace_of out.2) ≡ lease_move t wk (uuid_String (env_ID e)) m (view (keyspace_of r)).
Proof.
  intros [Hw Hd]. cbv zeta. set (w := MkWorld r empty_db ∅ [] 0).
  destruct (zsorted (ready w t)) as [|[m s] l] eqn:E.
  - left. apply zsorted_nil in E. destruct (lease_script_empty t wk w Hw E) as (r' & Hf & Hk & _).
    cbn in Hf. rewrite Hf. split; [done|]. cbn. unfold redis_moves. rewrite Hk. by split; [|apply may_refl].
  - right. pose proof (zsorted_head_lookup _ _ _ _ E) as Hm.
    destruct (ok_ready _ Hd _ _ _ Hm) as (e & He & _ & _).
    destruct (lease_script_pops t wk w m s l _ Hw E (Marshal_id e m (proj1 He)))
      as (r' & Hf & Hw' & Hv & _).
    exists e, m, s, l. cbn in Hf. rewrite Hf. split_and!; try done.
Qed.

Lemma lease_script_ok t wk r :
  queue_ok r -> redis_moves (queue_move I) r (leaseScript (QueueKey t) (InflightKey wk) r).2.
Proof.
  intros Hr. destruct (lease_script_cases t wk r Hr) as [[_ H]|(e & m & s & l & _ & He & Hz & Hw & Hv)].
  - eapply redis_moves_weaken; [|exact H]. apply m_quiet.
  - split; [done|]. eapply may_move; [by eapply m_lease|exact Hv].
Qed.

End Commands.

#[export] Hint Resolve zadd_ready_ok zadd_delayed_ok hdel_ok rpush_ok del_inflight_ok set_beat_ok
  publish_ok exists_ok hgetall_ok llen_ok scan_ok lease_script_ok ping_ok : taskq.

(** ** The queue's methods *)

Section QueueKeeps.
Context {U : Uuid} {UL : UuidLaws U} {R : Redis} {RL : RedisLaws R} {P : Postgres}.
Context {I : Envelope -> Prop} {HI : Heritable I}.

Abbreviation safe p := (keeps (quiet_move I) p (fun _ => True)).
Abbreviation quiet := (quiet_move I).

Lemma safe_bind {A B} (p : prog A) (f : A -> prog B) Q :
  safe p -> (forall a, keeps quiet (f a) Q) -> keeps quiet (bind p f) Q.
Proof. intros Hp Hf. eapply keeps_bind; [exact Hp|]. auto. Qed.

Lemma safe_weaken {A} (p : prog A) Q : keeps quiet p Q -> safe p.
Proof. by apply keeps_mono. Qed.

Lemma safe_ret {A} (a : A) : safe (Ret a).
Proof. done. Qed.

Lemma safe_now {A} (k : Z -> prog A) G Q :
  (forall t, in_int64 (UnixMilli t) = true -> keeps G (k t) Q) -> keeps G (bind time_Now k) Q.
Proof. intros H t. apply H. Qed.

Lemma safe_order {A B} (l : list A) (k : list A -> prog B) G Q :
  (forall l', keeps G (k l') Q) -> keeps G (bind (range_over l) k) Q.
Proof. intros H l'. apply H. Qed.

(** A command whose answer is only reported. *)
Lemma safe_reported {X Y} c (f : rstate -> res X * rstate) (g : res X -> Y) :
  cmd_ok (I := I) f -> safe (bind (rdb c f) (fun r => Ret (g r))).
Proof. intros Hf. by apply safe_bind; [apply safe_rdb|]. Qed.

Lemma safe_publish c m : safe (Publish c m).
Proof. unfold Publish. destruct m; [|done]. apply safe_reported; auto with taskq. Qed.

Lemma heir e e' :
  I e -> env_ID e = env_ID e' -> env_Type e = env_Type e' ->
  env_Priority e = env_Priority e' -> env_MaxAttempts e = env_MaxAttempts e' -> I e'.
Proof. intros Hi H1 H2 H3 H4. apply (heritable e); congruence. Qed.

Lemma safe_enqueue c e : ints_ok e = true -> I e -> safe (Enqueue c e).
Proof.
  intros He Hi. unfold Enqueue.
  eapply (keeps_bind _ _ _ (fun e => ints_ok e = true /\ I e)).
  { destruct (env_EnqueuedAt e =? 0); [|done]. apply safe_now. intros t Ht.
    split; [by apply ints_set_enqueued|by apply (heir e)]. }
  intros e' [He' Hi']. destruct (Marshal e') as [body|] eqn:E; [|done].
  apply safe_reported. by apply zadd_ready_ok.
Qed.

Lemma safe_enqueue_delayed c e t : ints_ok e = true -> I e -> safe (EnqueueDelayed c e t).
Proof.
  intros He Hi. unfold EnqueueDelayed. destruct (Marshal e) as [body|] eqn:E; [|done].
  apply safe_reported. by apply zadd_delayed_ok.
Qed.

(** A leased envelope came off the wire. *)
Definition leased_ok (r : res Envelope) : Prop :=
  match r with Ok e => ints_ok e = true | Err _ => True end.

Lemma keeps_lease c t wk ttl : keeps (queue_move I) (Lease c t wk ttl) leased_ok.
Proof.
  unfold Lease. apply (keeps_bind _ _ _ (fun _ => True)).
  { apply keeps_rdb; [done|]. intros r Hr. split; [by apply lease_script_ok|done]. }
  intros [[s|n]|err] _; [|done|by case_match].
  destruct (Unmarshal s) as [e|] eqn:E; [|done]. by eapply Unmarshal_ints.
Qed.

Lemma keeps_lease_any c types wk ttl : keeps (queue_move I) (LeaseAny c types wk ttl) leased_ok.
Proof.
  induction types as [|t types IH]; [done|]. cbn [LeaseAny].
  eapply keeps_bind; [apply keeps_lease|]. intros [e|err] H; [done|].
  by destruct (errors_Is err ErrEmpty).
Qed.

Lemma safe_ack c wk id : safe (Ack c wk id).
Proof. apply safe_reported; auto with taskq. Qed.
Lemma safe_nack c wk id : safe (Nack c wk id).
Proof. apply safe_reported; auto with taskq. Qed.

Lemma safe_dead_letter c e reason : ints_ok e = true -> I e -> safe (DeadLetter c e reason).
Proof.
  intros He Hi. apply safe_now. intros t _. destruct (MarshalDead _ _ _) eqn:E; [|done].
  apply safe_reported, rpush_ok; [|done]. split; [done|]. eauto.
Qed.

Lemma safe_heartbeat c wk ttl : safe (Heartbeat c wk ttl).
Proof.
  apply safe_now. intros t _. split; [done|]. intros now r Hr. split; [|done].
  by apply set_beat_ok.
Qed.

Lemma safe_is_alive c wk : safe (IsAlive c wk).
Proof.
  apply safe_bind; [|by intros []]. split; [done|]. intros now r Hr. split; [|done].
  by apply exists_ok.
Qed.

Definition reclaimed_ok (r : res (list Envelope)) : Prop :=
  match r with Ok es => Forall (fun e => ints_ok e = true) es | Err _ => True end.

Lemma decode_all_ints l : Forall (fun e => ints_ok e = true) (decode_all l).
Proof.
  induction l as [|m l IH]; [constructor|]. unfold decode_all in *. cbn [omap list_omap].
  destruct (Unmarshal m) as [e|] eqn:E; [|done]. constructor; [by eapply Unmarshal_ints|done].
Qed.

Lemma keeps_reclaim c wk : keeps quiet (ReclaimInflight c wk) reclaimed_ok.
Proof.
  apply safe_bind; [apply safe_rdb; auto with taskq|]. intros [all|err]; [|done].
  apply safe_order. intros entries. case_if; [|apply decode_all_ints].
  apply safe_bind; [apply safe_rdb; auto with taskq|]. intros _. apply decode_all_ints.
Qed.

(** A promotion after its read. *)
Definition promote_found (c : ctx) (t : string) (now : Z) (r : res (list string)) : prog (res Z) :=
  match r with
  | Err err => Ret (Err err)
  | Ok members =>
      if (length members =? 0)%nat then Ret (Ok 0)
      else
        let cmds := flat_map (promote_cmds t (UnixMilli now)) members in
        x <- (match cmds with [] => Ret (Ok tt) | _ => rdb c (tx_exec cmds) end) ;;
        match x with
        | Err err => Ret (Err err)
        | Ok _ => Ret (Ok (Z.of_nat (length members)))
        end
  end.

Lemma promote_delayed_found c t now :
  PromoteDelayed c t now =
  bind (rdb c (ZRANGEBYSCORE (DelayedKey t) (rnd53 (UnixMilli now)) 0 256)) (promote_found c t now).
Proof. reflexivity. Qed.

Lemma safe_promote_found c t now r :
  in_int64 (UnixMilli now) = true -> due_members I t r -> safe (promote_found c t now r).
Proof.
  intros Hn. destruct r as [ms|err]; [|done]. cbn [due_members]. intros Hms. unfold promote_found.
  case_if; [done|]. cbv zeta. apply safe_bind; [|by intros []].
  destruct (flat_map _ ms) as [|x l] eqn:E; [done|]. rewrite <- E.
  by apply safe_rdb, promote_tx_ok.
Qed.

Lemma safe_scan_keys fuel c pat cur types trim : safe (scan_keys fuel c pat cur types trim).
Proof.
  revert cur types. induction fuel as [|fuel IH]; intros cur types; [done|]. cbn [scan_keys].
  apply safe_bind; [apply safe_rdb; auto with taskq|]. intros [[ks cur']|err]; [|done].
  cbv zeta. case_if; [done|apply IH].
Qed.

Lemma safe_list_types fuel c : safe (ListTypes fuel c).
Proof.
  apply safe_bind; [apply safe_scan_keys|]. intros [types|err]; [|done]. by apply safe_order.
Qed.

Lemma safe_depths c t : safe (QueueDepth c t) /\ safe (DelayedDepth c t) /\ safe (DLQDepth c t).
Proof.
  split_and!; apply safe_rdb; [apply (zcard_ok FReady)|apply (zcard_ok FDelayed)|]; auto with taskq.
Qed.

(** ** The store's methods *)

Lemma safe_sql {X} c (s : stmt X) : stmt_ok s -> stmt_moves s -> safe (sql c s).
Proof. intros Hs Hm. by split_and!. Qed.

Lemma safe_log_event c id typ msg : safe (LogEvent c id typ msg).
Proof. apply safe_sql; auto with taskq. Qed.

Lemma safe_then_log c s id typ msg : stmt_ok s -> stmt_moves s -> safe (then_log c s id typ msg).
Proof.
  intros Hs Hm. apply safe_bind; [by apply safe_sql|]. intros []; [apply safe_log_event|done].
Qed.

Lemma safe_mark_running c id wk : safe (MarkRunning c id wk).
Proof. apply safe_now. intros. apply safe_then_log; auto with taskq. Qed.
Lemma safe_mark_succeeded c id r : safe (MarkSucceeded c id r).
Proof. apply safe_now. intros. apply safe_then_log; auto with taskq. Qed.
Lemma safe_mark_retry c id t e : safe (MarkRetry c id t e).
Proof. apply safe_now. intros. apply safe_then_log; auto with taskq. Qed.
Lemma safe_mark_dead c id e : safe (MarkDead c id e).
Proof. apply safe_now. intros. apply safe_sql; auto with taskq. Qed.
Lemma safe_mark_canceled c id : safe (MarkCanceled c id).
Proof. apply safe_now. intros. apply safe_then_log; auto with taskq. Qed.

Lemma safe_log_all c ts typ msg : safe (log_all c ts typ msg).
Proof.
  induction ts as [|t ts IH]; [done|]. cbn [log_all]. by apply safe_bind; [apply safe_log_event|].
Qed.

Lemma safe_requeue_orphans c l : safe (RequeueOrphans c l).
Proof.
  unfold RequeueOrphans. case_if; [done|].
  apply safe_bind; [apply safe_sql; auto with taskq|]. intros [ts|]; [|done].
  by apply safe_bind; [apply safe_log_all|].
Qed.

Lemma safe_upsert_worker c id h s : safe (UpsertWorker c id h s).
Proof. apply safe_sql; auto with taskq. Qed.

Lemma safe_touch_worker c id : safe (TouchWorker c id).
Proof. apply safe_sql; intros e d; [apply update_worker_ok|apply update_worker_moves]. Qed.

Lemma safe_mark_worker_dead c id : safe (MarkWorkerDead c id).
Proof. apply safe_sql; auto with taskq. Qed.

Lemma stmt_ok_reads {X} (s : stmt X) : (forall e d, (s e d).2 = d) -> stmt_ok s.
Proof. intros H e d Hd. by rewrite H. Qed.

Lemma safe_read {X} c (s : stmt X) : (forall e d, (s e d).2 = d) -> safe (sql c s).
Proof. intros H. apply safe_sql; [by apply stmt_ok_reads|by apply stmt_moves_reads]. Qed.

Lemma safe_get_stats c : safe (GetStats c).
Proof.
  apply safe_bind; [by apply safe_read|]. intros [rows|]; [|done]. cbv zeta.
  apply safe_bind; [by apply safe_read|]. by intros [].
Qed.

(** A row read as a task has integers of 32 bits. *)
Definition task_ints (t : Task) : Prop :=
  int4_ok (Priority t) = true /\ int4_ok (MaxAttempts t) = true.

Definition answered_task (r : res Task) : Prop :=
  match r with Ok t => task_ints t | Err _ => True end.

Lemma keeps_redrive c id : keeps quiet (Redrive c id) answered_task.
Proof.
  unfold Redrive. eapply (keeps_bind _ _ _ answered_task).
  - split; [done|]. split; [split; auto with taskq|]. intros e d Hd. unfold update_redrive.
    destruct (tasks d !! id) as [r|] eqn:E; [|done]. case_if; [|done].
    by destruct (rows_ok d Hd _ _ E) as (_ & ? & _ & ? & _).
  - intros [t|err] Ht; cbn [not_found]; [|by destruct (errors_Is err ErrNoRows)].
    by apply safe_bind; [apply safe_log_event|].
Qed.

(** Creating a queued task. *)
Lemma keeps_create c t :
  Status t = StatusQueued -> Attempts t = 0 ->
  keeps quiet (CreateTask c t) (fun x => match x.2 with Ok _ => task_ints x.1 | Err _ => True end).
Proof.
  intros Hs Ha. unfold CreateTask.
  apply safe_bind; [by case_decide|]. intros id. cbv zeta.
  apply safe_bind; [case_if; [|done]; by apply safe_now|]. intros avail. apply safe_now. intros now _.
  set (t' := MkTask _ _ _ _ _ _ _ _ _ _ _ _ _ _ _).
  assert (Hok : stmt_ok (insert_task t') /\ stmt_moves (insert_task t')).
  { split; [apply insert_task_ok|apply insert_task_moves]; simpl.
    - rewrite Hs. by apply known.
    - case_if; lia.
    - by rewrite Hs.
    - done. }
  eapply (keeps_bind _ _ _ (fun r => match r with Ok _ => task_ints t' | Err _ => True end)).
  - split; [done|]. split; [done|]. intros e d Hd. unfold insert_task.
    destruct (jsonb_in _); [|done]. destruct (tasks d !! ID t'); [done|].
    destruct (_ && _) eqn:Hi; [|done]. bool_to_prop. by split.
  - intros [u|err] Hi; [|done]. eapply keeps_bind; [apply safe_log_event|].
    intros [] _; [done|done].
Qed.

End QueueKeeps.
