(* ===== verification/System.v ===== *)
(** * The whole system: processes interleaved effect by effect

    Workers, coordinators and API servers, any number of each, share one Redis
    and one database. A step of the system starts a program, performs one effect
    of one running program (in an environment of its own: any clock in range,
    any iteration order, any fault) or kills a program. In every reachable state
    the data is well formed and the history has only grown, and every run is one
    of the specification machine. *)

From S2P Require Import Prelude GoBase F64 GoString Json GoTime GoStd Redis RefRedis Task Db.
From S2P Require Import Effects Queue Abstract QueueSpec QueueInv QueueMoves RefWorld Config.
From S2P Require Import Handlers Store StoreInv Lifecycle Scheduler Api Router Boot SchedulerThms Safety.

Open Scope Z_scope.
Open Scope taskq_scope.

(** ** The programs keep the data well formed *)

(** Programs that write only envelopes of a kind [I]. *)
Section Kind.
Context {U : Uuid} {UL : UuidLaws U} {R : Redis} {RL : RedisLaws R} {P : Postgres}.
Context {UC : Unicode} {PF : Platform} {D : Drivers}.
Context {I : Envelope -> Prop} {HI : Heritable I}.

Abbreviation safe p := (keeps (quiet_move I) p (fun _ => True)).

(** Handlers write no envelope. *)
Definition handlers_ok (reg : Registry) : Prop :=
  forall typ h, Lookup reg typ = Some h ->
  forall c t, keeps (quiet_move (fun _ => False)) (h c t) (fun _ => True).

Lemma defaults_ok : handlers_ok (RegisterDefaults NewRegistry).
Proof.
  intros typ h. unfold Lookup, RegisterDefaults, Register, NewRegistry, Registry.
  rewrite !lookup_insert_Some.
  intros [[_ <-]|[_ [[_ <-]|[_ [[_ <-]|[_ [[_ <-]|[_ H]]]]]]]] c t.
  - unfold emailHandler. by case_if.
  - intros x. cbn. by case_if.
  - by intros [].
  - done.
  - by rewrite lookup_empty in H.
Qed.

Lemma safe_publish_event w e status msg : safe (publishEvent w e status msg).
Proof. apply safe_now. intros. by apply safe_bind; [apply safe_publish|]. Qed.

Lemma safe_coord_publish e status msg : safe (coord_publishEvent e status msg).
Proof. apply safe_now. intros. apply safe_reported; auto with taskq. Qed.

Lemma safe_register c w : safe (register c w).
Proof.
  apply safe_bind; [apply safe_upsert_worker|]. intros []; [|done].
  apply safe_bind; [apply safe_heartbeat|]. by intros [].
Qed.

Lemma safe_pause c err : safe (pause c err).
Proof. unfold pause. by case_if; intros x. Qed.

Lemma safe_beat c w : safe (beat c w).
Proof.
  apply safe_bind; [apply safe_heartbeat|]. intros _. by apply safe_bind; [apply safe_touch_worker|].
Qed.

Lemma safe_stop w : safe (stop w).
Proof. by apply safe_bind; [apply safe_mark_worker_dead|]. Qed.

(** Sequences of calls whose answers are ignored. *)
Ltac calls := repeat (apply safe_bind;
  [auto using safe_nack, safe_ack, safe_dead_letter, safe_mark_dead, safe_mark_running,
     safe_mark_succeeded, safe_mark_retry, safe_publish_event, safe_enqueue_delayed|intros _]).

Lemma safe_execute c w e :
  handlers_ok (worker_registry w) -> ints_ok e = true -> I e -> safe (execute c w e).
Proof.
  intros Hh He Hi. unfold execute. destruct (Lookup _ _) as [h|] eqn:E; [|by calls].
  calls. apply safe_bind.
  { eapply keeps_weaken; [|done|by eapply Hh]. intros ??. by apply quiet_move_mono. } intros [r|err]; [by calls|].
  apply safe_bind; [done|]. intros _. cbv zeta.
  assert (Hb : ints_ok (set_attempts (wrap64 (env_Attempts e + 1)) e) = true)
    by (apply ints_set_attempts; auto with taskq).
  assert (Hbi : I (set_attempts (wrap64 (env_Attempts e + 1)) e)) by (by apply (heir e)).
  calls. case_if; [by calls|].
  apply safe_bind; [by intros x|]. intros delay. apply safe_now. intros t _.
  calls. apply safe_publish_event.
Qed.

Lemma safe_requeue_each c wk envs :
  Forall (fun e => ints_ok e = true /\ I e) envs -> safe (requeue_each c wk envs).
Proof.
  induction 1 as [|e envs [He Hi] _ IH]; [done|]. cbn [requeue_each]. cbv zeta.
  assert (Hbi : I (set_attempts (wrap64 (env_Attempts e + 1)) e)) by (by apply (heir e)).
  assert (Hb : ints_ok (set_attempts (wrap64 (env_Attempts e + 1)) e) = true)
    by (apply ints_set_attempts; auto with taskq).
  apply safe_bind; [|done]. case_if.
  - calls. apply safe_coord_publish.
  - apply safe_bind; [by apply safe_enqueue|].
    intros []; [apply safe_coord_publish|done].
Qed.

(** *** Requests *)

Lemma int4_int64 z : int4_ok z = true -> in_int64 z = true.
Proof. unfold int4_ok, in_int64, min_int64, max_int64. lia. Qed.

Lemma fresh_ints t : task_ints t -> ints_ok (fresh_envelope t) = true.
Proof.
  intros [H1 H2]. unfold ints_ok, fresh_envelope. cbn. by rewrite !int4_int64.
Qed.

Lemma safe_cancelTask c id : safe (cancelTask c id).
Proof.
  unfold cancelTask. destruct (uuid_Parse id); [|done].
  apply safe_bind; [apply safe_mark_canceled|]. by intros [].
Qed.

Lemma safe_answer {X Y} c (s : stmt X) (g : res X -> prog Y) :
  (forall e d, (s e d).2 = d) -> (forall r, safe (g r)) -> safe (bind (sql c s) g).
Proof. intros Hs Hg. by apply safe_bind; [apply safe_read|]. Qed.

Lemma safe_readyz c : safe (readyz c).
Proof.
  apply safe_bind; [apply safe_rdb; auto with taskq|]. intros []; [|done].
  apply safe_answer; [done|by intros []].
Qed.

Lemma safe_listTasks c a b l : safe (listTasks c a b l).
Proof.
  apply safe_bind; [|by intros []]. apply safe_read. intros e d. unfold select_tasks. by case_if.
Qed.

Lemma safe_getTask c id : safe (getTask c id).
Proof.
  unfold getTask. destruct (uuid_Parse id) as [u|]; [|done]. unfold GetTask. apply safe_bind.
  - apply safe_answer; [|done]. intros e d. unfold select_task. by destruct (tasks d !! u).
  - intros [t|err]; [done|by case_if].
Qed.

Lemma safe_getTaskEvents c id : safe (getTaskEvents c id).
Proof.
  unfold getTaskEvents. destruct (uuid_Parse id); [|done]. by apply safe_answer; [|intros []].
Qed.

Lemma safe_read_depths c types acc : safe (read_depths c types acc).
Proof.
  revert acc. induction types as [|t types IH]; intros acc; [done|]. cbn [read_depths].
  destruct (safe_depths (I := I) c t) as (H1 & H2 & H3).
  do 3 (apply safe_bind; [done|]; intros ?). apply IH.
Qed.

Lemma safe_getStats fuel c n : safe (getStats fuel c n).
Proof.
  apply safe_bind; [apply safe_get_stats|]. intros [st [[]|]]; [|done].
  apply safe_bind; [apply safe_list_types|]. intros []; [|done].
  by apply safe_bind; [apply safe_read_depths|].
Qed.

Definition forget {A} (p : prog A) : prog unit := bind p (fun _ => Ret tt).

Lemma safe_forget {A} (p : prog A) : safe p -> safe (forget p).
Proof. intros H. by apply safe_bind. Qed.

Lemma safe_respond p : safe p -> safe (respond p).
Proof. intros H. by apply safe_bind. Qed.

Lemma safe_boot c E : safe (boot c E).
Proof.
  assert (Hn : safe (store_New c (DatabaseURL (Load E)))).
  { unfold store_New. destruct (pgxpool_ParseConfig _); [|done]. by apply safe_answer; [|intros []]. }
  apply safe_bind; [exact Hn|]. intros [u|err]; [|done].
  apply safe_bind; [by apply safe_answer; [|intros []]|]. intros [u'|err]; [|done].
  by destruct (queue_New _).
Qed.

Lemma safe_new_worker E host cfg reg : safe (NewWorker E host cfg reg).
Proof. apply safe_bind; [|done]. case_if; [by intros x|done]. Qed.

Lemma safe_served_types w : safe (served_types w).
Proof. unfold served_types. destruct (TaskTypes _); [|done]. by intros l. Qed.

End Kind.

(** ** The programs of the servers *)

Section Programs.
Context {U : Uuid} {UL : UuidLaws U} {R : Redis} {RL : RedisLaws R} {P : Postgres}.
Context {UC : Unicode} {PF : Platform} {C : Chi} {D : Drivers}.

Abbreviation safe p := (keeps (quiet_move anyone) p (fun _ => True)).

(** One round of a worker: what the loop of [Run] does between two slots, and the
    goroutine it starts. *)
Definition serve_one (c : ctx) (w : Worker) (types : list string) : prog unit :=
  r <- LeaseAny c types (worker_ID w) (LeaseTTL (worker_cfg w)) ;;
  match r with Ok e => execute c w e | Err err => pause c err end.

(** A program that may lease. *)
Definition sound {A} (p : prog A) : Prop := keeps (queue_move anyone) p (fun _ => True).

Lemma safe_sound {A} (p : prog A) : safe p -> sound p.
Proof. by apply keeps_weaken; [apply m_quiet|]. Qed.

Lemma sound_serve_one c w types : handlers_ok (worker_registry w) -> sound (serve_one c w types).
Proof.
  intros Hh. eapply keeps_bind; [apply keeps_lease_any|].
  intros [e|err] He; apply safe_sound; [by apply safe_execute|apply safe_pause].
Qed.

Lemma safe_promote c t now : in_int64 (UnixMilli now) = true -> safe (PromoteDelayed c t now).
Proof.
  intros Hn. rewrite promote_delayed_found. eapply keeps_bind; [apply keeps_zrange|].
  intros ms Hms. by apply safe_promote_found.
Qed.

Lemma safe_promote_each c seen types : safe (promote_each c seen types).
Proof.
  revert seen. induction types as [|t types IH]; intros seen; [done|]. cbn [promote_each].
  case_decide; [apply IH|]. apply safe_now. intros now Hn.
  by apply safe_bind; [apply safe_promote|].
Qed.

Lemma safe_reclaim_worker c w : safe (reclaim_worker c w).
Proof.
  unfold reclaim_worker. case_if; [done|]. apply safe_bind; [apply safe_is_alive|].
  intros [[]|]; [done| |done]. eapply keeps_bind; [apply keeps_reclaim|].
  intros [envs|] He; [|done]. apply safe_bind; [apply safe_requeue_each; by eapply Forall_impl|]. intros _.
  apply safe_bind; [apply safe_requeue_orphans|]. intros _.
  by apply safe_bind; [apply safe_mark_worker_dead|].
Qed.

Lemma safe_reclaim_each c ws : safe (reclaim_each c ws).
Proof.
  induction ws as [|w ws IH]; [done|]. cbn [reclaim_each].
  by apply safe_bind; [apply safe_reclaim_worker|].
Qed.

Lemma safe_tick fuel c : safe (coord_tick fuel c).
Proof.
  apply safe_bind.
  - apply safe_bind; [apply safe_list_types|]. intros [types|]; [|done].
    apply safe_bind; [|intros; apply safe_promote_each].
    apply safe_bind; [apply safe_scan_keys|]. intros [ts|]; [by apply safe_order|done].
  - intros _. apply safe_bind; [by apply safe_read|]. intros []; [apply safe_reclaim_each|done].
Qed.

Lemma safe_createTask c b : safe (createTask c b).
Proof.
  unfold createTask. destruct (decode_request b) as [req|]; [|done]. case_if; [done|]. cbv zeta.
  eapply keeps_bind; [by apply keeps_create|]. intros [t [[]|err]] Ht; [|done].
  apply safe_bind; [by apply safe_enqueue; [by apply fresh_ints|]|]. intros []; [|done].
  apply safe_now. intros. by apply safe_bind; [apply safe_publish|].
Qed.

Lemma safe_redriveDLQ c id : safe (redriveDLQ c id).
Proof.
  unfold redriveDLQ. destruct (uuid_Parse id); [|done].
  eapply keeps_bind; [apply keeps_redrive|]. intros [t|] Ht; [|done].
  apply safe_bind; [by apply safe_enqueue; [by apply fresh_ints|]|]. by intros [].
Qed.

(** Every row of the table. *)
Ltac rows :=
  repeat match goal with
         | |- Forall _ [] => apply Forall_nil_2
         | |- Forall _ (_ :: _) => apply Forall_cons_2; [intros r ps|]
         end.

Lemma routes_safe fuel c s :
  Forall (fun e => forall r ps, safe (e.2 r ps)) (routes fuel c s).
Proof.
  unfold routes. rewrite !Forall_app. split_and!.
  - rows; [done|]. by apply safe_respond, safe_readyz.
  - unfold mount, api_routes. cbn [map fst snd]. rows; apply safe_respond.
    + apply safe_createTask.
    + apply safe_listTasks.
    + apply safe_getTask.
    + apply safe_getTaskEvents.
    + apply safe_cancelTask.
    + by apply safe_answer; [|intros []].
    + apply safe_redriveDLQ.
    + by apply safe_answer; [|intros []].
    + apply safe_getStats.
  - destruct (server_Hub s); by rows.
Qed.

Lemma safe_Router fuel c s r : safe (Router fuel c s r).
Proof.
  unfold Router, corsMiddleware. case_if; [done|]. destruct (chi_route _ _ _) as [n ps|]; [|done].
  destruct (routes fuel c s !! n) as [[mp h]|] eqn:E; [|done]. destruct mp as [m pat].
  pose proof (routes_safe fuel c s) as H. rewrite Forall_forall in H.
  apply (H (m, pat, h)). by eapply list_elem_of_lookup_2.
Qed.

(** The programs the three servers run: starting up, a worker's rounds and
    heartbeats, a coordinator's sweeps, the API's requests. *)
Inductive program : prog unit -> Prop :=
  | p_boot c E : program (forget (boot c E))
  | p_new E host cfg reg : program (forget (NewWorker E host cfg reg))
  | p_register c w : program (forget (register c w))
  | p_types w : program (forget (served_types w))
  | p_serve c w types :
      worker_registry w = RegisterDefaults NewRegistry -> program (serve_one c w types)
  | p_beat c w : program (beat c w)
  | p_stop w : program (stop w)
  | p_tick fuel c : program (coord_tick fuel c)
  | p_request fuel c s r : program (forget (Router fuel c s r)).

(** Only a worker's round leases. *)
Lemma program_cases p :
  program p ->
  safe p \/ exists c w types, p = serve_one c w types /\ handlers_ok (worker_registry w).
Proof.
  intros Hp. destruct Hp as [c E|E host cfg reg|c w|w|c w types H|c w|w|fuel c|fuel c s r];
    [left|left|left|left|right; exists c, w, types; rewrite H; split; [done|apply defaults_ok]|left..].
  - apply safe_forget, safe_boot.
  - apply safe_forget, safe_new_worker.
  - apply safe_forget, safe_register.
  - apply safe_forget, safe_served_types.
  - apply safe_beat.
  - apply safe_stop.
  - apply safe_tick.
  - apply safe_forget, safe_Router.
Qed.

Lemma program_sound p : program p -> sound p.
Proof.
  intros [H|(c & w & types & -> & H)]%program_cases; [by apply safe_sound|by apply sound_serve_one].
Qed.

Definition pool : Type := list (prog unit) * world.

Inductive pool_step : pool -> pool -> Prop :=
  | step_start ps1 ps2 w p : program p -> pool_step (ps1 ++ ps2, w) (ps1 ++ p :: ps2, w)
  | step_effect (o : env) ps1 ps2 p w :
      runtime_ok o ->
      pool_step (ps1 ++ p :: ps2, w)
                (ps1 ++ (steps o 1 p w).1 :: ps2, (steps o 1 p w).2)
  | step_crash ps1 ps2 p w : pool_step (ps1 ++ p :: ps2, w) (ps1 ++ ps2, w).

(** Nothing runs; Redis is empty and the schema has just been created. *)
Definition initial (s : pool) : Prop :=
  s.1 = [] /\ keyspace_of (redis s.2) = ∅ /\ database s.2 = empty_db.

Definition pool_ok (s : pool) : Prop := Forall (fun p => sound p) s.1 /\ world_ok s.2.

Lemma initial_ok s : initial s -> pool_ok s.
Proof.
  intros (Hp & Hk & Hd). split; [by rewrite Hp|]. split.
  - split.
    + intros f x v. by rewrite Hk, lookup_empty.
    + rewrite Hk. split; simpl; unfold zset_at, hash_at, list_at;
        [intros ???; by rewrite lookup_empty..|]. intros ??. by rewrite lookup_empty, elem_of_nil.
  - rewrite Hd. split; [apply map_Forall_empty|constructor..].
Qed.

Lemma steps_one_keeps (o : env) (p : prog unit) w :
  runtime_ok o -> world_ok w -> sound p ->
  sound (steps o 1 p w).1 /\ world_ok (steps o 1 p w).2 /\
  world_moves (queue_move anyone) w (steps o 1 p w).2.
Proof.
  intros Ho Hw Hp. destruct p as [a|X e k]; [by split; [|split; [|apply world_moves_same]]|].
  cbn [steps]. destruct (do_effect_keeps o (queue_move anyone) e _ w ltac:(done) Ho Hw Hp) as (H1 & H2 & H3).
  by destruct (do_effect o e w).
Qed.

Lemma pool_step_ok s s' :
  pool_ok s -> pool_step s s' -> pool_ok s' /\ world_moves (queue_move anyone) s.2 s'.2.
Proof.
  intros [Hp Hw] Hs. destruct Hs as [ps1 ps2 w p Hprog|o ps1 ps2 p w Ho|ps1 ps2 p w].
  - split; [|by apply world_moves_same]. split; [|done].
    apply Forall_app in Hp as [H1 H2]. apply Forall_app. split; [done|].
    constructor; [by apply program_sound|done].
  - apply Forall_app in Hp as [H1 [Hp H2]%Forall_cons]. cbn [fst snd] in *.
    destruct (steps_one_keeps o p w Ho Hw Hp) as (H3 & H4 & H5).
    split; [|done]. split; [|done]. apply Forall_app. split; [done|]. by constructor.
  - apply Forall_app in Hp as [H1 [Hp H2]%Forall_cons].
    split; [|by apply world_moves_same]. split; [by apply Forall_app|done].
Qed.

Lemma pool_steps_ok s s' :
  pool_ok s -> rtc pool_step s s' -> pool_ok s' /\ db_grows (database s.2) (database s'.2).
Proof.
  intros Hs H. revert Hs. induction H as [s|s1 s2 s3 H12 _ IH]; intros Hs; [done|].
  destruct (pool_step_ok s1 s2 Hs H12) as [H2 [_ _ G2 _]]. destruct (IH H2) as [H3 G3].
  split; [done|]. by etransitivity.
Qed.

(** ** The specification machine *)

(** The queue and the task table; a step is one move of one of them. *)
Abbreviation spec := (qstate * gmap uuid TaskRow)%type.

Inductive spec_step : spec -> spec -> Prop :=
  | spec_queue q q' t : queue_move anyone q q' -> spec_step (q, t) (q', t)
  | spec_rows q t t' : rows_move t t' -> spec_step (q, t) (q, t').

Definition spec_of (w : world) : spec := (l_q (abs w), tasks (database w)).
Definition same_spec (a b : spec) : Prop := a.1 ≡ b.1 /\ a.2 = b.2.

#[export] Instance same_spec_equivalence : Equivalence same_spec.
Proof.
  split.
  - by intros a.
  - intros a b [H1 H2]. by split; symmetry.
  - intros a b c [H1 H2] [H3 H4]. split; by etransitivity.
Qed.

Lemma spec_step_proper a b a' :
  same_spec a b -> spec_step a a' -> exists b', spec_step b b' /\ same_spec a' b'.
Proof.
  destruct b as [q2 t2]. intros [Hq Ht] Hs. destruct Hs as [q q' t H|q t t' H]; cbn in *; subst t2.
  - destruct (queue_move_proper anyone q q2 q' Hq H) as (q3 & H3 & E).
    exists (q3, t). split; [by constructor|done].
  - exists (q2, t'). split; [by constructor|done].
Qed.

Lemma spec_steps_proper a b a' :
  same_spec a b -> rtc spec_step a a' -> exists b', rtc spec_step b b' /\ same_spec a' b'.
Proof.
  intros E H. revert b E. induction H as [a|a a1 a2 H1 _ IH]; intros b E; [by exists b|].
  destruct (spec_step_proper a b a1 E H1) as (b1 & H2 & E1).
  destruct (IH b1 E1) as (b2 & H3 & E2). exists b2. split; [by eapply rtc_l|done].
Qed.

(** One step of the system is at most one step of the machine. *)
Lemma world_moves_spec w w' :
  world_moves (queue_move anyone) w w' ->
  exists a, rtc spec_step (spec_of w) a /\ same_spec a (spec_of w').
Proof.
  intros [Hq Hr _ Hone]. destruct Hone as [Hone|Hone].
  - exists (l_q (abs w), tasks (database w')). split; [by apply rtc_once, spec_rows|].
    by split; [rewrite Hone|].
  - destruct Hq as [E|(q & H & E)].
    + exists (spec_of w). split; [done|]. split; [done|]. cbn. by rewrite Hone.
    + exists (q, tasks (database w)). split; [by apply rtc_once, spec_queue|].
      split; [done|]. cbn. by rewrite Hone.
Qed.

Lemma pool_steps_spec s s' :
  pool_ok s -> rtc pool_step s s' ->
  exists a, rtc spec_step (spec_of s.2) a /\ same_spec a (spec_of s'.2).
Proof.
  intros Hs H. revert Hs. induction H as [s|s1 s2 s3 H12 _ IH]; intros Hs; [by exists (spec_of s.2)|].
  destruct (pool_step_ok s1 s2 Hs H12) as [H2 Hm]. destruct (IH H2) as (a2 & R2 & E2).
  destruct (world_moves_spec _ _ Hm) as (a1 & R1 & E1).
  destruct (spec_steps_proper _ a1 a2 (symmetry E1) R2) as (a3 & R3 & E3).
  exists a3. split; [by etransitivity|]. etransitivity; [by symmetry|done].
Qed.

(** C6: the system refines the specification machine: whatever the
    interleaving, the faults, the clocks and the crashes, every run from a
    reachable state is matched by a run in which each step is one allowed move,
    of the queue (a well-formed envelope submitted, delayed or dead-lettered, the
    most urgent one leased into a worker's table, an entry released, a table
    cleared, due envelopes promoted together, a heartbeat) or of the task
    table (rows created queued and unattempted, every other row staying or
    moving along the life cycle). *)
Theorem system_refines (s s1 s2 : pool) :
  initial s -> rtc pool_step s s1 -> rtc pool_step s1 s2 ->
  exists a, rtc spec_step (spec_of s1.2) a /\ same_spec a (spec_of s2.2).
Proof.
  intros Hi H1 H2. apply pool_steps_spec; [|done].
  by destruct (pool_steps_ok s s1 (initial_ok s Hi) H1).
Qed.

(** C3: whatever the interleaving, the faults, the clocks and the crashes, in every
    state the system reaches each key of Redis has the type its prefix says,
    every ready member is the encoding of an envelope of that type scored by its
    priority and enqueue time, every delayed member one of that type, every
    in-flight entry one filed under its own identifier; and in the database
    statuses are the declared ones, integers fit their columns, every task may
    be attempted, log identifiers increase and every dead letter has its task. *)
Theorem system_invariant (s s' : pool) :
  initial s -> rtc pool_step s s' ->
  good s'.2 /\ data_ok (l_q (abs s'.2)) /\ db_ok (database s'.2).
Proof.
  intros Hi Hs. destruct (pool_steps_ok s s' (initial_ok s Hi) Hs) as [[_ [[H1 H2] H3]] _]. done.
Qed.

(** C14: between any two reachable states no task row disappears or changes its
    type, payload, priority, attempt limit or creation time, no worker
    disappears, and the audit log and the dead-letter log only grow at the end. *)
Theorem system_history (s s1 s2 : pool) :
  initial s -> rtc pool_step s s1 -> rtc pool_step s1 s2 ->
  db_grows (database s1.2) (database s2.2).
Proof.
  intros Hi H1 H2. destruct (pool_steps_ok s s1 (initial_ok s Hi) H1) as [Hok _].
  by destruct (pool_steps_ok s1 s2 Hok H2).
Qed.

(** A process that runs alone for some effects. *)
Lemma pool_run (o : env) n p ps w :
  runtime_ok o -> rtc pool_step (p :: ps, w) ((steps o n p w).1 :: ps, (steps o n p w).2).
Proof.
  intros Ho. revert p w. induction n as [|n IH]; intros p w; [by destruct p|].
  destruct p as [a|X e k]; [done|]. cbn [steps]. destruct (do_effect o e w) as [x w'] eqn:E.
  eapply rtc_l; [|apply IH]. pose proof (step_effect o [] ps (Do e k) w Ho) as H.
  cbn [steps app] in H. by rewrite E in H.
Qed.

End Programs.

(** ** A run on the reference services: a worker starts, a task is submitted, the
    worker executes it halfway and dies *)

Definition quoted_type : string := print (JObj [("type", JStr (quote "echo"))]).
Definition ref_submit : prog unit :=
  forget (Router 5 CtxMain (MkServer None)
            (MkRequest "POST" "/api/tasks" (fun _ => EmptyString) quoted_type)).
Definition ref_serve : prog unit := serve_one CtxMain ref_worker ["echo"].

Definition pool0 : pool := ([], ref_world).
Definition pool1 : pool :=
  ([(steps ref_env 9 ref_submit ref_world).1],
   (steps ref_env 9 ref_submit ref_world).2).
Definition pool2 : pool :=
  ((steps ref_env 5 ref_serve pool1.2).1 :: pool1.1, (steps ref_env 5 ref_serve pool1.2).2).

Lemma pool0_initial : initial pool0.
Proof. repeat split. Qed.

Lemma pool1_reached : rtc pool_step pool0 pool1.
Proof. eapply rtc_l; [by apply (step_start [] []), p_request|]. apply pool_run, ref_runtime_ok. Qed.

Lemma pool2_reached : rtc pool_step pool1 pool2.
Proof.
  eapply rtc_l; [by apply (step_start [] pool1.1), (p_serve CtxMain ref_worker ["echo"])|].
  apply pool_run, ref_runtime_ok.
Qed.

(** The run is not an empty one: the task is on the worker's table and its row
    says so. *)
Example pool2_leased :
  size (inflight pool2.2 "w1") = 1%nat /\
  (row_status <$> (map snd (map_to_list (tasks (database pool2.2))))) = [StatusRunning].
Proof. split; vm_compute; reflexivity. Qed.

Lemma system_invariant_witness :
  good pool2.2 /\ data_ok (l_q (abs pool2.2)) /\ db_ok (database pool2.2).
Proof.
  apply (system_invariant pool0 pool2 pool0_initial).
  etransitivity; [exact pool1_reached|exact pool2_reached].
Defined.

Lemma system_refines_witness :
  exists a, rtc spec_step (spec_of pool1.2) a /\ same_spec a (spec_of pool2.2).
Proof. exact (system_refines pool0 pool1 pool2 pool0_initial pool1_reached pool2_reached). Defined.

Lemma system_history_witness : db_grows (database pool1.2) (database pool2.2).
Proof. exact (system_history pool0 pool1 pool2 pool0_initial pool1_reached pool2_reached). Defined.
