(* ===== verification/Conservation.v ===== *)
(** * No task is lost

    A submitted task is [waiting] in Redis, ready or delayed. A lease takes it out,
    and from then on it is the leasing process that must bring it back or finish
    it: [owes id p] says that whatever is answered, as long as Redis serves the
    calls, the program [p] makes [id] wait again, or dead-letters it, or
    acknowledges it and counts it completed. The theorem: under any interleaving
    a waiting task keeps waiting, or is owed by a running process, or has been
    completed or dead-lettered, unless the process that owes it crashes or is
    failed by Redis, or Redis loses a reply. *)

From S2P Require Import Prelude GoBase F64 GoString Json GoTime GoStd Redis RefRedis Task Db.
From S2P Require Import Effects Queue Abstract QueueSpec QueueInv QueueMoves RefWorld Config.
From S2P Require Import Handlers Store StoreInv Scheduler Api Router Boot SchedulerThms Safety.
From S2P Require Import System.

Open Scope Z_scope.
Open Scope taskq_scope.

Section Owing.
Context {U : Uuid} {UL : UuidLaws U} {R : Redis} {RL : RedisLaws R} {P : Postgres}.
Context (id : uuid).

(** ** Discharging a debt *)

(** The answers a call may give: any error, or what the service answers. *)
Definition answers_effect {X} (e : effect X) : (X -> Prop) -> Prop :=
  match e in effect Y return (Y -> Prop) -> Prop with
  | ERedis c f => fun K =>
      (forall err, K (Err err)) /\ forall now r, queue_ok r -> K (f now r).1
  | ESql c f => fun K => (forall err, K (Err err)) /\ forall e d, db_ok d -> K (f e d).1
  | ENow => fun K => forall t, in_int64 (UnixMilli t) = true -> K t
  | ERand => fun K => forall x, K x
  | EUuid => fun K => forall u, K u
  | EOrder l => fun K => forall l', K l'
  | EWait c d => fun K => forall x, K x
  | EPrint s => fun K => K tt
  | ECount w k => fun K => K tt
  end.

(** The same when Redis serves the call. *)
Definition served_effect {X} (e : effect X) : (X -> Prop) -> Prop :=
  match e in effect Y return (Y -> Prop) -> Prop with
  | ERedis c f => fun K => forall now r, queue_ok r -> K (f now r).1
  | e => answers_effect e
  end.

(** After the call the task waits. *)
Definition parks {X} (e : effect X) : Prop :=
  match e with
  | ERedis c f => forall now r, queue_ok r -> waiting (view (keyspace_of (f now r).2)) id
  | _ => False
  end.

(** The call takes exactly this task out of some worker's table. *)
Definition acks {X} (e : effect X) : Prop :=
  match e with
  | ERedis c f => exists wk, forall now r, queue_ok r ->
      view (keyspace_of (f now r).2) ≡ drop_inflight wk (uuid_String id) (view (keyspace_of r))
  | _ => False
  end.

(** The call adds a record of the task to a dead-letter list. *)
Definition entombs {X} (e : effect X) : Prop :=
  match e with
  | ERedis c f => forall now r, queue_ok r -> exists env m,
      env_ID env = id /\ buries env m /\
      view (keyspace_of (f now r).2) ≡ push_dlq (env_Type env) m (view (keyspace_of r))
  | _ => False
  end.

Definition completes {X} (e : effect X) : Prop :=
  match e with ECount _ Completed => True | _ => False end.

(** A completed task is counted, whatever is answered. *)
Fixpoint finishes {A} (p : prog A) : Prop :=
  match p with
  | Ret _ => False
  | Do e k => completes e \/ forall x, finishes (k x)
  end.

(** The end of a task: acknowledged and bound to be counted, or dead-lettered. *)
Definition settles {X A} (e : effect X) (k : X -> prog A) : Prop :=
  (acks e /\ forall x, finishes (k x)) \/ entombs e.

Fixpoint owes {A} (p : prog A) (Q : A -> Prop) : Prop :=
  match p with
  | Ret a => Q a
  | Do e k => parks e \/ settles e k \/ served_effect e (fun x => owes (k x) Q)
  end.

Lemma served_mono {X} (e : effect X) (K K' : X -> Prop) :
  (forall x, K x -> K' x) -> served_effect e K -> served_effect e K'.
Proof. intros H. destruct e; simpl; try (intros HK; intros; by apply H, HK). intros [H1 H2]. auto. Qed.

Lemma answers_mono {X} (e : effect X) (K K' : X -> Prop) :
  (forall x, K x -> K' x) -> answers_effect e K -> answers_effect e K'.
Proof.
  intros H. destruct e; simpl; try (intros HK; intros; by apply H, HK); intros [H1 H2]; auto.
Qed.

Lemma served_all {X} (e : effect X) (K : X -> Prop) : (forall x, K x) -> served_effect e K.
Proof. intros H. destruct e; simpl; auto. Qed.

Lemma finishes_bind {A B} (p : prog A) (f : A -> prog B) : finishes p -> finishes (bind p f).
Proof.
  induction p as [a|X e k IH]; simpl; [done|]. intros [H|H]; [by left|]. right. auto.
Qed.

Lemma finishes_then {A B} (p : prog A) (f : A -> prog B) :
  (forall a, finishes (f a)) -> finishes (bind p f).
Proof. intros H. induction p as [a|X e k IH]; simpl; [done|]. right. auto. Qed.

Lemma owes_bind {A B} (p : prog A) (f : A -> prog B) (Q1 : A -> Prop) (Q : B -> Prop) :
  owes p Q1 -> (forall a, Q1 a -> owes (f a) Q) -> owes (bind p f) Q.
Proof.
  intros Hp Hf. induction p as [a|X e k IH]; simpl in *; [by apply Hf|].
  destruct Hp as [H|[[[H1 H2]|H]|H]]; [by left|right; left|by right; left; right|right; right].
  - left. split; [done|]. intros x. apply finishes_bind, H2.
  - revert H. apply served_mono. intros x. apply IH.
Qed.

Lemma owes_any {A} (p : prog A) : owes p (fun _ => True).
Proof. induction p as [a|X e k IH]; simpl; [done|]. right; right. by apply served_all. Qed.

(** Work that comes before. *)
Lemma owes_then {A B} (p : prog A) (f : A -> prog B) Q :
  (forall a, owes (f a) Q) -> owes (bind p f) Q.
Proof. intros H. eapply owes_bind; [apply owes_any|]. auto. Qed.

(** Work that comes after. *)
Lemma owes_first {A B} (p : prog A) (f : A -> prog B) Q :
  owes p (fun _ => False) -> owes (bind p f) Q.
Proof. intros H. by eapply owes_bind. Qed.

(** ** Programs that lose nothing *)

(** Each Redis effect leaves a waiting task waiting, or owed by what follows. *)
Definition spares {X A} (e : effect X) : (X -> prog A) -> (A -> Prop) -> Prop :=
  match e in effect Y return (Y -> prog A) -> (A -> Prop) -> Prop with
  | ERedis c f => fun k O => forall now r, queue_ok r -> waiting (view (keyspace_of r)) id ->
      waiting (view (keyspace_of (f now r).2)) id \/ owes (k (f now r).1) O
  | _ => fun _ _ => True
  end.

Fixpoint conserves {A} (p : prog A) (Q O : A -> Prop) : Prop :=
  match p with
  | Ret a => Q a
  | Do e k => spares e k O /\ answers_effect e (fun x => conserves (k x) Q O)
  end.

Lemma conserves_bind {A B} (p : prog A) (f : A -> prog B) (Q1 O1 : A -> Prop) (Q O : B -> Prop) :
  conserves p Q1 O1 -> (forall a, Q1 a -> conserves (f a) Q O) ->
  (forall a, O1 a -> owes (f a) O) -> conserves (bind p f) Q O.
Proof.
  intros Hp Hf Ho. induction p as [a|X e k IH]; simpl in *; [by apply Hf|].
  destruct Hp as [Hs Ha]. split; [|revert Ha; apply answers_mono; intros x; apply IH].
  destruct e; try exact I. intros now r Hr Hk.
  destruct (Hs now r Hr Hk) as [H|H]; [by left|right]. by eapply owes_bind.
Qed.

(** A program that does not lease loses nothing. *)
Lemma safe_conserves {A} (p : prog A) Q O : keeps (quiet_move anyone) p Q -> conserves p Q O.
Proof.
  induction p as [a|X e k IH]; simpl; [done|]. intros Hk.
  destruct e; cbn in *; try (split; [done|]; intros; by apply IH, Hk).
  - destruct Hk as [H1 H2]. split.
    + intros now r Hr Hp. left. destruct (H2 now r Hr) as [[_ Hm] _]. by eapply may_quiet_waiting.
    + split; [auto|]. intros now r Hr. by apply IH, H2.
  - destruct Hk as (H1 & _ & H2). split; [done|]. auto.
Qed.

(** ** The lease hands the task over *)

(** The leased envelope is the task's. *)
Definition lessee (r : res Envelope) : Prop :=
  match r with Ok e => env_ID e = id /\ exists m, encodes e m | Err _ => False end.

Lemma wire_encodes e m : encodes e m -> exists m', encodes (wire e) m'.
Proof.
  intros He. destruct (Marshal_wire e m He) as [b Hb]. exists b. split; [done|]. apply wire_ints, He.
Qed.

Lemma conserves_lease c t wk ttl : conserves (Lease c t wk ttl) leased_ok lessee.
Proof.
  split.
  - intros now r Hr Hp. cbn beta.
    destruct (lease_script_cases (I := anyone) t wk r Hr) as [[_ [_ H]]|(e & m & s & l & Ho & He & _ & _ & Hv)].
    { left. by eapply may_quiet_waiting. }
    destruct (lease_waiting t wk e m _ id He Hp) as [H|H]; [left; by rewrite Hv|right].
    rewrite Ho. cbn [bind]. rewrite (encodes_Unmarshal e m He). split; [done|]. by eapply wire_encodes.
  - split.
    + intros err. cbn. by case_if.
    + intros now r Hr. cbn beta. destruct (leaseScript _ _ r).1 as [[s|n]|err]; cbn; [|done|by case_if].
      destruct (Unmarshal s) as [e|] eqn:E; [|done]. by eapply Unmarshal_ints.
Qed.

Lemma conserves_lease_any c types wk ttl : conserves (LeaseAny c types wk ttl) leased_ok lessee.
Proof.
  induction types as [|t types IH]; [done|]. cbn [LeaseAny].
  eapply conserves_bind; [apply conserves_lease|..].
  - intros [e|err] H; [done|]. by destruct (errors_Is err ErrEmpty).
  - by intros [e|err] H.
Qed.

(** ** The worker pays *)

Lemma owes_park {X} c (f : rstate -> res X * rstate) Q :
  (forall r, queue_ok r -> waiting (view (keyspace_of (f r).2)) id) -> owes (rdb c f) Q.
Proof. intros H. left. intros now r. apply H. Qed.

Lemma owes_dead_letter c e m reason Q :
  env_ID e = id -> encodes e m -> owes (DeadLetter c e reason) Q.
Proof.
  intros Hid [Hm Hi]. apply owes_then. intros t.
  apply Marshal_inv in Hm as (p & Hp & _).
  assert (Hd : exists b, MarshalDead e reason (UnixMilli t) = Ok b)
    by (unfold MarshalDead; rewrite Hp; eauto).
  destruct Hd as [b Hb]. rewrite Hb. right; left; right. intros now r [Hw _].
  destruct (rpush_law r (DLQKey (env_Type e)) b _ (well_typed_list _ (env_Type e) Hw))
    as (x & r' & -> & _ & Hk & _). cbn [fst snd]. rewrite Hk.
  exists e, b. split; [done|]. split; [split; eauto|]. apply view_put_dlq.
Qed.

Lemma owes_enqueue_delayed c e m at_ Q :
  env_ID e = id -> encodes e m -> owes (EnqueueDelayed c e at_) Q.
Proof.
  intros Hid He. unfold EnqueueDelayed. rewrite (proj1 He). apply owes_first, owes_park. intros r [Hw _].
  destruct (zadd_law r (DelayedKey (env_Type e)) (rnd53 (UnixMilli at_)) m _
    (well_typed_zset _ FDelayed (env_Type e) Hw ltac:(auto))) as (x & r' & -> & _ & Hk & _). cbn [fst snd]. rewrite Hk.
  rewrite view_put_delayed.
  apply (waiting_pushed_delayed (env_Type e) _ m (view (keyspace_of r))).
  rewrite <- Hid. by apply encodes_holds.
Qed.

Lemma hdel_acks wk i r :
  queue_ok r -> view (keyspace_of (HDEL (InflightKey wk) (uuid_String i) r).2) ≡
                drop_inflight wk (uuid_String i) (view (keyspace_of r)).
Proof.
  intros [Hw _].
  destruct (hdel_law r (InflightKey wk) (uuid_String i) _ (well_typed_hash _ wk Hw))
    as (x & r' & -> & _ & Hk & _). cbn [fst snd]. rewrite Hk. apply view_put_inflight.
Qed.

Lemma owes_ack c wk i (f : res unit -> prog unit) Q :
  i = id -> (forall x, finishes (f x)) -> owes (bind (Ack c wk i) f) Q.
Proof.
  intros -> Hf. right; left; left. split.
  - exists wk. intros now r. apply hdel_acks.
  - intros x. apply Hf.
Qed.

Context {UC : Unicode} {PF : Platform}.

Lemma owes_execute c w e m :
  env_ID e = id -> encodes e m -> owes (execute c w e) (fun _ => False).
Proof.
  intros Hid He. unfold execute. destruct (Lookup _ _) as [h|].
  - do 2 (apply owes_then; intros ?). apply owes_then. intros [r|err].
    + apply owes_ack; [done|]. intros _. do 2 (apply finishes_then; intros ?). by left.
    + do 2 (apply owes_then; intros ?). cbv zeta.
      destruct (bumped_encodes e m He) as [m' Hm']. fold (bumped e).
      case_if; [by eapply owes_first, owes_dead_letter|].
      do 2 (apply owes_then; intros ?). by eapply owes_first, owes_enqueue_delayed.
  - apply owes_then. intros ?. by eapply owes_first, owes_dead_letter.
Qed.

Lemma conserves_serve_one c w types :
  handlers_ok (worker_registry w) ->
  conserves (serve_one c w types) (fun _ => True) (fun _ => False).
Proof.
  intros Hh. eapply conserves_bind; [apply conserves_lease_any|..].
  - intros [e|err] He; apply safe_conserves; [by apply (safe_execute (I := anyone))|apply safe_pause].
  - intros [e|err] H; [|done]. destruct H as (Hid & m & Hm). by eapply owes_execute.
Qed.

End Owing.

(** ** The pool *)

Section PoolConservation.
Context {U : Uuid} {UL : UuidLaws U} {R : Redis} {RL : RedisLaws R} {P : Postgres}.
Context {UC : Unicode} {PF : Platform} {C : Chi} {D : Drivers}.

(** What a process still owes of [id]; it answers nothing. *)
Definition debtor (id : uuid) (p : prog unit) : Prop := owes id p (fun _ => False).

Definition spared (id : uuid) (p : prog unit) : Prop :=
  conserves id p (fun _ => True) (fun _ => False).

Lemma program_spares id p : program p -> spared id p.
Proof.
  intros [H|(c & w & types & -> & H)]%program_cases;
    [by apply safe_conserves|by apply conserves_serve_one].
Qed.

(** Redis serves the next call of [p], or refuses it without effect while [p]
    owes nothing. SQL calls may fail in any way. *)
Definition redis_serves (id : uuid) (o : env) (p : prog unit) (w : world) : Prop :=
  match p with
  | Ret _ => True
  | Do e k =>
      match e with
      | ERedis c f => faults o (ticks w) c = NoFault \/
                      (exists err, faults o (ticks w) c = NotSent err) /\ ~ debtor id p
      | _ => True
      end
  end.

(** The steps of the system that lose nothing of [id]: programs start, processes
    make effects served by Redis, processes that do not owe [id] die. *)
Inductive calm_step (id : uuid) : pool -> pool -> Prop :=
  | calm_start ps1 ps2 w p : program p -> calm_step id (ps1 ++ ps2, w) (ps1 ++ p :: ps2, w)
  | calm_effect (o : env) ps1 ps2 p w :
      runtime_ok o -> redis_serves id o p w ->
      calm_step id (ps1 ++ p :: ps2, w)
                   (ps1 ++ (steps o 1 p w).1 :: ps2, (steps o 1 p w).2)
  | calm_crash ps1 ps2 p w :
      ~ debtor id p -> calm_step id (ps1 ++ p :: ps2, w) (ps1 ++ ps2, w).

(** The step in which a process settles [id]. *)
Inductive settling_step (id : uuid) : pool -> pool -> Prop :=
  | settling_effect (o : env) ps1 ps2 {X} (e : effect X) k w :
      settles id e k ->
      settling_step id (ps1 ++ Do e k :: ps2, w)
        (ps1 ++ (steps o 1 (Do e k) w).1 :: ps2, (steps o 1 (Do e k) w).2).

Lemma calm_pool_step id s s' : calm_step id s s' -> pool_step s s'.
Proof. intros []; by constructor. Qed.

(** In Redis, or in the hands of a running process. *)
Definition accounted_for (id : uuid) (s : pool) : Prop :=
  waiting (l_q (abs s.2)) id \/ Exists (debtor id) s.1.

Definition settled_between (id : uuid) (s1 s2 : pool) : Prop :=
  exists a b, rtc (calm_step id) s1 a /\ settling_step id a b /\ calm_step id a b /\
              rtc (calm_step id) b s2.

(** One effect of one process. *)
Lemma do_effect_answers {X} (o : env) (e : effect X) K w :
  runtime_ok o -> world_ok w -> answers_effect e K -> K (do_effect o e w).1.
Proof.
  intros Ho [Hr Hd] He. destruct e; cbn in He |- *; try first [exact He|apply He; done || apply (runtime_clock o Ho)].
  - destruct He as [H1 H2]. unfold serve. destruct (faults o (ticks w) c); cbn; auto.
  - destruct He as [H1 H2]. unfold serve. destruct (faults o (ticks w) c); cbn; auto.
Qed.

Lemma do_effect_served {X} id (o : env) (e : effect X) (k : X -> prog unit) K w :
  runtime_ok o -> world_ok w -> redis_serves id o (Do e k) w -> debtor id (Do e k) ->
  served_effect e K -> K (do_effect o e w).1.
Proof.
  intros Ho Hw Hs Hd He. destruct e; try by apply (do_effect_answers o _ K w Ho Hw).
  cbn in He, Hs |- *. unfold serve. destruct Hs as [-> |[_ Hn]]; [|by destruct Hn].
  apply He, Hw.
Qed.

Lemma spared_step id (o : env) (p : prog unit) w :
  runtime_ok o -> world_ok w -> spared id p -> spared id (steps o 1 p w).1.
Proof.
  intros Ho Hw Hp. destruct p as [a|X e k]; [done|]. cbn [steps].
  pose proof (do_effect_answers o e _ w Ho Hw (proj2 Hp)) as H. by destruct (do_effect o e w).
Qed.

(** What becomes of a waiting task in one served effect. *)
Lemma waiting_step id (o : env) (p : prog unit) w :
  runtime_ok o -> world_ok w -> spared id p -> redis_serves id o p w ->
  waiting (l_q (abs w)) id ->
  waiting (l_q (abs (steps o 1 p w).2)) id \/ debtor id (steps o 1 p w).1.
Proof.
  intros Ho Hw Hp Hs Hk. destruct p as [a|X e k]; [by left|]. destruct Hp as [Hp _].
  destruct e; cbn [steps do_effect]; try (by left).
  - cbn in Hp, Hs. unfold serve. destruct Hs as [-> |[[err ->] _]]; [|by left].
    destruct (Hp (clock o (ticks w)) (redis w) (proj1 Hw) Hk) as [H|H]; [by left|by right].
  - left. unfold serve. by destruct (faults o (ticks w) c).
Qed.

(** What becomes of a debt. *)
Lemma debtor_step id (o : env) (p : prog unit) w :
  runtime_ok o -> world_ok w -> debtor id p -> redis_serves id o p w ->
  waiting (l_q (abs (steps o 1 p w).2)) id \/ debtor id (steps o 1 p w).1 \/
  exists X (e : effect X) k, p = Do e k /\ settles id e k.
Proof.
  intros Ho Hw Hp Hs. destruct p as [a|X e k]; [done|].
  pose proof Hp as [H|[H|H]].
  - left. destruct e; try done. cbn in Hs. destruct Hs as [Hf|[_ Hn]]; [|by destruct Hn].
    cbn [steps do_effect]. unfold serve. rewrite Hf. apply H, Hw.
  - right; right. by exists X, e, k.
  - right; left. pose proof (do_effect_served id o e k _ w Ho Hw Hs Hp H) as Hd.
    cbn [steps]. by destruct (do_effect o e w).
Qed.

Definition pool_spared (id : uuid) (s : pool) : Prop := pool_ok s /\ Forall (spared id) s.1.

Lemma pool_step_spared id s s' : pool_spared id s -> pool_step s s' -> pool_spared id s'.
Proof.
  intros [Hok Hp] Hs. split; [by eapply pool_step_ok|]. destruct Hok as [_ Hw].
  destruct Hs as [ps1 ps2 w p Hprog|o ps1 ps2 p w Ho|ps1 ps2 p w]; cbn in *.
  - apply Forall_app in Hp as [H1 H2]. apply Forall_app. split; [done|].
    constructor; [by apply program_spares|done].
  - apply Forall_app in Hp as [H1 [Hp H2]%Forall_cons]. apply Forall_app. split; [done|].
    constructor; [by apply spared_step|done].
  - apply Forall_app in Hp as [H1 [Hp H2]%Forall_cons]. by apply Forall_app.
Qed.

Lemma pool_steps_spared id s s' : pool_spared id s -> rtc pool_step s s' -> pool_spared id s'.
Proof. intros H Hs. revert H. induction Hs; eauto using pool_step_spared. Qed.

Lemma initial_spared id s : initial s -> pool_spared id s.
Proof. intros Hi. split; [by apply initial_ok|]. destruct Hi as (-> & _). constructor. Qed.

(** Replacing one process keeps the debts of the others. *)
Lemma debtors_mid id (ps1 ps2 : list (prog unit)) p p' :
  Exists (debtor id) (ps1 ++ p :: ps2) -> debtor id p \/ Exists (debtor id) (ps1 ++ p' :: ps2).
Proof. rewrite !Exists_app, !Exists_cons. naive_solver. Qed.

Lemma debtor_mid id (ps1 ps2 : list (prog unit)) p :
  debtor id p -> Exists (debtor id) (ps1 ++ p :: ps2).
Proof. rewrite Exists_app, Exists_cons. auto. Qed.

Lemma calm_step_accounts id s s' :
  pool_spared id s -> calm_step id s s' -> accounted_for id s ->
  accounted_for id s' \/ settling_step id s s'.
Proof.
  intros [[_ Hw] Hp] Hs Ha. destruct Hs as [ps1 ps2 w p Hprog|o ps1 ps2 p w Ho Hr|ps1 ps2 p w Hd].
  - left. destruct Ha as [H|H]; [by left|right]. cbn in *.
    rewrite Exists_app in H. rewrite Exists_app, Exists_cons. naive_solver.
  - apply Forall_app in Hp as [_ [Hp _]%Forall_cons]. cbn in Hw.
    assert (Hpay : debtor id p ->
      accounted_for id (ps1 ++ (steps o 1 p w).1 :: ps2, (steps o 1 p w).2) \/
      settling_step id (ps1 ++ p :: ps2, w) (ps1 ++ (steps o 1 p w).1 :: ps2, (steps o 1 p w).2)).
    { intros Hd. destruct (debtor_step id o p w Ho Hw Hd Hr) as [H|[H|(X & e & k & -> & H)]].
      - left. by left.
      - left. right. by apply debtor_mid.
      - right. by constructor. }
    destruct Ha as [H|H].
    + left. destruct (waiting_step id o p w Ho Hw Hp Hr H) as [H'|H']; [by left|right].
      by apply debtor_mid.
    + destruct (debtors_mid id ps1 ps2 p (steps o 1 p w).1 H) as [H'|H']; [by apply Hpay|].
      left. by right.
  - left. destruct Ha as [H|H]; [by left|right]. cbn in *.
    rewrite Exists_app, Exists_cons in H. rewrite Exists_app. naive_solver.
Qed.

Lemma calm_steps_account id s1 s2 :
  pool_spared id s1 -> rtc (calm_step id) s1 s2 -> accounted_for id s1 ->
  accounted_for id s2 \/ settled_between id s1 s2.
Proof.
  intros Hok Hs. revert Hok. induction Hs as [s|s1 s2 s3 H12 H23 IH]; intros Hok Ha; [by left|].
  assert (Hok2 : pool_spared id s2) by (eapply pool_step_spared; [done|by eapply calm_pool_step]).
  destruct (calm_step_accounts id s1 s2 Hok H12 Ha) as [H|H].
  - destruct (IH Hok2 H) as [?|(a & b & Ra & Hab & Hc & Rb)]; [by left|right].
    exists a, b. split_and!; try done. by eapply rtc_l.
  - right. by exists s1, s2.
Qed.

Definition returned (p : prog unit) : Prop := match p with Ret _ => True | Do _ _ => False end.

(** C4: a task that waits in Redis is not lost: along every interleaving of every
    program, with any SQL failure, any clock and any crash of processes that do
    not owe it, as long as Redis serves the process that owes it, the task
    either waits, or is owed by a running process, or was settled on the way:
    acknowledged after its handler succeeded and sure to be counted, or
    dead-lettered. Once every process has returned it waits or was settled. *)
Theorem task_conserved (id : uuid) (s s1 s2 : pool) :
  initial s -> rtc pool_step s s1 -> waiting (l_q (abs s1.2)) id ->
  rtc (calm_step id) s1 s2 ->
  (accounted_for id s2 \/ settled_between id s1 s2) /\
  (Forall returned s2.1 -> waiting (l_q (abs s2.2)) id \/ settled_between id s1 s2).
Proof.
  intros Hi H1 Hw H2.
  destruct (calm_steps_account id s1 s2) as [H|H]; [|done|by left| |].
  - eapply pool_steps_spared; [by apply initial_spared|done].
  - split; [by left|]. intros Hret. destruct H as [H|H]; [by left|].
    exfalso. apply Exists_exists in H as (p & Hp & Hd). rewrite Forall_forall in Hret.
    specialize (Hret p Hp). by destruct p.
  - split; intros; by right.
Qed.

(** A process that runs alone, always served. *)
Lemma calm_run id (o : env) n p ps w :
  runtime_ok o -> quiet o ->
  rtc (calm_step id) (p :: ps, w) ((steps o n p w).1 :: ps, (steps o n p w).2).
Proof.
  intros Ho Hq. revert p w. induction n as [|n IH]; intros p w; [by destruct p|].
  destruct p as [a|X e k]; [done|]. cbn [steps]. destruct (do_effect o e w) as [x w'] eqn:E.
  eapply rtc_l; [|apply IH].
  pose proof (calm_effect id o [] ps (Do e k) w Ho) as H. cbn [steps app] in H. rewrite E in H.
  apply H. destruct e; cbn; auto.
Qed.

End PoolConservation.

(** ** On the run of [System.v]: submitted, then in the worker's hands *)

Definition readyb `{U : Uuid} (ks : keyspace) (t : string) (id : uuid) : bool :=
  existsb (fun ms => carries id ms.1) (map_to_list (zset_at ks (QueueKey t))).

Lemma readyb_sound `{U : Uuid} ks t id : readyb ks t id = true -> waiting (view ks) id.
Proof.
  intros ([m s] & Hin%list_elem_of_In%elem_of_map_to_list & Hc)%existsb_exists.
  left. exists t, m, s. split; [done|]. unfold carries in Hc. cbn in Hc.
  destruct (Unmarshal m) as [e|] eqn:E; [|done]. exists e. split; [done|].
  by apply bool_decide_eq_true_1 in Hc.
Qed.

Lemma pool1_waiting : waiting (l_q (abs pool1.2)) (uid 1).
Proof. apply (readyb_sound _ "echo"). vm_compute. reflexivity. Qed.

Lemma pool2_calm : rtc (calm_step (uid 1)) pool1 pool2.
Proof.
  eapply rtc_l; [by apply (calm_start _ [] pool1.1), (p_serve CtxMain ref_worker ["echo"])|].
  apply calm_run; [apply ref_runtime_ok|apply ref_quiet].
Qed.

Example pool2_taken :
  (size (zset_at (keyspace_of (redis pool2.2)) (QueueKey "echo")) +
   size (zset_at (keyspace_of (redis pool2.2)) (DelayedKey "echo")))%nat = 0%nat.
Proof. vm_compute. reflexivity. Qed.

Lemma task_conserved_witness :
  (accounted_for (uid 1) pool2 \/ settled_between (uid 1) pool1 pool2) /\
  (Forall returned pool2.1 -> waiting (l_q (abs pool2.2)) (uid 1) \/ settled_between (uid 1) pool1 pool2).
Proof.
  exact (task_conserved (uid 1) pool0 pool1 pool2 pool0_initial pool1_reached pool1_waiting pool2_calm).
Defined.
