(* ===== verification/Integrity.v ===== *)
(** * Every envelope in Redis has its row in PostgreSQL

    The program writes a task in two stores that share no transaction. [Known d e]:
    the database [d] has a row for envelope [e], with its type, priority and
    attempt limit. [links p Q d] follows a program that started when the database
    was [d]: it may write an envelope only when the database of that moment knows
    it, whatever other processes did between two of its effects. Envelopes that a
    program reads from Redis are known, the ones a request submits become known by
    the row it has just inserted; so in every reachable state every envelope
    that is ready, delayed, in flight or dead refers to a task row. *)

From S2P Require Import Prelude GoBase F64 GoString Json GoTime GoStd Redis RefRedis Task Db.
From S2P Require Import Effects Queue Abstract QueueSpec QueueInv QueueMoves RefWorld Config.
From S2P Require Import Handlers Store StoreInv Lifecycle Scheduler Api Router Boot SchedulerThms Safety.
From S2P Require Import System.

Open Scope Z_scope.
Open Scope taskq_scope.

(** ** The two stores together *)

Section Known.
Context {U : Uuid} {UL : UuidLaws U}.

(** The row of an envelope. *)
Definition Known (d : db) (e : Envelope) : Prop :=
  exists r, tasks d !! env_ID e = Some r /\ coerce (row_type r) = coerce (env_Type e) /\
            row_priority r = env_Priority e /\ row_max_attempts r = env_MaxAttempts e.

#[export] Instance known_heritable d : Heritable (Known d).
Proof.
  intros e e' H1 H2 H3 H4 (r & Hr & Ht & Hp & Hm). exists r. by rewrite <- H1, <- H2, <- H3, <- H4.
Qed.

Lemma known_grows d d' e : db_grows d d' -> Known d e -> Known d' e.
Proof.
  intros Hg (r & Hr & Ht & Hp & Hm). destruct (grows_tasks _ _ Hg _ _ Hr) as (r' & Hr' & Hs).
  destruct Hs as (E1 & _ & E3 & E4 & _). exists r'. split; [done|]. by rewrite <- E1, <- E3, <- E4.
Qed.

(** A text that Redis holds as a task: a member, an in-flight entry or a dead letter. *)
Definition stored (q : qstate) (m : string) : Prop :=
  (exists t, m ∈ dom (q_ready q t)) \/ (exists t, m ∈ dom (q_delayed q t)) \/
  (exists wk f, q_inflight q wk !! f = Some m) \/ (exists t, m ∈ q_dlq q t).

Definition linked (q : qstate) (d : db) : Prop :=
  forall m e, stored q m -> Unmarshal m = Ok e -> Known d e.

#[export] Instance stored_proper : Proper ((≡) ==> (=) ==> iff) stored.
Proof.
  assert (H : forall a b m, a ≡ b -> stored a m -> stored b m).
  { intros a b m (E1 & E2 & E3 & E4 & _). unfold stored.
    intros [[t H]|[[t H]|[(wk & f & H)|[t H]]]].
    - left. exists t. by rewrite <- E1.
    - right; left. exists t. by rewrite <- E2.
    - right; right; left. exists wk, f. by rewrite <- E3.
    - right; right; right. exists t. by rewrite <- E4. }
  intros a b E m ? <-. split; apply H; [done|by symmetry].
Qed.

Lemma linked_mono q q' d d' :
  db_grows d d' -> (forall m, stored q' m -> stored q m) -> linked q d -> linked q' d'.
Proof. intros Hg Hs Hl m e Hm He. eapply known_grows; [done|]. eapply Hl; [by apply Hs|done]. Qed.

(** A state that stores one more text, a known one. *)
Lemma linked_add q q' d m0 :
  (forall m, stored q' m -> stored q m \/ m = m0) ->
  (forall e, Unmarshal m0 = Ok e -> Known d e) -> linked q d -> linked q' d.
Proof. intros Hs Hk Hl m e [H| ->]%Hs He; [by eapply Hl|by apply Hk]. Qed.

Lemma stored_push_ready t s m0 q m : stored (push_ready t s m0 q) m -> stored q m \/ m = m0.
Proof.
  intros [[t' H]|H]; [|left; by right]. simpl in H. unfold upd in H.
  case_decide; [|left; left; by exists t']. subst. rewrite dom_insert in H.
  apply elem_of_union in H as [H%elem_of_singleton|H]; [by right|left; left; by eexists].
Qed.

Lemma stored_push_delayed t s m0 q m : stored (push_delayed t s m0 q) m -> stored q m \/ m = m0.
Proof.
  intros [H|[[t' H]|H]]; [left; by left| |left; right; by right]. simpl in H. unfold upd in H.
  case_decide; [|left; right; left; by exists t']. subst. rewrite dom_insert in H.
  apply elem_of_union in H as [H%elem_of_singleton|H]; [by right|left; right; left; by eexists].
Qed.

Lemma stored_push_dlq t m0 q m : stored (push_dlq t m0 q) m -> stored q m \/ m = m0.
Proof.
  intros [H|[H|[H|[t' H]]]]; [left; by left|left; right; by left|left; right; right; by left|].
  simpl in H. unfold upd in H. case_decide; [|left; right; right; right; by exists t']. subst.
  apply elem_of_app in H as [H|H%list_elem_of_singleton]; [left; right; right; right; by eexists|by right].
Qed.

Lemma stored_drop_delayed t m0 q m : stored (drop_delayed t m0 q) m -> stored q m.
Proof.
  intros [H|[[t' H]|H]]; [by left| |right; by right]. simpl in H. unfold upd in H.
  case_decide; [|right; left; by exists t']. subst. right; left. exists t'. set_solver.
Qed.

Lemma stored_drop_ready t m0 q m : stored (drop_ready t m0 q) m -> stored q m.
Proof.
  intros [[t' H]|H]; [|by right]. simpl in H. unfold upd in H.
  case_decide; [|left; by exists t']. subst. left. exists t'. set_solver.
Qed.

Lemma stored_inflight_sub wk h q m :
  h ⊆ q_inflight q wk -> stored (set_inflight wk h q) m -> stored q m.
Proof.
  intros Hh [H|[H|[(wk' & f & H)|H]]];
    [by left|right; by left| |right; right; by right].
  simpl in H. unfold upd in H. right; right; left.
  case_decide; subst; [|by exists wk', f]. exists wk', f. by eapply lookup_weaken.
Qed.

Lemma stored_put_inflight wk f0 m0 q m : stored (put_inflight wk f0 m0 q) m -> stored q m \/ m = m0.
Proof.
  intros [H|[H|[(wk' & f & H)|H]]]; [left; by left|left; right; by left| |left; right; right; by right].
  simpl in H. unfold upd in H. case_decide; [|left; right; right; left; by exists wk', f]. subst.
  apply lookup_insert_Some in H as [[_ <-]|[_ H]]; [by right|left; right; right; left; by do 2 eexists].
Qed.

(** What an encoded or buried envelope decodes to is as known as the envelope. *)
Lemma known_wire d e : Known d (wire e) <-> Known d e.
Proof. split; apply heritable; by rewrite ?coerce_idemp || (simpl; by rewrite ?coerce_idemp). Qed.

Lemma known_read d e m e' : encodes e m \/ buries e m -> Known d e -> Unmarshal m = Ok e' -> Known d e'.
Proof.
  intros He Hk Hu. assert (Unmarshal m = Ok (wire e)) as E
    by (destruct He; [by apply encodes_Unmarshal|by apply buries_Unmarshal]).
  rewrite E in Hu. injection Hu as <-. by apply known_wire.
Qed.

Lemma linked_promote t n ms q d :
  in_int64 n = true -> promotable (Known d) t ms -> linked q d -> linked (promote_all t n ms q) d.
Proof.
  intros Hn Hms. revert q. induction Hms as [|m ms (e & He & Hk & _) _ IH]; intros q Hl; [done|].
  cbn [promote_all foldl]. apply IH.
  destruct (promote_one_stored t n q m e He Hn) as (body & Hb & ->).
  eapply linked_add; [apply stored_push_ready| |].
  - intros e'. eapply known_read; [by left|]. eapply heritable; [..|by apply known_wire]; done.
  - eapply linked_mono; [done|apply stored_drop_delayed|done].
Qed.

(** The moves that write known envelopes keep the stores linked. *)
Lemma queue_move_linked d q q' : queue_move (Known d) q q' -> linked q d -> linked q' d.
Proof.
  intros Hm Hl. destruct Hm as [q0 q0' Hq|t wk e m s l q0 Hz He].
  - destruct Hq as [e m q1 He Hk|e m s q1 He Hk|wk id q1|wk q1|e m q1 He Hk|t n ms q1 Hn Hms|wk d' q1].
    + eapply linked_add; [apply stored_push_ready| |done]. intros e'. eapply known_read; eauto.
    + eapply linked_add; [apply stored_push_delayed| |done]. intros e'. eapply known_read; eauto.
    + eapply linked_mono; [done| |done]. intros m. apply stored_inflight_sub, delete_subseteq.
    + eapply linked_mono; [done| |done]. intros m. apply stored_inflight_sub, map_empty_subseteq.
    + eapply linked_add; [apply stored_push_dlq| |done]. intros e'. eapply known_read; eauto.
    + by apply linked_promote.
    + exact Hl.
  - assert (Hs : stored q0 m) by (left; exists t; by apply elem_of_dom_2 with s, zsorted_head_lookup with l).
    eapply linked_mono; [done| |done]. intros m' Hm'.
    apply stored_put_inflight in Hm' as [Hm'| ->]; [by eapply stored_drop_ready|done].
Qed.

Lemma may_linked d q q' : may (queue_move (Known d)) q q' -> linked q d -> linked q' d.
Proof.
  intros [E|(q1 & H & E)] Hl.
  - intros m e. rewrite <- E. apply Hl.
  - intros m e. rewrite <- E. by apply (queue_move_linked d q q1 H Hl).
Qed.

End Known.

(** ** A logic for programs over both stores *)

Section Links.
Context {U : Uuid} {UL : UuidLaws U} {R : Redis} {P : Postgres}.

Definition links_effect {X} (e : effect X) (d : db) : (X -> db -> Prop) -> Prop :=
  match e in effect Y return (Y -> db -> Prop) -> Prop with
  | ERedis c f => fun K => forall d', db_grows d d' ->
      (forall err, K (Err err) d') /\
      forall now r, queue_ok r -> linked (view (keyspace_of r)) d' ->
        redis_moves (queue_move (Known d')) r (f now r).2 /\ K (f now r).1 d'
  | ESql c f => fun K => forall d', db_grows d d' ->
      (forall err, K (Err err) d') /\ stmt_ok f /\
      forall e, db_ok d' -> K (f e d').1 (f e d').2
  | ENow => fun K => forall t, in_int64 (UnixMilli t) = true -> K t d
  | ERand => fun K => forall x, K x d
  | EUuid => fun K => forall u, K u d
  | EOrder l => fun K => forall l', l' ≡ₚ l -> K l' d
  | EWait c w => fun K => forall x, K x d
  | EPrint s => fun K => K tt d
  | ECount w n => fun K => K tt d
  end.

Fixpoint links {A} (p : prog A) (Q : A -> db -> Prop) (d : db) : Prop :=
  match p with
  | Ret a => forall d', db_grows d d' -> Q a d'
  | Do e k => links_effect e d (fun x d' => links (k x) Q d')
  end.

Lemma links_effect_mono {X} (e : effect X) d d' (K K' : X -> db -> Prop) :
  db_grows d d' -> (forall x a b, db_grows a b -> K x a -> K' x b) ->
  links_effect e d K -> links_effect e d' K'.
Proof.
  intros Hg HK. destruct e; simpl; try (intros H; intros; eapply HK; [exact Hg|by apply H]).
  - intros H d1 H1. destruct (H d1) as [He Hr]; [by etransitivity|].
    split; [intros err; eapply HK; [reflexivity|by apply He]|]. intros now r Hok Hl. destruct (Hr now r Hok Hl) as [Hm Hk].
    split; [done|eapply HK; [reflexivity|exact Hk]].
  - intros H d1 H1. destruct (H d1) as (He & Hs & Hr); [by etransitivity|].
    split; [intros err; eapply HK; [reflexivity|by apply He]|]. split; [done|]. intros e0 Hd. eapply HK; [reflexivity|by apply Hr].
Qed.

(** A claim about a program outlives what other processes write. *)
Lemma links_grow {A} (p : prog A) Q d d' : db_grows d d' -> links p Q d -> links p Q d'.
Proof.
  revert d d'. induction p as [a|X e k IH]; intros d d' Hg; simpl.
  - intros H d1 H1. apply H. by etransitivity.
  - apply links_effect_mono; [done|]. intros x a b. apply IH.
Qed.

Lemma links_bind {A B} (p : prog A) (f : A -> prog B) Q1 Q d :
  links p Q1 d -> (forall a d', db_grows d d' -> Q1 a d' -> links (f a) Q d') ->
  links (bind p f) Q d.
Proof.
  revert d. induction p as [a|X e k IH]; intros d Hp Hf; simpl in *; [by apply Hf, Hp|].
  destruct e; simpl in *; try (intros; apply IH; [by apply Hp|done]).
  - intros d' Hg. destruct (Hp d' Hg) as [He Hr].
    split; [intros err; apply IH; [done|intros; apply Hf; [by etransitivity|done]]|].
    intros now r Hok Hl. destruct (Hr now r Hok Hl) as [Hm Hk]. split; [done|].
    apply IH; [done|]. intros. apply Hf; [by etransitivity|done].
  - intros d' Hg. destruct (Hp d' Hg) as (He & Hs & Hr).
    split; [intros err; apply IH; [done|intros; apply Hf; [by etransitivity|done]]|].
    split; [done|]. intros e Hd. apply IH; [by apply Hr|].
    intros. apply Hf; [|done]. etransitivity; [done|]. etransitivity; [by apply Hs|done].
Qed.

(** A program that writes only what is known at its start. *)
Lemma keeps_links {A} (p : prog A) Q d :
  keeps (quiet_move (Known d)) p Q -> links p (fun a _ => Q a) d.
Proof.
  intros Hp. assert (forall d', db_grows d d' -> links p (fun a _ => Q a) d') as H; [|by apply H].
  induction p as [a|X e k IH]; simpl; intros d' Hg; [done|]. simpl in Hp.
  assert (HG : forall d1, db_grows d' d1 -> db_grows d d1) by (intros; by etransitivity).
  destruct e; simpl in *; try (intros; apply IH; [by apply Hp|done]).
  - intros d1 H1. destruct Hp as [He Hr]. split; [intros err; apply IH; [done|by apply HG]|].
    intros now r Hok _. destruct (Hr now r Hok) as [Hm Hk]. split; [|apply IH; [done|by apply HG]].
    eapply redis_moves_weaken; [|exact Hm]. intros a b Hq.
    apply m_quiet. eapply quiet_move_mono; [|exact Hq]. intros e0. apply known_grows. by apply HG.
  - intros d1 H1. destruct Hp as (He & [Hs _] & Hr). split; [intros err; apply IH; [done|by apply HG]|].
    split; [done|]. intros e0 Hd. apply IH; [by apply Hr|]. apply HG. etransitivity; [done|by apply Hs].
Qed.

(** What a step keeps: the world of both stores. *)
Definition joined (w : world) : Prop := world_ok w /\ linked (l_q (abs w)) (database w).

Lemma joined_grows w w' :
  joined w -> queue_ok (redis w') -> db_ok (database w') -> db_grows (database w) (database w') ->
  view (keyspace_of (redis w')) = view (keyspace_of (redis w)) -> joined w'.
Proof.
  intros [[Hr Hd] Hl] Hr' Hd' Hg E. split; [done|]. unfold abs. cbn. rewrite E.
  by eapply linked_mono.
Qed.

Lemma do_effect_links {X} (o : env) (e : effect X) K w :
  runtime_ok o -> joined w -> links_effect e (database w) K ->
  K (do_effect o e w).1 (database (do_effect o e w).2) /\ joined (do_effect o e w).2 /\
  db_grows (database w) (database (do_effect o e w).2).
Proof.
  intros Ho Hw He. pose proof Hw as [[Hr Hd] Hl].
  destruct e; cbn in He |- *;
    try (split; [first [exact He|apply He; first [done|apply (runtime_clock o Ho)
                                                     |apply (@shuffle_perm _ o (runtime_env o Ho))]]
               |split; [by split|done]]).
  - destruct (He (database w) ltac:(done)) as [H1 H2]. unfold serve.
    destruct (H2 (clock o (ticks w)) (redis w) Hr Hl) as [[H3 H3'] H4].
    assert (Hj : joined (with_redis (f (clock o (ticks w)) (redis w)).2 w)).
    { split; [split; [|done]|].
      - split; [done|]. eapply may_data; [|exact H3'|apply Hr]. intros a b. by apply queue_move_mono.
      - by apply (may_linked _ (view (keyspace_of (redis w)))). }
    destruct (faults o (ticks w) c); cbn; (split; [|split]); done || apply H1.
  - destruct (He (database w) ltac:(done)) as (H1 & H2 & H3). unfold serve.
    destruct (H2 (sqlenv_at o (ticks w)) (database w) Hd) as [H5 H6].
    specialize (H3 (sqlenv_at o (ticks w)) Hd).
    assert (Hj : joined (with_db (f (sqlenv_at o (ticks w)) (database w)).2 w))
      by (eapply joined_grows; done).
    destruct (faults o (ticks w) c); cbn; (split; [|split]); try done. by apply (He _ H6).
Qed.

End Links.

(** ** The programs *)

Section Programs.
Context {U : Uuid} {UL : UuidLaws U} {R : Redis} {RL : RedisLaws R} {P : Postgres}.
Context {UC : Unicode} {PF : Platform} {C : Chi} {D : Drivers}.

Abbreviation safe_at d p := (keeps (quiet_move (Known d)) p (fun _ => True)).

(** A program whose answer does not matter. *)
Definition honest (p : prog unit) (d : db) : Prop := links p (fun _ _ => True) d.

Lemma links_safe {A} (p : prog A) d : safe_at d p -> links p (fun _ _ => True) d.
Proof. apply (keeps_links p (fun _ => True)). Qed.

(** A read or a command of Redis, continued. *)
Lemma links_rdb {X A} c (f : rstate -> res X * rstate) (k : res X -> prog A) Q d :
  (forall err d', db_grows d d' -> links (k (Err err)) Q d') ->
  (forall r d', db_grows d d' -> queue_ok r -> linked (view (keyspace_of r)) d' ->
     redis_moves (queue_move (Known d')) r (f r).2 /\ links (k (f r).1) Q d') ->
  links (bind (rdb c f) k) Q d.
Proof. intros H1 H2 d' Hg. split; [intros err; by apply H1|]. intros now r. by apply H2. Qed.

Lemma links_sql {X A} c (s : stmt X) (k : res X -> prog A) Q d :
  stmt_ok s -> (forall err d', db_grows d d' -> links (k (Err err)) Q d') ->
  (forall e d', db_grows d d' -> db_ok d' -> links (k (s e d').1) Q (s e d').2) ->
  links (bind (sql c s) k) Q d.
Proof.
  intros Hs H1 H2 d' Hg. split; [intros err; by apply H1|]. split; [done|]. intros e Hd. by apply H2.
Qed.

Lemma links_ret {A} (a : A) (Q : A -> db -> Prop) d :
  (forall d', db_grows d d' -> Q a d') -> links (Ret a) Q d.
Proof. done. Qed.

Lemma links_now {A} (k : Z -> prog A) Q d :
  (forall t, in_int64 (UnixMilli t) = true -> links (k t) Q d) -> links (bind time_Now k) Q d.
Proof. done. Qed.

Lemma links_range {A B} (l : list A) (k : list A -> prog B) Q d :
  (forall l', l' ≡ₚ l -> links (k l') Q d) -> links (bind (range_over l) k) Q d.
Proof. done. Qed.

(** *** Leases *)

Definition leased (r : res Envelope) (d : db) : Prop :=
  match r with Ok e => ints_ok e = true /\ Known d e | Err _ => True end.

Lemma links_lease c t wk ttl d : links (Lease c t wk ttl) leased d.
Proof.
  unfold Lease. apply links_rdb.
  - intros err d' _. by destruct (errors_Is err ErrRedisNil).
  - intros r d' _ Hr Hl. split; [by apply lease_script_ok|].
    destruct (lease_script_cases (I := Known d') t wk r Hr)
      as [[-> _]|(e & m & s & l & -> & He & Hz & _)].
    + by destruct (errors_Is _ _).
    + cbv beta iota. rewrite (encodes_Unmarshal e m He). intros d1 H1. split; [by apply wire_ints, He|].
      apply (known_grows d'); [done|]. apply (Hl m); [|by apply encodes_Unmarshal].
      left. exists t. by eapply elem_of_dom_2, zsorted_head_lookup.
Qed.

Lemma links_lease_any c types wk ttl d : links (LeaseAny c types wk ttl) leased d.
Proof.
  revert d. induction types as [|t types IH]; intros d; [done|]. cbn [LeaseAny].
  eapply links_bind; [apply links_lease|]. intros [e|err] d' _ H.
  - intros d1 H1. destruct H as [H2 H3]. split; [done|by eapply known_grows].
  - destruct (errors_Is err ErrEmpty); [apply IH|done].
Qed.

Lemma links_serve_one c w types d :
  handlers_ok (worker_registry w) -> honest (serve_one c w types) d.
Proof.
  intros Hh. eapply links_bind; [apply links_lease_any|].
  intros [e|err] d' _ He; apply links_safe; [|apply safe_pause].
  destruct He. by apply safe_execute.
Qed.

(** *** Promotion *)

Lemma due_known t max n q d :
  data_ok q -> linked q d -> promotable (Known d) t (take n (zupto max (q_delayed q t))).
Proof.
  intros Hd Hl. apply Forall_take, Forall_forall. intros m (s & Hm & _)%elem_of_zupto.
  destruct (ok_delayed _ Hd _ _ _ Hm) as (e & He & Ht). exists e. split_and!; [done| |done].
  apply known_wire, (Hl m); [|by apply encodes_Unmarshal].
  right; left. exists t. by eapply elem_of_dom_2.
Qed.

Lemma links_promote c t now d :
  in_int64 (UnixMilli now) = true -> links (PromoteDelayed c t now) (fun _ _ => True) d.
Proof.
  intros Hn. rewrite promote_delayed_found. apply links_rdb; [done|].
  intros r d' _ Hr Hl. pose proof (zrange_answers t (rnd53 (UnixMilli now)) 256 r Hr) as Ha.
  split; [by eapply answers_moves|]. apply links_safe, safe_promote_found; [done|].
  rewrite Ha. cbn. apply (due_known t _ 256 (view (keyspace_of r))); [apply Hr|done].
Qed.

Lemma links_promote_each c seen types d : honest (promote_each c seen types) d.
Proof.
  revert seen d. induction types as [|t types IH]; intros seen d; [done|]. cbn [promote_each].
  case_decide; [apply IH|]. apply links_now. intros now Hn. eapply links_bind; [by apply links_promote|].
  intros x d' _ _. apply IH.
Qed.

(** *** Reclaiming *)

Definition reclaimed (r : res (list Envelope)) (d : db) : Prop :=
  match r with Ok es => Forall (fun e => ints_ok e = true /\ Known d e) es | Err _ => True end.

Lemma decode_all_known d q wk l :
  linked q d -> Forall (fun m => exists f, q_inflight q wk !! f = Some m) l ->
  Forall (fun e => ints_ok e = true /\ Known d e) (decode_all l).
Proof.
  intros Hl. induction 1 as [|m l [f Hf] _ IH]; [constructor|]. unfold decode_all in *. cbn [omap list_omap].
  destruct (Unmarshal m) as [e|] eqn:E; [|done]. constructor; [|done].
  split; [by eapply Unmarshal_ints|]. apply (Hl m); [|done]. right; right; left. eauto.
Qed.

Lemma links_reclaim c wk d : links (ReclaimInflight c wk) reclaimed d.
Proof.
  unfold ReclaimInflight. apply links_rdb; [done|]. intros r d' _ Hr Hl.
  pose proof (hgetall_law r (InflightKey wk) _ (well_typed_hash _ wk (proj1 Hr))) as Ha.
  split; [by eapply answers_moves|]. rewrite Ha. cbv beta iota. cbn [fst].
  apply links_range. intros entries He.
  assert (Hk : forall d1, db_grows d' d1 -> reclaimed (Ok (decode_all (map snd entries))) d1).
  { intros d1 H1. eapply (decode_all_known d1 (view (keyspace_of r)) wk); [by eapply linked_mono|].
    apply Forall_forall. intros m ([f m'] & -> & H)%list_elem_of_fmap. exists f.
    rewrite He in H. by apply elem_of_map_to_list in H. }
  cbv zeta. case_if; [|done].
  eapply links_bind; [apply links_safe, safe_rdb, del_inflight_ok|].
  intros x d1 H1 _ d2 H2. apply Hk. by etransitivity.
Qed.

Lemma links_reclaim_worker c w d : honest (reclaim_worker c w) d.
Proof.
  unfold reclaim_worker. case_if; [done|].
  eapply links_bind; [apply links_safe, safe_is_alive|]. intros [[]|] d' _ _; [done| |done].
  eapply links_bind; [apply links_reclaim|]. intros [envs|] d1 _ He; [|done].
  apply links_safe. apply safe_bind; [by apply safe_requeue_each|]. intros _.
  apply safe_bind; [apply safe_requeue_orphans|]. intros _.
  by apply safe_bind; [apply safe_mark_worker_dead|].
Qed.

Lemma links_reclaim_each c ws d : honest (reclaim_each c ws) d.
Proof.
  revert d. induction ws as [|w ws IH]; intros d; [done|]. cbn [reclaim_each].
  eapply links_bind; [apply links_reclaim_worker|]. intros x d' _ _. apply IH.
Qed.

Lemma links_tick fuel c d : honest (coord_tick fuel c) d.
Proof.
  eapply links_bind.
  - eapply links_bind; [apply links_safe, safe_list_types|]. intros [types|] d' _ _.
    + eapply links_bind; [|intros; apply links_promote_each]. apply links_safe.
      apply safe_bind; [apply safe_scan_keys|]. intros [ts|]; [by apply safe_order|done].
    + by apply (links_ret tt (fun _ _ => True)).
  - intros x d' _ _. eapply links_bind; [by apply links_safe, safe_read|].
    intros [] d1 _ _; [apply links_reclaim_each|done].
Qed.

(** *** Requests *)

(** A task that its row has just confirmed. *)
Definition recorded (r : res Task) (d : db) : Prop :=
  match r with Ok t => task_ints t /\ Known d (fresh_envelope t) | Err _ => True end.

Lemma recorded_grows r d d' : db_grows d d' -> recorded r d -> recorded r d'.
Proof. intros Hg. destruct r as [t|]; [|done]. intros [H1 H2]. split; [done|by eapply known_grows]. Qed.

(** The row that an insertion confirms. *)
Lemma insert_recorded t e d :
  match (insert_task t e d).1 with
  | Ok _ => recorded (Ok t) (insert_task t e d).2
  | Err _ => True
  end.
Proof.
  unfold insert_task. destruct (jsonb_in _); [|done]. destruct (tasks d !! ID t); [done|].
  destruct (_ && _) eqn:Hi; [|done]. bool_to_prop. split; [by split|]. eexists. by split; [apply lookup_insert_eq|].
Qed.

Lemma redrive_recorded id e d : db_ok d -> recorded (update_redrive id e d).1 (update_redrive id e d).2.
Proof.
  intros Hd. unfold update_redrive. destruct (tasks d !! id) as [r|] eqn:E; [|done]. case_if; [|done].
  split; [by destruct (rows_ok d Hd _ _ E) as (_ & ? & _ & ? & _)|].
  eexists. by split; [apply lookup_insert_eq|].
Qed.

Lemma links_create c t d :
  Status t = StatusQueued -> Attempts t = 0 ->
  links (CreateTask c t)
    (fun x => recorded (match x.2 with Ok _ => Ok x.1 | Err e => Err e end)) d.
Proof.
  intros Hs Ha. unfold CreateTask.
  eapply links_bind; [apply links_safe; by case_decide|]. intros id d1 _ _. cbv zeta.
  eapply links_bind; [apply links_safe; case_if; [|done]; by apply safe_now|]. intros avail d2 _ _.
  apply links_now. intros now _.
  set (t' := MkTask _ _ _ _ _ _ _ _ _ _ _ _ _ _ _).
  apply links_sql.
  - apply insert_task_ok; simpl; [by rewrite Hs; apply known|case_if; lia].
  - done.
  - intros e d3 _ _. pose proof (insert_recorded t' e d3) as Hr.
    destruct (insert_task t' e d3).1 as [u|err]; [|done].
    eapply links_bind; [apply links_safe, safe_log_event|].
    intros [] d4 Hg _ d5 Hg'; [|done]. eapply recorded_grows; [|exact Hr]. by etransitivity.
Qed.

Lemma links_redrive c id d : links (Redrive c id) recorded d.
Proof.
  unfold Redrive. apply links_sql; [auto with taskq| |].
  - intros err d' _. cbn [not_found]. by destruct (errors_Is err ErrNoRows).
  - intros e d' _ Hd. pose proof (redrive_recorded id e d' Hd) as Hr.
    destruct (update_redrive id e d').1 as [t|err]; cbn [not_found]; [|by destruct (errors_Is err ErrNoRows)].
    eapply links_bind; [apply links_safe, safe_log_event|].
    intros x d4 Hg _ d5 Hg'. eapply recorded_grows; [|exact Hr]. by etransitivity.
Qed.

Lemma links_enqueue c t d :
  recorded (Ok t) d -> links (Enqueue c (fresh_envelope t)) (fun _ _ => True) d.
Proof. intros [H1 H2]. apply links_safe, safe_enqueue; [by apply fresh_ints|done]. Qed.

Lemma links_createTask c b d : links (createTask c b) (fun _ _ => True) d.
Proof.
  unfold createTask. destruct (decode_request b) as [req|]; [|done]. case_if; [done|]. cbv zeta.
  eapply links_bind; [by apply links_create|]. intros [t [[]|err]] d1 _ Ht; [|done].
  eapply links_bind; [by apply links_enqueue|]. intros [] d2 _ _; [|done].
  apply links_safe, safe_now. intros. by apply safe_bind; [apply safe_publish|].
Qed.

Lemma links_redriveDLQ c id d : links (redriveDLQ c id) (fun _ _ => True) d.
Proof.
  unfold redriveDLQ. destruct (uuid_Parse id); [|done].
  eapply links_bind; [apply links_redrive|]. intros [t|] d1 _ Ht; [|done].
  eapply links_bind; [by apply links_enqueue|]. by intros [].
Qed.

Lemma links_respond p d : links p (fun _ _ => True) d -> links (respond p) (fun _ _ => True) d.
Proof. intros H. by eapply links_bind. Qed.

(** Every row of the table. *)
Ltac rows :=
  repeat match goal with
         | |- Forall _ [] => apply Forall_nil_2
         | |- Forall _ (_ :: _) => apply Forall_cons_2; [intros r ps|]
         end.

Lemma routes_linked fuel c s d :
  Forall (fun e => forall r ps, links (e.2 r ps) (fun _ _ => True) d) (routes fuel c s).
Proof.
  unfold routes. rewrite !Forall_app. split_and!.
  - rows; [done|]. by apply links_respond, links_safe, safe_readyz.
  - unfold mount, api_routes. cbn [map fst snd]. rows; apply links_respond.
    + apply links_createTask.
    + apply links_safe, safe_listTasks.
    + apply links_safe, safe_getTask.
    + apply links_safe, safe_getTaskEvents.
    + apply links_safe, safe_cancelTask.
    + by apply links_safe, safe_answer; [|intros []].
    + apply links_redriveDLQ.
    + by apply links_safe, safe_answer; [|intros []].
    + apply links_safe, safe_getStats.
  - destruct (server_Hub s); by rows.
Qed.

Lemma links_Router fuel c s r d : links (Router fuel c s r) (fun _ _ => True) d.
Proof.
  unfold Router, corsMiddleware. case_if; [done|]. destruct (chi_route _ _ _) as [n ps|]; [|done].
  destruct (routes fuel c s !! n) as [[mp h]|] eqn:E; [|done]. destruct mp as [m pat].
  pose proof (routes_linked fuel c s d) as H. rewrite Forall_forall in H.
  apply (H (m, pat, h)). by eapply list_elem_of_lookup_2.
Qed.

Lemma program_honest p d : program p -> honest p d.
Proof.
  intros [c E|E host cfg reg|c w|w|c w types H|c w|w|fuel c|fuel c s r].
  - apply links_safe, safe_forget, safe_boot.
  - apply links_safe, safe_forget, safe_new_worker.
  - apply links_safe, safe_forget, safe_register.
  - apply links_safe, safe_forget, safe_served_types.
  - apply links_serve_one. rewrite H. apply defaults_ok.
  - apply links_safe, safe_beat.
  - apply links_safe, safe_stop.
  - apply links_tick.
  - by eapply links_bind; [apply links_Router|].
Qed.

(** ** The pool *)

Definition pool_joined (s : pool) : Prop :=
  Forall (fun p => honest p (database s.2)) s.1 /\ joined s.2.

Lemma initial_joined s : initial s -> pool_joined s.
Proof.
  intros Hi. destruct (initial_ok s Hi) as [_ Hw]. destruct Hi as (Hp & Hk & _).
  split; [by rewrite Hp|]. split; [done|]. unfold abs. cbn. rewrite Hk.
  intros m e [[t H]|[[t H]|[(wk & f & H)|[t H]]]]; exfalso; revert H; cbn;
    unfold zset_at, hash_at, list_at; rewrite lookup_empty; set_solver.
Qed.

Lemma honest_grows ps d d' :
  db_grows d d' -> Forall (fun p => honest p d) ps -> Forall (fun p => honest p d') ps.
Proof. intros Hg H. eapply Forall_impl; [exact H|]. intros p. by apply links_grow. Qed.

Lemma step_joined (o : env) (p : prog unit) w :
  runtime_ok o -> joined w -> honest p (database w) ->
  honest (steps o 1 p w).1 (database (steps o 1 p w).2) /\ joined (steps o 1 p w).2 /\
  db_grows (database w) (database (steps o 1 p w).2).
Proof.
  intros Ho Hw Hp. destruct p as [a|X e k]; [done|]. cbn [steps].
  pose proof (do_effect_links o e _ w Ho Hw Hp). by destruct (do_effect o e w).
Qed.

Lemma pool_step_joined s s' : pool_joined s -> pool_step s s' -> pool_joined s'.
Proof.
  intros [Hp Hw] Hs. destruct Hs as [ps1 ps2 w p Hprog|o ps1 ps2 p w Ho|ps1 ps2 p w]; cbn [fst snd] in *.
  - split; [|done]. apply Forall_app in Hp as [H1 H2]. apply Forall_app. split; [done|].
    constructor; [by apply program_honest|done].
  - apply Forall_app in Hp as [H1 [Hp H2]%Forall_cons].
    destruct (step_joined o p w Ho Hw Hp) as (H3 & H4 & Hg). split; [|done].
    apply Forall_app. split; [by eapply honest_grows|]. constructor; [done|by eapply honest_grows].
  - apply Forall_app in Hp as [H1 [Hp H2]%Forall_cons]. split; [by apply Forall_app|done].
Qed.

(** Every stored text decodes. *)
Lemma stored_decodes q m : data_ok q -> stored q m -> exists e, Unmarshal m = Ok e.
Proof.
  intros Hd [[t H]|[[t H]|[(wk & f & H)|[t H]]]].
  - apply elem_of_dom in H as [s H]. destruct (ok_ready _ Hd _ _ _ H) as (e & He & _).
    eexists. by apply encodes_Unmarshal.
  - apply elem_of_dom in H as [s H]. destruct (ok_delayed _ Hd _ _ _ H) as (e & He & _).
    eexists. by apply encodes_Unmarshal.
  - destruct (ok_inflight _ Hd _ _ _ H) as (e & He & _). eexists. by apply encodes_Unmarshal.
  - destruct (ok_dlq _ Hd _ _ H) as (e & He & _). eexists. by apply buries_Unmarshal.
Qed.

(** C7: in every state the system reaches, whatever the interleaving, the faults
    and the crashes, every text that Redis holds as ready, delayed, in flight or
    dead decodes to an envelope whose task has a row in PostgreSQL, with the
    envelope's type, priority and attempt limit: no envelope is ever orphaned,
    although the two stores share no transaction. *)
Theorem envelopes_have_rows (s s' : pool) (m : string) :
  initial s -> rtc pool_step s s' -> stored (l_q (abs s'.2)) m ->
  exists e, Unmarshal m = Ok e /\ Known (database s'.2) e.
Proof.
  intros Hi Hs Hm. assert (pool_joined s') as [_ [[Hr _] Hl]].
  { pose proof (initial_joined s Hi) as Hj. clear Hi Hm. induction Hs; [done|].
    eauto using pool_step_joined. }
  destruct (stored_decodes _ m (proj2 Hr) Hm) as [e He]. exists e. split; [done|by eapply Hl].
Qed.

End Programs.

(** The task that the crashed worker of the run had leased is stored, and known. *)
Lemma envelopes_have_rows_witness :
  exists m e, stored (l_q (abs pool2.2)) m /\ Unmarshal m = Ok e /\ Known (database pool2.2) e.
Proof.
  destruct (map_choose (inflight pool2.2 "w1")) as (f & m & Hm).
  { intros H. pose proof (proj1 pool2_leased) as Hs. rewrite H, map_size_empty in Hs. discriminate Hs. }
  assert (Hst : stored (l_q (abs pool2.2)) m) by (right; right; left; exists "w1", f; exact Hm).
  destruct (envelopes_have_rows pool0 pool2 m pool0_initial) as (e & He & Hk); [|exact Hst|].
  - etransitivity; [exact pool1_reached|exact pool2_reached].
  - exists m, e. split; [exact Hst|]. split; [exact He|exact Hk].
Defined.
