(* ===== verification/Deployment.v ===== *)
(** * The three binaries ([cmd/worker], [cmd/scheduler], [cmd/api])

    Each server as a process: it boots, then a worker runs its loop
    ([WorkerLoop.v]), a coordinator sweeps ([CoordLoop.v]), an API server answers
    requests until it is told to stop. A deployment is any number of such
    processes around one Redis and one database; processes are launched and
    killed at any time. Every step of a deployment is made of steps of the pool
    of [System.v], so what holds of every pool holds of the binaries. *)

From S2P Require Import Prelude GoBase F64 GoString Json GoTime GoStd Redis RefRedis Task Db.
From S2P Require Import Effects Queue Abstract QueueSpec QueueInv QueueMoves RefWorld Config.
From S2P Require Import Handlers Store StoreInv Lifecycle Scheduler Api Router Boot SchedulerThms.
From S2P Require Import Safety System WorkerLoop CoordLoop ApiTypes.

Open Scope Z_scope.
Open Scope taskq_scope.

Section Binaries.
Context {U : Uuid} {UL : UuidLaws U} {R : Redis} {RL : RedisLaws R} {P : Postgres}.
Context {UC : Unicode} {PF : Platform} {C : Chi} {D : Drivers}.

(** ** The processes; [main] is in one of these places *)

Inductive worker_main :=
  | WBooting (p : prog (res Config))
  | WCreating (p : prog Worker)
  | WRunning (w : Worker) (s : run_state)
  | WExited (code : Z).

Inductive scheduler_main :=
  | SBooting (p : prog (res Config))
  | SRunning (k : Coordinator) (s : coord_state)
  | SExited (code : Z).

(** The requests being answered, each in its goroutine; has the server been told
    to stop? *)
Inductive api_main :=
  | ABooting (p : prog (res Config))
  | AServing (reqs : list (prog answer)) (stopping : bool)
  | AExited (code : Z).

(** [log.Fatalf] exits with status 1, a panic with 2. *)
Definition worker_exit (x : phase) : option Z :=
  match x with
  | Returned (Ok _) => Some 0
  | Returned (Err _) => Some 1
  | Panicked => Some 2
  | _ => None
  end.

Inductive worker_step (c : ctx) (E : environ) (host : string) :
    worker_main * world -> worker_main * world -> Prop :=
  | w_boot_effect o p v :
      runtime_ok o ->
      worker_step c E host (WBooting p, v) (WBooting (steps o 1 p v).1, (steps o 1 p v).2)
  | w_boot_failed err v : worker_step c E host (WBooting (Ret (Err err)), v) (WExited 1, v)
  | w_booted cfg v :
      worker_step c E host (WBooting (Ret (Ok cfg)), v)
        (WCreating (NewWorker E host cfg (RegisterDefaults NewRegistry)), v)
  | w_create_effect o p v :
      runtime_ok o ->
      worker_step c E host (WCreating p, v) (WCreating (steps o 1 p v).1, (steps o 1 p v).2)
  | w_created w v : worker_step c E host (WCreating (Ret w), v) (WRunning w (run_start c w), v)
  | w_run w s v s' v' :
      run_step c w (s, v) (s', v') -> worker_step c E host (WRunning w s, v) (WRunning w s', v')
  | w_exit w s v code :
      worker_exit (ph s) = Some code -> worker_step c E host (WRunning w s, v) (WExited code, v).

Inductive scheduler_step (c : ctx) : scheduler_main * world -> scheduler_main * world -> Prop :=
  | s_boot_effect o p v :
      runtime_ok o ->
      scheduler_step c (SBooting p, v) (SBooting (steps o 1 p v).1, (steps o 1 p v).2)
  | s_boot_failed err v : scheduler_step c (SBooting (Ret (Err err)), v) (SExited 1, v)
  | s_booted cfg v :
      scheduler_step c (SBooting (Ret (Ok cfg)), v) (SRunning (NewCoordinator cfg) coord_start, v)
  | s_run k s v s' v' :
      coord_step c k (s, v) (s', v') -> scheduler_step c (SRunning k s, v) (SRunning k s', v')
  | s_returned k s v : cph s = CoordReturned -> scheduler_step c (SRunning k s, v) (SExited 0, v)
  | s_panicked k s v : cph s = CoordPanicked -> scheduler_step c (SRunning k s, v) (SExited 2, v).

(** A request sees some number of hub clients; [Shutdown] waits for the requests
    being answered, ten seconds at most. *)
Inductive api_step (c : ctx) : api_main * world -> api_main * world -> Prop :=
  | a_boot_effect o p v :
      runtime_ok o -> api_step c (ABooting p, v) (ABooting (steps o 1 p v).1, (steps o 1 p v).2)
  | a_boot_failed err v : api_step c (ABooting (Ret (Err err)), v) (AExited 1, v)
  | a_booted cfg v : api_step c (ABooting (Ret (Ok cfg)), v) (AServing [] false, v)
  | a_listen_failed reqs v : api_step c (AServing reqs false, v) (AExited 1, v)
  | a_accept fuel clients r reqs v :
      api_step c (AServing reqs false, v)
        (AServing (reqs ++ [Router fuel c (MkServer (Some clients)) r]) false, v)
  | a_effect o l1 p l2 b v :
      runtime_ok o ->
      api_step c (AServing (l1 ++ p :: l2) b, v)
        (AServing (l1 ++ (steps o 1 p v).1 :: l2) b, (steps o 1 p v).2)
  | a_answered l1 a l2 b v : api_step c (AServing (l1 ++ Ret a :: l2) b, v) (AServing (l1 ++ l2) b, v)
  | a_signal reqs v : api_step c (AServing reqs false, v) (AServing reqs true, v)
  | a_shutdown v : api_step c (AServing [] true, v) (AExited 0, v)
  | a_timeout reqs v : api_step c (AServing reqs true, v) (AExited 0, v).

(** ** Deployments *)

Inductive process :=
  | PWorker (c : ctx) (E : environ) (host : string) (m : worker_main)
  | PScheduler (c : ctx) (m : scheduler_main)
  | PApi (c : ctx) (m : api_main).

Inductive process_step : process * world -> process * world -> Prop :=
  | ps_worker c E host m v m' v' :
      worker_step c E host (m, v) (m', v') ->
      process_step (PWorker c E host m, v) (PWorker c E host m', v')
  | ps_scheduler c m v m' v' :
      scheduler_step c (m, v) (m', v') -> process_step (PScheduler c m, v) (PScheduler c m', v')
  | ps_api c m v m' v' : api_step c (m, v) (m', v') -> process_step (PApi c m, v) (PApi c m', v').

(** Where [main] begins. *)
Inductive launched : process -> Prop :=
  | l_worker c E host : launched (PWorker c E host (WBooting (boot c E)))
  | l_scheduler c E : launched (PScheduler c (SBooting (boot c E)))
  | l_api c E : launched (PApi c (ABooting (boot c E))).

Definition deployment : Type := list process * world.

Inductive deploy_step : deployment -> deployment -> Prop :=
  | d_launch l1 l2 p v : launched p -> deploy_step (l1 ++ l2, v) (l1 ++ p :: l2, v)
  | d_step l1 p l2 v p' v' :
      process_step (p, v) (p', v') -> deploy_step (l1 ++ p :: l2, v) (l1 ++ p' :: l2, v')
  | d_kill l1 p l2 v : deploy_step (l1 ++ p :: l2, v) (l1 ++ l2, v).

(** ** The programs a process is running *)

Definition job_progs (j : Envelope * job_state) : list (prog unit) :=
  match j.2 with Executing p => [p] | Released => [] end.

(** The rest of a round: what is done with the lease's answer. *)
Definition round (c : ctx) (w : Worker) (r : res Envelope) : prog unit :=
  match r with Ok e => execute c w e | Err err => pause c err end.

Definition phase_progs (c : ctx) (w : Worker) (x : phase) : list (prog unit) :=
  match x with
  | Registering p => [forget p]
  | Choosing p => [forget p]
  | Leasing _ p => [bind p (round c w)]
  | Pausing _ p => [p]
  | Stopping p => [p]
  | _ => []
  end.

Definition beat_progs (b : beater) : list (prog unit) :=
  match b with Beating p => [p] | _ => [] end.

(** The goroutines of a run: the tasks', the dispatcher and the heartbeat. *)
Definition scene (js : list (Envelope * job_state)) (x : list (prog unit)) (b : beater) :
    list (prog unit) :=
  flat_map job_progs js ++ x ++ beat_progs b.

Definition run_progs (c : ctx) (w : Worker) (s : run_state) : list (prog unit) :=
  scene (jobs s) (phase_progs c w (ph s)) (beats s).

Definition coord_progs (s : coord_state) : list (prog unit) :=
  match cph s with Sweeping p => [p] | _ => [] end.

Definition process_progs (p : process) : list (prog unit) :=
  match p with
  | PWorker c E host (WBooting p) => [forget p]
  | PWorker c E host (WCreating p) => [forget p]
  | PWorker c E host (WRunning w s) => run_progs c w s
  | PScheduler c (SBooting p) => [forget p]
  | PScheduler c (SRunning k s) => coord_progs s
  | PApi c (ABooting p) => [forget p]
  | PApi c (AServing reqs _) => map forget reqs
  | _ => []
  end.

Definition pool_of (d : deployment) : pool := (flat_map process_progs d.1, d.2).

(** ** Steps of the pool that touch only some of its programs *)

Definition locally (x y : pool) : Prop :=
  forall l1 l2, rtc pool_step (l1 ++ x.1 ++ l2, x.2) (l1 ++ y.1 ++ l2, y.2).

#[local] Instance locally_preorder : PreOrder locally.
Proof.
  split; [by intros x l1 l2|]. intros x y z H1 H2 l1 l2. by etransitivity; [apply H1|apply H2].
Qed.

Lemma locally_in a b l l' v v' :
  locally (l, v) (l', v') -> locally (a ++ l ++ b, v) (a ++ l' ++ b, v').
Proof.
  intros H l1 l2. specialize (H (l1 ++ a) (b ++ l2)). cbn [fst snd] in *. by rewrite <- !app_assoc in *.
Qed.

Lemma locally_app_l l l' b v v' :
  locally (l, v) (l', v') -> locally (l ++ b, v) (l' ++ b, v').
Proof. apply (locally_in []). Qed.

Lemma locally_app_r a l l' v v' :
  locally (l, v) (l', v') -> locally (a ++ l, v) (a ++ l', v').
Proof. intros H. rewrite <- (app_nil_r l), <- (app_nil_r l'). by apply locally_in. Qed.

Lemma locally_start p v : program p -> locally ([], v) ([p], v).
Proof. intros H l1 l2. by apply rtc_once, step_start. Qed.

Lemma locally_drop l v : locally (l, v) ([], v).
Proof.
  induction l as [|p l IH]; [done|]. transitivity (l, v); [|exact IH].
  intros l1 l2. apply rtc_once, (step_crash l1 (l ++ l2)).
Qed.

Lemma locally_become l p v : program p -> locally (l, v) ([p], v).
Proof. intros H. transitivity (([], v) : pool); [apply locally_drop|by apply locally_start]. Qed.

(** An effect of a program is one of the program it is the beginning of. *)
Lemma locally_bind {A} (o : env) (p : prog A) (f : A -> prog unit) v :
  runtime_ok o ->
  locally ([bind p f], v) ([bind (steps o 1 p v).1 f], (steps o 1 p v).2).
Proof.
  intros Ho. destruct p as [a|X e k]; [done|]. intros l1 l2.
  pose proof (step_effect o l1 l2 (bind (Do e k) f) v Ho) as H.
  cbn [steps bind] in *. destruct (do_effect o e v). by apply rtc_once.
Qed.

Lemma locally_effect (o : env) p v :
  runtime_ok o -> locally ([p], v) ([(steps o 1 p v).1], (steps o 1 p v).2).
Proof.
  intros Ho. destruct p as [a|X e k]; [done|]. intros l1 l2.
  by apply rtc_once, (step_effect o l1 l2).
Qed.

(** ** Each process is matched by its programs *)

Abbreviation defaults := (RegisterDefaults NewRegistry).

Definition process_ok (p : process) : Prop :=
  match p with
  | PWorker c E host (WCreating p) => returns p (fun w => worker_registry w = defaults)
  | PWorker c E host (WRunning w s) => worker_registry w = defaults
  | _ => True
  end.

Lemma new_worker_registry E host cfg reg :
  returns (NewWorker E host cfg reg) (fun w => worker_registry w = reg).
Proof. apply returns_any. by intros id. Qed.

Lemma returns_steps {A} (o : env) (p : prog A) Q v : returns p Q -> returns (steps o 1 p v).1 Q.
Proof. destruct p as [a|X e k]; [done|]. cbn. intros H. destruct (do_effect o e v) as [x w]. apply H. Qed.

(** One of the goroutines of a run takes a step. *)
Lemma scene_phase js x x' b v v' :
  locally (x, v) (x', v') -> locally (scene js x b, v) (scene js x' b, v').
Proof. intros H. by apply locally_app_r, locally_app_l. Qed.

Lemma scene_jobs l1 j j' l2 x b v v' :
  locally (job_progs j, v) (job_progs j', v') ->
  locally (scene (l1 ++ j :: l2) x b, v) (scene (l1 ++ j' :: l2) x b, v').
Proof.
  intros H. unfold scene. rewrite !flat_map_app. cbn [flat_map].
  by apply locally_app_l, locally_app_r, locally_app_l.
Qed.

Lemma scene_beats js x b b' v v' :
  locally (beat_progs b, v) (beat_progs b', v') -> locally (scene js x b, v) (scene js x b', v').
Proof. intros H. by do 2 apply locally_app_r. Qed.

#[local] Hint Resolve locally_drop locally_become locally_effect locally_bind
  scene_phase scene_jobs scene_beats : core.
#[local] Hint Constructors program : core.

Lemma phase_effect_locally c w o x v x' v' :
  runtime_ok o -> phase_effect o x v = (x', v') ->
  locally (phase_progs c w x, v) (phase_progs c w x', v').
Proof.
  intros Ho. destruct x as [p|p|ts|ts p|ts p| |p|r|]; cbn [phase_effect]; intros E;
    try (injection E as <- <-; done);
    destruct (steps o 1 p v) as [p' v1] eqn:Ep; injection E as <- <-; cbn [phase_progs].
  - pose proof (locally_bind o p (fun _ => Ret tt) v Ho) as H. by rewrite Ep in H.
  - pose proof (locally_bind o p (fun _ => Ret tt) v Ho) as H. by rewrite Ep in H.
  - pose proof (locally_bind o p (round c w) v Ho) as H. by rewrite Ep in H.
  - pose proof (locally_effect o p v Ho) as H. by rewrite Ep in H.
  - pose proof (locally_effect o p v Ho) as H. by rewrite Ep in H.
Qed.

Lemma scene_leased js e p b v :
  locally (scene js [p] b, v) (scene (js ++ [(e, Executing p)]) [] b, v).
Proof. unfold scene. rewrite flat_map_app, <- !app_assoc. done. Qed.

Lemma after_register_locally c w s x v :
  locally (scene (jobs s) x (beats s), v) (run_progs c w (after_register w s), v).
Proof.
  unfold after_register, run_progs. case_if; cbn [jobs ph beats set_ph set_beats phase_progs]; [|auto].
  transitivity ((scene (jobs s) [forget (served_types w)] (beats s), v) : pool); auto.
Qed.

Lemma run_step_locally c w x y :
  worker_registry w = defaults -> run_step c w x y ->
  locally (run_progs c w x.1, x.2) (run_progs c w y.1, y.2).
Proof.
  intros Hw Hs.
  destruct Hs as [s v|o s v x v' Ho Hx|s v err Hp|s v Hp|s v Hp|s v t ts Hp|s v ts Hp Hc|s v ts Hp Hlt
    |s v ts err n Hp Hn|s v ts e Hp|s v ts Hp|o s v l1 e p l2 Ho Hj|s v l1 e l2 n Hj Hn|s v l1 e l2 Hj
    |s v Hp Hj|s v Hp|s v Hb|o s v p Ho Hb|s v Hb|s v Hb Hc];
    unfold run_progs; cbn [fst snd jobs ph beats set_ph set_beats set_slots set_jobs];
    try rewrite Hp; try rewrite Hb; cbn [phase_progs]; auto.
  - done.
  - by apply scene_phase, (phase_effect_locally c w o).
  - apply after_register_locally.
  - apply scene_phase, locally_start. by apply (p_serve c w ts).
  - done.
  - apply scene_leased.
  - rewrite Hj. apply scene_jobs. cbn [job_progs snd]. auto.
  - rewrite Hj. apply scene_jobs. auto.
  - rewrite Hj. unfold scene. by rewrite !flat_map_app.
  - apply scene_beats, locally_start. constructor.
  - apply scene_beats. cbn [beat_progs]. auto.
Qed.
Lemma coord_step_locally c k x y :
  coord_step c k x y -> locally (coord_progs x.1, x.2) (coord_progs y.1, y.2).
Proof.
  intros Hs. destruct Hs as [s v|s v Hp|s v Hp|s v Hp Hc|fuel s v Hp Hc|o s v p Ho Hp|s v Hp];
    unfold coord_progs; cbn [fst snd cph set_cph]; try rewrite Hp; auto.
  - done.
  - unfold start_ticker. case_if; cbn; auto.
  - done.
Qed.

Lemma api_step_locally c x y :
  api_step c x y ->
  locally (process_progs (PApi c x.1), x.2) (process_progs (PApi c y.1), y.2).
Proof.
  intros Hs. destruct Hs as [o p v Ho|err v|cfg v|reqs v|fuel clients r reqs v|o l1 p l2 b v Ho
    |l1 a l2 b v|reqs v|v|reqs v]; cbn [process_progs fst snd]; auto.
  - by apply locally_bind.
  - rewrite map_app. rewrite <- (app_nil_r (map forget reqs)) at 1.
    by apply locally_app_r, locally_start.
  - rewrite !map_app. cbn [map]. by apply locally_app_r, (locally_app_l [_] [_]), locally_bind.
  - rewrite !map_app. cbn [map]. by apply locally_app_r, (locally_app_l [_] []), locally_drop.
  - done.
Qed.

Lemma worker_step_locally c E host x y :
  process_ok (PWorker c E host x.1) -> worker_step c E host x y ->
  process_ok (PWorker c E host y.1) /\
  locally (process_progs (PWorker c E host x.1), x.2) (process_progs (PWorker c E host y.1), y.2).
Proof.
  intros Hok Hs. destruct Hs as [o p v Ho|err v|cfg v|o p v Ho|w v|w s v s' v' Hs|w s v code Hx];
    cbn [process_progs process_ok fst snd] in *; split; auto.
  - by apply locally_bind.
  - apply new_worker_registry.
  - by apply returns_steps.
  - by apply locally_bind.
  - by apply (locally_become _ (forget (register c w))).
  - exact (run_step_locally c w (s, v) (s', v') Hok Hs).
Qed.

Lemma scheduler_step_locally c x y :
  scheduler_step c x y ->
  locally (process_progs (PScheduler c x.1), x.2) (process_progs (PScheduler c y.1), y.2).
Proof.
  intros Hs. destruct Hs as [o p v Ho|err v|cfg v|k s v s' v' Hs|k s v Hp|k s v Hp];
    cbn [process_progs fst snd]; auto.
  - by apply locally_bind.
  - exact (coord_step_locally c k (s, v) (s', v') Hs).
Qed.

Lemma process_step_locally x y :
  process_ok x.1 -> process_step x y ->
  process_ok y.1 /\ locally (process_progs x.1, x.2) (process_progs y.1, y.2).
Proof.
  intros Hok Hs. destruct Hs as [c E host m v m' v' H|c m v m' v' H|c m v m' v' H].
  - exact (worker_step_locally c E host (m, v) (m', v') Hok H).
  - split; [done|]. exact (scheduler_step_locally c (m, v) (m', v') H).
  - split; [done|]. exact (api_step_locally c (m, v) (m', v') H).
Qed.

Lemma launched_progs p : launched p -> process_ok p /\ exists q, process_progs p = [q] /\ program q.
Proof. intros []; (split; [done|]); eexists; (split; [reflexivity|constructor]). Qed.

Lemma deploy_step_pool d d' :
  Forall process_ok d.1 -> deploy_step d d' ->
  Forall process_ok d'.1 /\ rtc pool_step (pool_of d) (pool_of d').
Proof.
  intros Hok Hs. destruct Hs as [l1 l2 p v Hl|l1 p l2 v p' v' Hp|l1 p l2 v];
    unfold pool_of; cbn [fst snd] in *; rewrite !flat_map_app; cbn [flat_map];
    apply Forall_app in Hok as [H1 H2].
  - destruct (launched_progs p Hl) as (Hp & q & -> & Hq).
    split; [apply Forall_app; split; [done|by constructor]|]. by apply (locally_start q v Hq).
  - apply Forall_cons_1 in H2 as [H2 H3]. destruct (process_step_locally (p, v) (p', v') H2 Hp) as [H4 H5].
    split; [apply Forall_app; split; [done|by constructor]|]. apply H5.
  - apply Forall_cons_1 in H2 as [_ H3]. split; [by apply Forall_app|].
    apply (locally_drop (process_progs p) v).
Qed.

Lemma deploy_steps_pool d d' :
  Forall process_ok d.1 -> rtc deploy_step d d' ->
  Forall process_ok d'.1 /\ rtc pool_step (pool_of d) (pool_of d').
Proof.
  intros Hok H. revert Hok. induction H as [d|d1 d2 d3 H12 _ IH]; intros Hok; [done|].
  destruct (deploy_step_pool d1 d2 Hok H12) as [H2 R2]. destruct (IH H2) as [H3 R3].
  split; [done|]. by etransitivity.
Qed.

(** C5: the binaries themselves implement the specification machine: start from
    an empty Redis and a fresh schema, launch, run and kill any number of worker,
    scheduler and API processes in any order; then the data is well formed in every
    state [d1] the deployment reaches, and from there on every run is matched by a
    run of the machine of allowed moves, rows, workers and logs only growing. *)
Theorem deployment_refines (v : world) (d1 d2 : deployment) :
  initial ([], v) -> rtc deploy_step ([], v) d1 -> rtc deploy_step d1 d2 ->
  good d1.2 /\ data_ok (l_q (abs d1.2)) /\ db_ok (database d1.2) /\
  db_grows (database d1.2) (database d2.2) /\
  exists a, rtc spec_step (spec_of d1.2) a /\ same_spec a (spec_of d2.2).
Proof.
  intros Hi R1 R2. destruct (deploy_steps_pool ([], v) d1) as [Hok1 P1]; [done|done|].
  destruct (deploy_steps_pool d1 d2 Hok1 R2) as [_ P2].
  destruct (pool_steps_ok _ _ (initial_ok _ Hi) P1) as [Hp1 _].
  destruct (pool_steps_ok _ _ Hp1 P2) as [_ G]. pose proof (pool_steps_spec _ _ Hp1 P2) as S.
  by destruct Hp1 as [_ [[H1 H2] H3]].
Qed.

(** Effects of one process, the others waiting. *)
Lemma effects_rtc {A} (K : prog A -> process) (o : env) n (p : prog A) l v :
  (forall p v, process_step (K p, v) (K (steps o 1 p v).1, (steps o 1 p v).2)) ->
  rtc deploy_step (K p :: l, v) (K (steps o n p v).1 :: l, (steps o n p v).2).
Proof.
  intros HK. revert p v. induction n as [|n IH]; intros p v; [by destruct p|].
  destruct p as [a|X e k]; [done|]. pose proof (d_step [] _ l v _ _ (HK (Do e k) v)) as H.
  cbn [steps app] in *. destruct (do_effect o e v) as [x v']. eapply rtc_l; [exact H|]. apply IH.
Qed.

(** The answer of a program that has ended. *)
Definition ended_with {A} (p : prog A) : option A :=
  match p with Ret a => Some a | _ => None end.

Lemma ended_ret {A} (p : prog A) a : ended_with p = Some a -> p = Ret a.
Proof. destruct p; naive_solver. Qed.

End Binaries.

(** ** A run on the reference services: the API server starts and answers half a
    request while a worker starts, registers and dies *)

Definition some_env : environ := fun k => if String.eqb k "WORKER_ID" then Some "w9" else None.
Definition ref_post : request := MkRequest "POST" "/api/tasks" (fun _ => EmptyString) quoted_type.
Definition booted : world := (steps ref_env 9 (boot CtxMain some_env) ref_world).2.
Definition ref_answer : prog answer := Router 5 CtxMain (MkServer (Some 0)) ref_post.

Definition worker0 : Worker := MkWorker "w9" "box" (Load some_env) (RegisterDefaults NewRegistry).

Definition half : prog answer * world := steps ref_env 9 ref_answer booted.
Definition deployed1 : deployment := ([PApi CtxMain (AServing [half.1] false)], half.2).

Definition rebooted : world := (steps ref_env 9 (boot CtxMain some_env) half.2).2.
Definition registering : prog (res unit) * world :=
  steps ref_env 1 (register CtxMain worker0) rebooted.
Definition deployed2 : deployment :=
  ([PApi CtxMain (AServing [half.1] false)], registering.2).

Lemma booted_ok : (steps ref_env 9 (boot CtxMain some_env) ref_world).1 = Ret (Ok (Load some_env)).
Proof. apply ended_ret. vm_compute. reflexivity. Qed.

Lemma rebooted_ok : (steps ref_env 9 (boot CtxMain some_env) half.2).1 = Ret (Ok (Load some_env)).
Proof. apply ended_ret. vm_compute. reflexivity. Qed.

Lemma created_ok :
  NewWorker some_env "box" (Load some_env) (RegisterDefaults NewRegistry) = Ret worker0.
Proof. reflexivity. Qed.

Lemma deployed1_reached : rtc deploy_step ([], ref_world) deployed1.
Proof.
  eapply rtc_l; [apply (d_launch [] []), (l_api CtxMain some_env)|].
  etransitivity.
  { apply (effects_rtc (fun p => PApi CtxMain (ABooting p)) ref_env 9). intros p v.
    apply ps_api, a_boot_effect, ref_runtime_ok. }
  rewrite booted_ok.
  eapply rtc_l; [apply (d_step []), ps_api, a_booted|].
  eapply rtc_l; [apply (d_step []), ps_api, (a_accept CtxMain 5 0 ref_post [])|].
  apply (effects_rtc (fun p => PApi CtxMain (AServing [p] false)) ref_env 9 ref_answer).
  intros p v. apply ps_api, (a_effect _ _ []), ref_runtime_ok.
Qed.

Lemma deployed2_reached : rtc deploy_step deployed1 deployed2.
Proof.
  eapply rtc_l; [apply (d_launch [] deployed1.1), (l_worker CtxMain some_env "box")|].
  etransitivity.
  { apply (effects_rtc (fun p => PWorker CtxMain some_env "box" (WBooting p)) ref_env 9).
    intros p v. apply ps_worker, w_boot_effect, ref_runtime_ok. }
  change deployed1.2 with half.2. rewrite rebooted_ok.
  eapply rtc_l; [apply (d_step []), ps_worker, w_booted|].
  rewrite created_ok. fold rebooted.
  eapply rtc_l; [apply (d_step []), ps_worker, w_created|].
  eapply rtc_l.
  { apply (d_step []), ps_worker, w_run.
    apply (r_effect CtxMain worker0 ref_env _ _ (Registering registering.1) registering.2).
    - apply ref_runtime_ok.
    - unfold run_start, phase_effect, registering. cbn [ph]. by destruct (steps ref_env 1 _ _). }
  apply rtc_once, (d_kill [] _ deployed1.1).
Qed.

Lemma deployment_refines_witness :
  good deployed1.2 /\ data_ok (l_q (abs deployed1.2)) /\ db_ok (database deployed1.2) /\
  db_grows (database deployed1.2) (database deployed2.2) /\
  exists a, rtc spec_step (spec_of deployed1.2) a /\ same_spec a (spec_of deployed2.2).
Proof.
  apply (deployment_refines ref_world deployed1 deployed2 pool0_initial).
  - exact deployed1_reached.
  - exact deployed2_reached.
Defined.

(** The run is not an empty one: the task is in the database and in the queue, and
    the dead worker is registered. *)
Example deployed_data :
  size (tasks (database deployed2.2)) = 1%nat /\ size (workers (database deployed2.2)) = 1%nat /\
  size (keyspace_of (redis deployed2.2)) = 1%nat.
Proof. vm_compute. done. Qed.
