(* ===== verification/Loadtest.v ===== *)
(** * The load-test client ([cmd/loadtest/main.go])

    Submission: one channel of indices filled by [main], a team of goroutines that
    take an index, post a task and count the answer, as a step relation; then the
    polling until nothing is pending, and the final report. What the server
    answers is a parameter of the steps; [LoadtestWire.v] puts the API of this
    repository there. The printed lines and the elapsed time are not modelled. *)

From S2P Require Import Prelude GoBase F64 GoString Json GoStd Task Queue Api.

Open Scope Z_scope.

#[local] Arguments String.append !_ _ / : simpl nomatch.

(** ** The command line *)

Record Flags := MkFlags {
  flag_base : string;
  flag_n : Z;
  flag_conc : Z;
  flag_type : string;
  flag_failRate : f64;
  priLo : Z;
  priHi : Z;
  maxAtt : Z;
  flag_wait : Z
}.

Definition default_flags : Flags :=
  MkFlags "http://localhost:8080" 1000 32 "flaky" (dec_float 5 (-2)) 1 9 5 (30 * second).

(** ** What is posted *)

(** [json.Marshal] of a float: [%f] form from 1e-6 up to 1e21, else an exponent
    without padding; none for an infinity or a NaN. *)
Definition json_float (x : f64) : option string :=
  match x with
  | F m e =>
      if m =? 0 then Some "0"
      else
        let '(ds, dp) := decimal_digits m e in
        let exp := dp - 1 in
        let a := F (Z.abs m) e in
        let frac := str_drop 1 ds in
        Some ((if m <? 0 then "-" else EmptyString) +:+
              (if fgt (dec_float 1 (-6)) a || negb (fgt (dec_float 1 21) a)
               then str_take 1 ds +:+
                    (if String.eqb frac EmptyString then EmptyString else "." +:+ frac) +:+
                    "e" +:+ (if exp <? 0 then "-" else "+") +:+ itoa (Z.abs exp)
               else format_f ds dp))
  | _ => None
  end.

(** [payload, _ := json.Marshal(map[string]float64{"fail_rate": *failRate})]. *)
Definition load_payload (f : Flags) : RawMessage :=
  (fun lit => print (JObj [("fail_rate", JNum lit)])) <$> json_float (flag_failRate f).

(** [*priLo + idx % ( *priHi - *priLo + 1)]; a zero divisor panics. *)
Definition load_priority (f : Flags) (idx : Z) : option Z :=
  let m := wrap64 (wrap64 (priHi f - priLo f) + 1) in
  if m =? 0 then None else Some (wrap64 (priLo f + Z.rem idx m)).

(** The members of [req], in field order. *)
Definition req_members (typ : string) (payload : json) (pri max : Z) : list (string * json) :=
  [("type", JStr (quote typ)); ("payload", payload); ("priority", JNum (itoa pri));
   ("max_attempts", JNum (itoa max))].

(** [body, _ := json.Marshal(req{...})]. *)
Definition load_body (f : Flags) (pri : Z) : string :=
  match payload_json (load_payload f) with
  | Some p => print (JObj (req_members (flag_type f) p pri (maxAtt f)))
  | None => EmptyString
  end.

(** ** Submission *)

(** A goroutine is at the channel, waiting for the answer to a post, or done. *)
Inductive submitter := Ranging | Posting (idx : Z) (body : string) | Done.

#[export] Instance submitter_eq_dec : EqDecision submitter.
Proof. solve_decision. Defined.

Inductive load_phase := Submitting | Reporting | LoadPanicked.

(** [Some status], or no answer at all. *)
Abbreviation reply_status := (option Z).

Record load_state := MkLoad {
  next : Z;                                        (* main's loop variable *)
  channel : list Z;                                (* jobs *)
  closed : bool;
  team : list submitter;
  posts : list (Z * string * reply_status);        (* answered so far *)
  submitted : Z;
  errs : Z;
  lphase : load_phase
}.

Definition load_start (f : Flags) : load_state :=
  MkLoad 0 [] false (replicate (Z.to_nat (flag_conc f)) Ranging) [] 0 0
    (if flag_n f <? 0 then LoadPanicked else Submitting).

Definition reply_accepted (r : reply_status) : bool :=
  match r with Some code => code <? 300 | None => false end.

(** The counters are 64 bits wide. *)
Definition count_reply (r : reply_status) (s : load_state) : load_state :=
  if reply_accepted r
  then MkLoad (next s) (channel s) (closed s) (team s) (posts s) (wrap64 (submitted s + 1)) (errs s) (lphase s)
  else MkLoad (next s) (channel s) (closed s) (team s) (posts s) (submitted s) (wrap64 (errs s + 1)) (lphase s).

(** [json.Marshal] and the post of one index, or the panic. *)
Definition take_job (f : Flags) (idx : Z) (rest : list Z) (t1 t2 : list submitter) (s : load_state) :
    load_state :=
  match load_priority f idx with
  | None => MkLoad (next s) rest (closed s) (t1 ++ Ranging :: t2) (posts s) (submitted s) (errs s) LoadPanicked
  | Some pri =>
      MkLoad (next s) rest (closed s) (t1 ++ Posting idx (load_body f pri) :: t2) (posts s)
        (submitted s) (errs s) (lphase s)
  end.

Inductive load_step (f : Flags) : load_state -> load_state -> Prop :=
  | ls_send s :
      lphase s = Submitting -> next s < flag_n f ->
      load_step f s (MkLoad (next s + 1) (channel s ++ [next s]) (closed s) (team s) (posts s)
                       (submitted s) (errs s) (lphase s))
  | ls_close s :
      lphase s = Submitting -> flag_n f <= next s -> closed s = false ->
      load_step f s (MkLoad (next s) (channel s) true (team s) (posts s) (submitted s) (errs s) (lphase s))
  | ls_take s idx rest t1 t2 :
      lphase s = Submitting -> channel s = idx :: rest -> team s = t1 ++ Ranging :: t2 ->
      load_step f s (take_job f idx rest t1 t2 s)
  | ls_reply s idx body r t1 t2 :
      lphase s = Submitting -> team s = t1 ++ Posting idx body :: t2 ->
      load_step f s
        (count_reply r (MkLoad (next s) (channel s) (closed s) (t1 ++ Ranging :: t2)
                          (posts s ++ [(idx, body, r)]) (submitted s) (errs s) (lphase s)))
  | ls_done s t1 t2 :
      lphase s = Submitting -> channel s = [] -> closed s = true -> team s = t1 ++ Ranging :: t2 ->
      load_step f s (MkLoad (next s) (channel s) (closed s) (t1 ++ Done :: t2) (posts s) (submitted s)
                       (errs s) (lphase s))
  | ls_waited s :
      lphase s = Submitting -> closed s = true -> Forall (eq Done) (team s) ->
      load_step f s (MkLoad (next s) (channel s) (closed s) (team s) (posts s) (submitted s) (errs s) Reporting).

(** ** The invariant *)

Definition in_flight (x : submitter) : option Z :=
  match x with Posting idx _ => Some idx | _ => None end.

Definition post_index (p : Z * string * reply_status) : Z := p.1.1.
Definition post_accepted (p : Z * string * reply_status) : bool := reply_accepted p.2.

Definition tally (b : bool) (l : list (Z * string * reply_status)) : Z :=
  Z.of_nat (length (filter (fun p => post_accepted p = b) l)).

(** The body an index is posted with. *)
Definition posts_of (f : Flags) (idx : Z) (body : string) : Prop :=
  exists pri, load_priority f idx = Some pri /\ body = load_body f pri.

Record load_ok (f : Flags) (s : load_state) : Prop := {
  sent : 0 <= next s <= Z.max 0 (flag_n f);
  places : map post_index (posts s) ++ omap in_flight (team s) ++ channel s ≡ₚ seqZ 0 (next s);
  all_sent : closed s = true -> next s = Z.max 0 (flag_n f);
  done_last : Done ∈ team s -> channel s = [] /\ closed s = true;
  right_body : forall idx body, Posting idx body ∈ team s -> posts_of f idx body;
  right_posts : Forall (fun p => posts_of f p.1.1 p.1.2) (posts s);
  team_size : length (team s) = Z.to_nat (flag_conc f);
  counted : submitted s = tally true (posts s) /\ errs s = tally false (posts s)
}.

Lemma tally_app b l p : tally b (l ++ [p]) = tally b l + (if decide (post_accepted p = b) then 1 else 0).
Proof.
  unfold tally. rewrite filter_app, filter_cons, filter_nil, length_app.
  case_decide; cbn [length]; lia.
Qed.

Lemma tally_sum l : tally true l + tally false l = Z.of_nat (length l).
Proof.
  induction l as [|p l IH]; [done|]. unfold tally in *. rewrite !filter_cons. cbn [length].
  destruct (post_accepted p); repeat case_decide; try done; cbn [length]; lia.
Qed.

Lemma tally_bound b l : 0 <= tally b l <= Z.of_nat (length l).
Proof. pose proof (tally_sum l). unfold tally in *. destruct b; lia. Qed.

(** What is answered, being answered or queued was sent. *)
Lemma posts_bound f s : load_ok f s -> Z.of_nat (length (posts s)) <= next s.
Proof.
  intros H. pose proof (sent f s H). pose proof (Permutation_length (places f s H)) as Hl.
  rewrite !length_app, length_map, length_seqZ in Hl. lia.
Qed.

Lemma elem_mid (y x : submitter) t1 t2 : y ∈ t1 ++ x :: t2 <-> y = x \/ y ∈ t1 ++ t2.
Proof. rewrite !elem_of_app, elem_of_cons. tauto. Qed.

Lemma flight_mid t1 x t2 :
  omap in_flight (t1 ++ x :: t2) ≡ₚ option_list (in_flight x) ++ omap in_flight (t1 ++ t2).
Proof.
  rewrite !omap_app. cbn [omap list_omap]. destruct (in_flight x); [|done].
  symmetry. apply (Permutation_middle (omap in_flight t1) (omap in_flight t2) z).
Qed.

Lemma team_length t1 (x y : submitter) t2 : length (t1 ++ x :: t2) = length (t1 ++ y :: t2).
Proof. by rewrite !length_app. Qed.

Lemma load_start_ok f : load_ok f (load_start f).
Proof.
  assert (Hr : forall x, x ∈ replicate (Z.to_nat (flag_conc f)) Ranging -> x = Ranging)
    by (by intros x [? _]%elem_of_replicate).
  unfold load_start. split; cbn [next channel closed team posts submitted errs]; try done.
  - lia.
  - rewrite app_nil_r. cbn [map app]. replace (omap _ _) with (@nil Z); [done|].
    clear Hr. by induction (Z.to_nat (flag_conc f)).
  - by intros Hd%Hr.
  - by intros idx body Hd%Hr.
  - apply length_replicate.
Qed.

(** A post is being answered: no counter is about to wrap. *)
Lemma counters_exact f s t1 idx body t2 b :
  in_int64 (flag_n f) = true -> load_ok f s -> team s = t1 ++ Posting idx body :: t2 ->
  wrap64 (tally b (posts s) + 1) = tally b (posts s) + 1.
Proof.
  intros Hn H Ht. pose proof (sent f s H). pose proof (tally_bound b (posts s)).
  pose proof (Permutation_length (places f s H)) as Hl. rewrite Ht in Hl.
  rewrite flight_mid in Hl. cbn [in_flight option_list] in Hl.
  rewrite !length_app, length_map, length_seqZ in Hl. cbn [length] in Hl.
  change (length (option_list (Some idx))) with 1%nat in Hl.
  apply wrap64_id. unfold in_int64, min_int64, max_int64 in *. lia.
Qed.

Lemma park (a b o c : list Z) : a ++ (b ++ o) ++ c ≡ₚ o ++ a ++ b ++ c.
Proof. by rewrite <- (app_assoc b), (Permutation_app_swap_app b), (Permutation_app_swap_app a). Qed.

(** A goroutine of the team moves on, the channel and the posts with it. *)
Lemma team_moves f s t1 x y t2 ch ps su er ph :
  load_ok f s -> team s = t1 ++ x :: t2 -> x <> Done ->
  map post_index ps ++ option_list (in_flight y) ++ ch ≡ₚ
    map post_index (posts s) ++ option_list (in_flight x) ++ channel s ->
  (channel s = [] -> ch = []) -> (y = Done -> ch = [] /\ closed s = true) ->
  (forall idx body, y = Posting idx body -> posts_of f idx body) ->
  Forall (fun p => posts_of f p.1.1 p.1.2) ps ->
  su = tally true ps /\ er = tally false ps ->
  load_ok f (MkLoad (next s) ch (closed s) (t1 ++ y :: t2) ps su er ph).
Proof.
  intros [H1 H2 H3 H4 H5 H6 H7 H8] Ht Hx Hp Hch Hd Hb Hps Hc. rewrite Ht in *.
  split; cbn [next channel closed team posts submitted errs]; try done.
  - rewrite flight_mid in *. by rewrite <- H2, !park, Hp.
  - rewrite elem_mid. intros [Heq|Hin]; [by apply Hd|].
    destruct H4 as [H4 Hcl]; [rewrite elem_mid; by right|]. auto.
  - intros idx body. rewrite elem_mid. intros [Heq|Hin]; [by apply Hb|]. apply H5. rewrite elem_mid. by right.
  - rewrite <- H7. apply team_length.
Qed.

Lemma load_step_ok f s s' :
  in_int64 (flag_n f) = true -> load_ok f s -> load_step f s s' -> lphase s' <> LoadPanicked -> load_ok f s'.
Proof.
  intros Hn H Hs. destruct Hs as [s Hp Hlt|s Hp Hge Hcl|s idx rest t1 t2 Hp Hc Ht|s idx body r t1 t2 Hp Ht
    |s t1 t2 Hp Hc Hcl Ht|s Hp Hcl Hd]; pose proof H as [H1 H2 H3 H4 H5 H6 H7 H8]; intros Hpan.
  - assert (Ho : closed s = false) by (destruct (closed s); [specialize (H3 eq_refl); lia|done]).
    split; cbn [next channel closed team posts submitted errs]; try done.
    + lia.
    + rewrite !app_assoc, <- (app_assoc (map _ _)), H2.
      by rewrite (seqZ_app 0 (next s) 1) by lia.
    + by rewrite Ho.
    + intros [_ Hd]%H4. congruence.
  - split; cbn [next channel closed team posts submitted errs]; try done.
    + intros _. lia.
    + intros [_ Hd]%H4. congruence.
  - unfold take_job in *. destruct (load_priority f idx) as [pri|] eqn:E; [|done].
    apply (team_moves f s t1 Ranging); try done; [by rewrite Hc|by rewrite Hc|].
    intros ?? [= <- <-]. by exists pri.
  - pose proof (counters_exact f s t1 idx body t2) as Hw. destruct H8 as [Hs He].
    assert (Hb : posts_of f idx body) by (apply H5; rewrite Ht, elem_mid; by left).
    unfold count_reply in *. cbn [lphase next channel closed team posts submitted errs] in *.
    destruct (reply_accepted r) eqn:E; eapply (team_moves f s t1 (Posting idx body) Ranging);
      try done; try (by rewrite map_app, <- !app_assoc); try (apply Forall_app; by split; [|constructor]).
    all: rewrite !tally_app; unfold post_accepted; cbn [snd]; rewrite E.
    all: split; repeat case_decide; try done; rewrite ?Hs, ?He, ?Hw by done; lia.
  - eapply (team_moves f s t1 Ranging); try done.
  - by split.
Qed.

Lemma load_reachable_ok f s :
  in_int64 (flag_n f) = true -> rtc (load_step f) (load_start f) s -> lphase s <> LoadPanicked -> load_ok f s.
Proof.
  intros Hn H.
  refine (rtc_ind_r (fun s => lphase s <> LoadPanicked -> load_ok f s) (load_start f) _ _ s H).
  - intros _. apply load_start_ok.
  - intros x y _ Hs IH Hp. apply (load_step_ok f x); [done| |done|done].
    apply IH. clear IH Hp. by destruct Hs as [? E|? E|? ? ? ? ? E|? ? ? ? ? ? E|? ? ? E|? E]; rewrite E.
Qed.

(** ** Termination *)

Definition work (x : submitter) : nat :=
  match x with Posting _ _ => 2 | Ranging => 1 | Done => 0 end.

Definition load_measure (f : Flags) (s : load_state) : nat :=
  3 * Z.to_nat (flag_n f - next s) + (if closed s then 0 else 1) + 2 * length (channel s) +
  sum_list_with work (team s) + (match lphase s with Submitting => 1 | _ => 0 end).

Lemma team_work t1 x t2 :
  sum_list_with work (t1 ++ x :: t2) = (work x + sum_list_with work (t1 ++ t2))%nat.
Proof. rewrite !sum_list_with_app. cbn. lia. Qed.

Lemma load_step_shrinks f s s' : load_step f s s' -> (load_measure f s' < load_measure f s)%nat.
Proof.
  intros Hs. unfold load_measure.
  destruct Hs as [s Hp Hlt|s Hp Hge Hcl|s idx rest t1 t2 Hp Hc Ht|s idx body r t1 t2 Hp Ht
    |s t1 t2 Hp Hc Hcl Ht|s Hp Hcl Hd].
  - cbn [next channel closed team lphase]. rewrite length_app. cbn [length]. lia.
  - cbn [next channel closed team lphase]. rewrite Hcl. lia.
  - unfold take_job. destruct (load_priority f idx); cbn [next channel closed team lphase];
      rewrite Hc, Ht, Hp, !team_work; cbn [length work]; lia.
  - unfold count_reply. destruct (reply_accepted r); cbn [next channel closed team lphase];
      rewrite Ht, !team_work; cbn [work]; lia.
  - cbn [next channel closed team lphase]. rewrite Ht, !team_work. cbn [work]. lia.
  - cbn [next channel closed team lphase]. rewrite Hp. lia.
Qed.

(** C33: the submission always ends: whatever the interleaving and the answers, a
    run makes at most [3n + conc + 2] steps, and a state from which no step is
    possible is the report or a panic; there is no deadlock. *)
Theorem load_terminates (f : Flags) k s :
  in_int64 (flag_n f) = true -> nsteps (load_step f) k (load_start f) s ->
  (k <= 3 * Z.to_nat (flag_n f) + Z.to_nat (flag_conc f) + 2)%nat /\
  (lphase s = Submitting -> exists s', load_step f s s').
Proof.
  intros Hn H. split.
  - assert (Hk : forall k x, nsteps (load_step f) k x s -> (k + load_measure f s <= load_measure f x)%nat).
    { clear. intros k x H. induction H as [x|k x y z Hxy _ IH]; [done|]. apply load_step_shrinks in Hxy. lia. }
    apply Hk in H. unfold load_start, load_measure at 2 in H. cbn [next channel closed team lphase length] in H.
    assert (Hr : forall m, sum_list_with work (replicate m Ranging) = m)
      by (induction m as [|m IH]; [done|cbn; by rewrite IH]).
    rewrite Hr in H. replace (flag_n f - 0) with (flag_n f) in H by lia. destruct (flag_n f <? 0); lia.
  - intros Hp. assert (Hok : load_ok f s) by (apply load_reachable_ok; [done|apply rtc_nsteps; eauto|by rewrite Hp]).
    destruct (decide (next s < flag_n f)) as [Hlt|Hge]; [eexists; by apply ls_send|].
    destruct (closed s) eqn:Hcl; [|eexists; apply ls_close; (done || lia)].
    destruct (decide (Forall (eq Done) (team s))) as [Hd|Hd]; [eexists; by apply ls_waited|].
    apply not_Forall_Exists in Hd; [|apply _].
    apply Exists_exists in Hd as (x & (t1 & t2 & Ht)%list_elem_of_split & Hx).
    destruct x as [|idx body|]; [| |done].
    + destruct (channel s) as [|idx rest] eqn:Hc; [eexists; by apply ls_done|eexists; by apply ls_take].
    + eexists. by apply (ls_reply f s idx body None).
Qed.

(** ** Priorities *)

Lemma width_wraps (lo hi : Z) :
  in_int64 lo = true -> in_int64 hi = true ->
  (wrap64 (wrap64 (hi - lo) + 1) = 0 <-> hi + 1 = lo \/ (lo = min_int64 /\ hi = max_int64)) /\
  (0 <= hi - lo < max_int64 -> wrap64 (wrap64 (hi - lo) + 1) = hi - lo + 1).
Proof.
  unfold in_int64, wrap64, min_int64, max_int64. intros Hl Hh.
  split; [|intros Hd]; Z.div_mod_to_equations; lia.
Qed.

(** With [priority-min <= priority-max] the priorities posted go through the whole
    range in turn and never leave it; taking a priority panics exactly when the
    width of the range wraps to zero: [priority-max = priority-min - 1], or the
    whole 64-bit range. *)
Theorem load_priority_range (f : Flags) (idx : Z) :
  in_int64 (priLo f) = true -> in_int64 (priHi f) = true -> in_int64 idx = true -> 0 <= idx ->
  (load_priority f idx = None <->
     priHi f + 1 = priLo f \/ (priLo f = min_int64 /\ priHi f = max_int64)) /\
  (priLo f <= priHi f -> priHi f - priLo f < max_int64 ->
   exists p, load_priority f idx = Some p /\ priLo f <= p <= priHi f /\
     p = priLo f + idx mod (priHi f - priLo f + 1)).
Proof.
  intros Hl Hh Hi H0. destruct (width_wraps _ _ Hl Hh) as [H1 H2]. unfold load_priority. split.
  - rewrite <- H1. destruct (Z.eqb_spec (wrap64 (wrap64 (priHi f - priLo f) + 1)) 0); by split.
  - intros Hle Hw. rewrite H2 by lia. case_if; bool_to_prop; [lia|].
    rewrite Z.rem_mod_nonneg by lia. pose proof (Z.mod_pos_bound idx (priHi f - priLo f + 1) ltac:(lia)).
    rewrite wrap64_id by (unfold in_int64 in *; bool_to_prop; lia).
    eexists. split; [done|]. lia.
Qed.

Lemma load_priority_range_witness :
  (load_priority default_flags 12 = None <->
     priHi default_flags + 1 = priLo default_flags \/
     (priLo default_flags = min_int64 /\ priHi default_flags = max_int64)) /\
  (priLo default_flags <= priHi default_flags ->
   priHi default_flags - priLo default_flags < max_int64 ->
   exists p, load_priority default_flags 12 = Some p /\
     priLo default_flags <= p <= priHi default_flags /\
     p = priLo default_flags + 12 mod (priHi default_flags - priLo default_flags + 1)).
Proof. apply (load_priority_range default_flags 12); (reflexivity || lia). Defined.

(** ** What was submitted *)

Lemma load_step_submitting f x y : load_step f x y -> lphase x = Submitting.
Proof. by intros []. Qed.

Lemma load_last f s :
  rtc (load_step f) (load_start f) s ->
  s = load_start f \/
  exists x, rtc (load_step f) (load_start f) x /\ lphase x = Submitting /\ load_step f x s.
Proof.
  intros [->|(x & H & Hs)]%rtc_inv_r; [by left|]. right. exists x.
  split; [done|]. split; [by eapply load_step_submitting|done].
Qed.

(** The report is reached when the channel is closed and every goroutine done. *)
Lemma reporting_drained f s :
  rtc (load_step f) (load_start f) s -> lphase s = Reporting ->
  0 <= flag_n f /\ closed s = true /\ Forall (eq Done) (team s).
Proof.
  intros H Hp. split.
  - apply rtc_inv in H as [<-|(y & Hs%load_step_submitting & _)]; unfold load_start in *;
      cbn [lphase] in *; destruct (Z.ltb_spec (flag_n f) 0); congruence.
  - apply load_last in H as [->|(x & _ & Hx & Hs)].
    { unfold load_start in Hp. cbn [lphase] in Hp. by destruct (flag_n f <? 0). }
    destruct Hs; cbn [lphase] in Hp; try congruence; [| |done].
    + unfold take_job in Hp. destruct (load_priority f idx); cbn [lphase] in Hp; congruence.
    + unfold count_reply in Hp. destruct (reply_accepted r); cbn [lphase] in Hp; congruence.
Qed.

(** A panic at the channel comes from the index at its head. *)
Lemma panic_cause f s :
  in_int64 (flag_n f) = true -> rtc (load_step f) (load_start f) s -> lphase s = LoadPanicked ->
  flag_n f < 0 \/ exists idx, 0 <= idx < flag_n f /\ load_priority f idx = None.
Proof.
  intros Hn H Hp. apply load_last in H as [->|(x & H & Hx & Hs)].
  { left. unfold load_start in Hp. cbn [lphase] in Hp. destruct (Z.ltb_spec (flag_n f) 0); [done|congruence]. }
  assert (Hok : load_ok f x) by (apply load_reachable_ok; congruence).
  destruct Hs as [| |x idx rest t1 t2 _ Hc Ht|x idx body r t1 t2 _ Ht| |]; cbn [lphase] in Hp; try congruence.
  - right. exists idx. unfold take_job in Hp. destruct (load_priority f idx); cbn [lphase] in Hp; [congruence|].
    split; [|done]. assert (Hin : idx ∈ seqZ 0 (next x)).
    { rewrite <- (places f x Hok), Hc. set_solver. }
    apply elem_of_seqZ in Hin. pose proof (sent f x Hok). lia.
  - unfold count_reply in Hp. destruct (reply_accepted r); cbn [lphase] in Hp; congruence.
Qed.

(** C30: at every point of every run, under any interleaving of the goroutines and any
    answers, each index was posted at most once, with the body of its own priority,
    and the two counters count the accepted and the other answers; when the report
    is reached with at least one goroutine, every index from 0 to [n - 1] was
    posted and the counters add up to [n]; a panic means a negative [n] or a
    priority range whose width is zero. *)
Theorem load_submits (f : Flags) (s : load_state) :
  in_int64 (flag_n f) = true -> rtc (load_step f) (load_start f) s ->
  (lphase s <> LoadPanicked ->
   NoDup (map post_index (posts s)) /\ Forall (fun p => posts_of f p.1.1 p.1.2) (posts s) /\
   submitted s = tally true (posts s) /\ errs s = tally false (posts s)) /\
  (lphase s = Reporting -> 0 < flag_conc f ->
   map post_index (posts s) ≡ₚ seqZ 0 (flag_n f) /\ submitted s + errs s = flag_n f) /\
  (lphase s = LoadPanicked ->
   flag_n f < 0 \/ exists idx, 0 <= idx < flag_n f /\ load_priority f idx = None).
Proof.
  intros Hn H. split; [|split].
  - intros Hp. pose proof (load_reachable_ok f s Hn H Hp) as Hok.
    split; [|split; [by apply right_posts|by apply (counted f)]].
    pose proof (NoDup_seqZ 0 (next s)) as Hnd. rewrite <- (places f s Hok) in Hnd. by apply NoDup_app in Hnd as [? _].
  - intros Hp Hc. assert (Hok : load_ok f s) by (apply load_reachable_ok; congruence).
    destruct (reporting_drained f s H Hp) as (H0 & Hcl & Hd).
    assert (Hlen : team s <> []) by (intros E; pose proof (team_size f s Hok) as Hs; rewrite E in Hs; cbn in Hs; lia).
    assert (Hch : channel s = []).
    { apply (done_last f s Hok). destruct (team s) as [|x l]; [done|]. apply Forall_cons_1 in Hd as [<- _]. left. }
    assert (Hfl : omap in_flight (team s) = []).
    { clear -Hd. induction Hd as [|x l <- _ IH]; [done|exact IH]. }
    pose proof (places f s Hok) as Hpl. rewrite Hch, Hfl, app_nil_r, (all_sent f s Hok Hcl), Z.max_r in Hpl by lia.
    split; [done|]. destruct (counted f s Hok) as [-> ->]. rewrite tally_sum.
    apply Permutation_length in Hpl. rewrite length_map, length_seqZ in Hpl. lia.
  - by apply panic_cause.
Qed.

(** A run of two tasks over one goroutine, the second refused. *)
Definition two_tasks : Flags := MkFlags "http://localhost:8080" 2 1 "flaky" (dec_float 5 (-2)) 1 9 5 0.

Definition two_tasks_end : load_state :=
  MkLoad 2 [] true [Done] [(0, load_body two_tasks 1, Some 201); (1, load_body two_tasks 2, Some 500)]
    1 1 Reporting.

Lemma two_tasks_run : nsteps (load_step two_tasks) 9 (load_start two_tasks) two_tasks_end.
Proof.
  eapply nsteps_l; [by apply ls_send|]. eapply nsteps_l; [by apply (ls_take _ _ 0 [] [] [])|].
  eapply nsteps_l; [by apply ls_send|].
  eapply nsteps_l; [by apply (ls_reply _ _ 0 (load_body two_tasks 1) (Some 201) [] [])|].
  eapply nsteps_l; [by apply ls_close|]. eapply nsteps_l; [by apply (ls_take _ _ 1 [] [] [])|].
  eapply nsteps_l; [by apply (ls_reply _ _ 1 (load_body two_tasks 2) (Some 500) [] [])|].
  eapply nsteps_l; [by apply (ls_done _ _ [] [])|]. eapply nsteps_l; [by apply ls_waited; repeat constructor|].
  apply nsteps_O.
Qed.

Lemma load_terminates_witness :
  (9 <= 3 * Z.to_nat (flag_n two_tasks) + Z.to_nat (flag_conc two_tasks) + 2)%nat /\
  (lphase two_tasks_end = Submitting -> exists s', load_step two_tasks two_tasks_end s').
Proof. exact (load_terminates two_tasks 9 two_tasks_end eq_refl two_tasks_run). Defined.

Lemma load_submits_witness :
  (lphase two_tasks_end <> LoadPanicked ->
   NoDup (map post_index (posts two_tasks_end)) /\
   Forall (fun p => posts_of two_tasks p.1.1 p.1.2) (posts two_tasks_end) /\
   submitted two_tasks_end = tally true (posts two_tasks_end) /\
   errs two_tasks_end = tally false (posts two_tasks_end)) /\
  (lphase two_tasks_end = Reporting -> 0 < flag_conc two_tasks ->
   map post_index (posts two_tasks_end) ≡ₚ seqZ 0 (flag_n two_tasks) /\
   submitted two_tasks_end + errs two_tasks_end = flag_n two_tasks) /\
  (lphase two_tasks_end = LoadPanicked ->
   flag_n two_tasks < 0 \/
   exists idx, 0 <= idx < flag_n two_tasks /\ load_priority two_tasks idx = None).
Proof.
  apply (load_submits two_tasks two_tasks_end eq_refl). apply rtc_nsteps. exists 9%nat. exact two_tasks_run.
Defined.

(** ** Waiting and reporting *)

(** [m[k]]: zero when absent. *)
Definition count_of (m : gmap string Z) (k : string) : Z := default 0 (m !! k).

Definition load_pending (m : gmap string Z) : Z :=
  wrap64 (wrap64 (count_of m StatusQueued + count_of m StatusRunning) + count_of m StatusRetrying).

(** The loop until nothing is pending or the deadline is over: the clock at the
    [i]-th test and the [i]-th answer of [fetchStats] are given; the result is the
    number of answers taken. *)
Fixpoint drain_loop (now : nat -> Z) (stats : nat -> res (gmap string Z)) (deadline : Z) (fuel i : nat) :
    option nat :=
  match fuel with
  | O => None
  | S fuel =>
      if now i <? deadline then
        match stats i with
        | Err _ => drain_loop now stats deadline fuel (S i)
        | Ok m => if load_pending m =? 0 then Some (S i) else drain_loop now stats deadline fuel (S i)
        end
      else Some i
  end.

Record report := MkReport { total : Z; dead : Z; rate : f64 }.

(** A map is ranged over in no particular order. *)
Definition final_report (final : gmap string Z) : report :=
  let total := map_fold (fun _ v acc => wrap64 (acc + v)) 0 final in
  let dead := count_of final StatusDead in
  MkReport total dead (if 0 <? total then fdiv (of_int dead) (of_int total) else F 0 0).

(** What follows the submission: nothing without a wait, else the loop and one more
    call for the report; its error ends the process ([log.Fatalf]). *)
Definition wait_and_report (f : Flags) (now : nat -> Z) (stats : nat -> res (gmap string Z)) (start : Z)
    (fuel : nat) : option (option (res report)) :=
  if flag_wait f <=? 0 then Some None
  else
    match drain_loop now stats (start + flag_wait f) fuel 0 with
    | None => None
    | Some k => Some (Some (match stats k with Ok m => Ok (final_report m) | Err err => Err err end))
    end.

(** An answer after which the loop ends. *)
Definition drained_at (stats : nat -> res (gmap string Z)) (i : nat) : Prop :=
  exists m, stats i = Ok m /\ load_pending m = 0.

(** The loop, from its [i]-th test on, ends after [k] answers: every test before was
    in time, no answer before the last ended it, and the last one did, or the
    deadline has passed. *)
Record drained_after (now : nat -> Z) (stats : nat -> res (gmap string Z)) (deadline : Z) (i k : nat) :
    Prop := {
  da_from : (i <= k)%nat;
  da_time : forall j, (i <= j < k)%nat -> now j < deadline;
  da_busy : forall j, (i <= j)%nat -> (S j < k)%nat -> ~ drained_at stats j;
  da_over : ((i < k)%nat /\ drained_at stats (Nat.pred k)) \/ deadline <= now k
}.

Lemma drained_later now stats deadline i k :
  now i < deadline -> ~ drained_at stats i ->
  drained_after now stats deadline (S i) k -> drained_after now stats deadline i k.
Proof.
  intros Hi Hn [H1 H2 H3 H4]. split; [lia| | |destruct H4 as [[]|]; [left; split; [lia|done]|by right]].
  - intros j Hj. destruct (decide (j = i)) as [->|]; [done|]. apply H2. lia.
  - intros j Hj Hk. destruct (decide (j = i)) as [->|]; [done|]. apply H3; lia.
Qed.

Lemma drain_spec now stats deadline fuel i k :
  drain_loop now stats deadline fuel i = Some k -> drained_after now stats deadline i k.
Proof.
  revert i. induction fuel as [|fuel IH]; intros i; [done|]. cbn [drain_loop].
  destruct (Z.ltb_spec (now i) deadline) as [Hlt|Hge].
  - destruct (stats i) as [m|e] eqn:E; [destruct (Z.eqb_spec (load_pending m) 0) as [Hz|Hz]|].
    + intros [= <-]. split; [lia| |lia|left; split; [lia|by exists m]].
      intros j Hj. by replace j with i by lia.
    + intros H. apply drained_later; [done| |by apply IH].
      intros (m' & Hm & H0). rewrite E in Hm. congruence.
    + intros H. apply drained_later; [done| |by apply IH]. intros (m' & Hm & H0). congruence.
  - intros [= <-]. split; [lia|lia|lia|by right].
Qed.

(** Enough rounds. *)
Lemma drain_stops now stats start wait m i :
  (forall i, start + Z.of_nat i * second <= now i) -> wait < Z.of_nat (m + i) * second ->
  exists k, drain_loop now stats (start + wait) (S m) i = Some k.
Proof.
  intros Hnow. revert i. induction m as [|m IH]; intros i Hi; cbn [drain_loop]; pose proof (Hnow i);
    destruct (Z.ltb_spec (now i) (start + wait)); [lia|by eauto| |by eauto].
  assert (Hn : wait < Z.of_nat (m + S i) * second) by (by replace (m + S i)%nat with (S m + i)%nat by lia).
  destruct (stats i) as [x|e]; [destruct (load_pending x =? 0); [by eauto|]|]; by apply IH.
Qed.

(** C34: after the submission the client ends: without a wait at once; else, since
    the ticker fires at least a second apart from the start, one poll per started
    second of [-wait] is enough, the loop ends right after the first answer with
    nothing queued, running or retrying, or when the deadline has passed (answers
    that are errors only cost a poll), and the report is that of the next answer. *)
Theorem drain_ends (f : Flags) (now : nat -> Z) (stats : nat -> res (gmap string Z)) (start : Z) (fuel : nat) :
  (forall i, start + Z.of_nat i * second <= now i) -> flag_wait f < Z.of_nat fuel * second ->
  if flag_wait f <=? 0 then wait_and_report f now stats start (S fuel) = Some None
  else exists k, drained_after now stats (start + flag_wait f) 0 k /\
    Z.of_nat k * second < flag_wait f + second /\
    wait_and_report f now stats start (S fuel) =
      Some (Some (match stats k with Ok m => Ok (final_report m) | Err err => Err err end)).
Proof.
  intros Hnow Hfuel. unfold wait_and_report. destruct (Z.leb_spec (flag_wait f) 0) as [|Hpos]; [done|].
  destruct (drain_stops now stats start (flag_wait f) fuel 0) as [k Hk]; [done|by rewrite Nat.add_0_r|].
  rewrite Hk. pose proof (drain_spec _ _ _ _ _ _ Hk) as Hs. exists k. split; [done|]. split; [|done].
  unfold second in *. destruct k as [|k]; [lia|].
  pose proof (da_time _ _ _ _ _ Hs k ltac:(lia)). specialize (Hnow k). lia.
Qed.

(** Two answers with work left, one lost, then none. *)
Definition four_polls (i : nat) : res (gmap string Z) :=
  match i with
  | O => Ok {["queued" := 3; "dead" := 1]}
  | 1%nat => Err (ErrText "connection refused")
  | 2%nat => Ok {["running" := 1]}
  | _ => Ok {["succeeded" := 3; "dead" := 1]}
  end.

Lemma drain_ends_witness :
  if flag_wait default_flags <=? 0
  then wait_and_report default_flags (fun i => Z.of_nat i * second) four_polls 0 32 = Some None
  else exists k, drained_after (fun i => Z.of_nat i * second) four_polls (0 + flag_wait default_flags) 0 k /\
    Z.of_nat k * second < flag_wait default_flags + second /\
    wait_and_report default_flags (fun i => Z.of_nat i * second) four_polls 0 32 =
      Some (Some (match four_polls k with Ok m => Ok (final_report m) | Err err => Err err end)).
Proof.
  apply (drain_ends default_flags (fun i => Z.of_nat i * second) four_polls 0 31).
  - intros i. lia.
  - reflexivity.
Defined.

Example four_polls_taken : drain_loop (fun i => Z.of_nat i * second) four_polls (30 * second) 32 0 = Some 4%nat.
Proof. vm_compute. reflexivity. Qed.

Example report_rate : final_report {["succeeded" := 3; "dead" := 1]} = MkReport 4 1 (dec_float 25 (-2)).
Proof. vm_compute. reflexivity. Qed.
