(* ===== verification/LoadtestWire.v ===== *)
(** * The load test against this API

    The client of [Loadtest.v] and the handlers of [Api.v] at the two ends of the
    wire: the task bodies the client posts are the requests the API decodes, and the
    statistics the API answers are the counts the client reports. *)

From S2P Require Import Prelude GoBase F64 GoString Json GoTime GoStd Redis RefRedis Task Db.
From S2P Require Import Effects Queue Abstract QueueSpec RefWorld Store StoreInv StoreThms.
From S2P Require Import LossWindows Api Router ApiTypes Boot Safety System Loadtest.

Open Scope Z_scope.
Open Scope taskq_scope.

#[local] Arguments String.append !_ _ / : simpl nomatch.

(** ** Decoding the statistics *)

(** The members of an object read into [old]; [null] leaves it alone. *)
Section Members.
Context {A : Type} (set : A -> string -> json -> res A).

Fixpoint set_members (old : A) (l : list (string * json)) : res A :=
  match l with
  | [] => Ok old
  | (k, v) :: l' => match set old (unquote k) v with Ok x => set_members x l' | Err e => Err e end
  end.

Definition decode_struct (old : A) (v : json) : res A :=
  match v with JNull => Ok old | JObj l => set_members old l | _ => Err unmarshal_error end.

End Members.

Definition set_count (m : gmap string Z) (k : string) (v : json) : res (gmap string Z) :=
  match decode_int 0 v with Ok x => Ok (<[k := x]> m) | Err e => Err e end.

(** A map field: [null] makes it nil. *)
Definition set_by_status (m : gmap string Z) (k : string) (v : json) : res (gmap string Z) :=
  if String.eqb (fold_name k) "BY_STATUS" then
    match v with JNull => Ok ∅ | _ => decode_struct set_count m v end
  else Ok m.

Definition set_tasks_field (m : gmap string Z) (k : string) (v : json) : res (gmap string Z) :=
  if String.eqb (fold_name k) "TASKS" then decode_struct set_by_status m v else Ok m.

(** [json.NewDecoder(resp.Body).Decode(&s)]: the first value of the body. *)
Definition decode_stats (s : string) : res (gmap string Z) :=
  match parse_value (fuel_for s) (skip_ws s) with
  | None => Err (ErrText "invalid character in JSON input")
  | Some (v, _) => decode_struct set_tasks_field ∅ v
  end.

(** The status and the body of an answer, or the error of the call; the status is
    not looked at. *)
Definition fetchStats (reply : res (Z * string)) : res (gmap string Z) :=
  match reply with Err err => Err err | Ok (_, body) => decode_stats body end.

(** What a response of [Api.v] is on the wire: [json.Encoder] ends with a newline. *)
Definition wire_reply (r : response) : Z * string :=
  (status r,
   match content r with
   | BJson (Some j) => print j +:+ String (byte_of 10) EmptyString
   | BText s => s
   | BJson None | BEmpty => EmptyString
   end).

(** ** Round trips *)

(** A value followed by a newline reads back. *)
Lemma parse_encoded j :
  wf_json j = true ->
  let s := print j +:+ String (byte_of 10) EmptyString in
  parse_value (fuel_for s) (skip_ws s) = Some (j, String (byte_of 10) EmptyString).
Proof.
  intros Hwf s. destruct (print_head j Hwf) as (c & t & Hp & Hc).
  assert (Hs : skip_ws s = s).
  { unfold s. rewrite Hp. cbn [String.append]. unfold value_char in Hc. apply skip_ws_nonspace. char_lia. }
  rewrite Hs. apply (reads_all j); [done| |done].
  unfold fuel_for, s. rewrite length_append. cbn [String.length]. lia.
Qed.

Lemma decode_encoded code j :
  wf_json j = true ->
  fetchStats (Ok (wire_reply (writeJSON code (Some j)))) = decode_struct set_tasks_field ∅ j.
Proof. intros H. unfold fetchStats, wire_reply, writeJSON, decode_stats. cbn [content]. by rewrite parse_encoded. Qed.

(** The counts of a map come back, whatever the order. *)
Lemma set_counts_all (l : list (string * Z)) (m : gmap string Z) :
  Forall (fun kv => valid_utf8 kv.1 = true /\ in_int64 kv.2 = true) l ->
  set_members set_count m (map (fun kv => (quote kv.1, num kv.2)) l) =
  Ok (foldl (fun m kv => <[kv.1 := kv.2]> m) m l).
Proof.
  intros Hl. revert m. induction Hl as [|[k v] l [Hk Hv] _ IH]; intros m; [done|].
  cbn [map set_members foldl fst snd] in *. unfold set_count, num. cbn [decode_int].
  by rewrite unquote_quote, coerce_valid, atoi_itoa, Hv by done.
Qed.

(** Evaluate the names of the members of the goal. *)
Ltac fold_names :=
  repeat match goal with
         | |- context [fold_name (unquote (String ?c ?k))] =>
             let x := eval vm_compute in (fold_name (unquote (String c k))) in
             change (fold_name (unquote (String c k))) with x
         end.

Definition printable_counts (m : gmap string Z) : Prop :=
  map_Forall (fun k v => valid_utf8 k = true /\ in_int64 v = true) m.

Lemma decode_map_json m :
  printable_counts m -> decode_struct set_count ∅ (map_json num m) = Ok m.
Proof.
  intros H. unfold map_json, decode_struct. set (l := merge_sort key_le (map_to_list m)).
  assert (Hl : l ≡ₚ map_to_list m) by apply merge_sort_Permutation.
  rewrite set_counts_all.
  - rewrite (rebuild m) by (done || apply map_disjoint_empty_l). by rewrite map_empty_union.
  - rewrite Hl. apply Forall_forall. intros [k v] Hin%elem_of_map_to_list. exact (H k v Hin).
Qed.

(** The client reads the counts by status out of everything the API answers. *)
Lemma decode_stats_json s :
  printable_counts (ByStatus (sr_Tasks s)) ->
  decode_struct set_tasks_field ∅ (stats_json s) = Ok (ByStatus (sr_Tasks s)).
Proof.
  intros H. unfold stats_json. cbn [decode_struct set_members]. unfold set_tasks_field. fold_names.
  cbn [String.eqb Ascii.eqb Bool.eqb decode_struct set_members]. unfold set_by_status. fold_names.
  cbn [String.eqb Ascii.eqb Bool.eqb].
  pose proof (decode_map_json _ H) as Hd. unfold map_json in *. by rewrite Hd.
Qed.

Lemma decode_error msg : decode_struct set_tasks_field ∅ (JObj [("error", str msg)]) = Ok ∅.
Proof. cbn [decode_struct set_members]. unfold set_tasks_field. fold_names. reflexivity. Qed.

(** ** The task bodies *)

(** C32: the body the client posts for an index is a request the API accepts as
    it was meant: its type (invalid UTF-8 replaced), its payload byte for byte, the
    priority of the index and the attempt limit. *)
Theorem load_body_read (f : Flags) (idx : Z) body p :
  posts_of f idx body -> payload_json (load_payload f) = Some p -> in_int64 (maxAtt f) = true ->
  exists pri, load_priority f idx = Some pri /\
    decode_request body = Ok (MkCreateTaskRequest (coerce (flag_type f)) (Some (print p)) pri (maxAtt f)).
Proof.
  intros (pri & Hpri & ->) Hp Hmax. exists pri. split; [done|].
  assert (Hi : in_int64 pri = true).
  { unfold load_priority in Hpri. cbv zeta in Hpri. destruct (_ =? 0); [done|].
    injection Hpri as <-. apply wrap64_in_int64. }
  unfold load_body. rewrite Hp. set (ms := req_members (flag_type f) p pri (maxAtt f)).
  assert (Hwf : forallb (fun kv => raw_ok kv.1 && wf_json kv.2) ms = true).
  { unfold ms, req_members. cbn [forallb fst snd]. rewrite !wf_num, (payload_json_wf _ _ Hp).
    cbn [wf_json]. by rewrite raw_ok_quote. }
  destruct (print_head (JObj ms) Hwf) as (c & t & Hpr & Hc).
  assert (Hs : skip_ws (print (JObj ms)) = print (JObj ms)).
  { rewrite Hpr. unfold value_char in Hc. apply skip_ws_nonspace. char_lia. }
  unfold decode_request. rewrite Hs.
  pose proof (reads_all (JObj ms) (fuel_for (print (JObj ms))) EmptyString Hwf) as Hr.
  rewrite string_app_nil_r in Hr. rewrite Hr by (done || (unfold fuel_for; lia)).
  cbn [String.length]. rewrite Nat.sub_0_r.
  replace (take_str (String.length (print (JObj ms))) (print (JObj ms))) with (print (JObj ms)).
  2:{ pose proof (take_str_app (print (JObj ms)) EmptyString) as Ht.
      rewrite string_app_nil_r in Ht. cbn [String.length] in Ht. by rewrite Nat.sub_0_r in Ht. }
  rewrite object_members_print by done. unfold ms, req_members.
  cbn [map fst snd assign_requests]. unfold zero_request, assign_request at 1 2 3 4. fold_names.
  cbn [String.eqb Ascii.eqb Bool.eqb decode_string decode_int].
  by rewrite unquote_quote, !atoi_itoa, Hi, Hmax.
Qed.

(** ** The statistics *)

Section Stats.
Context {U : Uuid} {R : Redis} {RL : RedisLaws R}.

Lemma statuses_printable s : s ∈ statuses -> valid_utf8 s = true.
Proof. unfold statuses. rewrite !elem_of_cons, elem_of_nil. naive_solver. Qed.

(** Rows of a status. *)
Definition rows_with (s : string) (d : db) : Z :=
  Z.of_nat (length (filter (fun r => row_status r = s) (map snd (map_to_list (tasks d))))).

Lemma status_counts_printable (d : db) :
  db_ok d -> Z.of_nat (size (tasks d)) < 2 ^ 63 ->
  printable_counts (count_by row_status (map snd (map_to_list (tasks d)))).
Proof.
  intros Hok Hsize k v Hv. split.
  - destruct (count_by_dom _ _ _ _ Hv) as (r & Hr & <-). apply statuses_printable.
    apply list_elem_of_fmap in Hr as ([id r'] & -> & Hin%elem_of_map_to_list).
    by destruct (rows_ok d Hok id r' Hin).
  - pose proof (count_by_lookup row_status (map snd (map_to_list (tasks d))) k) as Hl. rewrite Hv in Hl.
    cbn in Hl. subst v. pose proof (length_filter (fun r => row_status r = k) (map snd (map_to_list (tasks d)))) as Hf.
    rewrite length_map, length_map_to_list in Hf. unfold in_int64, min_int64, max_int64. lia.
Qed.

(** The total of the report is the sum of the counts. *)
Lemma report_total (m : gmap string Z) :
  map_Forall (fun _ v => 0 <= v) m -> msum m < 2 ^ 63 -> total (final_report m) = msum m.
Proof.
  intros Hm Hs. cbn [total final_report]. rewrite map_fold_foldr. unfold msum in *.
  assert (Hl : Forall (fun kv => 0 <= kv.2) (map_to_list m)).
  { apply Forall_forall. intros [k v] Hin%elem_of_map_to_list. by apply (Hm k). }
  clear Hm. revert Hs. induction Hl as [|[k v] l Hv Hl IH]; [done|]. cbn [map snd zsum foldr uncurry fst] in *.
  fold (zsum (map snd l)) in *. intros Hs.
  assert (H0 : 0 <= zsum (map snd l)).
  { clear -Hl. induction Hl as [|[k v] l Hv _ IH]; cbn [map zsum foldr snd] in *; [done|]. unfold zsum in IH. lia. }
  rewrite IH by lia. rewrite wrap64_id by (unfold in_int64, min_int64, max_int64; lia). lia.
Qed.

(** Distinct statuses count distinct rows. *)
Lemma pending_rows (l : list TaskRow) :
  (length (filter (fun r => row_status r = StatusQueued) l) +
   length (filter (fun r => row_status r = StatusRunning) l) +
   length (filter (fun r => row_status r = StatusRetrying) l) <= length l)%nat.
Proof.
  induction l as [|r l IH]; [done|]. rewrite !filter_cons.
  assert (StatusQueued <> StatusRunning /\ StatusQueued <> StatusRetrying /\ StatusRunning <> StatusRetrying)
    as (? & ? & ?) by done.
  repeat case_decide; cbn [length]; try lia; exfalso; congruence.
Qed.

(** C31: the numbers the client prints are those of the database: the API answers
    200, and the counts read from its answer are, for every status, the number of
    tasks that have it, so that the reported total is the number of tasks, the
    reported dead the number of dead tasks, and the wait ends exactly when no
    task is queued, running or retrying. *)
Theorem stats_read_back (o : env) (EO : EnvOk o) c clients w :
  quiet o -> good w -> db_ok (database w) -> Z.of_nat (size (tasks (database w))) < 2 ^ 63 ->
  exists n0, forall fuel, (n0 <= fuel)%nat ->
  exists r w' m, run o (getStats fuel c clients) w = (r, w') /\ status r = 200 /\
    fetchStats (Ok (wire_reply r)) = Ok m /\
    (forall s, count_of m s = rows_with s (database w)) /\
    total (final_report m) = Z.of_nat (size (tasks (database w))) /\
    dead (final_report m) = rows_with StatusDead (database w) /\
    load_pending m = rows_with StatusQueued (database w) + rows_with StatusRunning (database w) +
                     rows_with StatusRetrying (database w).
Proof.
  intros Hq Hg Hok Hsize. pose proof (status_counts_printable _ Hok Hsize) as Hpr.
  destruct (get_stats_run o EO c w Hq Hsize) as (st & w1 & H1 & Hd & Hr & Hs & _ & Ht & Hsum & _).
  set (rows := map snd (map_to_list (tasks (database w)))) in *.
  assert (Hlen : length rows = size (tasks (database w))).
  { unfold rows. by rewrite length_map, length_map_to_list. }
  assert (Hg1 : good w1) by (unfold good in *; by rewrite Hr).
  destruct (list_types_run o Hq c w1 Hg1) as (n0 & types & _ & _ & Hty). exists n0. intros fuel Hf.
  unfold getStats. rewrite run_bind, H1. cbn [fst snd]. rewrite run_bind, (Hty fuel Hf). cbn [fst snd].
  rewrite run_bind. destruct (run o (read_depths c types ∅) _) as [depths w2]. cbn [fst snd run].
  do 3 eexists. split; [reflexivity|]. split; [reflexivity|].
  rewrite decode_encoded by apply fits_stats. rewrite decode_stats_json by (cbn [sr_Tasks]; by rewrite Hs).
  cbn [sr_Tasks]. split; [reflexivity|]. rewrite Hs in *.
  assert (Hc : forall s, count_of (count_by row_status rows) s = rows_with s (database w))
    by (intros s; apply count_by_lookup).
  split; [exact Hc|]. split; [|split; [apply Hc|]].
  - rewrite report_total; [by rewrite Hsum| |by rewrite Hsum, Ht].
    intros k v Hv. apply count_by_pos in Hv. lia.
  - unfold load_pending. rewrite !Hc. unfold rows_with. fold rows. pose proof (pending_rows rows) as Hp.
    rewrite !wrap64_id; [done|unfold in_int64, min_int64, max_int64..]; rewrite ?wrap64_id;
      unfold in_int64, min_int64, max_int64; lia.
Qed.

(** C40: the client does not look at the status of the answer: when the statistics
    cannot be read the API answers 500 with an error, which the client takes for
    an empty map: it sees no task pending and stops waiting, or reports zero tasks. *)
Theorem stats_failure_read_as_drained (o : env) c clients fuel w st err w' :
  run o (GetStats c) w = ((st, Err err), w') ->
  exists r, run o (getStats fuel c clients) w = (r, w') /\ status r = 500 /\
    fetchStats (Ok (wire_reply r)) = Ok ∅ /\ load_pending ∅ = 0 /\
    final_report ∅ = MkReport 0 0 (F 0 0).
Proof.
  intros H. exists (writeError 500 (Error err)).
  split; [unfold getStats; by rewrite run_bind, H|]. split; [done|]. split; [|by vm_compute].
  unfold writeError. rewrite decode_encoded; [apply decode_error|].
  cbn [wf_json forallb fst snd]. unfold str. cbn [wf_json]. by rewrite raw_ok_quote.
Qed.

End Stats.

(** ** On the reference services *)

(** The thirteenth task of the default run. *)
Lemma load_body_read_witness :
  exists pri, load_priority default_flags 12 = Some pri /\
    decode_request (load_body default_flags 4) =
      Ok (MkCreateTaskRequest (coerce (flag_type default_flags))
            (Some (print (JObj [("fail_rate", JNum "0.05")]))) pri (maxAtt default_flags)).
Proof.
  apply (load_body_read default_flags 12).
  - exists 4. split; vm_compute; reflexivity.
  - vm_compute. reflexivity.
  - reflexivity.
Defined.

(** The rate reaches the handler. *)
Example rate_reaches_handler : load_payload default_flags = Some (print (JObj [("fail_rate", JNum "0.05")])).
Proof. vm_compute. reflexivity. Qed.

(** A database with a running task. *)
Lemma pool2_ok : good pool2.2 /\ db_ok (database pool2.2).
Proof.
  assert (H : rtc pool_step pool0 pool2) by (etransitivity; [exact pool1_reached|exact pool2_reached]).
  by destruct (pool_steps_ok _ _ (initial_ok _ pool0_initial) H) as [[_ [[H1 _] H2]] _].
Qed.

Lemma stats_read_back_witness :
  exists n0, forall fuel, (n0 <= fuel)%nat ->
  exists r w' m, run ref_env (getStats fuel CtxMain (Some 0)) pool2.2 = (r, w') /\ status r = 200 /\
    fetchStats (Ok (wire_reply r)) = Ok m /\
    (forall s, count_of m s = rows_with s (database pool2.2)) /\
    total (final_report m) = Z.of_nat (size (tasks (database pool2.2))) /\
    dead (final_report m) = rows_with StatusDead (database pool2.2) /\
    load_pending m = rows_with StatusQueued (database pool2.2) +
      rows_with StatusRunning (database pool2.2) + rows_with StatusRetrying (database pool2.2).
Proof.
  apply (stats_read_back ref_env ref_env_ok CtxMain (Some 0) pool2.2 ref_quiet).
  - exact (proj1 pool2_ok).
  - exact (proj2 pool2_ok).
  - vm_compute. reflexivity.
Defined.

(** The database refuses every call. *)
Definition lost_stats : (Stats * res unit) * world := run (shutdown_env 0) (GetStats CtxMain) ref_world.

Lemma stats_failure_read_as_drained_witness :
  exists r, run (shutdown_env 0) (getStats 5 CtxMain None) ref_world = (r, lost_stats.2) /\
    status r = 500 /\ fetchStats (Ok (wire_reply r)) = Ok ∅ /\ load_pending ∅ = 0 /\
    final_report ∅ = MkReport 0 0 (F 0 0).
Proof.
  apply (stats_failure_read_as_drained (shutdown_env 0) CtxMain None 5 ref_world (MkStats ∅ ∅ 0) ErrCanceled).
  reflexivity.
Defined.
